(** * Source-map utilities of the React Native debugger extension

    A shallow embedding of [src/utils/sourceMap.ts] (class [SourceMapUtil])
    together with the parts of the JavaScript and Node.js run-time library
    that the class calls: regular-expression matching and replacement,
    [path], [JSON] and [url].

    JavaScript strings are sequences of UTF-16 code units; they are modelled
    as lists of natural numbers.  Exceptions are modelled by the
    [completion] type. *)

From Stdlib Require Import List NArith ZArith Bool Lia String Ascii Arith.
From Stdlib Require Import SpecFloat Permutation.
Import ListNotations.

(* ================================================================== *)
(** ** JavaScript strings and completions *)

Module JS.

(** A code unit is a number below [2^16]; the type is [N]. *)
Abbreviation codeunit := N (only parsing).
Abbreviation jsstring := (list N) (only parsing).

(** [js "abc"] is the JavaScript string written with the same (Latin-1)
    characters. *)
Definition js (s : string) : jsstring :=
  List.map N_of_ascii (list_ascii_of_string s).

Definition cu (a : ascii) : codeunit := N_of_ascii a.

Fixpoint eqb (s t : jsstring) : bool :=
  match s, t with
  | [], [] => true
  | a :: s', b :: t' => N.eqb a b && eqb s' t'
  | _, _ => false
  end.

(** ECMAScript LineTerminator: LF, CR, LS, PS. *)
Definition isLineTerminator (c : codeunit) : bool :=
  (N.eqb c 10 || N.eqb c 13 || N.eqb c 8232 || N.eqb c 8233)%bool.

(** ECMAScript WhiteSpace: TAB, VT, FF, ZWNBSP and the Unicode
    space separators. *)
Definition isWhiteSpaceOnly (c : codeunit) : bool :=
  (N.eqb c 9 || N.eqb c 11 || N.eqb c 12 || N.eqb c 32 || N.eqb c 160
   || N.eqb c 5760 || (N.leb 8192 c && N.leb c 8202)
   || N.eqb c 8239 || N.eqb c 8287 || N.eqb c 12288 || N.eqb c 65279)%bool.

(** The class [\s] of regular expressions, also what [trim] strips. *)
Definition isSpace (c : codeunit) : bool :=
  (isWhiteSpaceOnly c || isLineTerminator c)%bool.

(** [s.startsWith(p)], returning what follows the prefix. *)
Fixpoint stripPrefix (p s : jsstring) : option jsstring :=
  match p with
  | [] => Some s
  | a :: p' =>
      match s with
      | b :: s' => if N.eqb a b then stripPrefix p' s' else None
      | [] => None
      end
  end.

Definition startsWith (s p : jsstring) : bool :=
  match stripPrefix p s with Some _ => true | None => false end.

(** Trimming at the end: drop the longest suffix of [\s] characters. *)
Fixpoint trimEnd (s : jsstring) : jsstring :=
  match s with
  | [] => []
  | c :: s' =>
      match trimEnd s' with
      | [] => if isSpace c then [] else [c]
      | t => c :: t
      end
  end.

Fixpoint trimStart (s : jsstring) : jsstring :=
  match s with
  | c :: s' => if isSpace c then trimStart s' else s
  | [] => []
  end.

Definition trim (s : jsstring) : jsstring := trimEnd (trimStart s).

(** Errors raised by the library functions that the class calls. *)
Inductive error := TypeError | SyntaxError | URIError.

(** The outcome of evaluating an expression or calling a function. *)
Inductive completion (A : Type) :=
| Normal (a : A)
| Throw (e : error).
Arguments Normal {A} a.
Arguments Throw {A} e.

Definition bind {A B} (c : completion A) (f : A -> completion B) : completion B :=
  match c with
  | Normal a => f a
  | Throw e => Throw e
  end.

(** [try { body } catch (exception) { handler }] where the handler ignores
    the exception. *)
Definition try_catch {A} (body : completion A) (handler : completion A)
  : completion A :=
  match body with
  | Normal a => Normal a
  | Throw _ => handler
  end.

(** A value that is a string, [null] or [undefined]. *)
Inductive strval :=
| Null
| Undefined
| Str (s : jsstring).

(** ToBoolean on such a value. *)
Definition truthy (v : strval) : bool :=
  match v with
  | Str (_ :: _) => true
  | _ => false
  end.

End JS.

Import JS.

Declare Scope js_scope.
Delimit Scope js_scope with js.
Notation "x <- c ;; k" := (JS.bind c (fun x => k))
  (at level 61, c at next level, right associativity) : js_scope.
Local Open Scope js_scope.

(* ================================================================== *)
(** ** Regular expressions

    A backtracking matcher in the continuation-passing style of the
    ECMAScript specification (the semantics of patterns, sec. 22.2.2),
    for the constructs that [SourceMapURLRegex] uses. *)

Module RegExp.

Inductive regex :=
| Empty
| Char (c : codeunit)
| CharClass (p : codeunit -> bool)
| Seq (r1 r2 : regex)
| Alt (r1 r2 : regex)
| Group (n : nat) (r : regex)                 (* the n-th parenthesis *)
| Repeat (greedy : bool) (min : nat) (r : regex)   (* r{min,} and r{min,}? *)
| EndAnchor (multiline : bool).               (* $ *)

(** A literal string is the sequence of its characters. *)
Fixpoint Lit (s : jsstring) : regex :=
  match s with
  | [] => Empty
  | c :: s' => Seq (Char c) (Lit s')
  end.

(** [.] matches everything but a line terminator (no [s] flag). *)
Definition Dot : regex := CharClass (fun c => negb (isLineTerminator c)).
(** [\s] *)
Definition Space : regex := CharClass isSpace.

(** The captures of a match, most recent first. *)
Definition captures := list (nat * jsstring).

Fixpoint capture (n : nat) (cs : captures) : option jsstring :=
  match cs with
  | [] => None
  | (i, s) :: cs' => if Nat.eqb i n then Some s else capture n cs'
  end.

(** A match state: the end index reached, the input from there on and the
    captures so far. *)
Record state := mkState {
  endIndex : nat;
  rest : jsstring;
  caps : captures
}.

Definition continuation := state -> option state.

Definition orelse (a : option state) (b : option state) : option state :=
  match a with
  | Some z => Some z
  | None => b
  end.

Definition matchChar (p : codeunit -> bool) (x : state) (k : continuation)
  : option state :=
  match rest x with
  | c :: t => if p c then k (mkState (S (endIndex x)) t (caps x)) else None
  | [] => None
  end.

(** RepeatMatcher for [m{min,}]: an iteration that matches the empty
    string once the minimum is reached is rejected, so every further
    iteration advances and the remaining length bounds their number;
    [fuel] is larger than that bound. *)
Fixpoint repeatMatcher (m : state -> continuation -> option state)
    (greedy : bool) (k : continuation) (fuel : nat) (min : nat) (x : state)
    {struct fuel} : option state :=
  match fuel with
  | O => None
  | S fuel' =>
      let again :=
        m x (fun y =>
          if (Nat.eqb min 0 && Nat.eqb (endIndex y) (endIndex x))%bool
          then None
          else repeatMatcher m greedy k fuel' (Nat.pred min) y) in
      if Nat.eqb min 0 then
        if greedy then orelse again (k x) else orelse (k x) again
      else again
  end.

Fixpoint matcher (r : regex) (x : state) (k : continuation) {struct r}
  : option state :=
  match r with
  | Empty => k x
  | Char c => matchChar (N.eqb c) x k
  | CharClass p => matchChar p x k
  | Seq r1 r2 => matcher r1 x (fun y => matcher r2 y k)
  | Alt r1 r2 => orelse (matcher r1 x k) (matcher r2 x k)
  | Group n r' =>
      matcher r' x (fun y =>
        k (mkState (endIndex y) (rest y)
             ((n, firstn (endIndex y - endIndex x) (rest x)) :: caps y)))
  | Repeat greedy min r' =>
      repeatMatcher (matcher r') greedy k
        (S (min + List.length (rest x))) min x
  | EndAnchor multiline =>
      match rest x with
      | [] => k x
      | c :: _ => if (multiline && isLineTerminator c)%bool then k x else None
      end
  end.

(** The result of [exec]: the array [match] with its [index]. *)
Record match_result := mkMatch {
  index : nat;
  matched : jsstring;       (* match[0] *)
  groups : captures         (* match[1], match[2], ... *)
}.

(** RegExpBuiltinExec for a pattern without the [g] and [y] flags: the
    first index, from 0 to the length of the input, at which the pattern
    matches. *)
Fixpoint exec_from (r : regex) (i : nat) (s : jsstring) : option match_result :=
  match matcher r (mkState i s []) (fun y => Some y) with
  | Some y => Some (mkMatch i (firstn (endIndex y - i) s) (caps y))
  | None =>
      match s with
      | [] => None
      | _ :: t => exec_from r (S i) t
      end
  end.

Definition exec (r : regex) (s : jsstring) : option match_result :=
  exec_from r 0 s.

(** [match[n]]: the capture, or [undefined] when the group took no part. *)
Definition group (n : nat) (mr : match_result) : strval :=
  match capture n (groups mr) with
  | Some s => Str s
  | None => Undefined
  end.

Definition isDigit (c : codeunit) : bool := (N.leb 48 c && N.leb c 57)%bool.
Definition digitValue (c : codeunit) : nat := N.to_nat (c - 48).

(** GetSubstitution (ECMAScript sec. 22.1.3.19.1) for a pattern with
    [ngroups] parentheses and no named groups: the replacement text for one
    match, with [$$], [$&], [$`], [$'], [$n] and [$nn] expanded. *)
Fixpoint getSubstitution (ngroups : nat) (mr : match_result)
    (before after : jsstring) (template : jsstring) : jsstring :=
  let ref (n : nat) (lit : jsstring) : jsstring :=
    if (Nat.leb 1 n && Nat.leb n ngroups)%bool then
      match capture n (groups mr) with Some s => s | None => [] end
    else lit in
  match template with
  | [] => []
  | c :: t =>
      if negb (N.eqb c 36) then c :: getSubstitution ngroups mr before after t
      else
        match t with
        | [] => [c]
        | d1 :: t' =>
            if N.eqb d1 36 then                       (* $$ *)
              d1 :: getSubstitution ngroups mr before after t'
            else if N.eqb d1 38 then                  (* $& *)
              matched mr ++ getSubstitution ngroups mr before after t'
            else if N.eqb d1 96 then                  (* $` *)
              before ++ getSubstitution ngroups mr before after t'
            else if N.eqb d1 39 then                  (* $' *)
              after ++ getSubstitution ngroups mr before after t'
            else if isDigit d1 then                   (* $n, $nn *)
              match t' with
              | d2 :: t'' =>
                  if (isDigit d2
                      && Nat.leb (10 * digitValue d1 + digitValue d2) ngroups)%bool
                  then ref (10 * digitValue d1 + digitValue d2) [c; d1; d2]
                         ++ getSubstitution ngroups mr before after t''
                  else ref (digitValue d1) [c; d1]
                         ++ getSubstitution ngroups mr before after t'
              | [] => ref (digitValue d1) [c; d1]
              end
            else c :: getSubstitution ngroups mr before after t
        end
  end.

(** [s.replace(r, replaceValue)] for a pattern without the [g] flag and a
    string [replaceValue]: the first match is replaced, and a string
    without a match is returned as it is. *)
Definition replace (ngroups : nat) (r : regex) (s : jsstring)
    (replaceValue : jsstring) : jsstring :=
  match exec r s with
  | None => s
  | Some mr =>
      let before := firstn (index mr) s in
      let after := skipn (index mr + List.length (matched mr)) s in
      before ++ getSubstitution ngroups mr before after replaceValue ++ after
  end.

End RegExp.

(* ================================================================== *)
(** ** The [path] module

    The POSIX functions follow Node's [lib/path.js], in its formulation
    over arrays of segments. *)

Module Path.

Definition slash : codeunit := 47%N.
Definition isSlash (c : codeunit) : bool := N.eqb c slash.

(** [s.split(sep)] for a separator of one character. *)
Fixpoint split (sep : codeunit) (s : jsstring) : list jsstring :=
  match s with
  | [] => [[]]
  | c :: s' =>
      if N.eqb c sep then [] :: split sep s'
      else
        match split sep s' with
        | seg :: segs => (c :: seg) :: segs
        | [] => [[c]]
        end
  end.

(** [parts.join("/")] *)
Fixpoint joinSlash (parts : list jsstring) : jsstring :=
  match parts with
  | [] => []
  | [p] => p
  | p :: ps => p ++ slash :: joinSlash ps
  end.

Definition dot : jsstring := js ".".
Definition dotdot : jsstring := js "..".

(** [normalizeArray(parts, allowAboveRoot)]: resolves [.] and [..]
    segments and drops empty ones.  [res] is the result so far, last
    segment first. *)
Fixpoint normalizeArrayFrom (allowAboveRoot : bool) (res : list jsstring)
    (parts : list jsstring) : list jsstring :=
  match parts with
  | [] => rev res
  | p :: parts' =>
      if (JS.eqb p [] || JS.eqb p dot)%bool then
        normalizeArrayFrom allowAboveRoot res parts'
      else if JS.eqb p dotdot then
        match res with
        | last :: res' =>
            if negb (JS.eqb last dotdot) then
              normalizeArrayFrom allowAboveRoot res' parts'
            else if allowAboveRoot then
              normalizeArrayFrom allowAboveRoot (dotdot :: res) parts'
            else normalizeArrayFrom allowAboveRoot res parts'
        | [] =>
            if allowAboveRoot then
              normalizeArrayFrom allowAboveRoot (dotdot :: res) parts'
            else normalizeArrayFrom allowAboveRoot res parts'
        end
      else normalizeArrayFrom allowAboveRoot (p :: res) parts'
  end.

Definition normalizeArray (parts : list jsstring) (allowAboveRoot : bool)
  : list jsstring :=
  normalizeArrayFrom allowAboveRoot [] parts.

Definition isAbsolute (p : jsstring) : bool :=
  match p with
  | c :: _ => isSlash c
  | [] => false
  end.

Definition endsWithSlash (p : jsstring) : bool :=
  match rev p with
  | c :: _ => isSlash c
  | [] => false
  end.

(** [path.posix.normalize] *)
Definition normalize (p : jsstring) : jsstring :=
  let abs := isAbsolute p in
  let trailingSlash := endsWithSlash p in
  let q := joinSlash (normalizeArray (split slash p) (negb abs)) in
  let q := match q with [] => if abs then [] else dot | _ => q end in
  let q := match q with [] => q | _ => if trailingSlash then q ++ [slash] else q end in
  if abs then slash :: q else q.

(** [path.posix.join(...args)]: the non-empty arguments are joined with
    a slash and the result is normalized. *)
Definition join (args : list jsstring) : jsstring :=
  normalize (joinSlash (filter (fun a => negb (JS.eqb a [])) args)).

(** [path.posix.resolve(p)] in a process whose working directory is
    [cwd] (an absolute path). *)
Definition resolve (cwd : jsstring) (p : jsstring) : jsstring :=
  let resolvedPath :=
    match p with
    | [] => cwd ++ [slash]
    | _ => if isAbsolute p then p ++ [slash]
           else cwd ++ [slash] ++ p ++ [slash]
    end in
  slash :: joinSlash (normalizeArray (split slash resolvedPath) false).

(** [trimArray]: drops the empty strings at both ends of an array. *)
Fixpoint dropEmpty (parts : list jsstring) : list jsstring :=
  match parts with
  | [] :: parts' => dropEmpty parts'
  | _ => parts
  end.

Definition trimArray (parts : list jsstring) : list jsstring :=
  rev (dropEmpty (rev (dropEmpty parts))).

(** The segments left once the longest common prefix is dropped. *)
Fixpoint dropCommon (fromParts toParts : list jsstring)
  : list jsstring * list jsstring :=
  match fromParts, toParts with
  | f :: fs, t :: ts =>
      if JS.eqb f t then dropCommon fs ts else (fromParts, toParts)
  | _, _ => (fromParts, toParts)
  end.

(** [path.posix.relative(from, to)] *)
Definition relative (cwd : jsstring) (from to : jsstring) : jsstring :=
  let fromParts := trimArray (split slash (tl (resolve cwd from))) in
  let toParts := trimArray (split slash (tl (resolve cwd to))) in
  let '(fromRest, toRest) := dropCommon fromParts toParts in
  joinSlash (List.map (fun _ => dotdot) fromRest ++ toRest).

Fixpoint dropWhile (p : codeunit -> bool) (s : jsstring) : jsstring :=
  match s with
  | c :: s' => if p c then dropWhile p s' else s
  | [] => []
  end.

Fixpoint takeWhile (p : codeunit -> bool) (s : jsstring) : jsstring :=
  match s with
  | c :: s' => if p c then c :: takeWhile p s' else []
  | [] => []
  end.

(** [path.posix.basename(p)]: the last segment of the path, trailing
    slashes ignored. *)
Definition basename (p : jsstring) : jsstring :=
  rev (takeWhile (fun c => negb (isSlash c)) (dropWhile isSlash (rev p))).

(** The module [path] of the host platform, as far as the class uses it.
    [path.posix.join] is the same on every platform. *)
Record PathModule := {
  sep : codeunit;                              (* path.sep *)
  path_relative : jsstring -> jsstring -> jsstring;
  path_basename : jsstring -> jsstring
}.

(** On a POSIX host [path] is [path.posix]; [path.relative] resolves its
    arguments against the working directory of the process. *)
Definition posix (cwd : jsstring) : PathModule :=
  {| sep := slash;
     path_relative := relative cwd;
     path_basename := basename |}.

End Path.

(* ================================================================== *)
(** ** The [url] module *)

Module Url.

Local Open Scope N_scope.

(** The object that [url.parse] returns.  A field is a string or [null]. *)
Record Url := mkUrl {
  protocol : strval;
  slashes : bool;
  auth : strval;
  host : strval;
  port : strval;
  hostname : strval;
  hash : strval;
  search : strval;
  query : strval;
  pathname : strval;
  path : strval;
  href : strval
}.

(** The functions of this module follow Node's [lib/url.js] (the parser of
    [url.parse], with [parseQueryString] and [slashesDenoteHost] left out,
    as in the calls of the class) and the ECMAScript definitions of
    [decodeURIComponent] and [encodeURIComponent].

    Lower-casing and the IDNA conversion of host names depend on Unicode
    tables; they are taken from a [Builtins] record that fixes them on
    ASCII strings only. *)

Definition isAscii (c : codeunit) : bool := N.ltb c 128.
Definition isUpper (c : codeunit) : bool := (N.leb 65 c && N.leb c 90)%bool.
Definition isLower (c : codeunit) : bool := (N.leb 97 c && N.leb c 122)%bool.
Definition isDigit (c : codeunit) : bool := (N.leb 48 c && N.leb c 57)%bool.
Definition asciiLower (c : codeunit) : codeunit :=
  if isUpper c then (c + 32)%N else c.

Record Builtins := {
  (** [String.prototype.toLowerCase] *)
  toLowerCase : jsstring -> jsstring;
  toLowerCase_ascii : forall s,
    forallb isAscii s = true -> toLowerCase s = List.map asciiLower s;
  (** [punycode.toASCII] *)
  toASCII : jsstring -> jsstring;
  toASCII_ascii : forall s, forallb isAscii s = true -> toASCII s = s
}.

(** *** Strings *)

(** [s.indexOf(c)] for the first character in a class. *)
Fixpoint indexWhere (p : codeunit -> bool) (s : jsstring) : option nat :=
  match s with
  | [] => None
  | c :: t =>
      if p c then Some 0%nat
      else match indexWhere p t with Some n => Some (S n) | None => None end
  end.

Definition indexOf (c : codeunit) (s : jsstring) : option nat :=
  indexWhere (N.eqb c) s.

(** [s.lastIndexOf(c)] *)
Fixpoint lastIndexOf (c : codeunit) (s : jsstring) : option nat :=
  match s with
  | [] => None
  | d :: t =>
      match lastIndexOf c t with
      | Some n => Some (S n)
      | None => if N.eqb c d then Some 0%nat else None
      end
  end.

Definition hasChar (c : codeunit) (s : jsstring) : bool :=
  existsb (N.eqb c) s.

Definition mem (c : codeunit) (set : jsstring) : bool := existsb (N.eqb c) set.

Definition strOr (v : strval) (d : jsstring) : jsstring :=
  match v with
  | Str (c :: s) => c :: s
  | _ => d
  end.

Definition nonEmpty (s : jsstring) : strval :=
  match s with [] => Null | _ => Str s end.

(** *** [decodeURIComponent] and [encodeURIComponent] *)

Definition hexValue (c : codeunit) : option N :=
  if isDigit c then Some (c - 48)%N
  else if (N.leb 65 c && N.leb c 70)%bool then Some (c - 55)%N
  else if (N.leb 97 c && N.leb c 102)%bool then Some (c - 87)%N
  else None.

(** [%XX] at the head of [s]: the octet and what follows. *)
Definition percentOctet (s : jsstring) : option (N * jsstring) :=
  match s with
  | c :: h :: l :: t =>
      if N.eqb c 37 then
        match hexValue h, hexValue l with
        | Some a, Some b => Some (16 * a + b, t)%N
        | _, _ => None
        end
      else None
  | _ => None
  end.

(** [n] continuation octets [%XX] of a UTF-8 sequence, accumulated into
    the code point [acc]. *)
Fixpoint continuationOctets (n : nat) (acc : N) (s : jsstring)
  : option (N * jsstring) :=
  match n with
  | O => Some (acc, s)
  | S n' =>
      match percentOctet s with
      | Some (b, t) =>
          if (N.leb 128 b && N.ltb b 192)%bool
          then continuationOctets n' (64 * acc + (b - 128))%N t
          else None
      | None => None
      end
  end.

(** The UTF-16 encoding of a code point. *)
Definition utf16 (cp : N) : jsstring :=
  if N.ltb cp 65536 then [cp]
  else [55296 + (cp - 65536) / 1024; 56320 + (cp - 65536) mod 1024]%N.

Fixpoint decodeFrom (fuel : nat) (s : jsstring) : completion jsstring :=
  match fuel with
  | O => Normal []
  | S fuel' =>
      match s with
      | [] => Normal []
      | c :: t =>
          if negb (N.eqb c 37) then
            r <- decodeFrom fuel' t ;; Normal (c :: r)
          else
            match percentOctet s with
            | None => Throw URIError
            | Some (b, t1) =>
                if N.ltb b 128 then
                  r <- decodeFrom fuel' t1 ;; Normal (b :: r)
                else
                  let seq :=
                    if (N.leb 194 b && N.ltb b 224)%bool
                    then continuationOctets 1 (b - 192) t1
                    else if (N.leb 224 b && N.ltb b 240)%bool
                    then continuationOctets 2 (b - 224) t1
                    else if (N.leb 240 b && N.ltb b 245)%bool
                    then continuationOctets 3 (b - 240) t1
                    else None in
                  match seq with
                  | None => Throw URIError
                  | Some (cp, t2) =>
                      (* shortest form, no surrogate, at most U+10FFFF *)
                      let valid :=
                        ((if N.ltb b 224 then N.leb 128 cp
                          else if N.ltb b 240 then N.leb 2048 cp
                          else N.leb 65536 cp)
                         && negb (N.leb 55296 cp && N.leb cp 57343)
                         && N.leb cp 1114111)%bool in
                      if valid then
                        r <- decodeFrom fuel' t2 ;; Normal (utf16 cp ++ r)
                      else Throw URIError
                  end
            end
      end
  end.

Definition decodeURIComponent (s : jsstring) : completion jsstring :=
  decodeFrom (List.length s) s.

Definition hexDigit (n : N) : codeunit :=
  if N.ltb n 10 then (48 + n)%N else (55 + n)%N.

Definition percentEncode (b : N) : jsstring :=
  [37%N; hexDigit (b / 16); hexDigit (b mod 16)].

Definition utf8 (cp : N) : list N :=
  if N.ltb cp 128 then [cp]
  else if N.ltb cp 2048 then [192 + cp / 64; 128 + cp mod 64]%N
  else if N.ltb cp 65536 then
    [224 + cp / 4096; 128 + (cp / 64) mod 64; 128 + cp mod 64]%N
  else
    [240 + cp / 262144; 128 + (cp / 4096) mod 64;
     128 + (cp / 64) mod 64; 128 + cp mod 64]%N.

(** uriUnescaped: letters, digits and [-_.!~*'()]. *)
Definition isUnescaped (c : codeunit) : bool :=
  (isUpper c || isLower c || isDigit c || mem c (js "-_.!~*'()"))%bool.

Fixpoint encodeURIComponent (s : jsstring) : completion jsstring :=
  match s with
  | [] => Normal []
  | c :: t =>
      if isUnescaped c then
        r <- encodeURIComponent t ;; Normal (c :: r)
      else if (N.leb 56320 c && N.leb c 57343)%bool then Throw URIError
      else if negb (N.leb 55296 c && N.leb c 56319)%bool then
        r <- encodeURIComponent t ;;
        Normal (List.concat (List.map percentEncode (utf8 c)) ++ r)
      else
        match t with
        | d :: t' =>
            if (N.leb 56320 d && N.leb d 57343)%bool then
              r <- encodeURIComponent t' ;;
              Normal (List.concat (List.map percentEncode
                        (utf8 ((c - 55296) * 1024 + (d - 56320) + 65536)%N))
                      ++ r)
            else Throw URIError
        | [] => Throw URIError
        end
  end.

(** *** The tables of [lib/url.js] *)

Definition hostEndingChars : jsstring := js "/?#".
(** [<], [>], the double quote, the back quote, space, CR, LF and TAB *)
Definition delims : jsstring := [60; 62; 34; 96; 32; 13; 10; 9]%N.
Definition unwise : jsstring := js "{}|\^`" ++ delims.
Definition autoEscape : jsstring := js "'" ++ unwise.
Definition nonHostChars : jsstring := js "%/?;#" ++ autoEscape.
Definition hostnameMaxLen : nat := 255%nat.

Definition isProtocol (names : list string) (p : strval) : bool :=
  match p with
  | Str s => existsb (fun n => (JS.eqb s (js n) || JS.eqb s (js n ++ js ":"))%bool) names
  | _ => false
  end.

Definition unsafeProtocol : strval -> bool := isProtocol ["javascript"%string].
Definition hostlessProtocol : strval -> bool := isProtocol ["javascript"%string].
Definition slashedProtocol : strval -> bool :=
  isProtocol ["http"; "https"; "ftp"; "gopher"; "file"]%string.

Definition optStr (o : option jsstring) : strval :=
  match o with Some s => Str s | None => Null end.

(** *** [Url.prototype.format] *)

(** [s.replace(/[?#]/g, encodeURIComponent)] *)
Definition escapePathname (s : jsstring) : jsstring :=
  List.concat (List.map (fun c =>
    if (N.eqb c 63 || N.eqb c 35)%bool then percentEncode c else [c]) s).

(** [s.replace('#', '%23')]: the first occurrence only. *)
Fixpoint escapeFirstHash (s : jsstring) : jsstring :=
  match s with
  | [] => []
  | c :: t => if N.eqb c 35 then percentEncode c ++ t else c :: escapeFirstHash t
  end.

(** [s.replace(/%3A/i, ':')]: the first occurrence only. *)
Fixpoint restoreFirstColon (s : jsstring) : jsstring :=
  match s with
  | [] => []
  | c :: t =>
      match t with
      | d :: e :: t' =>
          if (N.eqb c 37 && N.eqb d 51 && (N.eqb e 65 || N.eqb e 97))%bool
          then 58%N :: t'
          else c :: restoreFirstColon t
      | _ => c :: restoreFirstColon t
      end
  end.

Definition format (u : Url) : completion jsstring :=
  auth <-
    match auth u with
    | Str (c :: a) =>
        e <- encodeURIComponent (c :: a) ;;
        Normal (restoreFirstColon e ++ js "@")
    | _ => Normal []
    end ;;
  let protocol := strOr (protocol u) [] in
  let pathname := strOr (pathname u) [] in
  let hash := strOr (hash u) [] in
  let host : option jsstring :=
    if truthy (host u) then Some (auth ++ strOr (host u) [])
    else if truthy (hostname u) then
      let hn := strOr (hostname u) [] in
      Some (auth
            ++ (if hasChar 58 hn then js "[" ++ hn ++ js "]" else hn)
            ++ (if truthy (port u) then js ":" ++ strOr (port u) [] else []))
    else None in
  (* [query] is a string here, never an object *)
  let search := strOr (search u) [] in
  let protocol :=
    match rev protocol with
    | [] => protocol
    | c :: _ => if N.eqb c 58 then protocol else protocol ++ js ":"
    end in
  let slashed :=
    (slashes u
     || ((match protocol with [] => true | _ => slashedProtocol (Str protocol) end)
         && match host with Some _ => true | None => false end))%bool in
  let hostText :=
    if slashed then js "//" ++ match host with Some h => h | None => [] end
    else match host with Some h => h | None => [] end in
  let pathname :=
    if slashed then
      match pathname with
      | c :: _ => if N.eqb c 47 then pathname else 47%N :: pathname
      | [] => pathname
      end
    else pathname in
  let hash :=
    match hash with
    | c :: _ => if N.eqb c 35 then hash else 35%N :: hash
    | [] => hash
    end in
  let search :=
    match search with
    | c :: _ => if N.eqb c 63 then search else 63%N :: search
    | [] => search
    end in
  Normal (protocol ++ hostText ++ escapePathname pathname
          ++ escapeFirstHash search ++ hash).

(** *** [Url.prototype.parse] *)

Section Parse.

Variable B : Builtins.

(** Back slashes before the query string become forward slashes. *)
Definition backslashesToSlashes (url : jsstring) : jsstring :=
  let fix1 := List.map (fun c => if N.eqb c 92 then 47%N else c) in
  let splitter :=
    match indexOf 63 url, indexOf 35 url with
    | Some q, Some h => if Nat.ltb q h then 63%N else 35%N
    | _, _ => 35%N
    end in
  match indexOf splitter url with
  | Some n => fix1 (firstn n url) ++ skipn n url
  | None => fix1 url
  end.

(** [simplePathPattern]: one or two slashes that no third slash follows and
    then characters other than [?] and spaces (group 1); optionally [?]
    and characters other than spaces (group 2); the end of the input.
    The result is the two groups ([undefined] is the empty string here). *)
Definition simplePath (rest : jsstring) : option (jsstring * jsstring) :=
  let slashesOk :=
    match rest with
    | a :: b :: c :: _ =>
        (N.eqb a 47 && negb (N.eqb b 47 && N.eqb c 47))%bool
    | a :: _ => N.eqb a 47
    | [] => false
    end in
  if slashesOk then
    let p := Path.takeWhile (fun c => negb (N.eqb c 63 || isSpace c)) rest in
    let q := skipn (List.length p) rest in
    match q with
    | [] => Some (p, [])
    | c :: _ =>
        if (N.eqb c 63 && forallb (fun c => negb (isSpace c)) q)%bool
        then Some (p, q) else None
    end
  else None.

(** [protocolPattern = /^([a-z0-9.+-]+:)/i] *)
Definition isProtocolChar (c : codeunit) : bool :=
  (isLower c || isUpper c || isDigit c || mem c (js ".+-"))%bool.

Definition protocolPattern (rest : jsstring) : option jsstring :=
  let run := Path.takeWhile isProtocolChar rest in
  match run, skipn (List.length run) rest with
  | _ :: _, c :: _ => if N.eqb c 58 then Some (run ++ [c]) else None
  | _, _ => None
  end.

(** [/^\/\/[^@\/]+@[^@\/]+/] *)
Definition userAtHost (rest : jsstring) : bool :=
  let other c := negb (N.eqb c 64 || N.eqb c 47) in
  match rest with
  | a :: b :: t =>
      if (N.eqb a 47 && N.eqb b 47)%bool then
        match Path.takeWhile other t, skipn (List.length (Path.takeWhile other t)) t with
        | _ :: _, c :: d :: _ => (N.eqb c 64 && other d)%bool
        | _, _ => false
        end
      else false
  | _ => false
  end.

(** [portPattern = /:[0-9]*$/]: the index of the colon. *)
Definition portPattern (host : jsstring) : option nat :=
  match lastIndexOf 58 host with
  | Some n => if forallb isDigit (skipn (S n) host) then Some n else None
  | None => None
  end.

(** [hostnamePartPattern = /^[+a-z0-9A-Z_-]{0,63}$/] *)
Definition isHostnameChar (c : codeunit) : bool :=
  (isLower c || isUpper c || isDigit c || mem c (js "+_-"))%bool.

Definition hostnamePartPattern (part : jsstring) : bool :=
  (forallb isHostnameChar part && Nat.leb (List.length part) 63%nat)%bool.

(** [hostnamePartStart]: at most 63 host name characters (group 1) and
    then the rest of the part (group 2), which [.] matches unless it holds
    a line terminator. *)
Definition hostnamePartStart (part : jsstring) : option (jsstring * jsstring) :=
  if existsb isLineTerminator part then None
  else
    let n := Nat.min 63%nat (List.length (Path.takeWhile isHostnameChar part)) in
    Some (firstn n part, skipn n part).

Definition dotChar : codeunit := 46%N.

Fixpoint joinDot (parts : list jsstring) : jsstring :=
  match parts with
  | [] => []
  | [p] => p
  | p :: ps => p ++ dotChar :: joinDot ps
  end.

(** The validation loop over the parts of the host name: at the first
    part that is not a host name part, the valid parts and what is put
    back in front of the rest of the URL. *)
Fixpoint validateParts (validParts : list jsstring) (hostparts : list jsstring)
  : option (list jsstring * list jsstring) :=
  match hostparts with
  | [] => None
  | part :: more =>
      let newpart := List.map (fun c => if N.ltb 127 c then 120%N else c) part in
      if match part with [] => true | _ => false end
         || hostnamePartPattern part || hostnamePartPattern newpart
      then validateParts (validParts ++ [part]) more
      else
        match hostnamePartStart part with
        | Some (valid, notHost) => Some (validParts ++ [valid], notHost :: more)
        | None => Some (validParts, more)
        end
  end%bool.

(** What the parser finds in the part of the URL that holds the host. *)
Record hostPart := mkHostPart {
  hp_auth : strval;
  hp_host : strval;
  hp_port : strval;
  hp_hostname : strval;
  hp_rest : jsstring
}.

Definition noHost (rest : jsstring) : hostPart :=
  mkHostPart Null Null Null Null rest.

Definition parseHostPart (rest : jsstring) : completion hostPart :=
  (* the first instance of /, ? or # ends the host *)
  let hostEnd := indexWhere (fun c => mem c hostEndingChars) rest in
  let atSign :=
    match hostEnd with
    | None => lastIndexOf 64 rest
    | Some e => lastIndexOf 64 (firstn (S e) rest)
    end in
  authRest <-
    match atSign with
    | Some a =>
        d <- decodeURIComponent (firstn a rest) ;;
        Normal (Str d, skipn (S a) rest)
    | None => Normal (Null, rest)
    end ;;
  let '(auth, rest) := authRest in
  (* the host is the remaining to the left of the first non-host char *)
  let hostEnd :=
    match indexWhere (fun c => mem c nonHostChars) rest with
    | Some e => e
    | None => List.length rest
    end in
  let host := firstn hostEnd rest in
  let rest := skipn hostEnd rest in
  (* parseHost: pull out the port *)
  let port :=
    match portPattern host with
    | Some n => nonEmpty (skipn (S n) host)
    | None => Null
    end in
  let hostname :=
    match portPattern host with
    | Some n => firstn n host
    | None => host
    end in
  let ipv6Hostname :=
    match hostname, rev hostname with
    | a :: _, b :: _ => (N.eqb a 91 && N.eqb b 93)%bool
    | _, _ => false
    end in
  let '(hostname, rest) :=
    if ipv6Hostname then (hostname, rest)
    else
      match validateParts [] (Path.split dotChar hostname) with
      | Some (validParts, notHost) =>
          (joinDot validParts,
           match notHost with
           | [] => rest
           | _ => 47%N :: joinDot notHost ++ rest
           end)
      | None => (hostname, rest)
      end in
  let hostname :=
    if Nat.ltb hostnameMaxLen (List.length hostname) then []
    else toLowerCase B hostname in
  let hostname := if ipv6Hostname then hostname else toASCII B hostname in
  let p := match port with Str p => js ":" ++ p | _ => [] end in
  let host := hostname ++ p in
  (* the brackets of an IPv6 address stay in [host] only *)
  let '(hostname, rest) :=
    if ipv6Hostname then
      (firstn (List.length hostname - 2)%nat (skipn 1%nat hostname),
       match rest with
       | c :: _ => if N.eqb c 47 then rest else 47%N :: rest
       | [] => [47%N]
       end)
    else (hostname, rest) in
  Normal (mkHostPart auth (Str host) port (Str hostname) rest).

Definition parse (url : jsstring) : completion Url :=
  let url := backslashesToSlashes url in
  let rest := trim url in
  match (if hasChar 35 url then None else simplePath rest) with
  | Some (pathname, search) =>
      Normal (mkUrl Null false Null Null Null Null Null
                (nonEmpty search)
                (match search with [] => Null | _ :: q => Str q end)
                (Str pathname) (Str rest) (Str rest))
  | None =>
      let proto := optStr (protocolPattern rest) in
      let lowerProto :=
        match proto with Str p => Str (toLowerCase B p) | _ => Null end in
      let rest :=
        match proto with Str p => skipn (List.length p) rest | _ => rest end in
      (* user@server is always interpreted as a hostname *)
      let slashes :=
        ((truthy proto || userAtHost rest) && startsWith rest (js "//"))%bool in
      let hasSlashes := (slashes && negb (hostlessProtocol proto))%bool in
      let rest := if hasSlashes then skipn 2%nat rest else rest in
      hp <-
        (if (negb (hostlessProtocol proto)
             && (slashes || (truthy proto && negb (slashedProtocol proto))))%bool
         then parseHostPart rest
         else Normal (noHost rest)) ;;
      let rest := hp_rest hp in
      (* any autoEscape character gets escaped *)
      let rest :=
        if unsafeProtocol lowerProto then rest
        else List.concat (List.map (fun c =>
               if mem c autoEscape then percentEncode c else [c]) rest) in
      (* chop off from the tail first *)
      let hash :=
        match indexOf 35 rest with
        | Some n => Str (skipn n rest)
        | None => Null
        end in
      let rest :=
        match indexOf 35 rest with Some n => firstn n rest | None => rest end in
      let search :=
        match indexOf 63 rest with
        | Some n => Str (skipn n rest)
        | None => Null
        end in
      let query :=
        match indexOf 63 rest with
        | Some n => Str (skipn (S n) rest)
        | None => Null
        end in
      let rest :=
        match indexOf 63 rest with Some n => firstn n rest | None => rest end in
      let pathname := nonEmpty rest in
      let pathname :=
        if (slashedProtocol lowerProto && truthy (hp_hostname hp)
            && negb (truthy pathname))%bool
        then Str (js "/") else pathname in
      let path :=
        if (truthy pathname || truthy search)%bool
        then Str (strOr pathname [] ++ strOr search [])
        else Null in
      let u := mkUrl lowerProto hasSlashes (hp_auth hp) (hp_host hp) (hp_port hp)
                 (hp_hostname hp) hash search query pathname path Null in
      (* finally, reconstruct the href based on what has been validated *)
      href <- format u ;;
      Normal (mkUrl lowerProto hasSlashes (hp_auth hp) (hp_host hp) (hp_port hp)
                (hp_hostname hp) hash search query pathname path (Str href))
  end.

End Parse.

(** The module [url], as far as the class uses it. *)
Record UrlModule := {
  url_parse : jsstring -> completion Url;
  url_format : Url -> completion jsstring
}.

Definition node (B : Builtins) : UrlModule :=
  {| url_parse := parse B; url_format := format |}.


End Url.

(* ================================================================== *)
(** ** [JSON]

    [JSON.parse] and [JSON.stringify] as ECMAScript defines them
    (sec. 25.5), without a reviver, a replacer or indentation.  Numbers
    are IEEE 754 doubles, given by the [spec_float] of the standard
    library. *)

Module Json.

Local Open Scope N_scope.

#[local] Unset Elimination Schemes.
Inductive value :=
| JNull
| JBool (b : bool)
| JNumber (x : spec_float)
| JString (s : jsstring)
| JArray (elements : list value)
| JObject (properties : list (jsstring * value)).
#[local] Set Elimination Schemes.

(** *** Objects: properties in the order of their creation *)

Definition properties := list (jsstring * value).

Fixpoint get (key : jsstring) (ps : properties) : option value :=
  match ps with
  | [] => None
  | (k, v) :: ps' => if JS.eqb k key then Some v else get key ps'
  end.

(** [o[key] = v]: an existing property keeps its place, a new one comes
    last. *)
Fixpoint set (key : jsstring) (v : value) (ps : properties) : properties :=
  match ps with
  | [] => [(key, v)]
  | (k, w) :: ps' =>
      if JS.eqb k key then (k, v) :: ps' else (k, w) :: set key v ps'
  end.

(** [delete o[key]] *)
Fixpoint delete (key : jsstring) (ps : properties) : properties :=
  match ps with
  | [] => []
  | (k, w) :: ps' =>
      if JS.eqb k key then delete key ps' else (k, w) :: delete key ps'
  end.

(** *** Numbers *)

Definition prec : Z := 53.
Definition emax : Z := 1024.

(** The double nearest to [d * 10^e] (ties to even), with the sign [neg]. *)
Definition doubleOfDecimal (neg : bool) (d : positive) (e : Z) : spec_float :=
  if (0 <=? e)%Z then
    binary_round prec emax neg (d * Z.to_pos (10 ^ e))%positive 0
  else
    let '(q, e', l) :=
      SFdiv_core_binary prec emax (Zpos d) 0 (10 ^ (- e))%Z 0 in
    binary_round_aux prec emax neg q e' l.

Definition digitsValue (ds : jsstring) : Z :=
  fold_left (fun acc c => (10 * acc + Z.of_N (c - 48))%Z) ds 0%Z.

(** The value of a number literal: sign, digits of the integer part,
    digits of the fraction, exponent. *)
Definition numberValue (neg : bool) (int frac : jsstring) (exp : Z) : spec_float :=
  match digitsValue (int ++ frac) with
  | Zpos d => doubleOfDecimal neg d (exp - Z.of_nat (List.length frac))
  | _ => S754_zero neg
  end.

Fixpoint digitsOfPos (fuel : nat) (n : Z) (acc : jsstring) : jsstring :=
  match fuel with
  | O => acc
  | S fuel' =>
      if (n <? 10)%Z then (48 + Z.to_N n) :: acc
      else digitsOfPos fuel' (n / 10)%Z ((48 + Z.to_N (n mod 10)%Z) :: acc)
  end.

(** The decimal digits of a natural number. *)
Definition decimal (n : Z) : jsstring :=
  digitsOfPos (S (Z.to_nat (Z.log2 n))) n [].

(** [x = a / b] is below [10^n]. *)
Definition below (a b : Z) (n : Z) : bool :=
  if (0 <=? n)%Z then (a <? b * 10 ^ n)%Z else (a * 10 ^ (- n) <? b)%Z.

(** The least [n' >= n] with [x < 10^n'], for [x = a / b]. *)
Fixpoint decadeFrom (fuel : nat) (a b : Z) (n : Z) : Z :=
  match fuel with
  | O => n
  | S fuel' => if below a b n then n else decadeFrom fuel' a b (n + 1)%Z
  end.

(** [x / 10^p] as a fraction, for [x = a / b]. *)
Definition scale (a b : Z) (p : Z) : Z * Z :=
  if (0 <=? p)%Z then (a, b * 10 ^ p)%Z else (a * 10 ^ (- p), b)%Z.

(** The nearest integer to [a / (b * 10^p)]. *)
Definition scaled (a b : Z) (p : Z) : Z :=
  let '(num, den) := scale a b p in
  let q := (num / den)%Z in
  if (2 * (num mod den) <? den)%Z then q else (q + 1)%Z.

Definition sameDouble (x y : spec_float) : bool :=
  match x, y with
  | S754_finite s m e, S754_finite s' m' e' =>
      (Bool.eqb s s' && Pos.eqb m m' && Z.eqb e e')%bool
  | _, _ => false
  end.

(** [s * 10^p] is the double [m * 2^e]: no double is nearer to it. *)
Definition denotes (s p : Z) (m : positive) (e : Z) : bool :=
  match s with
  | Zpos sp => sameDouble (doubleOfDecimal false sp p) (S754_finite false m e)
  | _ => false
  end.

(** The integer [s] such that [s * 10^(n-k)] is the double [x = a / b]
    and is as close to [x] as possible, if there is one; the even one of
    two that are as close.  When an integer is such, so is the integer
    next to [x / 10^(n-k)] on the same side. *)
Definition candidate (k : Z) (m : positive) (e : Z) (a b : Z) (n : Z) : option Z :=
  let '(num, den) := scale a b (n - k) in
  let lo := (num / den)%Z in
  let r := (num mod den)%Z in
  let hi := if (r =? 0)%Z then lo else (lo + 1)%Z in
  match denotes lo (n - k) m e, denotes hi (n - k) m e with
  | true, true =>
      if (2 * r <? den)%Z then Some lo
      else if (den <? 2 * r)%Z then Some hi
      else if Z.even lo then Some lo else Some hi
  | true, false => Some lo
  | false, true => Some hi
  | false, false => None
  end.

(** The digits [s] (with [k] digits, [k] as small as possible) and the
    exponent [n] such that [s * 10^(n-k)] is the double [m * 2^e].  The
    lengths [k], [k + 1], ... are tried in turn, [fuel] of them (seventeen
    digits denote a double); past them the nearest integer is taken. *)
Fixpoint shortest (fuel : nat) (k : Z) (m : positive) (e : Z) (a b : Z) (n : Z)
  : Z * Z :=
  match fuel with
  | O => (scaled a b (n - k), n)
  | S fuel' =>
      match candidate k m e a b n with
      | Some s => if (s =? 10 ^ k)%Z then (10 ^ (k - 1), n + 1)%Z else (s, n)
      | None => shortest fuel' (k + 1)%Z m e a b n
      end
  end.

Definition zeros (n : Z) : jsstring := List.repeat 48 (Z.to_nat n).

(** The double [m * 2^e] as a fraction. *)
Definition fraction (m : positive) (e : Z) : Z * Z :=
  if (0 <=? e)%Z then (Zpos m * 2 ^ e, 1)%Z else (Zpos m, 2 ^ (- e))%Z.

(** The digits and the exponent of Number::toString for the double
    [m * 2^e]: the search for the decade starts at a power of ten that is
    not above the double. *)
Definition digits (m : positive) (e : Z) : Z * Z :=
  let '(a, b) := fraction m e in
  let n0 := decadeFrom (Z.to_nat (Z.abs e + Z.log2 (Zpos m) + 2)) a b
              (if (0 <=? e)%Z then 1 else e + 1)%Z in
  shortest 17 1 m e a b n0.

(** The text of the digits [ds] with the exponent [n]. *)
Definition layout (ds : jsstring) (n : Z) : jsstring :=
  let k := Z.of_nat (List.length ds) in
  if ((k <=? n) && (n <=? 21))%Z%bool then ds ++ zeros (n - k)
  else if ((0 <? n) && (n <=? 21))%Z%bool then
    firstn (Z.to_nat n) ds ++ js "." ++ skipn (Z.to_nat n) ds
  else if ((-6 <? n) && (n <=? 0))%Z%bool then
    js "0." ++ zeros (- n) ++ ds
  else
    let exponent :=
      js "e" ++ (if (0 <=? n - 1)%Z then js "+" else js "-")
      ++ decimal (Z.abs (n - 1)) in
    match ds with
    | [d] => d :: exponent
    | d :: more => d :: js "." ++ more ++ exponent
    | [] => exponent
    end.

(** Number::toString for a positive finite double. *)
Definition positiveToString (m : positive) (e : Z) : jsstring :=
  let '(s, n) := digits m e in layout (decimal s) n.

(** Number::toString *)
Definition numberToString (x : spec_float) : jsstring :=
  match x with
  | S754_zero _ => js "0"
  | S754_nan => js "NaN"
  | S754_infinity s => (if s then js "-" else []) ++ js "Infinity"
  | S754_finite s m e => (if s then js "-" else []) ++ positiveToString m e
  end.

(** *** [JSON.stringify] *)

Definition hex4 (c : codeunit) : jsstring :=
  List.map (fun d => if N.ltb d 10 then 48 + d else 87 + d)
    [c / 4096; (c / 256) mod 16; (c / 16) mod 16; c mod 16].

Definition isHighSurrogate (c : codeunit) : bool := (N.leb 55296 c && N.leb c 56319)%bool.
Definition isLowSurrogate (c : codeunit) : bool := (N.leb 56320 c && N.leb c 57343)%bool.

Fixpoint quoteBody (s : jsstring) : jsstring :=
  match s with
  | [] => []
  | c :: t =>
      if N.eqb c 8 then js "\b" ++ quoteBody t
      else if N.eqb c 9 then js "\t" ++ quoteBody t
      else if N.eqb c 10 then js "\n" ++ quoteBody t
      else if N.eqb c 12 then js "\f" ++ quoteBody t
      else if N.eqb c 13 then js "\r" ++ quoteBody t
      else if N.eqb c 34 then [92; 34] ++ quoteBody t
      else if N.eqb c 92 then [92; 92] ++ quoteBody t
      else if N.ltb c 32 then js "\u" ++ hex4 c ++ quoteBody t
      else if isHighSurrogate c then
        match t with
        | d :: t' =>
            if isLowSurrogate d then c :: d :: quoteBody t'
            else js "\u" ++ hex4 c ++ quoteBody t
        | [] => js "\u" ++ hex4 c
        end
      else if isLowSurrogate c then js "\u" ++ hex4 c ++ quoteBody t
      else c :: quoteBody t
  end.

(** QuoteJSONString *)
Definition quote (s : jsstring) : jsstring := 34 :: quoteBody s ++ [34].

(** A canonical array index: [0], or digits without a leading zero, below
    [2^32 - 1]. *)
Definition arrayIndex (k : jsstring) : option Z :=
  match k with
  | [] => None
  | c :: t =>
      if (forallb RegExp.isDigit k
          && (negb (N.eqb c 48) || match t with [] => true | _ => false end)
          && Nat.leb (List.length k) 10)%bool
      then if (digitsValue k <? 4294967295)%Z then Some (digitsValue k) else None
      else None
  end.

(** Insertion of a property among those with an array index, in ascending
    order. *)
Fixpoint insertIndexed {A : Type} (i : Z) (p : jsstring * A)
    (ps : list (Z * (jsstring * A))) : list (Z * (jsstring * A)) :=
  match ps with
  | [] => [(i, p)]
  | (j, q) :: ps' =>
      if (i <? j)%Z then (i, p) :: ps else (j, q) :: insertIndexed i p ps'
  end.

(** The own properties in the order of enumeration: array indices in
    ascending order first, then the other keys in the order of creation. *)
Definition enumerate {A : Type} (ps : list (jsstring * A)) : list (jsstring * A) :=
  let indexed :=
    fold_left (fun acc p =>
      match arrayIndex (fst p) with
      | Some i => insertIndexed i p acc
      | None => acc
      end) ps [] in
  List.map snd indexed
  ++ filter (fun p => match arrayIndex (fst p) with Some _ => false | None => true end) ps.

Fixpoint joinComma (parts : list jsstring) : jsstring :=
  match parts with
  | [] => []
  | [p] => p
  | p :: ps => p ++ 44 :: joinComma ps
  end.

(** SerializeJSONProperty.  The values of an object are serialized in
    place and then enumerated. *)
Fixpoint stringify (v : value) : jsstring :=
  match v with
  | JNull => js "null"
  | JBool true => js "true"
  | JBool false => js "false"
  | JNumber x =>
      match x with
      | S754_finite _ _ _ | S754_zero _ => numberToString x
      | _ => js "null"
      end
  | JString s => quote s
  | JArray vs => js "[" ++ joinComma (List.map stringify vs) ++ js "]"
  | JObject ps =>
      js "{"
      ++ joinComma
           (List.map (fun p => quote (fst p) ++ js ":" ++ snd p)
              (enumerate
                 ((fix serialized (ps : properties) : list (jsstring * jsstring) :=
                     match ps with
                     | [] => []
                     | (k, w) :: ps' => (k, stringify w) :: serialized ps'
                     end) ps)))
      ++ js "}"
  end.

(** *** [JSON.parse] *)

Definition isJsonSpace (c : codeunit) : bool :=
  (N.eqb c 9 || N.eqb c 10 || N.eqb c 13 || N.eqb c 32)%bool.

Fixpoint skipSpace (s : jsstring) : jsstring :=
  match s with
  | c :: t => if isJsonSpace c then skipSpace t else s
  | [] => []
  end.

(** The characters of a string literal after the opening quote, up to the
    closing one. *)
Fixpoint parseString (s : jsstring) : option (jsstring * jsstring) :=
  let cons c r :=
    match r with
    | Some (str, rest) => Some (c :: str, rest)
    | None => None
    end in
  match s with
  | [] => None
  | c :: t =>
      if N.eqb c 34 then Some ([], t)
      else if N.ltb c 32 then None
      else if negb (N.eqb c 92) then cons c (parseString t)
      else
        match t with
        | [] => None
        | e :: t1 =>
            if (N.eqb e 34 || N.eqb e 92 || N.eqb e 47)%bool then cons e (parseString t1)
            else if N.eqb e 98 then cons 8 (parseString t1)
            else if N.eqb e 102 then cons 12 (parseString t1)
            else if N.eqb e 110 then cons 10 (parseString t1)
            else if N.eqb e 114 then cons 13 (parseString t1)
            else if N.eqb e 116 then cons 9 (parseString t1)
            else if N.eqb e 117 then
              match t1 with
              | h1 :: h2 :: h3 :: h4 :: t2 =>
                  match Url.hexValue h1, Url.hexValue h2,
                        Url.hexValue h3, Url.hexValue h4 with
                  | Some a, Some b, Some c, Some d =>
                      cons (4096 * a + 256 * b + 16 * c + d) (parseString t2)
                  | _, _, _, _ => None
                  end
              | _ => None
              end
            else None
        end
  end.

Definition digitsPrefix (s : jsstring) : jsstring :=
  Path.takeWhile RegExp.isDigit s.

(** A number literal: an optional minus sign; [0] or digits that do not
    start with [0]; optionally a point and digits; optionally [e] or [E],
    a sign and digits. *)
Definition parseNumber (s : jsstring) : option (value * jsstring) :=
  let neg := match s with c :: _ => N.eqb c 45 | [] => false end in
  let s := if neg then tl s else s in
  let int :=
    match s with
    | c :: _ => if N.eqb c 48 then [c] else digitsPrefix s
    | [] => []
    end in
  match int with
  | [] => None
  | _ =>
      let s := skipn (List.length int) s in
      let frac :=
        match s with
        | c :: t => if N.eqb c 46 then Some (digitsPrefix t) else None
        | [] => None
        end in
      match frac with
      | Some [] => None
      | _ =>
          let fracDigits := match frac with Some f => f | None => [] end in
          let s :=
            match frac with
            | Some f => skipn (S (List.length f)) s
            | None => s
            end in
          match s with
          | c :: t =>
              if (N.eqb c 101 || N.eqb c 69)%bool then
                let minus := match t with d :: _ => N.eqb d 45 | [] => false end in
                let signed :=
                  match t with
                  | d :: _ => (N.eqb d 45 || N.eqb d 43)%bool
                  | [] => false
                  end in
                let t := if signed then tl t else t in
                match digitsPrefix t with
                | [] => None
                | ds =>
                    let e := digitsValue ds in
                    Some (JNumber (numberValue neg int fracDigits
                                     (if minus then (- e)%Z else e)),
                          skipn (List.length ds) t)
                end
              else Some (JNumber (numberValue neg int fracDigits 0), s)
          | [] => Some (JNumber (numberValue neg int fracDigits 0), s)
          end
      end
  end.

Inductive parsed (A : Type) :=
| Parsed (a : A) (rest : jsstring)
| Invalid
| OutOfFuel.
Arguments Parsed {A} a rest.
Arguments Invalid {A}.
Arguments OutOfFuel {A}.

Definition ofOption {A : Type} (o : option (A * jsstring)) : parsed A :=
  match o with
  | Some (a, rest) => Parsed a rest
  | None => Invalid
  end.

(** A member of an object: a string literal, a colon and a value read by
    [parseValue]. *)
Definition parseMember (parseValue : jsstring -> parsed value) (s : jsstring)
  : parsed (jsstring * value) :=
  match s with
  | q :: t =>
      if N.eqb q 34 then
        match parseString t with
        | Some (key, rest) =>
            match skipSpace rest with
            | c :: rest' =>
                if N.eqb c 58 then
                  match parseValue (skipSpace rest') with
                  | Parsed v rest'' => Parsed (key, v) (skipSpace rest'')
                  | Invalid => Invalid
                  | OutOfFuel => OutOfFuel
                  end
                else Invalid
            | [] => Invalid
            end
        | None => Invalid
        end
      else Invalid
  | [] => Invalid
  end.

(** The elements of an array after the first: [s] starts at a comma or at
    the closing bracket. *)
Fixpoint parseElements (parseValue : jsstring -> parsed value) (fuel : nat)
    (acc : list value) (s : jsstring) : parsed value :=
  match fuel with
  | O => OutOfFuel
  | S fuel' =>
      match s with
      | c :: t =>
          if N.eqb c 93 then Parsed (JArray (rev acc)) t
          else if N.eqb c 44 then
            match parseValue (skipSpace t) with
            | Parsed v rest => parseElements parseValue fuel' (v :: acc) (skipSpace rest)
            | Invalid => Invalid
            | OutOfFuel => OutOfFuel
            end
          else Invalid
      | [] => Invalid
      end
  end.

(** The members of an object after the first: [s] starts at a comma or at
    the closing brace. *)
Fixpoint parseMembers (parseValue : jsstring -> parsed value) (fuel : nat)
    (acc : properties) (s : jsstring) : parsed value :=
  match fuel with
  | O => OutOfFuel
  | S fuel' =>
      match s with
      | c :: t =>
          if N.eqb c 125 then Parsed (JObject acc) t
          else if N.eqb c 44 then
            match parseMember parseValue (skipSpace t) with
            | Parsed (k, v) rest => parseMembers parseValue fuel' (set k v acc) rest
            | Invalid => Invalid
            | OutOfFuel => OutOfFuel
            end
          else Invalid
      | [] => Invalid
      end
  end.

(** A JSON value at the head of [s] (which does not start with a space). *)
Fixpoint parseValue (fuel : nat) (s : jsstring) : parsed value :=
  match fuel with
  | O => OutOfFuel
  | S fuel' =>
      match s with
      | [] => Invalid
      | c :: t =>
          if N.eqb c 123 then                          (* { *)
            match skipSpace t with
            | d :: t' =>
                if N.eqb d 125 then Parsed (JObject []) t'
                else
                  match parseMember (parseValue fuel') (d :: t') with
                  | Parsed (k, v) rest =>
                      parseMembers (parseValue fuel') fuel' [(k, v)] rest
                  | Invalid => Invalid
                  | OutOfFuel => OutOfFuel
                  end
            | [] => Invalid
            end
          else if N.eqb c 91 then                      (* [ *)
            match skipSpace t with
            | d :: t' =>
                if N.eqb d 93 then Parsed (JArray []) t'
                else
                  match parseValue fuel' (d :: t') with
                  | Parsed v rest =>
                      parseElements (parseValue fuel') fuel' [v] (skipSpace rest)
                  | Invalid => Invalid
                  | OutOfFuel => OutOfFuel
                  end
            | [] => Invalid
            end
          else if N.eqb c 34 then
            match parseString t with
            | Some (str, rest) => Parsed (JString str) rest
            | None => Invalid
            end
          else
            match stripPrefix (js "true") s, stripPrefix (js "false") s,
                  stripPrefix (js "null") s with
            | Some rest, _, _ => Parsed (JBool true) rest
            | _, Some rest, _ => Parsed (JBool false) rest
            | _, _, Some rest => Parsed JNull rest
            | _, _, _ => ofOption (parseNumber s)
            end
      end
  end.

(** [JSON.parse(text)] *)
Definition parse (text : jsstring) : completion value :=
  match parseValue (S (List.length text)) (skipSpace text) with
  | Parsed v rest =>
      match skipSpace rest with
      | [] => Normal v
      | _ => Throw SyntaxError
      end
  | _ => Throw SyntaxError
  end.

End Json.


(* ================================================================== *)
(** ** The class [SourceMapUtil] *)

Module SourceMapUtil.

Import RegExp.

(** [/\/\/(#|@) sourceMappingURL=(.+?)\s*$/m] *)
Definition SourceMapURLRegex : regex :=
  Seq (Lit (js "//"))
   (Seq (Group 1 (Alt (Char (cu "#")) (Char (cu "@"))))
    (Seq (Lit (js " sourceMappingURL="))
     (Seq (Group 2 (Repeat false 1 Dot))
      (Seq (Repeat true 0 Space) (EndAnchor true))))).

(** [path.relative], [path.basename] and the like raise a [TypeError] when
    the path is not a string. *)
Definition assertPath (v : strval) : completion jsstring :=
  match v with
  | Str s => Normal s
  | _ => Throw TypeError
  end.

(** [path.relative] on an element of a parsed array. *)
Definition assertString (v : Json.value) : completion jsstring :=
  match v with
  | Json.JString s => Normal s
  | _ => Throw TypeError
  end.

(** The property access [v.key], for a key that the prototypes of
    arrays, strings, numbers and booleans do not define; [None] is
    [undefined]. *)
Definition member (v : Json.value) (key : jsstring)
  : completion (option Json.value) :=
  match v with
  | Json.JNull => Throw TypeError
  | Json.JObject ps => Normal (Json.get key ps)
  | _ => Normal None
  end.

(** [a.map(f)]: only an array has a method [map]; calling what is not a
    function raises a [TypeError]. *)
Fixpoint mapElements (f : Json.value -> completion jsstring)
    (elements : list Json.value) : completion (list Json.value) :=
  match elements with
  | [] => Normal []
  | e :: es =>
      s <- f e ;;
      r <- mapElements f es ;;
      Normal (Json.JString s :: r)
  end.

Definition arrayMap (a : option Json.value)
    (f : Json.value -> completion jsstring) : completion Json.value :=
  match a with
  | Some (Json.JArray elements) =>
      r <- mapElements f elements ;; Normal (Json.JArray r)
  | _ => Throw TypeError
  end.

(** [o.key = v] and [delete o.key] on the object that [sourceMap] is once
    [sourceMap.sources] has been mapped. *)
Definition assign (o : Json.value) (key : jsstring) (v : Json.value)
  : completion Json.value :=
  match o with
  | Json.JObject ps => Normal (Json.JObject (Json.set key v ps))
  | _ => Throw TypeError
  end.

Definition deleteProperty (o : Json.value) (key : jsstring)
  : completion Json.value :=
  match o with
  | Json.JObject ps => Normal (Json.JObject (Json.delete key ps))
  | _ => Throw TypeError
  end.

Definition withProtocolAndHost (u : Url.Url) (protocol host : strval) : Url.Url :=
  Url.mkUrl protocol (Url.slashes u) (Url.auth u) host (Url.port u)
    (Url.hostname u) (Url.hash u) (Url.search u) (Url.query u)
    (Url.pathname u) (Url.path u) (Url.href u).

Section WithModules.

(** [import url = require("url")] and [import path = require("path")] *)
Variable url : Url.UrlModule.
Variable path : Path.PathModule.

(** Parses the body of a script searching for a source map URL.
    Returns the first match if found, null otherwise. *)
Definition getSourceMapRelativeUrl (body : jsstring) : strval :=
  match exec SourceMapURLRegex body with
  | Some m => group 2 m
  | None => Null
  end.

(** Given a script body and URL, this method parses the body and finds the
    corresponding source map URL.  If the source map URL is not found in
    the body in the expected form, null is returned. *)
Definition getSourceMapURL (scriptUrl : Url.Url) (scriptBody : jsstring)
  : completion (option Url.Url) :=
  let result : option Url.Url := None in
  let sourceMappingRelativeUrl := getSourceMapRelativeUrl scriptBody in
  if truthy sourceMappingRelativeUrl then
    sourceMappingUrl <- Url.url_parse url (Url.strOr sourceMappingRelativeUrl []) ;;
    let sourceMappingUrl :=
      withProtocolAndHost sourceMappingUrl
        (Url.protocol scriptUrl) (Url.host scriptUrl) in
    (* parse() repopulates all the properties of the URL *)
    href <- Url.url_format url sourceMappingUrl ;;
    result <- Url.url_parse url href ;;
    Normal (Some result)
  else Normal result.

(** Visual Studio Code source mapping requires Unix style path
    separators.  This method replaces all back-slash characters in a given
    string with forward-slash ones. *)
Definition makeUnixStylePath (p : jsstring) : jsstring :=
  let pathArgs := Path.split (Path.sep path) p in
  Path.join pathArgs.

(** Given an absolute source path, this method does two things:
    1. It changes the path from absolute to be relative to the
       sourcesRootPath parameter.
    2. It changes the path separators to Unix style. *)
Definition updateSourceMapPath (sourcePath : Json.value)
    (sourcesRootPath : jsstring) : completion jsstring :=
  sourcePath <- assertString sourcePath ;;
  let relativeSourcePath := Path.path_relative path sourcesRootPath sourcePath in
  Normal (makeUnixStylePath relativeSourcePath).

(** Updates the contents of a source map file to be VS Code friendly:
    - makes source paths unix style and relative to the sources root path
    - updates the url of the script file
    - deletes the script content from the source map *)
Definition updateSourceMapFile (sourceMapBody scriptPath sourcesRootPath : jsstring)
  : completion jsstring :=
  try_catch
    (sourceMap <- Json.parse sourceMapBody ;;
     sources <- member sourceMap (js "sources") ;;
     sources <- arrayMap sources (fun sourcePath =>
                  updateSourceMapPath sourcePath sourcesRootPath) ;;
     sourceMap <- assign sourceMap (js "sources") sources ;;
     sourceMap <- deleteProperty sourceMap (js "sourcesContent") ;;
     sourceMap <- assign sourceMap (js "sourceRoot") (Json.JString []) ;;
     sourceMap <- assign sourceMap (js "file") (Json.JString scriptPath) ;;
     Normal (Json.stringify sourceMap))
    (Normal sourceMapBody).

(** Updates source map URLs in the script body. *)
Definition updateScriptPaths (scriptBody : jsstring)
    (sourceMappingUrl : Url.Url) : completion jsstring :=
  base <- assertPath (Url.pathname sourceMappingUrl) ;;
  Normal (replace 2 SourceMapURLRegex scriptBody
            (js "//# sourceMappingURL=" ++ Path.path_basename path base)).

End WithModules.

End SourceMapUtil.

(* ================================================================== *)
(** ** Vocabulary of the specification

    The reference comment described directly on the text of a script,
    without the regular-expression matcher. *)

Import RegExp SourceMapUtil.

Definition isMarker (c : codeunit) : bool := (N.eqb c 35 || N.eqb c 64)%bool.

Definition commentOpener (s : jsstring) : option (codeunit * jsstring) :=
  match stripPrefix (js "//") s with
  | Some (m :: s2) =>
      if isMarker m then
        match stripPrefix (js " sourceMappingURL=") s2 with
        | Some s3 => Some (m, s3)
        | None => None
        end
      else None
  | _ => None
  end.

Definition isReferenceComment (s : jsstring) : bool :=
  match commentOpener s with
  | Some (_, c :: _) => negb (isLineTerminator c)
  | _ => false
  end.

Definition atLineEnd (s : jsstring) : bool :=
  match s with
  | [] => true
  | c :: _ => isLineTerminator c
  end.

(** What [\s*$] consumes at [s]. *)
Fixpoint spacesToLineEnd (s : jsstring) : option nat :=
  match s with
  | [] => Some 0
  | c :: t =>
      if isSpace c then
        match spacesToLineEnd t with
        | Some n => Some (S n)
        | None => if isLineTerminator c then Some 0 else None
        end
      else None
  end.

(** What [.*?] consumes at [s] when followed by [\s*$], with what the latter consumes. *)
Fixpoint lazyValue (s : jsstring) : option (nat * nat) :=
  match spacesToLineEnd s with
  | Some w => Some (0, w)
  | None =>
      match s with
      | c :: t =>
          if negb (isLineTerminator c) then
            match lazyValue t with
            | Some (n, w) => Some (S n, w)
            | None => None
            end
          else None
      | [] => None
      end
  end.

(** The match of [SourceMapURLRegex] at index [i], where the input from [i] on is [s]. *)
Definition matchAt (i : nat) (s : jsstring) : option state :=
  match commentOpener s with
  | Some (m, c :: t) =>
      if negb (isLineTerminator c) then
        match lazyValue t with
        | Some (n, w) =>
            Some (mkState (i + 21 + S n + w) (skipn (n + w) t)
                    [(2, firstn (S n) (c :: t)); (1, [m])])
        | None => None
        end
      else None
  | _ => None
  end.

Definition tailR : regex := Seq (Repeat true 0 Space) (EndAnchor true).
Definition valueR : regex := Seq (Group 2 (Repeat false 1 Dot)) tailR.
Definition openerR : regex := Seq (Lit (js " sourceMappingURL=")) valueR.

Definition notLineTerminator (c : codeunit) : Prop := isLineTerminator c = false.
Definition space (c : codeunit) : Prop := isSpace c = true.

(** The value that the pattern captures on a line [line] (what follows the
    equals sign up to the end of the line). *)
Definition referenceValue (line : jsstring) : jsstring :=
  match trimEnd line with
  | [] => firstn 1 line
  | v => v
  end.


(** A marker [//#] or [//@] at the head of [s]. *)
Definition startsWithMarker (s : jsstring) : bool :=
  (startsWith s (js "//#") || startsWith s (js "//@"))%bool.

Definition notDollar (c : codeunit) : Prop := c <> 36%N.

(** Line feed. *)
Definition nl : jsstring := [10%N].

(** Builtins that are lower-casing and the identity on ASCII strings; they
    are the ECMAScript ones on the ASCII strings of the examples. *)
Definition asciiBuiltins : Url.Builtins :=
  {| Url.toLowerCase := List.map Url.asciiLower;
     Url.toLowerCase_ascii := fun s _ => eq_refl;
     Url.toASCII := fun s => s;
     Url.toASCII_ascii := fun s _ => eq_refl |}.

Definition nodeUrl : Url.UrlModule := Url.node asciiBuiltins.

(** A URL object with the given [pathname] and nothing else. *)
Definition urlWithPathname (p : strval) : Url.Url :=
  Url.mkUrl Null false Null Null Null Null Null Null Null p Null Null.

(** [http://localhost:8081/index.ios.bundle?platform=ios&dev=true], parsed. *)
Definition bundleUrl : Url.Url :=
  Url.mkUrl (Str (js "http:")) true Null (Str (js "localhost:8081"))
    (Str (js "8081")) (Str (js "localhost")) Null
    (Str (js "?platform=ios&dev=true")) (Str (js "platform=ios&dev=true"))
    (Str (js "/index.ios.bundle"))
    (Str (js "/index.ios.bundle?platform=ios&dev=true"))
    (Str (js "http://localhost:8081/index.ios.bundle?platform=ios&dev=true")).


(** The strings of an array of strings. *)
Fixpoint strings (elements : list Json.value) : option (list jsstring) :=
  match elements with
  | [] => Some []
  | Json.JString s :: es =>
      match strings es with
      | Some r => Some (s :: r)
      | None => None
      end
  | _ => None
  end.

(** A text parses as a source-map document when it is the JSON text of an
    object whose [sources] is an array of strings: the properties of the
    object and the source paths. *)
Definition sourceMapDocument (text : jsstring)
  : option (Json.properties * list jsstring) :=
  match Json.parse text with
  | Normal (Json.JObject ps) =>
      match Json.get (js "sources") ps with
      | Some (Json.JArray es) =>
          match strings es with
          | Some srcs => Some (ps, srcs)
          | None => None
          end
      | _ => None
      end
  | _ => None
  end.

(** The keys that the normalizer governs. *)
Definition governed (key : jsstring) : bool :=
  (JS.eqb key (js "sources") || JS.eqb key (js "sourcesContent")
   || JS.eqb key (js "sourceRoot") || JS.eqb key (js "file"))%bool.

(** The path that replaces a source path. *)
Definition normalizedSource (path : Path.PathModule) (root source : jsstring)
  : jsstring :=
  makeUnixStylePath path (Path.path_relative path root source).

(** JSON texts of the examples are written with an apostrophe for the
    double quote. *)
Definition json (s : string) : jsstring :=
  List.map (fun c => if N.eqb c 39 then 34%N else c) (js s).

(** The members of the text of an object. *)
Definition members (ps : Json.properties) : list jsstring :=
  List.map (fun p => Json.quote (fst p) ++ js ":" ++ snd p)
    (Json.enumerate
       ((fix serialized (ps : Json.properties) : list (jsstring * jsstring) :=
           match ps with
           | [] => []
           | (k, w) :: ps' => (k, Json.stringify w) :: serialized ps'
           end) ps)).

(** The document that the normalizer serializes. *)
Definition normalized (path : Path.PathModule) (ps : Json.properties) (srcs : list jsstring)
    (scriptPath root : jsstring) : Json.properties :=
  Json.set (js "file") (Json.JString scriptPath)
    (Json.set (js "sourceRoot") (Json.JString [])
       (Json.delete (js "sourcesContent")
          (Json.set (js "sources")
             (Json.JArray
                (List.map (fun s => Json.JString (normalizedSource path root s)) srcs))
             ps))).

(** A source map as a packager writes it. *)
Definition exampleMap : jsstring :=
  json "{'version':3,'sources':['/proj/src/app/index.js','/other/lib.js'],'names':['a'],'mappings':'AAAA','sourcesContent':['x','y'],'sourceRoot':'/proj','x_extra':{'k':[1,2.5]}}".

(** A segment of a normalized path: not empty, not [.] nor [..], without a slash. *)
Definition segment (p : jsstring) : Prop :=
  JS.eqb p [] = false /\ JS.eqb p Path.dot = false /\ JS.eqb p Path.dotdot = false
  /\ forallb (fun c => negb (Path.isSlash c)) p = true.

Definition slashFree (p : jsstring) : Prop :=
  forallb (fun c => negb (Path.isSlash c)) p = true.

(** The segments of [path.resolve(p)] in the working directory [cwd]. *)
Definition resolvedParts (cwd p : jsstring) : list jsstring :=
  Path.normalizeArray
    (Path.split Path.slash
       match p with
       | [] => cwd ++ [Path.slash]
       | _ => if Path.isAbsolute p then p ++ [Path.slash] else cwd ++ [Path.slash] ++ p ++ [Path.slash]
       end) false.


(** ** Reference values and script locations that resolution preserves *)

(** A character of a reference value that [url.parse] leaves as it is:
    no white space, none of the characters that it escapes, no [#]. *)
Definition plainChar (c : codeunit) : bool :=
  negb (isSpace c || Url.mem c Url.autoEscape || N.eqb c 35%N).

Definition pathChar (c : codeunit) : bool := (plainChar c && negb (N.eqb c 63%N))%bool.

(** A path that starts with one slash, of plain characters. *)
Definition absolutePathname (p : jsstring) : bool :=
  match p with
  | a :: t => (N.eqb a 47%N && negb (startsWith t (js "/")) && forallb pathChar t)%bool
  | [] => false
  end.

(** Nothing, or [?] and plain characters. *)
Definition plainSearch (s : jsstring) : bool :=
  match s with
  | [] => true
  | a :: q => (N.eqb a 63%N && forallb plainChar q)%bool
  end.

Definition hostChar (c : codeunit) : bool :=
  (Url.isLower c || Url.isDigit c || N.eqb c 43%N || N.eqb c 95%N || N.eqb c 45%N)%bool.

(** A lower-case host name of valid parts. *)
Definition plainHostname (hn : jsstring) : bool :=
  (negb (JS.eqb hn [])
   && forallb (fun c => hostChar c || N.eqb c 46%N) hn
   && forallb Url.hostnamePartPattern (Path.split Url.dotChar hn)
   && Nat.leb (List.length hn) Url.hostnameMaxLen)%bool.

Definition webProtocols : list jsstring :=
  [js "http:"; js "https:"; js "ftp:"; js "gopher:"; js "file:"].

(** [hostname] or [hostname:port] *)
Definition hostText (hostname port : jsstring) : jsstring :=
  hostname ++ match port with [] => [] | _ => js ":" ++ port end.

(** A character of a host name, a dot or a colon. *)
Definition hostOrColon (c : codeunit) : bool :=
  (hostChar c || N.eqb c 46%N || N.eqb c 58%N)%bool.

(** [file:///bundle.js], parsed. *)
Definition fileUrl : Url.Url :=
  Url.mkUrl (Str (js "file:")) true Null (Str []) Null (Str []) Null Null Null
    (Str (js "/bundle.js")) (Str (js "/bundle.js")) (Str (js "file:///bundle.js")).

(** ** Readers of JSON values, for the termination of [JSON.parse] *)

(** A reader of values that leaves a suffix of its input. *)
Definition shrinking (pv : jsstring -> Json.parsed Json.value) : Prop :=
  forall (u : jsstring) (v : Json.value) (rest : jsstring),
    pv u = Json.Parsed v rest -> List.length rest <= List.length u.

(** A reader of values that has fuel enough for inputs shorter than [n]. *)
Definition fuelled (n : nat) (pv : jsstring -> Json.parsed Json.value) : Prop :=
  forall u : jsstring, List.length u < n -> pv u <> Json.OutOfFuel.

(** [pv2] gives the results of [pv1] where [pv1] has fuel enough. *)
Definition extends (pv1 pv2 : jsstring -> Json.parsed Json.value) : Prop :=
  forall u : jsstring, pv1 u <> Json.OutOfFuel -> pv2 u = pv1 u.

(** ** Vocabulary of the further properties *)

(** [s] starts with characters that satisfy the predicates [ps], in
    their order. *)
Fixpoint matchesAll (ps : list (codeunit -> bool)) (s : jsstring) : bool :=
  match ps with
  | [] => true
  | p :: ps' =>
      match s with
      | c :: s' => p c && matchesAll ps' s'
      | [] => false
      end
  end.

(** The characters at which a reference comment starts. *)
Definition commentPattern : list (codeunit -> bool) :=
  List.map N.eqb (js "//") ++ [isMarker]
  ++ List.map N.eqb (js " sourceMappingURL=")
  ++ [fun c => negb (isLineTerminator c)].

(** [parts.join(sep)] for a separator of one character. *)
Fixpoint joinWith (sep : codeunit) (parts : list jsstring) : jsstring :=
  match parts with
  | [] => []
  | [p] => p
  | p :: ps => p ++ sep :: joinWith sep ps
  end.

(** The new source path in terms of segments: [..] for every segment of
    the root below the common directory, then the segments of the source
    below it. *)
Definition relativeSegments (F T : list jsstring) : jsstring :=
  match List.repeat Path.dotdot (List.length F) ++ T with
  | [] => Path.dot
  | E => Path.joinSlash E
  end.

(** The first segments of two paths differ, or one of the paths has no
    segment. *)
Definition diverge (F T : list jsstring) : Prop :=
  match F, T with
  | f :: _, t :: _ => f <> t
  | _, _ => True
  end.

(** A relative path of plain characters: it does not start with a slash
    and holds no colon. *)
Definition relativePathname (p : jsstring) : bool :=
  match p with
  | a :: _ =>
      (negb (N.eqb a 47%N) && forallb pathChar p
       && forallb (fun c => negb (N.eqb c 58%N)) p)%bool
  | [] => false
  end.

(** The keys of an object, in the order of their creation. *)
Definition keys (ps : Json.properties) : list jsstring := List.map fst ps.

(** The text of a member of an object. *)
Definition memberText (p : jsstring * Json.value) : jsstring :=
  Json.quote (fst p) ++ js ":" ++ Json.stringify (snd p).

(** ** The value that a serialized value reads back as *)

(** The number that [JSON.parse] reads from the text that
    [JSON.stringify] writes for the number [x]: the double nearest to the
    decimal that the digits of Number::toString denote; [null] for an
    infinity and for NaN, which are written [null]; [0] for a zero of
    either sign. *)
Definition rereadNumber (x : spec_float) : Json.value :=
  match x with
  | S754_zero _ => Json.JNumber (S754_zero false)
  | S754_finite neg m e =>
      let '(s, n) := Json.digits m e in
      Json.JNumber
        (Json.doubleOfDecimal neg (Z.to_pos s)
           (n - Z.of_nat (List.length (Json.decimal s))))
  | _ => Json.JNull
  end.

(** The object that [JSON.parse] builds from members, in their order. *)
Definition build (ms : Json.properties) : Json.properties :=
  fold_left (fun acc p => Json.set (fst p) (snd p) acc) ms [].

(** The value that [JSON.parse] reads from the text that [JSON.stringify]
    writes for [v]. *)
Fixpoint reread (v : Json.value) : Json.value :=
  match v with
  | Json.JNumber x => rereadNumber x
  | Json.JArray vs => Json.JArray (List.map reread vs)
  | Json.JObject ps =>
      Json.JObject
        (build (Json.enumerate
                  (List.map (fun p => let '(k, w) := p in (k, reread w)) ps)))
  | _ => v
  end.

Definition rereadMember (p : jsstring * Json.value) : jsstring * Json.value :=
  let '(k, w) := p in (k, reread w).

(** No two of the keys are equal. *)
Fixpoint distinct (ks : list jsstring) : bool :=
  match ks with
  | [] => true
  | k :: ks' => (negb (existsb (JS.eqb k) ks') && distinct ks')%bool
  end.

(** A key that is not an array index. *)
Definition plainKey (k : jsstring) : bool :=
  match Json.arrayIndex k with Some _ => false | None => true end.

(** A number that the digits of Number::toString denote: a positive zero,
    or a finite number that is the double nearest to the decimal written
    for it. *)
Definition exactNumber (x : spec_float) : bool :=
  match x with
  | S754_zero neg => negb neg
  | S754_finite neg m e =>
      let '(s, n) := Json.digits m e in
      Json.sameDouble
        (Json.doubleOfDecimal neg (Z.to_pos s)
           (n - Z.of_nat (List.length (Json.decimal s))))
        x
  | _ => false
  end.

(** A value built from strings, booleans, [null], numbers that the digits
    of Number::toString denote, arrays, and objects of distinct keys that
    are not array indices. *)
Fixpoint exact (v : Json.value) : bool :=
  match v with
  | Json.JNumber x => exactNumber x
  | Json.JArray vs => forallb exact vs
  | Json.JObject ps =>
      (forallb (fun p => let '(k, w) := p in (plainKey k && exact w)%bool) ps
       && distinct (List.map fst ps))%bool
  | _ => true
  end.

(** [rel] is the path from the directory [root] to [source]: [..] for
    every segment of the root below the directory that the two have in
    common, then the segments of the source below that directory. *)
Definition relativeTo (cwd root source rel : jsstring) : Prop :=
  exists C F T : list jsstring,
    resolvedParts cwd root = C ++ F /\ resolvedParts cwd source = C ++ T
    /\ diverge F T /\ rel = relativeSegments F T.

(** ** The texts of JSON values *)

(** The value of the digits [ds] written after digits of the value [a]. *)
Definition dv (a : Z) (ds : jsstring) : Z :=
  fold_left (fun acc c => (10 * acc + Z.of_N (c - 48))%Z) ds a.

(** What may follow a number literal: no digit, point or exponent mark. *)
Definition delimited (rest : jsstring) : Prop :=
  match rest with
  | [] => True
  | c :: _ => RegExp.isDigit c = false /\ c <> 46%N /\ c <> 101%N /\ c <> 69%N
  end.

(** The integer part of a number literal: [0], or digits that do not
    start with [0]. *)
Definition validInt (int : jsstring) : Prop :=
  int = [48%N]
  \/ exists d t, int = d :: t /\ d <> 48%N /\ forallb RegExp.isDigit int = true.

(** The fraction and the exponent of a number literal, when present. *)
Definition fracText (frac : option jsstring) : jsstring :=
  match frac with Some f => 46%N :: f | None => [] end.

Definition expText (exp : option (bool * jsstring)) : jsstring :=
  match exp with
  | Some (minus, ds) => 101%N :: (if minus then 45%N else 43%N) :: ds
  | None => []
  end.

Definition expValue (exp : option (bool * jsstring)) : Z :=
  match exp with
  | Some (minus, ds) =>
      if minus then (- Json.digitsValue ds)%Z else Json.digitsValue ds
  | None => 0%Z
  end.

(** A character at which the text of a value starts. *)
Definition starter (c : codeunit) : Prop :=
  Json.isJsonSpace c = false /\ c <> 93%N.

(** [pv] reads the text of [v] as [JSON.parse] does. *)
Definition reads (pv : jsstring -> Json.parsed Json.value) (v : Json.value) : Prop :=
  forall rest : jsstring,
    delimited rest -> pv (Json.stringify v ++ rest) = Json.Parsed (reread v) rest.

(** The text of the elements of an array after the first, and of the
    members of an object after the first. *)
Definition following (texts : list jsstring) : jsstring :=
  List.concat (List.map (fun t => 44%N :: t) texts).

(** The steps of [Json.enumerate] on the properties with an array index. *)
Definition indexStep {A : Type} (acc : list (Z * (jsstring * A)))
    (p : jsstring * A) : list (Z * (jsstring * A)) :=
  match Json.arrayIndex (fst p) with
  | Some i => Json.insertIndexed i p acc
  | None => acc
  end.

Definition onIndexed {A B : Type} (g : jsstring * A -> jsstring * B)
    (q : Z * (jsstring * A)) : Z * (jsstring * B) :=
  (fst q, g (snd q)).

(* ================================================================== *)
(** * Properties *)

(** ** The matcher on [SourceMapURLRegex] *)

Section MatcherLemmas.

Lemma orelse_None_r (a : option state) : orelse a None = a.
Proof. now destruct a. Qed.

Lemma matcher_Lit (p : jsstring) : forall (x : state) (k : continuation),
  matcher (Lit p) x k =
  match stripPrefix p (rest x) with
  | Some t => k (mkState (endIndex x + List.length p) t (caps x))
  | None => None
  end.
Proof.
  induction p as [|a p IH]; intros [i s cs] k; simpl.
  - now rewrite Nat.add_0_r.
  - unfold matchChar; simpl. destruct s as [|b s]; [reflexivity|].
    destruct (N.eqb a b); [|reflexivity].
    rewrite IH. simpl. now rewrite Nat.add_succ_r.
Qed.

Lemma isLineTerminator_isSpace c : isLineTerminator c = true -> isSpace c = true.
Proof. unfold isSpace. intros ->. apply orb_true_r. Qed.

(** [\s*$] with the final continuation. *)
Lemma greedy_spaces_end (cs : captures) : forall (s : jsstring) (fuel i : nat),
  List.length s < fuel ->
  repeatMatcher (matcher Space) true
    (fun y => matcher (EndAnchor true) y (fun z => Some z)) fuel 0
    (mkState i s cs) =
  match spacesToLineEnd s with
  | Some w => Some (mkState (i + w) (skipn w s) cs)
  | None => None
  end.
Proof.
  induction s as [|c t IH]; intros fuel i Hf; destruct fuel as [|fuel]; try (simpl in Hf; lia).
  - simpl. unfold matchChar. simpl. now rewrite Nat.add_0_r.
  - simpl in Hf. cbn [repeatMatcher matcher Space matchChar rest endIndex caps].
    change (0 =? 0) with true. cbn [andb spacesToLineEnd].
    destruct (isSpace c) eqn:Hc.
    + replace (S i =? i) with false by (symmetry; apply Nat.eqb_neq; lia).
      rewrite IH by lia.
      destruct (spacesToLineEnd t) as [w|].
      * simpl. now rewrite Nat.add_succ_r.
      * simpl. destruct (isLineTerminator c); [now rewrite Nat.add_0_r | reflexivity].
    + simpl. destruct (isLineTerminator c) eqn:Hl; [|reflexivity].
      apply isLineTerminator_isSpace in Hl. congruence.
Qed.

Lemma lazy_value (cs : captures) (i0 : nat) (s0 : jsstring) :
  forall (s : jsstring) (fuel i : nat),
  List.length s < fuel ->
  repeatMatcher (matcher Dot) false
    (fun y => matcher (Seq (Repeat true 0 Space) (EndAnchor true))
       (mkState (endIndex y) (rest y) ((2, firstn (endIndex y - i0) s0) :: caps y))
       (fun z => Some z))
    fuel 0 (mkState i s cs) =
  match lazyValue s with
  | Some (n, w) =>
      Some (mkState (i + n + w) (skipn (n + w) s) ((2, firstn (i + n - i0) s0) :: cs))
  | None => None
  end.
Proof.
  induction s as [|c t IH]; intros fuel i Hf; destruct fuel as [|fuel]; try (simpl in Hf; lia).
  - simpl. unfold matchChar. simpl. now rewrite !Nat.add_0_r.
  - simpl in Hf.
    cbn [repeatMatcher]. change (0 =? 0) with true. cbn [andb].
    cbn [matcher endIndex rest caps].
    rewrite greedy_spaces_end by (simpl; lia).
    cbn [lazyValue]. fold lazyValue.
    destruct (spacesToLineEnd (c :: t)) as [w|] eqn:Hw.
    + simpl. now rewrite Nat.add_0_r.
    + cbn [orelse]. unfold Dot at 1. cbn [matcher matchChar rest endIndex caps].
      destruct (isLineTerminator c); [reflexivity|]. cbn [negb].
      replace (S i =? i) with false by (symmetry; apply Nat.eqb_neq; lia).
      rewrite IH by lia.
      destruct (lazyValue t) as [[n w]|]; [|reflexivity].
      replace (S i + n + w) with (i + S n + w) by lia.
      replace (S i + n - i0) with (i + S n - i0) by lia. reflexivity.
Qed.

Lemma matcher_valueR (i : nat) (s : jsstring) (cs : captures) :
  matcher valueR (mkState i s cs) (fun y => Some y) =
  match s with
  | c :: t =>
      if negb (isLineTerminator c) then
        match lazyValue t with
        | Some (n, w) =>
            Some (mkState (i + S n + w) (skipn (n + w) t)
                    ((2, firstn (S n) (c :: t)) :: cs))
        | None => None
        end
      else None
  | [] => None
  end.
Proof.
  change (matcher valueR (mkState i s cs) (fun y => Some y))
    with (matchChar (fun c => negb (isLineTerminator c)) (mkState i s cs)
            (fun y => repeatMatcher (matcher Dot) false
               (fun y => matcher tailR
                  (mkState (endIndex y) (rest y)
                     ((2, firstn (endIndex y - i) s) :: caps y))
                  (fun z => Some z))
               (1 + List.length s) 0 y)).
  unfold matchChar. cbn [rest endIndex caps].
  destruct s as [|c t]; [reflexivity|].
  destruct (negb (isLineTerminator c)); [|reflexivity].
  unfold tailR. rewrite lazy_value by (simpl; lia).
  destruct (lazyValue t) as [[n w]|]; [|reflexivity].
  replace (S i + n - i) with (S n) by lia.
  replace (S i + n + w) with (i + S n + w) by lia. reflexivity.
Qed.

Lemma matcher_SourceMapURLRegex (i : nat) (s : jsstring) :
  matcher SourceMapURLRegex (mkState i s []) (fun y => Some y) = matchAt i s.
Proof.
  unfold matchAt, commentOpener.
  change (matcher SourceMapURLRegex (mkState i s []) (fun y => Some y))
    with (matcher (Lit (js "//")) (mkState i s [])
            (fun x =>
               orelse
                 (matchChar (N.eqb (cu "#")) x (fun y => matcher openerR
                    (mkState (endIndex y) (rest y)
                       ((1, firstn (endIndex y - endIndex x) (rest x)) :: caps y))
                    (fun z => Some z)))
                 (matchChar (N.eqb (cu "@")) x (fun y => matcher openerR
                    (mkState (endIndex y) (rest y)
                       ((1, firstn (endIndex y - endIndex x) (rest x)) :: caps y))
                    (fun z => Some z))))).
  rewrite matcher_Lit. cbn [rest endIndex caps].
  destruct (stripPrefix (js "//") s) as [[|m s2]|]; try reflexivity.
  unfold matchChar. cbn [rest endIndex caps].
  replace (S (i + List.length (js "//")) - (i + List.length (js "//"))) with 1 by lia.
  cbn [firstn].
  assert (Hopener : forall j,
    matcher openerR (mkState j s2 [(1, [m])]) (fun z => Some z) =
    match stripPrefix (js " sourceMappingURL=") s2 with
    | Some (c :: t) =>
        if negb (isLineTerminator c) then
          match lazyValue t with
          | Some (n, w) =>
              Some (mkState (j + 18 + S n + w) (skipn (n + w) t)
                      [(2, firstn (S n) (c :: t)); (1, [m])])
          | None => None
          end
        else None
    | _ => None
    end).
  { intros j. unfold openerR.
    change (matcher (Seq (Lit (js " sourceMappingURL=")) valueR)
              (mkState j s2 [(1, [m])]) (fun z => Some z))
      with (matcher (Lit (js " sourceMappingURL=")) (mkState j s2 [(1, [m])])
              (fun y => matcher valueR y (fun z => Some z))).
    rewrite matcher_Lit. cbn [rest endIndex caps].
    destruct (stripPrefix (js " sourceMappingURL=") s2) as [t|]; [|reflexivity].
    rewrite matcher_valueR. reflexivity. }
  rewrite !Hopener. unfold isMarker.
  rewrite (N.eqb_sym (cu "#") m), (N.eqb_sym (cu "@") m).
  change (cu "#") with 35%N. change (cu "@") with 64%N.
  destruct (N.eqb m 35) eqn:H35; [|destruct (N.eqb m 64) eqn:H64]; cbn [orb orelse];
    rewrite ?orelse_None_r; try reflexivity.
  - assert (N.eqb m 64 = false) as ->.
    { apply N.eqb_eq in H35. subst m. reflexivity. }
    rewrite orelse_None_r.
    destruct (stripPrefix (js " sourceMappingURL=") s2) as [[|c t]|]; try reflexivity.
    destruct (negb (isLineTerminator c)); [|reflexivity].
    destruct (lazyValue t) as [[n w]|]; [|reflexivity].
    do 2 f_equal. simpl. lia.
  - destruct (stripPrefix (js " sourceMappingURL=") s2) as [[|c t]|]; try reflexivity.
    destruct (negb (isLineTerminator c)); [|reflexivity].
    destruct (lazyValue t) as [[n w]|]; [|reflexivity].
    do 2 f_equal. simpl. lia.
Qed.

End MatcherLemmas.

Section ValueLemmas.

Lemma trimEnd_nil_iff (l : jsstring) : trimEnd l = [] <-> Forall space l.
Proof.
  induction l as [|c l IH]; simpl.
  - split; auto.
  - destruct (trimEnd l) as [|d v] eqn:Hv.
    + destruct (isSpace c) eqn:Hc; split; intros H.
      * constructor; [exact Hc | now apply IH].
      * reflexivity.
      * discriminate.
      * inversion H; subst. unfold space in *. congruence.
    + split; [discriminate|]. intros H. inversion H; subst.
      apply IH in H3. discriminate.
Qed.

Lemma trimEnd_split (l : jsstring) :
  exists b, l = trimEnd l ++ b /\ Forall space b.
Proof.
  induction l as [|c l [b [Hl Hb]]]; simpl.
  - exists []. auto.
  - destruct (trimEnd l) as [|d v] eqn:Hv.
    + destruct (isSpace c) eqn:Hc.
      * exists (c :: l). split; [reflexivity|].
        constructor; [exact Hc|]. now apply trimEnd_nil_iff.
      * exists b. simpl in Hl. subst b. split; [reflexivity | assumption].
    + exists b. split; [|assumption]. simpl in *. congruence.
Qed.

Lemma trimEnd_cons (c : codeunit) (l : jsstring) :
  trimEnd (c :: l) <> [] -> trimEnd (c :: l) = c :: trimEnd l.
Proof.
  simpl. destruct (trimEnd l); [|reflexivity].
  destruct (isSpace c); [congruence | reflexivity].
Qed.

Lemma spacesToLineEnd_spaces (post : jsstring) :
  atLineEnd post = true ->
  forall b, Forall space b ->
  exists w, spacesToLineEnd (b ++ post) = Some w /\ List.length b <= w.
Proof.
  intros Hpost. induction 1 as [|c b Hc Hb [w [Hw Hle]]]; simpl.
  - destruct post as [|c t]; [exists 0; auto|].
    simpl in Hpost. simpl. rewrite (isLineTerminator_isSpace _ Hpost), Hpost.
    destruct (spacesToLineEnd t) as [n|]; eexists; split; try reflexivity; lia.
  - rewrite Hc, Hw. exists (S w). split; [reflexivity | lia].
Qed.

Lemma spacesToLineEnd_none (post : jsstring) :
  forall b, Forall notLineTerminator b -> trimEnd b <> [] ->
  spacesToLineEnd (b ++ post) = None.
Proof.
  induction 1 as [|c b Hc Hb IH]; intros Hne; [now elim Hne|].
  cbn [app spacesToLineEnd]. rewrite Hc.
  destruct (isSpace c) eqn:Hs; [|reflexivity].
  rewrite IH; [reflexivity|].
  intros Hnil. apply Hne. simpl. now rewrite Hnil, Hs.
Qed.

Lemma spacesToLineEnd_sound : forall s w,
  spacesToLineEnd s = Some w ->
  w <= List.length s /\ Forall space (firstn w s) /\ atLineEnd (skipn w s) = true.
Proof.
  induction s as [|c t IH]; simpl; intros w H.
  - injection H as <-. simpl. auto.
  - destruct (isSpace c) eqn:Hc; [|discriminate].
    destruct (spacesToLineEnd t) as [n|].
    + injection H as <-. destruct (IH n eq_refl) as (? & ? & ?).
      simpl. split; [lia|]. split; [|assumption]. constructor; assumption.
    + destruct (isLineTerminator c) eqn:Hl; [|discriminate].
      injection H as <-. simpl. split; [lia|]. split; [constructor | assumption].
Qed.

(** The greedy [\s*] stops at the last line end of the run of spaces. *)
Lemma spacesToLineEnd_max : forall s w,
  spacesToLineEnd s = Some w ->
  forall n, n <= List.length s -> Forall space (firstn n s) ->
  atLineEnd (skipn n s) = true -> n <= w.
Proof.
  induction s as [|c t IH]; simpl; intros w H n Hn Hsp Hend.
  - lia.
  - destruct n as [|n]; [lia|].
    simpl in Hsp, Hend. inversion Hsp; subst. unfold space in *.
    match goal with Hc : isSpace c = true |- _ => rewrite Hc in H end.
    destruct (spacesToLineEnd t) as [n'|] eqn:Ht.
    + injection H as <-. apply le_n_S. apply (IH n' eq_refl); auto. lia.
    + exfalso. clear IH H.
      assert (Hex : forall (u : jsstring) k, k <= List.length u -> Forall (fun c => isSpace c = true) (firstn k u) ->
                atLineEnd (skipn k u) = true -> spacesToLineEnd u <> None).
      { induction u as [|d u IHu]; simpl; intros k Hk Hf He; [discriminate|].
        destruct k as [|k].
        - simpl in He. rewrite (isLineTerminator_isSpace _ He), He.
          destruct (spacesToLineEnd u); discriminate.
        - simpl in Hf, He. inversion Hf; subst.
          match goal with Hd : isSpace d = true |- _ => rewrite Hd end.
          specialize (IHu k ltac:(lia) ltac:(assumption) He).
          destruct (spacesToLineEnd u); [discriminate | congruence]. }
      apply (Hex t n); auto. lia.
Qed.

Lemma lazyValue_line (post : jsstring) :
  atLineEnd post = true ->
  forall l, Forall notLineTerminator l ->
  exists w, lazyValue (l ++ post) = Some (List.length (trimEnd l), w)
            /\ spacesToLineEnd (skipn (List.length (trimEnd l)) (l ++ post)) = Some w.
Proof.
  intros Hpost. induction 1 as [|c l Hc Hl [w [Hw Hsk]]].
  - destruct (spacesToLineEnd_spaces post Hpost [] (Forall_nil _)) as [w [Hw _]].
    exists w. split; [|exact Hw].
    cbn [app] in *. destruct post; cbn [lazyValue]; rewrite Hw; reflexivity.
  - destruct (trimEnd (c :: l)) as [|d v] eqn:Hv.
    + apply trimEnd_nil_iff in Hv.
      destruct (spacesToLineEnd_spaces post Hpost _ Hv) as [w' [Hw' _]].
      exists w'. cbn [List.length skipn]. split; [|exact Hw'].
      cbn [app lazyValue]. cbn [app] in Hw'. now rewrite Hw'.
    + assert (Hne : trimEnd (c :: l) <> []) by congruence.
      rewrite <- Hv, (trimEnd_cons _ _ Hne). exists w.
      cbn [List.length app skipn]. split; [|exact Hsk].
      pose proof (spacesToLineEnd_none post _ (Forall_cons c Hc Hl) Hne) as Hnone.
      cbn [app] in Hnone. cbn [lazyValue]. rewrite Hnone.
      fold lazyValue. rewrite Hc. cbn [negb]. now rewrite Hw.
Qed.

Lemma lazyValue_total : forall s, lazyValue s <> None.
Proof.
  induction s as [|c t IH]; [discriminate|].
  cbn [lazyValue]. destruct (spacesToLineEnd (c :: t)) eqn:Hs; [discriminate|].
  fold lazyValue. destruct (isLineTerminator c) eqn:Hl; cbn [negb].
  - simpl in Hs. rewrite (isLineTerminator_isSpace _ Hl), Hl in Hs.
    destruct (spacesToLineEnd t); discriminate.
  - destruct (lazyValue t) as [[n w]|]; [discriminate | congruence].
Qed.

End ValueLemmas.

(** ** The first match of a pattern *)

Section ExecLemmas.

Variable R : regex.

Lemma exec_from_none : forall (s : jsstring) (i : nat),
  (forall j, j <= List.length s ->
     matcher R (mkState (i + j) (skipn j s) []) (fun y => Some y) = None) ->
  exec_from R i s = None.
Proof.
  induction s as [|c t IH]; intros i H; simpl.
  - specialize (H 0 (Nat.le_refl _)). rewrite Nat.add_0_r in H. simpl in H.
    now rewrite H.
  - pose proof (H 0 ltac:(lia)) as H0. rewrite Nat.add_0_r in H0. simpl in H0.
    rewrite H0. apply IH. intros j Hj.
    specialize (H (S j) ltac:(simpl; lia)).
    rewrite Nat.add_succ_r in H. exact H.
Qed.

Lemma exec_from_first : forall (pre s : jsstring) (i : nat) (y : state),
  (forall j, j < List.length pre ->
     matcher R (mkState (i + j) (skipn j (pre ++ s)) []) (fun y => Some y) = None) ->
  matcher R (mkState (i + List.length pre) s []) (fun y => Some y) = Some y ->
  exec_from R i (pre ++ s) =
  Some (mkMatch (i + List.length pre)
          (firstn (endIndex y - (i + List.length pre)) s) (caps y)).
Proof.
  induction pre as [|c pre IH]; intros s i y Hpre Hy.
  - simpl in *. rewrite Nat.add_0_r in *.
    destruct s; simpl; rewrite Hy; reflexivity.
  - pose proof (Hpre 0 ltac:(simpl; lia)) as H0. rewrite Nat.add_0_r in H0. simpl in H0.
    cbn [app exec_from]. rewrite H0.
    cbn [List.length]. rewrite Nat.add_succ_r.
    apply (IH s (S i) y).
    + intros j Hj. specialize (Hpre (S j) ltac:(simpl; lia)).
      rewrite Nat.add_succ_r in Hpre. exact Hpre.
    + rewrite <- Hy. cbn [List.length]. now rewrite Nat.add_succ_r.
Qed.

End ExecLemmas.

Section Locator.

Lemma matchAt_not_comment (i : nat) (s : jsstring) :
  isReferenceComment s = false -> matchAt i s = None.
Proof.
  unfold isReferenceComment, matchAt.
  destruct (commentOpener s) as [[m [|c t]]|]; try reflexivity.
  now intros ->.
Qed.

Lemma matchAt_comment (i : nat) (s : jsstring) :
  isReferenceComment s = true -> matchAt i s <> None.
Proof.
  unfold isReferenceComment, matchAt.
  destruct (commentOpener s) as [[m [|c t]]|]; try discriminate.
  intros ->. pose proof (lazyValue_total t).
  destruct (lazyValue t) as [[n w]|]; [discriminate | congruence].
Qed.

Lemma stripPrefix_app (p s : jsstring) : stripPrefix p (p ++ s) = Some s.
Proof.
  induction p as [|a p IH]; simpl; [reflexivity|]. now rewrite N.eqb_refl.
Qed.

Lemma stripPrefix_Some (p : jsstring) : forall s t,
  stripPrefix p s = Some t -> s = p ++ t.
Proof.
  induction p as [|a p IH]; simpl; intros s t H.
  - now injection H.
  - destruct s as [|b s]; [discriminate|].
    destruct (N.eqb a b) eqn:E; [|discriminate].
    apply N.eqb_eq in E. subst b. f_equal. now apply IH.
Qed.

Lemma commentOpener_app (m : codeunit) (s : jsstring) :
  isMarker m = true ->
  commentOpener (js "//" ++ [m] ++ js " sourceMappingURL=" ++ s) = Some (m, s).
Proof.
  intros Hm. unfold commentOpener. rewrite stripPrefix_app.
  cbn [app]. rewrite Hm. now rewrite stripPrefix_app.
Qed.

Lemma firstn_trimEnd (l post : jsstring) :
  firstn (List.length (trimEnd l)) (l ++ post) = trimEnd l.
Proof.
  destruct (trimEnd_split l) as [b [Hl _]].
  rewrite Hl at 2. rewrite <- app_assoc.
  rewrite firstn_app, Nat.sub_diag, firstn_all. simpl. apply app_nil_r.
Qed.

Lemma referenceValue_cons (c : codeunit) (l : jsstring) :
  referenceValue (c :: l) = c :: trimEnd l.
Proof.
  unfold referenceValue. destruct (trimEnd (c :: l)) as [|d v] eqn:Hv.
  - simpl in *. destruct (trimEnd l); [|discriminate]. now destruct l.
  - rewrite <- Hv. apply trimEnd_cons. congruence.
Qed.

(** The match on a line that holds a reference comment. *)
Lemma matchAt_line (i : nat) (m : codeunit) (line post : jsstring) :
  isMarker m = true -> line <> [] ->
  Forall notLineTerminator line -> atLineEnd post = true ->
  exists w,
    matchAt i (js "//" ++ [m] ++ js " sourceMappingURL=" ++ line ++ post) =
    Some (mkState (i + 21 + List.length (referenceValue line) + w)
            (skipn (List.length (referenceValue line) + w) (line ++ post))
            [(2, referenceValue line); (1, [m])])
    /\ spacesToLineEnd (skipn (List.length (referenceValue line)) (line ++ post))
       = Some w.
Proof.
  intros Hm Hne Hline Hpost. destruct line as [|c l]; [now elim Hne|].
  inversion Hline as [|? ? Hc Hl]; subst.
  destruct (lazyValue_line post Hpost l Hl) as [w [Hw Hsp]].
  exists w. unfold matchAt. rewrite (commentOpener_app m _ Hm).
  cbn [app]. rewrite Hc. cbn [negb]. rewrite Hw.
  rewrite referenceValue_cons. cbn [List.length skipn]. split; [|exact Hsp].
  cbn [firstn Nat.add]. now rewrite firstn_trimEnd.
Qed.

End Locator.

(** ** The reference comment *)

Section ReferenceComment.

(** The first match of the pattern in a body whose first reference
    comment starts after [pre]. *)
Lemma exec_first_comment (pre line post : jsstring) (m : codeunit) :
  isMarker m = true -> line <> [] ->
  Forall notLineTerminator line -> atLineEnd post = true ->
  (forall j, j < List.length pre ->
     isReferenceComment
       (skipn j (pre ++ js "//" ++ [m] ++ js " sourceMappingURL=" ++ line ++ post))
     = false) ->
  exists w,
    exec SourceMapURLRegex
      (pre ++ js "//" ++ [m] ++ js " sourceMappingURL=" ++ line ++ post) =
    Some (mkMatch (List.length pre)
            (js "//" ++ [m] ++ js " sourceMappingURL=" ++ referenceValue line
             ++ firstn w (skipn (List.length (referenceValue line)) (line ++ post)))
            [(2, referenceValue line); (1, [m])])
    /\ spacesToLineEnd (skipn (List.length (referenceValue line)) (line ++ post))
       = Some w.
Proof.
  intros Hm Hne Hline Hpost Hfirst.
  destruct (matchAt_line (List.length pre) m line post Hm Hne Hline Hpost)
    as [w [Hmatch Hw]].
  exists w. split; [|exact Hw].
  unfold exec.
  rewrite (exec_from_first SourceMapURLRegex pre _ 0
             (mkState (List.length pre + 21 + List.length (referenceValue line) + w)
                (skipn (List.length (referenceValue line) + w) (line ++ post))
                [(2, referenceValue line); (1, [m])])).
  - cbn [Nat.add endIndex caps]. do 2 f_equal.
    destruct (spacesToLineEnd_sound _ _ Hw) as [Hle _].
    destruct line as [|c l]; [now elim Hne|].
    rewrite referenceValue_cons in *.
    replace (List.length pre + 21 + List.length (c :: trimEnd l) + w - List.length pre)
      with (21 + (S (List.length (trimEnd l)) + w)) by (simpl; lia).
    change (js "//" ++ [m] ++ js " sourceMappingURL=" ++ (c :: l) ++ post)
      with ((js "//" ++ [m] ++ js " sourceMappingURL=") ++ (c :: l) ++ post).
    rewrite firstn_app.
    replace (21 + (S (List.length (trimEnd l)) + w)
             - List.length (js "//" ++ [m] ++ js " sourceMappingURL="))
      with (S (List.length (trimEnd l)) + w) by (simpl; lia).
    rewrite firstn_all2 by (simpl; lia).
    rewrite <- !app_assoc. do 3 f_equal.
    cbn [app]. change (S (List.length (trimEnd l)) + w) with (S (List.length (trimEnd l) + w)).
    cbn [firstn List.length skipn]. f_equal.
    rewrite <- (firstn_skipn (List.length (trimEnd l)) (l ++ post)) at 1.
    rewrite firstn_app.
    rewrite firstn_firstn, Nat.min_r by lia.
    rewrite firstn_trimEnd. f_equal. f_equal. lia.
  - intros j Hj. rewrite matcher_SourceMapURLRegex.
    apply matchAt_not_comment. now apply Hfirst.
  - rewrite matcher_SourceMapURLRegex. exact Hmatch.
Qed.

Lemma exec_no_comment (body : jsstring) :
  (forall j, isReferenceComment (skipn j body) = false) ->
  exec SourceMapURLRegex body = None.
Proof.
  intros H. unfold exec. apply exec_from_none. intros j _.
  rewrite matcher_SourceMapURLRegex. apply matchAt_not_comment, H.
Qed.

Lemma commentOpener_Some (s s3 : jsstring) (m : codeunit) :
  commentOpener s = Some (m, s3) ->
  isMarker m = true /\ s = js "//" ++ [m] ++ js " sourceMappingURL=" ++ s3.
Proof.
  unfold commentOpener.
  destruct (stripPrefix (js "//") s) as [[|m' s2]|] eqn:H1; try discriminate.
  destruct (isMarker m') eqn:Hm; [|discriminate].
  destruct (stripPrefix (js " sourceMappingURL=") s2) as [t|] eqn:H2; [|discriminate].
  intros H. injection H as <- <-. split; [exact Hm|].
  apply stripPrefix_Some in H1, H2. now subst.
Qed.

Lemma isMarker_cases (m : codeunit) : isMarker m = true -> m = 35%N \/ m = 64%N.
Proof.
  unfold isMarker. intros H. apply orb_true_iff in H.
  destruct H as [H|H]; apply N.eqb_eq in H; auto.
Qed.

Lemma isReferenceComment_marker (s : jsstring) :
  isReferenceComment s = true -> startsWithMarker s = true.
Proof.
  unfold isReferenceComment.
  destruct (commentOpener s) as [[m s3]|] eqn:H; [|discriminate].
  intros _. apply commentOpener_Some in H. destruct H as [Hm ->].
  destruct (isMarker_cases m Hm); subst; reflexivity.
Qed.

(** A marker that is not followed by exactly one space does not open a
    reference comment. *)
Lemma commentOpener_spaces (m : codeunit) (n : nat) (rest : jsstring) :
  n <> 1 ->
  commentOpener (js "//" ++ [m] ++ List.repeat 32%N n ++ js "sourceMappingURL=" ++ rest)
  = None.
Proof.
  intros Hn. unfold commentOpener. rewrite stripPrefix_app. cbn [app].
  destruct (isMarker m); [|reflexivity].
  destruct n as [|[|n]]; [reflexivity | lia | reflexivity].
Qed.

End ReferenceComment.

Section Substitution.

Lemma getSubstitution_plain (n : nat) (mr : match_result) (before after : jsstring) :
  forall template, Forall notDollar template ->
  getSubstitution n mr before after template = template.
Proof.
  induction 1 as [|c t Hc Ht IH]; [reflexivity|].
  cbn [getSubstitution]. fold getSubstitution.
  destruct (N.eqb c 36) eqn:E; [apply N.eqb_eq in E; now elim Hc|].
  cbn [negb]. now rewrite IH.
Qed.

End Substitution.

(** C5 (amended).  In a body whose first reference comment (of either
    form) starts after [pre] and holds [line] between the equals sign and
    the end of its line, the locator returns [line] without its trailing
    white space when [line] holds a character that is not white space, and
    the first character of [line] when it holds white space only.  Later
    comments play no part: the first one wins. *)
Theorem getSourceMapRelativeUrl_first_comment
    (pre line post : jsstring) (m : codeunit) :
  isMarker m = true -> line <> [] ->
  Forall notLineTerminator line -> atLineEnd post = true ->
  (forall j, j < List.length pre ->
     isReferenceComment
       (skipn j (pre ++ js "//" ++ [m] ++ js " sourceMappingURL=" ++ line ++ post))
     = false) ->
  getSourceMapRelativeUrl
    (pre ++ js "//" ++ [m] ++ js " sourceMappingURL=" ++ line ++ post)
  = Str (referenceValue line)
  /\ (trimEnd line <> [] -> referenceValue line = trimEnd line)
  /\ (trimEnd line = [] -> referenceValue line = firstn 1 line).
Proof.
  intros Hm Hne Hline Hpost Hfirst. split; [|split].
  - destruct (exec_first_comment pre line post m Hm Hne Hline Hpost Hfirst)
      as [w [Hexec _]].
    unfold getSourceMapRelativeUrl. rewrite Hexec. reflexivity.
  - unfold referenceValue. destruct (trimEnd line); [congruence | reflexivity].
  - unfold referenceValue. now intros ->.
Qed.

Lemma getSourceMapRelativeUrl_first_comment_witness :
  getSourceMapRelativeUrl
    (js "a(); " ++ js "//" ++ [35%N] ++ js " sourceMappingURL=" ++ js "x.map  "
     ++ (nl ++ js "//# sourceMappingURL=y.map"))
  = Str (js "x.map").
Proof.
  refine (proj1 (getSourceMapRelativeUrl_first_comment
                   (js "a(); ") (js "x.map  ") (nl ++ js "//# sourceMappingURL=y.map")
                   35%N eq_refl _ _ eq_refl _)).
  - discriminate.
  - repeat constructor.
  - intros j Hj. do 5 (destruct j as [|j]; [reflexivity|]). simpl in Hj. lia.
Defined.

(** C5, as stated, fails on a comment whose value is white space: the
    locator returns the first space, which is not trimmed. *)
Lemma getSourceMapRelativeUrl_blank_value :
  getSourceMapRelativeUrl (js "//# sourceMappingURL=  ") = Str (js " ")
  /\ trimEnd (js "  ") = []
  /\ getSourceMapRelativeUrl (js "//# sourceMappingURL=  ") <> Str (trimEnd (js "  ")).
Proof.
  split; [vm_compute; reflexivity|].
  split; [reflexivity|]. vm_compute. discriminate.
Qed.

(** Without a reference comment the pattern has no match. *)
Lemma getSourceMapRelativeUrl_no_comment (body : jsstring) :
  (forall j, isReferenceComment (skipn j body) = false) ->
  getSourceMapRelativeUrl body = Null.
Proof.
  intros H. unfold getSourceMapRelativeUrl. now rewrite (exec_no_comment body H).
Qed.

(** When the locator returns null, the [if] of [getSourceMapURL] is not
    entered. *)
Lemma getSourceMapURL_null
    (url : Url.UrlModule) (scriptUrl : Url.Url) (body : jsstring) :
  getSourceMapRelativeUrl body = Null ->
  getSourceMapURL url scriptUrl body = Normal None.
Proof. intros Hrel. unfold getSourceMapURL. now rewrite Hrel. Qed.

(** C6.  In a body without a reference comment the locator returns null,
    and so does [getSourceMapURL], whatever the script location and
    whatever [url.parse] and [url.format] would do: they are not called. *)
Theorem getSourceMapURL_not_found
    (url : Url.UrlModule) (scriptUrl : Url.Url) (body : jsstring) :
  (forall j, isReferenceComment (skipn j body) = false) ->
  getSourceMapRelativeUrl body = Null
  /\ getSourceMapURL url scriptUrl body = Normal None.
Proof.
  intros H. pose proof (getSourceMapRelativeUrl_no_comment body H) as Hrel.
  split; [exact Hrel|]. now apply getSourceMapURL_null.
Qed.

Lemma getSourceMapURL_not_found_witness :
  getSourceMapRelativeUrl (js "a();") = Null
  /\ getSourceMapURL nodeUrl bundleUrl (js "a();") = Normal None.
Proof.
  apply (getSourceMapURL_not_found nodeUrl bundleUrl (js "a();")).
  intros j. do 4 (destruct j as [|j]; [reflexivity|]). now destruct j.
Defined.

(** C10.  When the only marker [//#] or [//@] of a body is followed by no
    space or by more than one space before [sourceMappingURL=], the
    locator and [getSourceMapURL] return null. *)
Theorem locator_requires_one_space
    (url : Url.UrlModule) (scriptUrl : Url.Url)
    (body rest : jsstring) (p n : nat) (m : codeunit) :
  n <> 1 ->
  skipn p body =
    js "//" ++ [m] ++ List.repeat 32%N n ++ js "sourceMappingURL=" ++ rest ->
  (forall j, j <> p -> startsWithMarker (skipn j body) = false) ->
  getSourceMapRelativeUrl body = Null
  /\ getSourceMapURL url scriptUrl body = Normal None.
Proof.
  intros Hn Hp Honly.
  assert (Hrel : getSourceMapRelativeUrl body = Null).
  { apply getSourceMapRelativeUrl_no_comment. intros j.
    destruct (Nat.eq_dec j p) as [->|Hj].
    - rewrite Hp. unfold isReferenceComment. now rewrite commentOpener_spaces.
    - destruct (isReferenceComment (skipn j body)) eqn:E; [|reflexivity].
      apply isReferenceComment_marker in E. rewrite Honly in E by exact Hj.
      discriminate. }
  split; [exact Hrel|]. now apply getSourceMapURL_null.
Qed.

Lemma locator_requires_one_space_witness :
  getSourceMapRelativeUrl (js "a;//#sourceMappingURL=foo.map") = Null
  /\ getSourceMapURL nodeUrl bundleUrl (js "a;//#sourceMappingURL=foo.map")
     = Normal None.
Proof.
  apply (locator_requires_one_space nodeUrl bundleUrl
           (js "a;//#sourceMappingURL=foo.map") (js "foo.map") 2 0 35%N).
  - discriminate.
  - reflexivity.
  - intros j Hj. do 2 (destruct j as [|j]; [reflexivity|]).
    destruct j as [|j]; [now elim Hj|].
    do 27 (destruct j as [|j]; [reflexivity|]). now destruct j.
Defined.

Lemma skipn_length_app (a b : jsstring) (n : nat) :
  skipn (List.length a + n) (a ++ b) = skipn n b.
Proof. induction a as [|c a IH]; [reflexivity | exact IH]. Qed.

Lemma referenceValue_prefix (line post : jsstring) :
  line ++ post =
  referenceValue line ++ skipn (List.length (referenceValue line)) (line ++ post).
Proof.
  destruct line as [|c l]; [reflexivity|].
  rewrite referenceValue_cons. cbn [app List.length skipn]. f_equal.
  rewrite <- (firstn_trimEnd l post) at 1. symmetry. apply firstn_skipn.
Qed.

(** ** The base name of a path *)

Section Basename.

Import Path.

Lemma takeWhile_all (p : codeunit -> bool) : forall (s t : jsstring) (c : codeunit),
  forallb p s = true -> p c = false -> takeWhile p (s ++ c :: t) = s.
Proof.
  induction s as [|a s IH]; intros t c Hs Hc.
  - cbn [app takeWhile]. now rewrite Hc.
  - cbn [forallb] in Hs. apply andb_true_iff in Hs. destruct Hs as [Ha Hs].
    cbn [app takeWhile]. rewrite Ha. f_equal. now apply IH.
Qed.

Lemma takeWhile_whole (p : codeunit -> bool) : forall s : jsstring,
  forallb p s = true -> takeWhile p s = s.
Proof.
  induction s as [|a s IH]; intros Hs; [reflexivity|].
  cbn [forallb] in Hs. apply andb_true_iff in Hs. destruct Hs as [Ha Hs].
  cbn [takeWhile]. rewrite Ha. f_equal. now apply IH.
Qed.

Lemma forallb_rev {A : Type} (p : A -> bool) (l : list A) :
  forallb p (rev l) = forallb p l.
Proof.
  induction l as [|a l IH]; [reflexivity|].
  cbn [rev forallb]. rewrite forallb_app, IH. cbn [forallb].
  rewrite andb_true_r. apply andb_comm.
Qed.

(** [path.posix.basename] gives the final segment of a path: the
    directories before the last slash are dropped. *)
Lemma basename_final_segment (dir name : jsstring) :
  name <> [] -> forallb (fun c => negb (isSlash c)) name = true ->
  basename (dir ++ [slash] ++ name) = name
  /\ basename name = name.
Proof.
  intros Hne Hname.
  assert (Hrev : forallb (fun c => negb (isSlash c)) (rev name) = true)
    by now rewrite forallb_rev.
  assert (Hdrop : forall t, dropWhile isSlash (rev name ++ t) = rev name ++ t).
  { intros t. destruct (rev name) as [|a r] eqn:E.
    - apply (f_equal (@rev _)) in E. rewrite rev_involutive in E. now elim Hne.
    - cbn [forallb] in Hrev. apply andb_true_iff in Hrev. destruct Hrev as [Ha _].
      apply negb_true_iff in Ha. cbn [app dropWhile]. now rewrite Ha. }
  unfold basename. split.
  - rewrite !rev_app_distr. cbn [rev app]. rewrite <- app_assoc. cbn [app].
    rewrite Hdrop, takeWhile_all; [apply rev_involutive|exact Hrev|].
    unfold isSlash. now rewrite N.eqb_refl.
  - rewrite <- (app_nil_r (rev name)) at 1. rewrite Hdrop, app_nil_r.
    rewrite takeWhile_whole by exact Hrev. apply rev_involutive.
Qed.

End Basename.

(** C4 (amended).  In a body whose first reference comment (of either
    form) starts after [pre], [updateScriptPaths] replaces the comment, up
    to and including the white space [ws] that follows its value as far as
    the last line end of that white space, with
    [//# sourceMappingURL=<basename>], where [<basename>] is
    [path.basename] of the pathname of the new location, provided that
    base name holds no dollar sign.  The text before the comment and the
    text [t] after the replaced part are unchanged, and the [//#] form is
    emitted whatever the form of the comment was. *)
Theorem updateScriptPaths_first_comment
    (path : Path.PathModule) (pre line post : jsstring) (m : codeunit)
    (u : Url.Url) (base : jsstring) :
  isMarker m = true -> line <> [] ->
  Forall notLineTerminator line -> atLineEnd post = true ->
  (forall j, j < List.length pre ->
     isReferenceComment
       (skipn j (pre ++ js "//" ++ [m] ++ js " sourceMappingURL=" ++ line ++ post))
     = false) ->
  Url.pathname u = Str base ->
  Forall notDollar (Path.path_basename path base) ->
  exists ws t,
    line ++ post = referenceValue line ++ ws ++ t
    /\ Forall space ws /\ atLineEnd t = true
    /\ (forall ws' t',
          line ++ post = referenceValue line ++ ws' ++ t' ->
          Forall space ws' -> atLineEnd t' = true ->
          List.length ws' <= List.length ws)
    /\ updateScriptPaths path
         (pre ++ js "//" ++ [m] ++ js " sourceMappingURL=" ++ line ++ post) u
       = Normal (pre ++ js "//# sourceMappingURL="
                 ++ Path.path_basename path base ++ t).
Proof.
  intros Hm Hne Hline Hpost Hfirst Hpath Hbase.
  destruct (exec_first_comment pre line post m Hm Hne Hline Hpost Hfirst)
    as [w [Hexec Hw]].
  set (v := referenceValue line) in *.
  set (tail := skipn (List.length v) (line ++ post)) in *.
  destruct (spacesToLineEnd_sound _ _ Hw) as (Hle & Hsp & Hend).
  assert (Hsplit : line ++ post = v ++ tail) by apply referenceValue_prefix.
  exists (firstn w tail), (skipn w tail). repeat split.
  - now rewrite firstn_skipn.
  - exact Hsp.
  - exact Hend.
  - intros ws' t' Heq Hws' Ht'. rewrite Hsplit in Heq.
    apply app_inv_head in Heq.
    rewrite length_firstn, Nat.min_l by exact Hle.
    apply (spacesToLineEnd_max _ _ Hw (List.length ws')).
    + rewrite Heq, length_app. lia.
    + rewrite Heq, firstn_app, Nat.sub_diag, firstn_all. simpl.
      now rewrite app_nil_r.
    + rewrite Heq, skipn_app, Nat.sub_diag, skipn_all. exact Ht'.
  - unfold updateScriptPaths. rewrite Hpath. cbn [assertPath bind].
    unfold replace. rewrite Hexec. cbn [index matched].
    rewrite getSubstitution_plain.
    2:{ apply Forall_app. split; [|exact Hbase].
        repeat constructor; discriminate. }
    assert (Hlen : List.length
                     (js "//" ++ [m] ++ js " sourceMappingURL=" ++ v ++ firstn w tail)
                   = 21 + (List.length v + w)).
    { rewrite !length_app, length_firstn, Nat.min_l by exact Hle. simpl. lia. }
    rewrite Hlen.
    assert (Hafter :
      skipn (List.length pre + (21 + (List.length v + w)))
        (pre ++ js "//" ++ [m] ++ js " sourceMappingURL=" ++ line ++ post)
      = skipn w tail).
    { rewrite skipn_length_app.
      change (js "//" ++ [m] ++ js " sourceMappingURL=" ++ line ++ post)
        with ((js "//" ++ [m] ++ js " sourceMappingURL=") ++ line ++ post).
      change 21 with (List.length (js "//" ++ [m] ++ js " sourceMappingURL=")).
      rewrite skipn_length_app. unfold tail. rewrite skipn_skipn.
      f_equal. lia. }
    rewrite Hafter.
    rewrite firstn_app, Nat.sub_diag, firstn_all. cbn [firstn]. rewrite app_nil_r.
    now rewrite <- !app_assoc.
Qed.

Lemma updateScriptPaths_first_comment_witness :
  exists ws t,
    js "old/path.map " ++ (nl ++ js "b();") = referenceValue (js "old/path.map ") ++ ws ++ t
    /\ Forall space ws /\ atLineEnd t = true
    /\ (forall ws' t',
          js "old/path.map " ++ (nl ++ js "b();")
          = referenceValue (js "old/path.map ") ++ ws' ++ t' ->
          Forall space ws' -> atLineEnd t' = true ->
          List.length ws' <= List.length ws)
    /\ updateScriptPaths (Path.posix (js "/"))
         ((js "a();" ++ nl) ++ js "//" ++ [64%N] ++ js " sourceMappingURL="
          ++ js "old/path.map " ++ (nl ++ js "b();"))
         (urlWithPathname (Str (js "/maps/new.map")))
       = Normal ((js "a();" ++ nl) ++ js "//# sourceMappingURL="
                 ++ Path.path_basename (Path.posix (js "/")) (js "/maps/new.map") ++ t).
Proof.
  apply (updateScriptPaths_first_comment (Path.posix (js "/"))
           (js "a();" ++ nl) (js "old/path.map ") (nl ++ js "b();") 64%N
           (urlWithPathname (Str (js "/maps/new.map"))) (js "/maps/new.map")).
  - reflexivity.
  - discriminate.
  - repeat constructor.
  - reflexivity.
  - intros j Hj. do 5 (destruct j as [|j]; [reflexivity|]). simpl in Hj. lia.
  - reflexivity.
  - vm_compute. repeat constructor; discriminate.
Defined.

(** C4, as stated, fails when a blank line follows the comment: the line
    end of the comment is replaced with it, so the blank line is lost and
    the other lines are not all unchanged. *)
Lemma updateScriptPaths_blank_line_lost :
  updateScriptPaths (Path.posix (js "/"))
    (js "a();" ++ nl ++ js "//@ sourceMappingURL=old/path.map" ++ nl ++ nl ++ js "b();")
    (urlWithPathname (Str (js "/maps/new.map")))
  = Normal (js "a();" ++ nl ++ js "//# sourceMappingURL=new.map" ++ nl ++ js "b();")
  /\ js "a();" ++ nl ++ js "//# sourceMappingURL=new.map" ++ nl ++ js "b();"
     <> js "a();" ++ nl ++ js "//# sourceMappingURL=new.map" ++ nl ++ nl ++ js "b();".
Proof. split; [vm_compute; reflexivity | vm_compute; discriminate]. Qed.

(** ** Termination of [JSON.parse] *)

Section ParserTermination.

Import Json.

Lemma skipSpace_length (s : jsstring) :
  List.length (skipSpace s) <= List.length s.
Proof.
  induction s as [|c t IH]; [apply Nat.le_refl|].
  cbn [skipSpace]. destruct (isJsonSpace c); cbn [List.length]; lia.
Qed.

Lemma stripPrefix_length (p : jsstring) : forall s rest : jsstring,
  stripPrefix p s = Some rest -> List.length rest <= List.length s.
Proof.
  induction p as [|a p IH]; intros s rest H; cbn [stripPrefix] in H.
  - injection H as <-. apply Nat.le_refl.
  - destruct s as [|b s]; [discriminate|].
    destruct (N.eqb a b); [|discriminate].
    apply IH in H. cbn [List.length]. lia.
Qed.

Lemma parseString_length : forall (n : nat) (s str rest : jsstring),
  List.length s <= n ->
  parseString s = Some (str, rest) -> List.length rest <= List.length s.
Proof.
  induction n as [|n IH]; intros s str rest Hn H.
  - destruct s; [discriminate|]. cbn [List.length] in Hn. lia.
  - destruct s as [|c t]; [discriminate|].
    assert (Hcons : forall (x : codeunit) (u : jsstring),
              List.length u <= n ->
              match parseString u with
              | Some (str0, rest0) => Some (x :: str0, rest0)
              | None => None
              end = Some (str, rest) ->
              List.length rest <= List.length u).
    { intros x u Hu E. destruct (parseString u) as [[str0 rest0]|] eqn:Hp; [|discriminate].
      injection E as _ <-. exact (IH u str0 rest0 Hu Hp). }
    cbn [List.length] in Hn |- *. apply le_S_n in Hn.
    cbn [parseString] in H.
    destruct (N.eqb c 34). { injection H as _ <-. lia. }
    destruct (N.ltb c 32); [discriminate|].
    destruct (negb (N.eqb c 92)). { apply Hcons in H; lia. }
    destruct t as [|e t1]; [discriminate|]. cbn [List.length] in Hn |- *.
    assert (Ht1 : List.length t1 <= n) by lia.
    destruct (N.eqb e 34 || N.eqb e 92 || N.eqb e 47)%bool. { apply Hcons in H; lia. }
    destruct (N.eqb e 98). { apply Hcons in H; lia. }
    destruct (N.eqb e 102). { apply Hcons in H; lia. }
    destruct (N.eqb e 110). { apply Hcons in H; lia. }
    destruct (N.eqb e 114). { apply Hcons in H; lia. }
    destruct (N.eqb e 116). { apply Hcons in H; lia. }
    destruct (N.eqb e 117); [|discriminate].
    destruct t1 as [|h1 [|h2 [|h3 [|h4 t2]]]]; try discriminate.
    cbn [List.length] in Ht1 |- *.
    destruct (Url.hexValue h1), (Url.hexValue h2), (Url.hexValue h3),
             (Url.hexValue h4); try discriminate.
    apply Hcons in H; lia.
Qed.

Lemma skipn_length_le {A : Type} (n : nat) (l : list A) :
  List.length (skipn n l) <= List.length l.
Proof. rewrite length_skipn. lia. Qed.

Lemma tl_length_le {A : Type} (l : list A) : List.length (tl l) <= List.length l.
Proof. destruct l; cbn [tl List.length]; lia. Qed.

Lemma parseNumber_length (s : jsstring) (v : value) (rest : jsstring) :
  parseNumber s = Some (v, rest) -> List.length rest <= List.length s.
Proof.
  unfold parseNumber.
  set (neg := match s with c :: _ => N.eqb c 45 | [] => false end).
  set (s1 := if neg then tl s else s).
  assert (H1 : List.length s1 <= List.length s).
  { unfold s1. destruct neg; [apply tl_length_le | apply Nat.le_refl]. }
  set (int := match s1 with
              | c :: _ => if N.eqb c 48 then [c] else digitsPrefix s1
              | [] => []
              end).
  destruct int as [|i0 int']; [discriminate|].
  set (s2 := skipn (List.length (i0 :: int')) s1).
  assert (H2 : List.length s2 <= List.length s1) by apply skipn_length_le.
  set (frac := match s2 with
               | c :: t => if N.eqb c 46 then Some (digitsPrefix t) else None
               | [] => None
               end).
  assert (Hend : forall (fd : jsstring) (s3 : jsstring),
            List.length s3 <= List.length s2 ->
            match s3 with
            | c :: t =>
                if (N.eqb c 101 || N.eqb c 69)%bool then
                  let minus := match t with d :: _ => N.eqb d 45 | [] => false end in
                  let signed :=
                    match t with
                    | d :: _ => (N.eqb d 45 || N.eqb d 43)%bool
                    | [] => false
                    end in
                  let t := if signed then tl t else t in
                  match digitsPrefix t with
                  | [] => None
                  | ds =>
                      let e := digitsValue ds in
                      Some (JNumber (numberValue neg (i0 :: int') fd
                                       (if minus then (- e)%Z else e)),
                            skipn (List.length ds) t)
                  end
                else Some (JNumber (numberValue neg (i0 :: int') fd 0), s3)
            | [] => Some (JNumber (numberValue neg (i0 :: int') fd 0), s3)
            end = Some (v, rest) ->
            List.length rest <= List.length s).
  { intros fd s3 H3 H. destruct s3 as [|c t].
    - injection H as _ <-. lia.
    - destruct (N.eqb c 101 || N.eqb c 69)%bool.
      + cbv zeta in H.
        set (t' := if match t with
                      | d :: _ => (N.eqb d 45 || N.eqb d 43)%bool
                      | [] => false
                      end then tl t else t) in H.
        assert (Ht' : List.length t' <= List.length t).
        { unfold t'. destruct (match t with
                      | d :: _ => (N.eqb d 45 || N.eqb d 43)%bool
                      | [] => false
                      end); [apply tl_length_le | apply Nat.le_refl]. }
        destruct (digitsPrefix t') as [|d0 ds]; [discriminate|].
        injection H as _ <-.
        pose proof (skipn_length_le (List.length (d0 :: ds)) t').
        change (List.length (c :: t)) with (S (List.length t)) in H3.
        eapply Nat.le_trans; [exact H|lia].
      + injection H as _ <-. lia. }
  intros H. destruct frac as [[|f0 f]|].
  - discriminate.
  - apply (Hend _ _ (skipn_length_le _ _) H).
  - apply (Hend _ _ (Nat.le_refl _) H).
Qed.


Lemma parseMember_length (pv : jsstring -> parsed value) (s : jsstring)
    (kv : jsstring * value) (rest : jsstring) :
  shrinking pv ->
  parseMember pv s = Parsed kv rest -> List.length rest <= List.length s.
Proof.
  intros Hpv H. unfold parseMember in H.
  destruct s as [|q t]; [discriminate|].
  destruct (N.eqb q 34); [|discriminate].
  destruct (parseString t) as [[key r1]|] eqn:Hs; [|discriminate].
  apply (parseString_length _ _ _ _ (Nat.le_refl _)) in Hs.
  pose proof (skipSpace_length r1) as Hr1.
  destruct (skipSpace r1) as [|c r2]; [discriminate|].
  destruct (N.eqb c 58); [|discriminate].
  destruct (pv (skipSpace r2)) as [v r3| |] eqn:Hv; try discriminate.
  apply Hpv in Hv. injection H as _ <-.
  pose proof (skipSpace_length r2). pose proof (skipSpace_length r3).
  cbn [List.length] in *. lia.
Qed.

Lemma parseMember_fuel (pv : jsstring -> parsed value) (n : nat) (s : jsstring) :
  fuelled n pv -> List.length s <= n -> parseMember pv s <> OutOfFuel.
Proof.
  intros Hf Hn. unfold parseMember.
  destruct s as [|q t]; [discriminate|].
  destruct (N.eqb q 34); [|discriminate].
  destruct (parseString t) as [[key r1]|] eqn:Hs; [|discriminate].
  apply (parseString_length _ _ _ _ (Nat.le_refl _)) in Hs.
  pose proof (skipSpace_length r1) as Hr1.
  destruct (skipSpace r1) as [|c r2]; [discriminate|].
  destruct (N.eqb c 58); [|discriminate].
  pose proof (skipSpace_length r2).
  assert (Hlt : List.length (skipSpace r2) < n) by (cbn [List.length] in *; lia).
  apply Hf in Hlt.
  destruct (pv (skipSpace r2)); [discriminate|discriminate|contradiction].
Qed.

Lemma parseElements_length (pv : jsstring -> parsed value) :
  shrinking pv ->
  forall (fuel : nat) (acc : list value) (s : jsstring) (v : value) (rest : jsstring),
    parseElements pv fuel acc s = Parsed v rest ->
    List.length rest <= List.length s.
Proof.
  intros Hpv. induction fuel as [|fuel IH]; intros acc s v rest H; [discriminate|].
  cbn [parseElements] in H. destruct s as [|c t]; [discriminate|].
  destruct (N.eqb c 93). { injection H as _ <-. cbn [List.length]. lia. }
  destruct (N.eqb c 44); [|discriminate].
  destruct (pv (skipSpace t)) as [w r| |] eqn:Hv; try discriminate.
  apply Hpv in Hv. apply IH in H.
  pose proof (skipSpace_length t). pose proof (skipSpace_length r).
  cbn [List.length]. lia.
Qed.

Lemma parseElements_fuel (pv : jsstring -> parsed value) (n : nat) :
  shrinking pv -> fuelled n pv ->
  forall (fuel : nat) (acc : list value) (s : jsstring),
    List.length s < fuel -> List.length s <= n ->
    parseElements pv fuel acc s <> OutOfFuel.
Proof.
  intros Hpv Hf. induction fuel as [|fuel IH]; intros acc s Hfuel Hn; [lia|].
  cbn [parseElements]. destruct s as [|c t]; [discriminate|].
  destruct (N.eqb c 93); [discriminate|].
  destruct (N.eqb c 44); [|discriminate].
  pose proof (skipSpace_length t) as Ht. cbn [List.length] in Hfuel, Hn.
  assert (Hlt : List.length (skipSpace t) < n) by lia.
  apply Hf in Hlt.
  destruct (pv (skipSpace t)) as [w r| |] eqn:Hv; [|discriminate|contradiction].
  apply Hpv in Hv. pose proof (skipSpace_length r).
  apply IH; lia.
Qed.

Lemma parseMembers_length (pv : jsstring -> parsed value) :
  shrinking pv ->
  forall (fuel : nat) (acc : properties) (s : jsstring) (v : value) (rest : jsstring),
    parseMembers pv fuel acc s = Parsed v rest ->
    List.length rest <= List.length s.
Proof.
  intros Hpv. induction fuel as [|fuel IH]; intros acc s v rest H; [discriminate|].
  cbn [parseMembers] in H. destruct s as [|c t]; [discriminate|].
  destruct (N.eqb c 125). { injection H as _ <-. cbn [List.length]. lia. }
  destruct (N.eqb c 44); [|discriminate].
  destruct (parseMember pv (skipSpace t)) as [[k w] r| |] eqn:Hm; try discriminate.
  apply (parseMember_length pv _ _ _ Hpv) in Hm. apply IH in H.
  pose proof (skipSpace_length t). cbn [List.length]. lia.
Qed.

Lemma parseMembers_fuel (pv : jsstring -> parsed value) (n : nat) :
  shrinking pv -> fuelled n pv ->
  forall (fuel : nat) (acc : properties) (s : jsstring),
    List.length s < fuel -> List.length s <= n ->
    parseMembers pv fuel acc s <> OutOfFuel.
Proof.
  intros Hpv Hf. induction fuel as [|fuel IH]; intros acc s Hfuel Hn; [lia|].
  cbn [parseMembers]. destruct s as [|c t]; [discriminate|].
  destruct (N.eqb c 125); [discriminate|].
  destruct (N.eqb c 44); [|discriminate].
  pose proof (skipSpace_length t) as Ht. cbn [List.length] in Hfuel, Hn.
  assert (Hm : parseMember pv (skipSpace t) <> OutOfFuel)
    by (apply (parseMember_fuel pv n); [exact Hf|lia]).
  destruct (parseMember pv (skipSpace t)) as [[k w] r| |] eqn:Hv;
    [|discriminate|contradiction].
  apply (parseMember_length pv _ _ _ Hpv) in Hv.
  apply IH; lia.
Qed.

Lemma ofOption_fuel {A : Type} (o : option (A * jsstring)) : ofOption o <> OutOfFuel.
Proof. destruct o as [[a r]|]; discriminate. Qed.

Lemma parseValue_length : forall fuel : nat, shrinking (parseValue fuel).
Proof.
  induction fuel as [|fuel IH]; intros s v rest H; [discriminate|].
  cbn [parseValue] in H. destruct s as [|c t]; [discriminate|].
  pose proof (skipSpace_length t) as Ht. cbn [List.length].
  destruct (N.eqb c 123).
  { destruct (skipSpace t) as [|d t'] eqn:Hsp; [discriminate|].
    destruct (N.eqb d 125). { injection H as _ <-. cbn [List.length] in Ht. lia. }
    destruct (parseMember (parseValue fuel) (d :: t')) as [[k w] r| |] eqn:Hm;
      try discriminate.
    apply (parseMember_length _ _ _ _ IH) in Hm.
    apply (parseMembers_length _ IH) in H. lia. }
  destruct (N.eqb c 91).
  { destruct (skipSpace t) as [|d t'] eqn:Hsp; [discriminate|].
    destruct (N.eqb d 93). { injection H as _ <-. cbn [List.length] in Ht. lia. }
    destruct (parseValue fuel (d :: t')) as [w r| |] eqn:Hv; try discriminate.
    apply IH in Hv. apply (parseElements_length _ IH) in H.
    pose proof (skipSpace_length r). lia. }
  destruct (N.eqb c 34).
  { destruct (parseString t) as [[str r]|] eqn:Hs; [|discriminate].
    apply (parseString_length _ _ _ _ (Nat.le_refl _)) in Hs.
    injection H as _ <-. lia. }
  change (S (List.length t)) with (List.length (c :: t)).
  destruct (stripPrefix (js "true") (c :: t)) as [r1|] eqn:H1.
  { injection H as _ <-. now apply stripPrefix_length in H1. }
  destruct (stripPrefix (js "false") (c :: t)) as [r2|] eqn:H2.
  { injection H as _ <-. now apply stripPrefix_length in H2. }
  destruct (stripPrefix (js "null") (c :: t)) as [r3|] eqn:H3.
  { injection H as _ <-. now apply stripPrefix_length in H3. }
  destruct (parseNumber (c :: t)) as [[w r]|] eqn:Hn; [|discriminate].
  cbn [ofOption] in H. injection H as _ <-. now apply parseNumber_length in Hn.
Qed.

(** The fuel that [JSON.parse] gives to [parseValue] is enough: the
    recursion ends because every call is on a shorter text. *)
Lemma parseValue_fuel : forall fuel : nat, fuelled fuel (parseValue fuel).
Proof.
  induction fuel as [|fuel IH]; intros s Hs; [lia|].
  cbn [parseValue]. destruct s as [|c t]; [discriminate|].
  pose proof (skipSpace_length t) as Ht. cbn [List.length] in Hs.
  pose proof (parseValue_length fuel) as Hsh.
  destruct (N.eqb c 123).
  { destruct (skipSpace t) as [|d t'] eqn:Hsp; [discriminate|].
    destruct (N.eqb d 125); [discriminate|].
    assert (Hm : parseMember (parseValue fuel) (d :: t') <> OutOfFuel)
      by (apply (parseMember_fuel _ fuel); [exact IH|lia]).
    destruct (parseMember (parseValue fuel) (d :: t')) as [[k w] r| |] eqn:Hv;
      [|discriminate|contradiction].
    apply (parseMember_length _ _ _ _ Hsh) in Hv.
    apply (parseMembers_fuel _ fuel Hsh IH); lia. }
  destruct (N.eqb c 91).
  { destruct (skipSpace t) as [|d t'] eqn:Hsp; [discriminate|].
    destruct (N.eqb d 93); [discriminate|].
    assert (Hm : parseValue fuel (d :: t') <> OutOfFuel) by (apply IH; lia).
    destruct (parseValue fuel (d :: t')) as [w r| |] eqn:Hv;
      [|discriminate|contradiction].
    apply Hsh in Hv. pose proof (skipSpace_length r).
    apply (parseElements_fuel _ fuel Hsh IH); lia. }
  destruct (N.eqb c 34).
  { destruct (parseString t) as [[str r]|]; discriminate. }
  destruct (stripPrefix (js "true") (c :: t)); [discriminate|].
  destruct (stripPrefix (js "false") (c :: t)); [discriminate|].
  destruct (stripPrefix (js "null") (c :: t)); [discriminate|].
  apply ofOption_fuel.
Qed.

Lemma parse_fuel (text : jsstring) :
  parseValue (S (List.length text)) (skipSpace text) <> OutOfFuel.
Proof.
  apply parseValue_fuel. pose proof (skipSpace_length text). lia.
Qed.


Lemma parseMember_more (pv1 pv2 : jsstring -> parsed value) (s : jsstring) :
  extends pv1 pv2 ->
  parseMember pv1 s <> OutOfFuel -> parseMember pv2 s = parseMember pv1 s.
Proof.
  intros He. unfold parseMember.
  destruct s as [|q t]; [reflexivity|].
  destruct (N.eqb q 34); [|reflexivity].
  destruct (parseString t) as [[key r1]|]; [|reflexivity].
  destruct (skipSpace r1) as [|c r2]; [reflexivity|].
  destruct (N.eqb c 58); [|reflexivity].
  intros H. rewrite (He (skipSpace r2)); [reflexivity|].
  intros E. rewrite E in H. now apply H.
Qed.

Lemma parseElements_more (pv1 pv2 : jsstring -> parsed value) :
  extends pv1 pv2 ->
  forall (fuel1 fuel2 : nat) (acc : list value) (s : jsstring),
    fuel1 <= fuel2 ->
    parseElements pv1 fuel1 acc s <> OutOfFuel ->
    parseElements pv2 fuel2 acc s = parseElements pv1 fuel1 acc s.
Proof.
  intros He. induction fuel1 as [|fuel1 IH]; intros fuel2 acc s Hle H;
    [now elim H|].
  destruct fuel2 as [|fuel2]; [lia|]. apply le_S_n in Hle.
  cbn [parseElements] in H |- *. destruct s as [|c t]; [reflexivity|].
  destruct (N.eqb c 93); [reflexivity|].
  destruct (N.eqb c 44); [|reflexivity].
  rewrite (He (skipSpace t)).
  - destruct (pv1 (skipSpace t)) as [w r| |]; [|reflexivity|reflexivity].
    now apply IH.
  - intros E. rewrite E in H. now apply H.
Qed.

Lemma parseMembers_more (pv1 pv2 : jsstring -> parsed value) :
  extends pv1 pv2 ->
  forall (fuel1 fuel2 : nat) (acc : properties) (s : jsstring),
    fuel1 <= fuel2 ->
    parseMembers pv1 fuel1 acc s <> OutOfFuel ->
    parseMembers pv2 fuel2 acc s = parseMembers pv1 fuel1 acc s.
Proof.
  intros He. induction fuel1 as [|fuel1 IH]; intros fuel2 acc s Hle H;
    [now elim H|].
  destruct fuel2 as [|fuel2]; [lia|]. apply le_S_n in Hle.
  cbn [parseMembers] in H |- *. destruct s as [|c t]; [reflexivity|].
  destruct (N.eqb c 125); [reflexivity|].
  destruct (N.eqb c 44); [|reflexivity].
  rewrite (parseMember_more pv1 pv2 (skipSpace t) He).
  - destruct (parseMember pv1 (skipSpace t)) as [[k w] r| |];
      [|reflexivity|reflexivity].
    now apply IH.
  - intros E. rewrite E in H. now apply H.
Qed.

(** With more fuel [parseValue] gives the same result. *)
Lemma parseValue_more : forall fuel1 fuel2 : nat,
  fuel1 <= fuel2 -> extends (parseValue fuel1) (parseValue fuel2).
Proof.
  induction fuel1 as [|fuel1 IH]; intros fuel2 Hle s H; [now elim H|].
  destruct fuel2 as [|fuel2]; [lia|]. apply le_S_n in Hle.
  specialize (IH fuel2 Hle).
  cbn [parseValue] in H |- *. destruct s as [|c t]; [reflexivity|].
  destruct (N.eqb c 123).
  { destruct (skipSpace t) as [|d t']; [reflexivity|].
    destruct (N.eqb d 125); [reflexivity|].
    rewrite (parseMember_more _ _ (d :: t') IH).
    - destruct (parseMember (parseValue fuel1) (d :: t')) as [[k w] r| |];
        [|reflexivity|reflexivity].
      now apply parseMembers_more.
    - intros E. rewrite E in H. now apply H. }
  destruct (N.eqb c 91).
  { destruct (skipSpace t) as [|d t']; [reflexivity|].
    destruct (N.eqb d 93); [reflexivity|].
    rewrite (IH (d :: t')).
    - destruct (parseValue fuel1 (d :: t')) as [w r| |]; [|reflexivity|reflexivity].
      now apply parseElements_more.
    - intros E. rewrite E in H. now apply H. }
  reflexivity.
Qed.

(** The result of [JSON.parse] is that of [parseValue] with any larger
    amount of fuel: no text is rejected for lack of fuel. *)
Lemma parse_any_fuel (text : jsstring) (fuel : nat) :
  List.length text < fuel ->
  parseValue fuel (skipSpace text)
  = parseValue (S (List.length text)) (skipSpace text)
  /\ parseValue fuel (skipSpace text) <> OutOfFuel.
Proof.
  intros H.
  assert (E : parseValue fuel (skipSpace text)
              = parseValue (S (List.length text)) (skipSpace text)).
  { apply parseValue_more; [lia | apply parse_fuel]. }
  split; [exact E|]. rewrite E. apply parse_fuel.
Qed.

End ParserTermination.

(** ** The normalizer *)

Section Properties.

Lemma eqb_refl (s : jsstring) : JS.eqb s s = true.
Proof. induction s as [|c s IH]; simpl; [reflexivity|]. now rewrite N.eqb_refl. Qed.

Lemma eqb_eq (s t : jsstring) : JS.eqb s t = true <-> s = t.
Proof.
  split; [|intros ->; apply eqb_refl].
  revert t. induction s as [|a s IH]; intros [|b t]; simpl; try discriminate; auto.
  intros H. apply andb_true_iff in H. destruct H as [H1 H2].
  apply N.eqb_eq in H1. apply IH in H2. now subst.
Qed.

Lemma eqb_neq (s t : jsstring) : JS.eqb s t = false <-> s <> t.
Proof.
  split.
  - intros H ->. rewrite eqb_refl in H. discriminate.
  - intros H. destruct (JS.eqb s t) eqn:E; [|reflexivity].
    apply eqb_eq in E. contradiction.
Qed.

Lemma eqb_trans_false (k key key' : jsstring) :
  JS.eqb k key = true -> JS.eqb key key' = false -> JS.eqb k key' = false.
Proof. intros H1 H2. apply eqb_eq in H1. now subst. Qed.

Lemma get_set_same (key : jsstring) (v : Json.value) (ps : Json.properties) :
  Json.get key (Json.set key v ps) = Some v.
Proof.
  induction ps as [|[k w] ps IH]; simpl.
  - now rewrite eqb_refl.
  - destruct (JS.eqb k key) eqn:E; simpl; now rewrite E.
Qed.

Lemma get_set_other (key key' : jsstring) (v : Json.value) (ps : Json.properties) :
  JS.eqb key key' = false ->
  Json.get key' (Json.set key v ps) = Json.get key' ps.
Proof.
  intros Hne. induction ps as [|[k w] ps IH]; simpl.
  - now rewrite Hne.
  - destruct (JS.eqb k key) eqn:E; simpl.
    + now rewrite (eqb_trans_false k key key' E Hne).
    + now rewrite IH.
Qed.

Lemma get_delete_same (key : jsstring) (ps : Json.properties) :
  Json.get key (Json.delete key ps) = None.
Proof.
  induction ps as [|[k w] ps IH]; simpl; [reflexivity|].
  destruct (JS.eqb k key) eqn:E; simpl; [exact IH | now rewrite E].
Qed.

Lemma get_delete_other (key key' : jsstring) (ps : Json.properties) :
  JS.eqb key key' = false ->
  Json.get key' (Json.delete key ps) = Json.get key' ps.
Proof.
  intros Hne. induction ps as [|[k w] ps IH]; simpl; [reflexivity|].
  destruct (JS.eqb k key) eqn:E; simpl.
  - now rewrite (eqb_trans_false k key key' E Hne).
  - now rewrite IH.
Qed.

Lemma get_In (key : jsstring) (v : Json.value) (ps : Json.properties) :
  Json.get key ps = Some v -> In (key, v) ps.
Proof.
  induction ps as [|[k w] ps IH]; simpl; [discriminate|].
  destruct (JS.eqb k key) eqn:E.
  - intros H. injection H as <-. apply eqb_eq in E. subst. now left.
  - intros H. right. now apply IH.
Qed.

End Properties.

Section Enumeration.

Context {A : Type}.

Lemma insertIndexed_In (i : Z) (p q : jsstring * A) (ps : list (Z * (jsstring * A))) :
  In q (List.map snd (Json.insertIndexed i p ps)) <->
  q = p \/ In q (List.map snd ps).
Proof.
  induction ps as [|[j r] ps IH]; simpl.
  - intuition.
  - destruct (i <? j)%Z; simpl; [intuition|]. rewrite IH. intuition.
Qed.

Lemma enumerate_In (p : jsstring * A) (ps : list (jsstring * A)) :
  In p ps -> In p (Json.enumerate ps).
Proof.
  intros H. unfold Json.enumerate. apply in_or_app.
  destruct (Json.arrayIndex (fst p)) as [i|] eqn:E.
  - left.
    assert (G : forall (l : list (jsstring * A)) acc,
      In p l \/ In p (List.map snd acc) ->
      In p (List.map snd
        (fold_left (fun acc p =>
           match Json.arrayIndex (fst p) with
           | Some i => Json.insertIndexed i p acc
           | None => acc
           end) l acc))).
    { induction l as [|q l IH]; intros acc [Hin|Hin]; simpl; auto.
      - destruct Hin.
      - destruct Hin as [->|Hin].
        + apply IH. right. rewrite E. apply insertIndexed_In. now left.
        + apply IH. now left.
      - apply IH. right. destruct (Json.arrayIndex (fst q)); [|exact Hin].
        apply insertIndexed_In. now right. }
    apply G. now left.
  - right. apply filter_In. split; [exact H|]. now rewrite E.
Qed.

End Enumeration.

Section Normalizer.

Variable path : Path.PathModule.

Lemma serialized_In (key : jsstring) (v : Json.value) (ps : Json.properties) :
  In (key, v) ps ->
  In (key, Json.stringify v)
    ((fix serialized (ps : Json.properties) : list (jsstring * jsstring) :=
        match ps with
        | [] => []
        | (k, w) :: ps' => (k, Json.stringify w) :: serialized ps'
        end) ps).
Proof.
  induction ps as [|[k w] ps IH]; simpl; [auto|].
  intros [H|H]; [left; now injection H as -> -> | right; auto].
Qed.

Lemma stringify_object (ps : Json.properties) :
  Json.stringify (Json.JObject ps) = js "{" ++ Json.joinComma (members ps) ++ js "}".
Proof. reflexivity. Qed.

Lemma members_In (key : jsstring) (v : Json.value) (ps : Json.properties) :
  Json.get key ps = Some v ->
  In (Json.quote key ++ js ":" ++ Json.stringify v) (members ps).
Proof.
  intros H. unfold members.
  apply (in_map (fun p => Json.quote (fst p) ++ js ":" ++ snd p) _
           (key, Json.stringify v)).
  apply enumerate_In, serialized_In, get_In, H.
Qed.

Lemma mapElements_strings (root : jsstring) :
  forall es srcs, strings es = Some srcs ->
  mapElements (fun sourcePath => updateSourceMapPath path sourcePath root) es
  = Normal (List.map (fun s => Json.JString (normalizedSource path root s)) srcs).
Proof.
  induction es as [|e es IH]; simpl; intros srcs H.
  - now injection H as <-.
  - destruct e; try discriminate.
    destruct (strings es) as [r|]; [|discriminate]. injection H as <-.
    rewrite (IH r eq_refl). reflexivity.
Qed.

Lemma mapElements_not_strings (root : jsstring) :
  forall es, strings es = None ->
  mapElements (fun sourcePath => updateSourceMapPath path sourcePath root) es
  = Throw TypeError.
Proof.
  induction es as [|e es IH]; simpl; intros H; [discriminate|].
  destruct e; try reflexivity.
  destruct (strings es) as [r|]; [discriminate|].
  now rewrite (IH eq_refl).
Qed.

Lemma updateSourceMapFile_document
    (body scriptPath root : jsstring) (ps : Json.properties) (srcs : list jsstring) :
  sourceMapDocument body = Some (ps, srcs) ->
  updateSourceMapFile path body scriptPath root
  = Normal (Json.stringify (Json.JObject (normalized path ps srcs scriptPath root))).
Proof.
  unfold sourceMapDocument, updateSourceMapFile.
  destruct (Json.parse body) as [[| | | | |ps0]|]; try discriminate.
  cbn [bind member].
  destruct (Json.get (js "sources") ps0) as [[| | | |es|]|]; try discriminate.
  destruct (strings es) as [srcs0|] eqn:Hs; [|discriminate].
  intros H. injection H as <- <-.
  cbn [arrayMap bind]. rewrite (mapElements_strings root es srcs0 Hs).
  reflexivity.
Qed.

Lemma updateSourceMapFile_not_document (body scriptPath root : jsstring) :
  sourceMapDocument body = None ->
  updateSourceMapFile path body scriptPath root = Normal body.
Proof.
  unfold sourceMapDocument, updateSourceMapFile.
  destruct (Json.parse body) as [[| | | | |ps0]|]; try reflexivity.
  cbn [bind member].
  destruct (Json.get (js "sources") ps0) as [[| | | |es|]|]; try reflexivity.
  destruct (strings es) as [srcs0|] eqn:Hs; [discriminate|].
  intros _. cbn [arrayMap bind]. now rewrite (mapElements_not_strings root es Hs).
Qed.

End Normalizer.

(** ** The separators of a normalized path *)

Section Separators.

Import Path.

Lemma split_in (sep : codeunit) : forall (s seg : jsstring) (c : codeunit),
  In seg (split sep s) -> In c seg -> In c s /\ c <> sep.
Proof.
  induction s as [|a s IH]; intros seg c Hseg Hc.
  - destruct Hseg as [<-|[]]. destruct Hc.
  - cbn [split] in Hseg. destruct (N.eqb a sep) eqn:Ha.
    + destruct Hseg as [<-|Hseg]; [destruct Hc|].
      destruct (IH seg c Hseg Hc) as [H1 H2]. split; [now right|exact H2].
    + apply N.eqb_neq in Ha.
      destruct (split sep s) as [|seg0 segs] eqn:Hsp.
      * destruct Hseg as [<-|[]]. destruct Hc as [<-|[]]. split; [now left|exact Ha].
      * destruct Hseg as [<-|Hseg].
        -- destruct Hc as [<-|Hc]; [split; [now left|exact Ha]|].
           destruct (IH seg0 c (or_introl eq_refl) Hc) as [H1 H2].
           split; [now right|exact H2].
        -- destruct (IH seg c (or_intror Hseg) Hc) as [H1 H2].
           split; [now right|exact H2].
Qed.

Lemma joinSlash_in : forall (parts : list jsstring) (c : codeunit),
  In c (joinSlash parts) -> c = slash \/ exists p, In p parts /\ In c p.
Proof.
  induction parts as [|p ps IH]; intros c H; [destruct H|].
  cbn [joinSlash] in H. destruct ps as [|q ps].
  - right. exists p. split; [now left|exact H].
  - apply in_app_or in H. destruct H as [H|[H|H]].
    + right. exists p. split; [now left|exact H].
    + now left.
    + destruct (IH c H) as [Hs|[r [Hr Hc]]]; [now left|].
      right. exists r. split; [now right|exact Hc].
Qed.

Lemma normalizeArrayFrom_in (allowAboveRoot : bool) :
  forall (parts res : list jsstring) (p : jsstring),
  In p (normalizeArrayFrom allowAboveRoot res parts) -> In p res \/ In p parts.
Proof.
  induction parts as [|q parts IH]; intros res p H; cbn [normalizeArrayFrom] in H.
  - left. now apply in_rev.
  - assert (Hstep : forall res',
              (forall x, In x res' -> In x res \/ x = q) ->
              In p (normalizeArrayFrom allowAboveRoot res' parts) ->
              In p res \/ In p (q :: parts)).
    { intros res' Hres' Hp. destruct (IH res' p Hp) as [Hin|Hin].
      - destruct (Hres' p Hin) as [Hr | ->]; [now left|right; now left].
      - right. now right. }
    destruct (JS.eqb q [] || JS.eqb q dot)%bool.
    { apply (Hstep res); [intros x Hx; now left|exact H]. }
    destruct (JS.eqb q dotdot) eqn:Hq.
    + apply eqb_eq in Hq. subst q.
      destruct res as [|last res'].
      * destruct allowAboveRoot.
        -- apply (Hstep [dotdot]); [|exact H].
           intros x [<-|[]]. now right.
        -- apply (Hstep []); [intros x []|exact H].
      * destruct (negb (JS.eqb last dotdot)).
        -- apply (Hstep res'); [|exact H]. intros x Hx. left. now right.
        -- destruct allowAboveRoot.
           ++ apply (Hstep (dotdot :: last :: res')); [|exact H].
              intros x [<-|Hx]; [now right|now left].
           ++ apply (Hstep (last :: res')); [|exact H]. intros x Hx. now left.
    + apply (Hstep (q :: res)); [|exact H].
      intros x [<-|Hx]; [now right|now left].
Qed.

Lemma normalize_in (p : jsstring) (c : codeunit) :
  In c (normalize p) -> c = slash \/ c = 46%N \/ In c p.
Proof.
  unfold normalize.
  set (q0 := joinSlash (normalizeArray (split slash p) (negb (isAbsolute p)))).
  assert (H0 : In c q0 -> c = slash \/ c = 46%N \/ In c p).
  { intros H. apply joinSlash_in in H. destruct H as [H|[seg [Hseg Hc]]]; [now left|].
    apply normalizeArrayFrom_in in Hseg. destruct Hseg as [[]|Hseg].
    right. right. exact (proj1 (split_in slash p seg c Hseg Hc)). }
  set (q1 := match q0 with [] => if isAbsolute p then [] else dot | _ => q0 end).
  assert (H1 : In c q1 -> c = slash \/ c = 46%N \/ In c p).
  { unfold q1. destruct q0 as [|a q0'].
    - destruct (isAbsolute p); [intros []|]. intros [<-|[]]. right. now left.
    - exact H0. }
  set (q2 := match q1 with
             | [] => q1
             | _ => if endsWithSlash p then q1 ++ [slash] else q1
             end).
  assert (H2 : In c q2 -> c = slash \/ c = 46%N \/ In c p).
  { unfold q2. destruct q1 as [|a q1']; [intros []|].
    destruct (endsWithSlash p); [|exact H1].
    intros H. apply in_app_or in H. destruct H as [H|[<-|[]]]; [now apply H1|now left]. }
  destruct (isAbsolute p); [|exact H2].
  intros [<-|H]; [now left|now apply H2].
Qed.

Lemma join_in (args : list jsstring) (c : codeunit) :
  In c (join args) ->
  c = slash \/ c = 46%N \/ exists a, In a args /\ In c a.
Proof.
  unfold join. intros H. apply normalize_in in H.
  destruct H as [H|[H|H]]; [now left|right; now left|].
  apply joinSlash_in in H. destruct H as [H|[a [Ha Hc]]]; [now left|].
  apply filter_In in Ha. right. right. exists a. split; [apply Ha|exact Hc].
Qed.

(** The characters of a path made by [makeUnixStylePath] are slashes,
    dots and characters of the given path other than the separator of the
    platform. *)
Lemma makeUnixStylePath_in (path : PathModule) (p : jsstring) (c : codeunit) :
  In c (makeUnixStylePath path p) ->
  c = slash \/ c = 46%N \/ (In c p /\ c <> sep path).
Proof.
  unfold makeUnixStylePath. intros H. apply join_in in H.
  destruct H as [H|[H|[a [Ha Hc]]]]; [now left|right; now left|].
  right. right. exact (split_in (sep path) p a c Ha Hc).
Qed.

(** On a platform whose separator is not the slash (the backslash of
    Windows), no separator of the platform is left. *)
Lemma makeUnixStylePath_no_separator (path : PathModule) (p : jsstring) :
  sep path <> slash -> sep path <> 46%N ->
  ~ In (sep path) (makeUnixStylePath path p).
Proof.
  intros Hs Hd H. apply makeUnixStylePath_in in H.
  destruct H as [H|[H|[_ H]]]; [now apply Hs|now apply Hd|now apply H].
Qed.

End Separators.

(** The four members that the normalizer assigns or deletes. *)
Lemma normalized_fields
    (path : Path.PathModule) (ps : Json.properties) (srcs : list jsstring)
    (scriptPath root : jsstring) :
  Json.get (js "sources") (normalized path ps srcs scriptPath root)
  = Some (Json.JArray
            (List.map (fun s =>
               Json.JString
                 (Path.join (Path.split (Path.sep path)
                               (Path.path_relative path root s)))) srcs))
  /\ Json.get (js "sourcesContent") (normalized path ps srcs scriptPath root) = None
  /\ Json.get (js "sourceRoot") (normalized path ps srcs scriptPath root)
     = Some (Json.JString [])
  /\ Json.get (js "file") (normalized path ps srcs scriptPath root)
     = Some (Json.JString scriptPath).
Proof.
  repeat split.
  - unfold normalized.
    rewrite 2 get_set_other, get_delete_other by reflexivity.
    apply get_set_same.
  - unfold normalized.
    rewrite 2 get_set_other by reflexivity. apply get_delete_same.
  - unfold normalized. rewrite get_set_other by reflexivity. apply get_set_same.
  - apply get_set_same.
Qed.

(** The normalizer on a source map of a packager. *)
Lemma updateSourceMapFile_example :
  updateSourceMapFile (Path.posix (js "/home/u")) exampleMap
    (js "/out/index.js") (js "/proj/src")
  = Normal (json "{'version':3,'sources':['app/index.js','../../other/lib.js'],'names':['a'],'mappings':'AAAA','sourceRoot':'','x_extra':{'k':[1,2.5]},'file':'/out/index.js'}").
Proof. vm_compute. reflexivity. Qed.

(** C3.  For a text that does not parse as a source-map document (it is
    not a JSON text, or not the text of an object, or the object has no
    array of strings [sources]), [updateSourceMapFile] returns the text
    itself and raises nothing. *)
Theorem updateSourceMapFile_unparsable
    (path : Path.PathModule) (body scriptPath root : jsstring) :
  sourceMapDocument body = None ->
  updateSourceMapFile path body scriptPath root = Normal body.
Proof. apply updateSourceMapFile_not_document. Qed.

Lemma updateSourceMapFile_unparsable_witness :
  updateSourceMapFile (Path.posix (js "/home/u"))
    (json "{'version':3,'sources':['/proj/src/a.js'") (js "/out/index.js") (js "/proj/src")
  = Normal (json "{'version':3,'sources':['/proj/src/a.js'").
Proof.
  apply (updateSourceMapFile_unparsable (Path.posix (js "/home/u"))).
  vm_compute. reflexivity.
Defined.

(** A malformed text, a text that is not an object and an object without
    sources are such texts. *)
Lemma not_documents :
  sourceMapDocument (json "{'sources':[}") = None
  /\ sourceMapDocument (json "[1,2]") = None
  /\ sourceMapDocument (json "null") = None
  /\ sourceMapDocument (json "{'version':3}") = None
  /\ sourceMapDocument (json "{'sources':['a.js',1]}") = None.
Proof. repeat split; vm_compute; reflexivity. Qed.

(** C9 (amended).  [updateSourceMapFile] raises nothing, whatever its
    input; [updateScriptPaths] raises nothing when the pathname of the new
    location is a string; [getSourceMapURL] raises only what [url.parse]
    or [url.format] raise on the reference value that the locator found
    (and nothing when it found none). *)
Theorem exceptions_of_operations :
  (forall path body scriptPath root,
     exists s, updateSourceMapFile path body scriptPath root = Normal s)
  /\ (forall path body u base,
        Url.pathname u = Str base ->
        exists s, updateScriptPaths path body u = Normal s)
  /\ (forall url scriptUrl body e,
        getSourceMapURL url scriptUrl body = Throw e ->
        exists ref,
          getSourceMapRelativeUrl body = Str ref
          /\ (Url.url_parse url ref = Throw e
              \/ exists u,
                   Url.url_parse url ref = Normal u
                   /\ (Url.url_format url
                         (withProtocolAndHost u (Url.protocol scriptUrl)
                            (Url.host scriptUrl)) = Throw e
                       \/ exists href,
                            Url.url_format url
                              (withProtocolAndHost u (Url.protocol scriptUrl)
                                 (Url.host scriptUrl)) = Normal href
                            /\ Url.url_parse url href = Throw e))).
Proof.
  split; [|split].
  - intros path body scriptPath root. unfold updateSourceMapFile, try_catch.
    match goal with |- exists s, match ?c with _ => _ end = _ => destruct c end;
      eexists; reflexivity.
  - intros path body u base H. unfold updateScriptPaths. rewrite H.
    eexists. reflexivity.
  - intros url scriptUrl body e. unfold getSourceMapURL.
    destruct (getSourceMapRelativeUrl body) as [| |[|c ref]]; try discriminate.
    cbn [truthy Url.strOr]. exists (c :: ref). split; [reflexivity|].
    destruct (Url.url_parse url (c :: ref)) as [u|e1]; cbn [bind] in *.
    + right. exists u. split; [reflexivity|].
      destruct (Url.url_format url _) as [href|e2]; cbn [bind] in *.
      * right. exists href. split; [reflexivity|].
        destruct (Url.url_parse url href); cbn [bind] in *; congruence.
      * left. congruence.
    + left. congruence.
Qed.

Lemma exceptions_of_operations_witness :
  exists s,
    updateScriptPaths (Path.posix (js "/")) (js "a();")
      (urlWithPathname (Str (js "/maps/new.map"))) = Normal s.
Proof.
  apply (proj1 (proj2 exceptions_of_operations) (Path.posix (js "/")) (js "a();")
           (urlWithPathname (Str (js "/maps/new.map"))) (js "/maps/new.map")).
  reflexivity.
Defined.

(** C9, as stated, fails: [getSourceMapURL] raises the [URIError] of
    [url.parse] on a reference value whose user information is not
    percent-encoded text. *)
Lemma getSourceMapURL_raises :
  getSourceMapRelativeUrl (js "//# sourceMappingURL=http://%@cdn/x.map")
  = Str (js "http://%@cdn/x.map")
  /\ getSourceMapURL nodeUrl bundleUrl (js "//# sourceMappingURL=http://%@cdn/x.map")
     = Throw URIError.
Proof. split; vm_compute; reflexivity. Qed.

(** ** Paths *)

Section PathLemmas.

Import Path.

Lemma split_nonempty (sep : codeunit) (s : jsstring) : split sep s <> [].
Proof.
  destruct s as [|c s]; simpl; [discriminate|].
  destruct (N.eqb c sep); [discriminate|]. destruct (split sep s); discriminate.
Qed.

Lemma split_app_sep (sep : codeunit) (a b : jsstring) :
  split sep (a ++ sep :: b) = split sep a ++ split sep b.
Proof.
  induction a as [|c a IH]; simpl.
  - now rewrite N.eqb_refl.
  - destruct (N.eqb c sep); [now rewrite IH|].
    rewrite IH. pose proof (split_nonempty sep a).
    destruct (split sep a); [contradiction | reflexivity].
Qed.

Lemma split_slashFree (p : jsstring) : slashFree p -> split slash p = [p].
Proof.
  unfold slashFree. induction p as [|c p IH]; simpl; [reflexivity|].
  intros H. apply andb_true_iff in H. destruct H as [Hc Hp].
  unfold isSlash in Hc. destruct (N.eqb c slash); [discriminate|].
  now rewrite (IH Hp).
Qed.

Lemma split_all_slashFree (s : jsstring) : Forall slashFree (split slash s).
Proof.
  induction s as [|c s IH]; simpl.
  - repeat constructor.
  - destruct (N.eqb c slash) eqn:E; [constructor; [reflexivity | exact IH]|].
    destruct (split slash s) as [|seg segs]; [repeat constructor; unfold slashFree; simpl; unfold isSlash; now rewrite E|].
    inversion IH; subst. constructor; [|assumption].
    unfold slashFree in *. simpl. unfold isSlash at 1. now rewrite E.
Qed.

Lemma split_joinSlash (segs : list jsstring) :
  segs <> [] -> Forall slashFree segs -> split slash (joinSlash segs) = segs.
Proof.
  induction segs as [|p segs IH]; [congruence|]. intros _ H.
  inversion H as [|? ? Hp Hsegs]; subst.
  destruct segs as [|q segs]; [now apply split_slashFree|].
  change (joinSlash (p :: q :: segs)) with (p ++ slash :: joinSlash (q :: segs)).
  rewrite split_app_sep, (split_slashFree p Hp), IH; [reflexivity | discriminate | assumption].
Qed.

Lemma normalizeArrayFrom_app (a : bool) : forall xs res ys,
  normalizeArrayFrom a res (xs ++ ys) =
  normalizeArrayFrom a (rev (normalizeArrayFrom a res xs)) ys.
Proof.
  induction xs as [|p xs IH]; intros res ys; simpl.
  - now rewrite rev_involutive.
  - destruct (JS.eqb p [] || JS.eqb p dot)%bool; [apply IH|].
    destruct (JS.eqb p dotdot); [|apply IH].
    destruct res as [|last res]; [destruct a; apply IH|].
    destruct (negb (JS.eqb last dotdot)); [apply IH|]. destruct a; apply IH.
Qed.

Lemma normalizeArrayFrom_segments (a : bool) : forall T res,
  Forall segment T -> normalizeArrayFrom a res T = rev res ++ T.
Proof.
  induction T as [|p T IH]; intros res H; simpl.
  - now rewrite app_nil_r.
  - inversion H as [|? ? (H1 & H2 & H3 & _) HT]; subst.
    rewrite H1, H2, H3. cbn [orb]. rewrite (IH _ HT). simpl.
    now rewrite <- app_assoc.
Qed.

Lemma normalizeArrayFrom_dot (a : bool) (res : list jsstring) :
  normalizeArrayFrom a res [dot; []] = rev res.
Proof. reflexivity. Qed.

Lemma normalizeArrayFrom_empty (a : bool) (res : list jsstring) :
  normalizeArrayFrom a res [[]] = rev res.
Proof. reflexivity. Qed.

(** [..] segments remove as many segments of the result so far. *)
Lemma normalizeArrayFrom_up : forall F C ys,
  Forall segment F ->
  normalizeArrayFrom false (rev (C ++ F)) (List.repeat dotdot (List.length F) ++ ys)
  = normalizeArrayFrom false (rev C) ys.
Proof.
  induction F as [|f F IH] using rev_ind; intros C ys H.
  - now rewrite app_nil_r.
  - apply Forall_app in H. destruct H as [HF Hf].
    inversion Hf as [|? ? (H1 & H2 & H3 & _) _]; subst.
    rewrite length_app, Nat.add_comm. cbn [List.length Nat.add List.repeat app].
    rewrite app_assoc, rev_app_distr. cbn [rev app].
    cbn [normalizeArrayFrom]. change (JS.eqb dotdot []) with false.
    change (JS.eqb dotdot dot) with false. change (JS.eqb dotdot dotdot) with true.
    cbn [orb]. rewrite H3. cbn [negb]. now apply IH.
Qed.

(** Leading [..] segments of a relative path stay. *)
Lemma normalizeArrayFrom_dots : forall n k ys,
  normalizeArrayFrom true (List.repeat dotdot k) (List.repeat dotdot n ++ ys)
  = normalizeArrayFrom true (List.repeat dotdot (n + k)) ys.
Proof.
  induction n as [|n IH]; intros k ys; [reflexivity|].
  cbn [List.repeat app normalizeArrayFrom]. change (JS.eqb dotdot []) with false.
  change (JS.eqb dotdot dot) with false. change (JS.eqb dotdot dotdot) with true.
  cbn [orb]. replace (S n + k) with (n + S k) by lia.
  destruct k as [|k].
  - cbn [List.repeat]. apply (IH 1).
  - cbn [List.repeat]. change (JS.eqb dotdot dotdot) with true. cbn [negb].
    apply (IH (S (S k))).
Qed.

Lemma normalizeArrayFrom_clean : forall parts res,
  Forall slashFree parts -> Forall segment res ->
  Forall segment (normalizeArrayFrom false res parts).
Proof.
  induction parts as [|p parts IH]; intros res Hp Hres; simpl.
  - now apply Forall_rev.
  - inversion Hp as [|? ? Hp1 Hp2]; subst.
    destruct (JS.eqb p [] || JS.eqb p dot)%bool eqn:E1; [now apply IH|].
    destruct (JS.eqb p dotdot) eqn:E2.
    + destruct res as [|last res]; [now apply IH|].
      inversion Hres; subst.
      destruct (negb (JS.eqb last dotdot)); now apply IH.
    + apply IH; [assumption|]. constructor; [|assumption].
      apply orb_false_iff in E1. destruct E1. repeat split; assumption.
Qed.

Lemma rev_repeat {A : Type} (x : A) (n : nat) : rev (List.repeat x n) = List.repeat x n.
Proof.
  induction n as [|n IH]; [reflexivity|]. simpl. rewrite IH.
  clear IH. induction n as [|n IH]; [reflexivity|]. simpl. now rewrite IH.
Qed.

Lemma map_const_repeat {A B : Type} (y : B) (l : list A) :
  List.map (fun _ => y) l = List.repeat y (List.length l).
Proof. induction l as [|x l IH]; simpl; [reflexivity | now rewrite IH]. Qed.

Lemma dropCommon_split : forall R P F T,
  dropCommon R P = (F, T) -> exists C, R = C ++ F /\ P = C ++ T.
Proof.
  induction R as [|r R IH]; intros P F T H.
  - simpl in H. injection H as <- <-. now exists [].
  - destruct P as [|p P]; simpl in H.
    + injection H as <- <-. now exists [].
    + destruct (JS.eqb r p) eqn:E.
      * apply eqb_eq in E. subst p. destruct (IH _ _ _ H) as [C [-> ->]].
        now exists (r :: C).
      * injection H as <- <-. now exists [].
Qed.

Lemma trimArray_segments (segs : list jsstring) :
  Forall segment segs -> trimArray segs = segs.
Proof.
  intros H. unfold trimArray.
  assert (D : forall l, Forall segment l -> dropEmpty l = l).
  { intros l Hl. destruct Hl as [|x l [Hx _] _]; [reflexivity|].
    destruct x; [discriminate | reflexivity]. }
  rewrite (D segs H), (D (rev segs)) by now apply Forall_rev.
  apply rev_involutive.
Qed.

Lemma segment_slashFree (p : jsstring) : segment p -> slashFree p.
Proof. now intros (_ & _ & _ & H). Qed.

(** The segments of a resolved path. *)
Lemma resolve_parts (segs : list jsstring) :
  Forall segment segs ->
  trimArray (split slash (tl (slash :: joinSlash segs))) = segs.
Proof.
  intros H. cbn [tl]. destruct segs as [|p segs]; [reflexivity|].
  rewrite split_joinSlash; [now apply trimArray_segments | discriminate |].
  eapply Forall_impl; [|exact H]. apply segment_slashFree.
Qed.

End PathLemmas.

Section Renormalization.

Import Path.

Variable cwd : jsstring.
Hypothesis cwd_absolute : isAbsolute cwd = true.

(** The segments of the working directory. *)
Let R : list jsstring := normalizeArrayFrom false [] (split slash cwd).



Lemma resolve_resolvedParts (p : jsstring) :
  resolve cwd p = slash :: joinSlash (resolvedParts cwd p).
Proof. reflexivity. Qed.

Lemma resolvedParts_segments (p : jsstring) : Forall segment (resolvedParts cwd p).
Proof. apply normalizeArrayFrom_clean; [apply split_all_slashFree | constructor]. Qed.

Lemma relative_parts (from to : jsstring) :
  relative cwd from to =
  let '(F, T) := dropCommon (resolvedParts cwd from) (resolvedParts cwd to) in
  joinSlash (List.repeat dotdot (List.length F) ++ T).
Proof.
  unfold relative. rewrite !resolve_resolvedParts.
  rewrite !resolve_parts by apply resolvedParts_segments.
  destruct (dropCommon (resolvedParts cwd from) (resolvedParts cwd to)) as [F T].
  now rewrite map_const_repeat.
Qed.


Lemma segment_dotdot_or (E : list jsstring) (n : nat) (T : list jsstring) :
  Forall segment T ->
  Forall (fun p => JS.eqb p [] = false /\ slashFree p) (List.repeat dotdot n ++ T).
Proof.
  intros H. apply Forall_app. split.
  - apply Forall_forall. intros x Hx. apply repeat_spec in Hx. subst. now split.
  - eapply Forall_impl; [|exact H]. intros p (H1 & _ & _ & H4). now split.
Qed.

Lemma filter_nonempty (E : list jsstring) :
  Forall (fun p => JS.eqb p [] = false /\ slashFree p) E ->
  filter (fun a => negb (JS.eqb a [])) E = E.
Proof.
  induction 1 as [|p E [Hp _] _ IH]; simpl; [reflexivity|].
  now rewrite Hp, IH.
Qed.

Lemma joinSlash_head (E : list jsstring) :
  E <> [] -> Forall (fun p => JS.eqb p [] = false /\ slashFree p) E ->
  isAbsolute (joinSlash E) = false /\ endsWithSlash (joinSlash E) = false
  /\ joinSlash E <> [].
Proof.
  intros Hne H. induction H as [|p E [Hp Hs] HE IH]; [congruence|].
  destruct p as [|c p]; [discriminate|].
  unfold slashFree in Hs. simpl in Hs. apply andb_true_iff in Hs.
  destruct Hs as [Hc Hs]. apply negb_true_iff in Hc.
  destruct E as [|q E].
  - cbn [joinSlash]. split; [exact Hc|]. split; [|discriminate].
    unfold endsWithSlash. clear Hp Hne IH HE.
    revert c Hc. induction p as [|d p IHp]; intros c Hc; [simpl; exact Hc|].
    simpl in Hs. apply andb_true_iff in Hs. destruct Hs as [Hd Hs].
    apply negb_true_iff in Hd. specialize (IHp Hs d Hd).
    cbn [rev] in *. destruct (rev p ++ [d]) eqn:E'; [destruct (rev p); discriminate|].
    exact IHp.
  - change (joinSlash ((c :: p) :: q :: E)) with ((c :: p) ++ slash :: joinSlash (q :: E)).
    split; [exact Hc|]. split; [|discriminate].
    destruct (IH ltac:(discriminate)) as (_ & Hend & Hnn).
    unfold endsWithSlash in *. rewrite rev_app_distr. cbn [rev].
    destruct (rev (joinSlash (q :: E))) as [|z zs] eqn:Ez.
    + apply (f_equal (@rev _)) in Ez. rewrite rev_involutive in Ez. now elim Hnn.
    + rewrite <- app_assoc. exact Hend.
Qed.

(** What [makeUnixStylePath] makes of the relative path with the parts [E]. *)
Lemma makeUnixStylePath_parts (n : nat) (T : list jsstring) :
  Forall segment T ->
  makeUnixStylePath (posix cwd) (joinSlash (List.repeat dotdot n ++ T)) =
  match List.repeat dotdot n ++ T with
  | [] => dot
  | E => joinSlash E
  end.
Proof.
  intros HT. pose proof (segment_dotdot_or [] n T HT) as HE.
  unfold makeUnixStylePath. cbn [sep posix].
  destruct (List.repeat dotdot n ++ T) as [|e E] eqn:Eq; [reflexivity|].
  rewrite split_joinSlash.
  2: discriminate.
  2:{ eapply Forall_impl; [|exact HE]. now intros p [_ H]. }
  unfold join. rewrite (filter_nonempty _ HE).
  destruct (joinSlash_head (e :: E) ltac:(discriminate) HE) as (Habs & Hend & Hnn).
  unfold normalize. rewrite Habs, Hend. cbn [negb].
  rewrite split_joinSlash.
  2: discriminate.
  2:{ eapply Forall_impl; [|exact HE]. now intros p [_ H]. }
  unfold normalizeArray. rewrite <- Eq.
  change (normalizeArrayFrom true [] (List.repeat dotdot n ++ T))
    with (normalizeArrayFrom true (List.repeat dotdot 0) (List.repeat dotdot n ++ T)).
  rewrite (normalizeArrayFrom_dots n 0 T). rewrite Nat.add_0_r.
  rewrite normalizeArrayFrom_segments by exact HT. rewrite rev_repeat.
  rewrite Eq. destruct (joinSlash (e :: E)) eqn:EJ; [now elim Hnn | reflexivity].
Qed.



End Renormalization.

Section Idempotence.

Lemma strings_Some : forall es srcs,
  strings es = Some srcs -> es = List.map Json.JString srcs.
Proof.
  induction es as [|e es IH]; simpl; intros srcs H.
  - now injection H as <-.
  - destruct e; try discriminate.
    destruct (strings es) as [r|]; [|discriminate]. injection H as <-.
    simpl. now rewrite (IH r eq_refl).
Qed.

Lemma sourceMapDocument_Some (body : jsstring) (ps : Json.properties)
    (srcs : list jsstring) :
  sourceMapDocument body = Some (ps, srcs) ->
  Json.parse body = Normal (Json.JObject ps)
  /\ Json.get (js "sources") ps = Some (Json.JArray (List.map Json.JString srcs)).
Proof.
  unfold sourceMapDocument.
  destruct (Json.parse body) as [[| | | | |ps0]|]; try discriminate.
  destruct (Json.get (js "sources") ps0) as [[| | | |es|]|] eqn:Hg; try discriminate.
  destruct (strings es) as [srcs0|] eqn:Hs; [|discriminate].
  intros H. injection H as H1 H2. subst ps0 srcs0.
  split; [reflexivity|]. rewrite Hg. now rewrite (strings_Some es srcs Hs).
Qed.

End Idempotence.




(** ** Termination of [decodeURIComponent] *)

Section DecoderTermination.

Import Url.

Lemma percentOctet_length (s : jsstring) (b : N) (t : jsstring) :
  percentOctet s = Some (b, t) -> List.length t < List.length s.
Proof.
  unfold percentOctet. destruct s as [|c [|h [|l u]]]; try discriminate.
  destruct (N.eqb c 37); [|discriminate].
  destruct (hexValue h), (hexValue l); try discriminate.
  intros H. injection H as _ <-. cbn [List.length]. lia.
Qed.

Lemma continuationOctets_length : forall (n : nat) (acc : N) (s : jsstring)
    (cp : N) (t : jsstring),
  continuationOctets n acc s = Some (cp, t) -> List.length t <= List.length s.
Proof.
  induction n as [|n IH]; intros acc s cp t H; cbn [continuationOctets] in H.
  - injection H as _ <-. apply Nat.le_refl.
  - destruct (percentOctet s) as [[b u]|] eqn:Hp; [|discriminate].
    apply percentOctet_length in Hp.
    destruct (N.leb 128 b && N.ltb b 192)%bool; [|discriminate].
    apply IH in H. lia.
Qed.

(** [decodeURIComponent] has fuel enough: with more fuel than the length
    of the text the result is the same. *)
Lemma decodeFrom_more : forall (fuel1 fuel2 : nat) (s : jsstring),
  List.length s <= fuel1 -> fuel1 <= fuel2 ->
  decodeFrom fuel2 s = decodeFrom fuel1 s.
Proof.
  induction fuel1 as [|fuel1 IH]; intros fuel2 s Hs Hle.
  - destruct s; [|cbn [List.length] in Hs; lia]. now destruct fuel2.
  - destruct fuel2 as [|fuel2]; [lia|]. apply le_S_n in Hle.
    cbn [decodeFrom]. destruct s as [|c t]; [reflexivity|].
    cbn [List.length] in Hs. apply le_S_n in Hs.
    destruct (negb (N.eqb c 37)). { now rewrite (IH fuel2 t). }
    destruct (percentOctet (c :: t)) as [[b t1]|] eqn:Hp; [|reflexivity].
    apply percentOctet_length in Hp. cbn [List.length] in Hp.
    destruct (N.ltb b 128). { rewrite (IH fuel2 t1); [reflexivity|lia|exact Hle]. }
    cbv zeta.
    destruct (if (N.leb 194 b && N.ltb b 224)%bool
              then continuationOctets 1 (b - 192) t1
              else if (N.leb 224 b && N.ltb b 240)%bool
              then continuationOctets 2 (b - 224) t1
              else if (N.leb 240 b && N.ltb b 245)%bool
              then continuationOctets 3 (b - 240) t1
              else None) as [[cp t2]|] eqn:Hseq; [|reflexivity].
    assert (Ht2 : List.length t2 <= List.length t1).
    { destruct (N.leb 194 b && N.ltb b 224)%bool;
        [now apply continuationOctets_length in Hseq|].
      destruct (N.leb 224 b && N.ltb b 240)%bool;
        [now apply continuationOctets_length in Hseq|].
      destruct (N.leb 240 b && N.ltb b 245)%bool;
        [now apply continuationOctets_length in Hseq|discriminate]. }
    match goal with |- (if ?v then _ else _) = _ => destruct v end; [|reflexivity].
    rewrite (IH fuel2 t2); [reflexivity|lia|exact Hle].
Qed.

Lemma decodeURIComponent_any_fuel (s : jsstring) (fuel : nat) :
  List.length s <= fuel -> decodeFrom fuel s = decodeURIComponent s.
Proof. intros H. unfold decodeURIComponent. now apply decodeFrom_more. Qed.

End DecoderTermination.

(* ================================================================== *)
(** * Resolution of the reference value *)

(** [c] is none of the characters of [set], given a hypothesis [H] on [c]
    that computes to [false] at each of them. *)
Ltac not_in_set H :=
  match goal with
  | |- existsb ?f ?set = false =>
      let E := fresh "E" in
      destruct (existsb f set) eqn:E; [exfalso | reflexivity];
      apply existsb_exists in E;
      let x := fresh "x" in let Hin := fresh "Hin" in let Heq := fresh "Heq" in
      destruct E as [x [Hin Heq]];
      apply N.eqb_eq in Heq; subst;
      vm_compute in Hin;
      repeat (destruct Hin as [Hin|Hin];
              [first [subst | symmetry in Hin; subst]; vm_compute in H; discriminate|]);
      exact Hin
  end.

Ltac not_char H :=
  apply N.eqb_neq; let E := fresh "E" in
  intros E; first [subst | symmetry in E; subst]; vm_compute in H; discriminate.

Section Resolving.

Local Open Scope N_scope.

Section CharFacts.

Lemma plainChar_not_space (c : codeunit) : plainChar c = true -> isSpace c = false.
Proof.
  unfold plainChar. intros H. apply negb_true_iff in H.
  apply orb_false_iff in H. destruct H as [H _].
  apply orb_false_iff in H. now destruct H.
Qed.

Lemma plainChar_not_escaped (c : codeunit) :
  plainChar c = true -> Url.mem c Url.autoEscape = false.
Proof.
  unfold plainChar. intros H. apply negb_true_iff in H.
  apply orb_false_iff in H. destruct H as [H _].
  apply orb_false_iff in H. now destruct H.
Qed.

Lemma plainChar_not_hash (c : codeunit) : plainChar c = true -> N.eqb 35 c = false.
Proof.
  unfold plainChar. intros H. apply negb_true_iff in H.
  apply orb_false_iff in H. destruct H as [_ H]. now rewrite N.eqb_sym.
Qed.

Lemma plainChar_not_backslash (c : codeunit) : plainChar c = true -> N.eqb c 92 = false.
Proof.
  intros H. apply plainChar_not_escaped in H. unfold Url.mem in H.
  destruct (N.eqb c 92) eqn:E; [|reflexivity].
  apply N.eqb_eq in E. subst. vm_compute in H. discriminate.
Qed.

Lemma hostChar_not_nonHost (c : codeunit) :
  (hostChar c || N.eqb c 46 || N.eqb c 58)%bool = true ->
  Url.mem c Url.nonHostChars = false.
Proof. intros H. unfold Url.mem. not_in_set H. Qed.

Lemma hostChar_not_hostEnding (c : codeunit) :
  (hostChar c || N.eqb c 46 || N.eqb c 58)%bool = true ->
  Url.mem c Url.hostEndingChars = false.
Proof. intros H. unfold Url.mem. not_in_set H. Qed.

Lemma hostChar_plain (c : codeunit) :
  (hostChar c || N.eqb c 46 || N.eqb c 58)%bool = true ->
  plainChar c = true /\ N.eqb 64 c = false /\ N.eqb c 63 = false /\ N.eqb c 47 = false.
Proof.
  intros H. split; [|split; [|split]]; try (not_char H).
  unfold plainChar. apply negb_true_iff.
  assert (H1 : Url.mem c Url.autoEscape = false) by (unfold Url.mem; not_in_set H).
  assert (H2 : N.eqb c 35 = false) by (not_char H).
  rewrite H1, H2, !orb_false_r.
  unfold isSpace, isWhiteSpaceOnly, isLineTerminator.
  unfold hostChar, Url.isLower, Url.isDigit in H.
  repeat (rewrite ?orb_true_iff, ?andb_true_iff, ?N.eqb_eq, ?N.leb_le in H).
  repeat (rewrite ?orb_false_iff, ?andb_false_iff, ?N.eqb_neq, ?N.leb_gt).
  lia.
Qed.

Lemma hostChar_lower (c : codeunit) :
  (hostChar c || N.eqb c 46)%bool = true ->
  Url.isAscii c = true /\ Url.asciiLower c = c /\ N.eqb 58 c = false
  /\ N.eqb c 91 = false.
Proof.
  intros H. split; [|split; [|split]]; try (not_char H).
  - unfold Url.isAscii. unfold hostChar, Url.isLower, Url.isDigit in H.
    repeat (rewrite ?orb_true_iff, ?andb_true_iff, ?N.eqb_eq, ?N.leb_le in H).
    apply N.ltb_lt. lia.
  - unfold Url.asciiLower, Url.isUpper. unfold hostChar, Url.isLower, Url.isDigit in H.
    repeat (rewrite ?orb_true_iff, ?andb_true_iff, ?N.eqb_eq, ?N.leb_le in H).
    destruct (N.leb 65 c && N.leb c 90)%bool eqn:E; [|reflexivity].
    repeat (rewrite ?andb_true_iff, ?N.leb_le in E). lia.
Qed.

Lemma digit_host (c : codeunit) :
  Url.isDigit c = true -> (hostChar c || N.eqb c 46 || N.eqb c 58)%bool = true.
Proof. unfold hostChar. intros ->. now rewrite orb_true_r. Qed.

Lemma digit_not_colon (c : codeunit) : Url.isDigit c = true -> N.eqb 58 c = false.
Proof. intros H. not_char H. Qed.

End CharFacts.

Section StringFacts.

Local Open Scope nat_scope.

Lemma forallb_impl (P Q : codeunit -> bool) (s : jsstring) :
  (forall c, P c = true -> Q c = true) ->
  forallb P s = true -> forallb Q s = true.
Proof.
  intros HPQ. induction s as [|c s IH]; simpl; [reflexivity|].
  intros H. apply andb_true_iff in H. destruct H as [Hc Hs].
  now rewrite (HPQ c Hc), (IH Hs).
Qed.

Lemma firstn_length_app (a b : jsstring) : firstn (List.length a) (a ++ b) = a.
Proof. induction a as [|c a IH]; simpl; [now destruct b | now rewrite IH]. Qed.

Lemma skipn_length_app0 (a b : jsstring) : skipn (List.length a) (a ++ b) = b.
Proof. induction a as [|c a IH]; simpl; [reflexivity | exact IH]. Qed.

Lemma map_id_if (q : codeunit -> bool) (f : codeunit -> codeunit) (s : jsstring) :
  forallb (fun c => negb (q c)) s = true ->
  List.map (fun c => if q c then f c else c) s = s.
Proof.
  induction s as [|c s IH]; simpl; [reflexivity|].
  intros H. apply andb_true_iff in H. destruct H as [Hc Hs].
  apply negb_true_iff in Hc. now rewrite Hc, (IH Hs).
Qed.

Lemma concat_map_id (q : codeunit -> bool) (f : codeunit -> jsstring) (s : jsstring) :
  forallb (fun c => negb (q c)) s = true ->
  List.concat (List.map (fun c => if q c then f c else [c]) s) = s.
Proof.
  induction s as [|c s IH]; simpl; [reflexivity|].
  intros H. apply andb_true_iff in H. destruct H as [Hc Hs].
  apply negb_true_iff in Hc. now rewrite Hc, (IH Hs).
Qed.

Lemma indexWhere_none (p : codeunit -> bool) (s : jsstring) :
  forallb (fun c => negb (p c)) s = true -> Url.indexWhere p s = None.
Proof.
  induction s as [|c s IH]; simpl; [reflexivity|].
  intros H. apply andb_true_iff in H. destruct H as [Hc Hs].
  apply negb_true_iff in Hc. now rewrite Hc, (IH Hs).
Qed.

Lemma indexWhere_app (p : codeunit -> bool) (a b : jsstring) (c : codeunit) :
  forallb (fun c => negb (p c)) a = true -> p c = true ->
  Url.indexWhere p (a ++ c :: b) = Some (List.length a).
Proof.
  intros Ha Hc. induction a as [|d a IH]; simpl; [now rewrite Hc|].
  simpl in Ha. apply andb_true_iff in Ha. destruct Ha as [Hd Ha].
  apply negb_true_iff in Hd. now rewrite Hd, (IH Ha).
Qed.

Lemma hasChar_false (x : codeunit) (s : jsstring) :
  forallb (fun c => negb (N.eqb x c)) s = true -> Url.hasChar x s = false.
Proof.
  unfold Url.hasChar. induction s as [|c s IH]; simpl; [reflexivity|].
  intros H. apply andb_true_iff in H. destruct H as [Hc Hs].
  apply negb_true_iff in Hc. now rewrite Hc, (IH Hs).
Qed.

Lemma lastIndexOf_none (x : codeunit) (s : jsstring) :
  forallb (fun c => negb (N.eqb x c)) s = true -> Url.lastIndexOf x s = None.
Proof.
  induction s as [|c s IH]; simpl; [reflexivity|].
  intros H. apply andb_true_iff in H. destruct H as [Hc Hs].
  apply negb_true_iff in Hc. now rewrite (IH Hs), Hc.
Qed.

Lemma lastIndexOf_app (x : codeunit) (a b : jsstring) :
  forallb (fun c => negb (N.eqb x c)) b = true ->
  Url.lastIndexOf x (a ++ x :: b) = Some (List.length a).
Proof.
  intros Hb. induction a as [|d a IH]; simpl.
  - now rewrite (lastIndexOf_none x b Hb), N.eqb_refl.
  - now rewrite IH.
Qed.

Lemma takeWhile_app (p : codeunit -> bool) (a b : jsstring) :
  forallb p a = true ->
  match b with [] => True | c :: _ => p c = false end ->
  Path.takeWhile p (a ++ b) = a.
Proof.
  intros Ha Hb. induction a as [|d a IH]; simpl.
  - destruct b as [|c b]; [reflexivity | simpl; now rewrite Hb].
  - simpl in Ha. apply andb_true_iff in Ha. destruct Ha as [Hd Ha].
    now rewrite Hd, (IH Ha).
Qed.

Lemma trimEnd_id (s : jsstring) :
  forallb (fun c => negb (isSpace c)) s = true -> trimEnd s = s.
Proof.
  induction s as [|c s IH]; simpl; [reflexivity|].
  intros H. apply andb_true_iff in H. destruct H as [Hc Hs].
  apply negb_true_iff in Hc. rewrite (IH Hs), Hc. now destruct s.
Qed.

Lemma trim_id (s : jsstring) :
  forallb (fun c => negb (isSpace c)) s = true -> trim s = s.
Proof.
  intros H. unfold trim.
  assert (Hs : trimStart s = s).
  { destruct s as [|c s]; [reflexivity|]. simpl in *.
    apply andb_true_iff in H. destruct H as [Hc _].
    apply negb_true_iff in Hc. now rewrite Hc. }
  rewrite Hs. now apply trimEnd_id.
Qed.

Lemma backslashesToSlashes_id (s : jsstring) :
  forallb (fun c => negb (N.eqb c 92)) s = true -> Url.backslashesToSlashes s = s.
Proof.
  intros H. unfold Url.backslashesToSlashes.
  assert (Hmap : forall t, forallb (fun c => negb (N.eqb c 92)) t = true ->
                 List.map (fun c => if N.eqb c 92 then 47%N else c) t = t).
  { intros t Ht. now apply (map_id_if (fun c => N.eqb c 92) (fun _ => 47%N)). }
  match goal with |- match Url.indexOf ?sp s with _ => _ end = _ =>
    destruct (Url.indexOf sp s) as [n|] end.
  - rewrite Hmap; [apply firstn_skipn|].
    rewrite <- (firstn_skipn n s) in H. rewrite forallb_app in H.
    apply andb_true_iff in H. now destruct H.
  - now apply Hmap.
Qed.

Lemma escapeFirstHash_id (s : jsstring) :
  forallb (fun c => negb (N.eqb c 35)) s = true -> Url.escapeFirstHash s = s.
Proof.
  induction s as [|c s IH]; simpl; [reflexivity|].
  intros H. apply andb_true_iff in H. destruct H as [Hc Hs].
  apply negb_true_iff in Hc. now rewrite Hc, (IH Hs).
Qed.

Lemma validateParts_valid : forall parts acc,
  forallb Url.hostnamePartPattern parts = true -> Url.validateParts acc parts = None.
Proof.
  induction parts as [|p parts IH]; intros acc H; simpl; [reflexivity|].
  simpl in H. apply andb_true_iff in H. destruct H as [Hp Hs].
  rewrite Hp. rewrite orb_true_r. cbn [orb]. now apply IH.
Qed.

End StringFacts.

Section Resolution.

Local Open Scope nat_scope.

Variable B : Url.Builtins.

Variables pathname search : jsstring.
Hypothesis pathname_absolute : absolutePathname pathname = true.
Hypothesis search_plain : plainSearch search = true.

Lemma pathname_cons : exists t,
  pathname = 47%N :: t /\ startsWith t (js "/") = false /\ forallb pathChar t = true.
Proof.
  generalize pathname_absolute. generalize pathname. intros p H.
  destruct p as [|a t]; [discriminate|]. simpl in H.
  apply andb_true_iff in H. destruct H as [H H3].
  apply andb_true_iff in H. destruct H as [H1 H2].
  apply N.eqb_eq in H1. apply negb_true_iff in H2. subst. now exists t.
Qed.

Lemma startsWith_slash (b : codeunit) (t : jsstring) :
  startsWith (b :: t) (js "/") = N.eqb 47 b.
Proof.
  unfold startsWith. cbn [js List.map list_ascii_of_string stripPrefix].
  change (N_of_ascii "/") with 47%N. now destruct (N.eqb 47 b).
Qed.

Lemma pathChar_plain (c : codeunit) : pathChar c = true -> plainChar c = true.
Proof. unfold pathChar. intros H. apply andb_true_iff in H. now destruct H. Qed.

Lemma pathname_plain : forallb plainChar pathname = true.
Proof.
  destruct pathname_cons as [t (-> & _ & Ht)]. cbn [forallb].
  apply andb_true_iff. split; [reflexivity|].
  apply (forallb_impl pathChar plainChar); [apply pathChar_plain | exact Ht].
Qed.

Lemma search_chars : forallb plainChar search = true.
Proof.
  generalize search_plain. generalize search. intros s H.
  destruct s as [|a q]; [reflexivity|]. simpl in *.
  apply andb_true_iff in H. destruct H as [H1 H2].
  apply N.eqb_eq in H1. subst. exact H2.
Qed.

Lemma reference_plain : forallb plainChar (pathname ++ search) = true.
Proof. rewrite forallb_app, pathname_plain, search_chars. reflexivity. Qed.

Lemma search_head : match search with [] => True | c :: _ => c = 63%N end.
Proof.
  generalize search_plain. generalize search. intros s H.
  destruct s as [|a q]; [exact I|]. simpl in H.
  apply andb_true_iff in H. destruct H as [H1 _]. now apply N.eqb_eq in H1.
Qed.

Lemma pathname_no_question :
  forallb (fun c => negb (N.eqb 63 c)) pathname = true.
Proof.
  destruct pathname_cons as [t (-> & _ & Ht)]. cbn [forallb].
  apply andb_true_iff. split; [reflexivity|].
  apply (forallb_impl pathChar); [|exact Ht].
  intros c H. unfold pathChar in H. apply andb_true_iff in H.
  destruct H as [_ H]. cbv beta. now rewrite N.eqb_sym.
Qed.

Lemma simplePath_reference :
  Url.simplePath (pathname ++ search) = Some (pathname, search).
Proof.
  unfold Url.simplePath.
  assert (Hok : match pathname ++ search with
                | a :: b :: c :: _ =>
                    (N.eqb a 47 && negb (N.eqb b 47 && N.eqb c 47))%bool
                | a :: _ => N.eqb a 47
                | [] => false
                end = true).
  { destruct pathname_cons as [t (-> & Hs & _)]. pose proof search_head as Hh.
    cbn [app]. destruct t as [|b t]; cbn [app].
    - destruct search as [|b [|c r]]; try reflexivity. subst. reflexivity.
    - rewrite startsWith_slash in Hs. rewrite N.eqb_sym in Hs.
      rewrite Hs.
      match goal with |- match ?x with _ => _ end = _ => destruct x end; reflexivity. }
  rewrite Hok.
  assert (Htake : Path.takeWhile (fun c => negb (N.eqb c 63 || isSpace c))
                    (pathname ++ search) = pathname).
  { apply takeWhile_app.
    - destruct pathname_cons as [t (-> & _ & Ht)]. cbn [forallb].
      apply andb_true_iff. split; [reflexivity|].
      apply (forallb_impl pathChar); [|exact Ht].
      intros c H. unfold pathChar in H. apply andb_true_iff in H.
      destruct H as [H1 H2]. apply negb_true_iff in H2. cbv beta.
      now rewrite H2, (plainChar_not_space c H1).
    - pose proof search_head as Hh. destruct search; [exact I | now subst]. }
  rewrite Htake, skipn_length_app0.
  pose proof search_head as Hh. pose proof search_chars as Hc.
  destruct search as [|c q]; [reflexivity|]. subst c.
  rewrite N.eqb_refl. cbn [andb].
  rewrite (forallb_impl plainChar (fun c => negb (isSpace c)) _
             (fun c H => eq_trans (f_equal negb (plainChar_not_space c H)) eq_refl)).
  - reflexivity.
  - simpl. exact Hc.
Qed.

Lemma no_backslash (s : jsstring) :
  forallb plainChar s = true -> forallb (fun c => negb (N.eqb c 92)) s = true.
Proof.
  apply forallb_impl. intros c H. cbv beta. now rewrite (plainChar_not_backslash c H).
Qed.

Lemma no_space (s : jsstring) :
  forallb plainChar s = true -> forallb (fun c => negb (isSpace c)) s = true.
Proof.
  apply forallb_impl. intros c H. cbv beta. now rewrite (plainChar_not_space c H).
Qed.

Lemma no_hash (s : jsstring) :
  forallb plainChar s = true -> forallb (fun c => negb (N.eqb 35 c)) s = true.
Proof.
  apply forallb_impl. intros c H. cbv beta. now rewrite (plainChar_not_hash c H).
Qed.

Lemma no_hash' (s : jsstring) :
  forallb plainChar s = true -> forallb (fun c => negb (N.eqb c 35)) s = true.
Proof.
  apply forallb_impl. intros c H. cbv beta. rewrite N.eqb_sym. now rewrite (plainChar_not_hash c H).
Qed.

Lemma not_escaped (s : jsstring) :
  forallb plainChar s = true ->
  forallb (fun c => negb (Url.mem c Url.autoEscape)) s = true.
Proof.
  apply forallb_impl. intros c H. cbv beta. now rewrite (plainChar_not_escaped c H).
Qed.

(** [url.parse] on the reference value: the fast path. *)
Lemma parse_reference :
  Url.parse B (pathname ++ search) =
  Normal (Url.mkUrl Null false Null Null Null Null Null
            (Url.nonEmpty search)
            (match search with [] => Null | _ :: q => Str q end)
            (Str pathname) (Str (pathname ++ search)) (Str (pathname ++ search))).
Proof.
  unfold Url.parse.
  rewrite (backslashesToSlashes_id _ (no_backslash _ reference_plain)).
  rewrite (trim_id _ (no_space _ reference_plain)).
  rewrite (hasChar_false _ _ (no_hash _ reference_plain)).
  rewrite simplePath_reference. reflexivity.
Qed.

Variables proto host : jsstring.
Hypothesis proto_web : In proto webProtocols.
Hypothesis host_nonempty : host <> [].

Lemma escapePathname_id : Url.escapePathname pathname = pathname.
Proof.
  unfold Url.escapePathname.
  apply (concat_map_id (fun c => (N.eqb c 63 || N.eqb c 35)%bool)).
  destruct pathname_cons as [t (-> & _ & Ht)]. cbn [forallb].
  apply andb_true_iff. split; [reflexivity|].
  apply (forallb_impl pathChar); [|exact Ht].
  intros c H. cbv beta. unfold pathChar in H. apply andb_true_iff in H.
  destruct H as [H1 H2]. apply negb_true_iff in H2.
  pose proof (plainChar_not_hash c H1) as H3. rewrite N.eqb_sym in H3.
  now rewrite H2, H3.
Qed.

(** [format] on a URL object without user information and fragment. *)
Lemma format_resolved (u : Url.Url) :
  Url.auth u = Null -> Url.hash u = Null ->
  Url.protocol u = Str proto -> Url.host u = Str host ->
  Url.pathname u = Str pathname -> Url.search u = Url.nonEmpty search ->
  Url.format u = Normal (proto ++ js "//" ++ host ++ pathname ++ search).
Proof.
  intros Hauth Hhash Hproto Hhost Hpath Hsearch.
  unfold Url.format. rewrite Hauth, Hhash, Hproto, Hhost, Hpath, Hsearch.
  cbn [bind].
  assert (Hh : truthy (Str host) = true /\ Url.strOr (Str host) [] = host).
  { destruct host; [now elim host_nonempty | now split]. }
  destruct Hh as [Hh1 Hh2]. rewrite Hh1, Hh2.
  change (Url.strOr Null []) with (@nil codeunit).
  assert (Hp : Url.strOr (Str pathname) [] = pathname).
  { destruct pathname_cons as [t (-> & _)]. reflexivity. }
  assert (Hs : Url.strOr (Url.nonEmpty search) [] = search).
  { now destruct search. }
  rewrite Hp, Hs.
  assert (Hproto' :
    Url.strOr (Str proto) [] = proto
    /\ match rev proto with
       | [] => proto
       | c :: _ => if N.eqb c 58 then proto else proto ++ js ":"
       end = proto
    /\ (Url.slashes u
        || match proto with [] => true | _ => Url.slashedProtocol (Str proto) end
           && true)%bool = true).
  { destruct proto_web as [<-|[<-|[<-|[<-|[<-|[]]]]]];
      (split; [reflexivity|split; [reflexivity|]]); now destruct (Url.slashes u). }
  destruct Hproto' as (Hp1 & Hp2 & Hp3). rewrite Hp1, Hp2, Hp3.
  assert (Hp4 : match pathname with
                | [] => pathname
                | c :: _ => if N.eqb c 47 then pathname else 47%N :: pathname
                end = pathname).
  { destruct pathname_cons as [t (-> & _)]. reflexivity. }
  assert (Hs4 : match search with
                | [] => search
                | c :: _ => if N.eqb c 63 then search else 63%N :: search
                end = search).
  { pose proof search_head as Hh. destruct search; [reflexivity | now subst]. }
  cbv iota. rewrite Hp4, Hs4.
  rewrite escapePathname_id.
  rewrite (escapeFirstHash_id _ (no_hash' _ search_chars)).
  cbn [app]. now rewrite app_nil_r.
Qed.

Variables hostname port : jsstring.
Hypothesis hostname_plain : plainHostname hostname = true.
Hypothesis port_digits : forallb Url.isDigit port = true.
Hypothesis host_text : host = hostText hostname port.

Lemma hostname_facts :
  hostname <> []
  /\ forallb (fun c => hostChar c || N.eqb c 46)%bool hostname = true
  /\ forallb Url.hostnamePartPattern (Path.split Url.dotChar hostname) = true
  /\ List.length hostname <= Url.hostnameMaxLen.
Proof.
  generalize hostname_plain. unfold plainHostname. intros H.
  apply andb_true_iff in H. destruct H as [H H4].
  apply andb_true_iff in H. destruct H as [H H3].
  apply andb_true_iff in H. destruct H as [H1 H2].
  repeat split; try assumption.
  - intros ->. discriminate.
  - now apply Nat.leb_le.
Qed.

Lemma host_chars : forallb hostOrColon host = true.
Proof.
  rewrite host_text. unfold hostText. rewrite forallb_app.
  destruct hostname_facts as (_ & Hc & _).
  apply andb_true_iff. split.
  - apply (forallb_impl (fun c => hostChar c || N.eqb c 46)%bool); [|exact Hc].
    intros c H. unfold hostOrColon. now rewrite H.
  - generalize port_digits. generalize port. intros p Hp.
    destruct p as [|d ds]; [reflexivity|].
    change (js ":" ++ d :: ds) with (58%N :: d :: ds).
    change (forallb hostOrColon (58%N :: d :: ds))
      with (true && forallb hostOrColon (d :: ds))%bool. cbn [andb].
    apply (forallb_impl Url.isDigit); [|exact Hp].
    intros c H. apply digit_host, H.
Qed.

Lemma firstn_S_app (a b : jsstring) (c : codeunit) :
  firstn (S (List.length a)) (a ++ c :: b) = a ++ [c].
Proof.
  induction a as [|d a IH]; [reflexivity|].
  change (d :: firstn (S (List.length a)) (a ++ c :: b) = d :: (a ++ [c])).
  now f_equal.
Qed.

Lemma skipn_S_app (a b : jsstring) (c : codeunit) :
  skipn (S (List.length a)) (a ++ c :: b) = b.
Proof. induction a as [|d a IH]; [reflexivity | exact IH]. Qed.

Lemma portPattern_host :
  (match Url.portPattern host with
   | Some n => Url.nonEmpty (skipn (S n) host)
   | None => Null
   end = Url.nonEmpty port)
  /\ match Url.portPattern host with
     | Some n => firstn n host
     | None => host
     end = hostname.
Proof.
  rewrite host_text. unfold hostText, Url.portPattern.
  destruct hostname_facts as (_ & Hc & _).
  assert (Hnc : forallb (fun c => negb (N.eqb 58 c)) hostname = true).
  { apply (forallb_impl (fun c => hostChar c || N.eqb c 46)%bool); [|exact Hc].
    intros c H. cbv beta. destruct (hostChar_lower c H) as (_ & _ & H3 & _).
    now rewrite H3. }
  generalize port_digits. generalize port. intros p Hp.
  destruct p as [|d ds].
  - rewrite app_nil_r. rewrite (lastIndexOf_none _ _ Hnc). now split.
  - assert (Hpd : forallb (fun c => negb (N.eqb 58 c)) (d :: ds) = true).
    { apply (forallb_impl Url.isDigit); [|exact Hp].
      intros c H. cbv beta. now rewrite (digit_not_colon c H). }
    cbv iota. change (js ":" ++ d :: ds) with (58%N :: d :: ds).
    rewrite (lastIndexOf_app 58%N hostname (d :: ds) Hpd).
    replace (S (List.length hostname)) with (List.length (hostname ++ [58%N]))
      by (rewrite length_app; simpl; lia).
    replace (hostname ++ 58%N :: d :: ds) with ((hostname ++ [58%N]) ++ d :: ds)
      by (now rewrite <- app_assoc).
    rewrite skipn_length_app0, Hp.
    rewrite <- app_assoc. cbn [app].
    rewrite firstn_length_app, skipn_S_app. now split.
Qed.

(** The host part of the resolved URL. *)
Lemma parseHostPart_resolved :
  Url.parseHostPart B (host ++ pathname ++ search) =
  Normal (Url.mkHostPart Null (Str host) (Url.nonEmpty port) (Str hostname)
            (pathname ++ search)).
Proof.
  pose proof host_chars as Hhc.
  destruct pathname_cons as [t (Hpn & _)].
  assert (Hend : Url.indexWhere (fun c => Url.mem c Url.hostEndingChars)
                   (host ++ pathname ++ search) = Some (List.length host)).
  { rewrite Hpn. cbn [app]. apply indexWhere_app; [|reflexivity].
    apply (forallb_impl hostOrColon); [|exact Hhc].
    intros c H. cbv beta. now rewrite (hostChar_not_hostEnding c H). }
  assert (Hat : Url.lastIndexOf 64%N
                  (firstn (S (List.length host)) (host ++ pathname ++ search)) = None).
  { rewrite Hpn. cbn [app]. rewrite firstn_S_app. apply lastIndexOf_none.
    rewrite forallb_app. apply andb_true_iff. split; [|reflexivity].
    apply (forallb_impl hostOrColon); [|exact Hhc].
    intros c H. cbv beta. destruct (hostChar_plain c H) as (_ & H2 & _). now rewrite H2. }
  assert (Hend' : Url.indexWhere (fun c => Url.mem c Url.nonHostChars)
                    (host ++ pathname ++ search) = Some (List.length host)).
  { rewrite Hpn. cbn [app]. apply indexWhere_app; [|reflexivity].
    apply (forallb_impl hostOrColon); [|exact Hhc].
    intros c H. cbv beta. now rewrite (hostChar_not_nonHost c H). }
  unfold Url.parseHostPart. rewrite Hend, Hat. cbn [bind].
  rewrite Hend', firstn_length_app, skipn_length_app0.
  destruct portPattern_host as [Hport Hname]. rewrite Hport, Hname.
  cbv zeta.
  destruct hostname_facts as (Hne & Hc & Hparts & Hlen).
  assert (Hipv6 : match hostname with
                  | [] => false
                  | a :: l =>
                      match rev (a :: l) with
                      | [] => false
                      | b :: _ => (N.eqb a 91 && N.eqb b 93)%bool
                      end
                  end = false).
  { clear - Hc. destruct hostname as [|a r]; [reflexivity|].
    cbn [forallb] in Hc. apply andb_true_iff in Hc. destruct Hc as [Ha _].
    destruct (hostChar_lower a Ha) as (_ & _ & _ & H4). rewrite H4.
    now destruct (rev (a :: r)). }
  rewrite Hipv6. rewrite (validateParts_valid _ [] Hparts).
  assert (Hlt : Nat.ltb Url.hostnameMaxLen (List.length hostname) = false).
  { apply Nat.ltb_ge. exact Hlen. }
  rewrite Hlt.
  assert (Hascii : forallb Url.isAscii hostname = true).
  { apply (forallb_impl (fun c => hostChar c || N.eqb c 46)%bool); [|exact Hc].
    intros c H. now destruct (hostChar_lower c H). }
  rewrite (Url.toLowerCase_ascii B hostname Hascii).
  assert (Hlow : List.map Url.asciiLower hostname = hostname).
  { clear - Hc. induction hostname as [|a r IH]; [reflexivity|].
    cbn [forallb] in Hc. apply andb_true_iff in Hc. destruct Hc as [Ha Hr].
    cbn [List.map]. destruct (hostChar_lower a Ha) as (_ & H2 & _).
    now rewrite H2, (IH Hr). }
  rewrite Hlow, (Url.toASCII_ascii B hostname Hascii).
  rewrite host_text. unfold hostText.
  generalize port. intros p. destruct p; reflexivity.
Qed.

Lemma proto_facts (X : jsstring) :
  Url.simplePath (proto ++ X) = None
  /\ Url.protocolPattern (proto ++ X) = Some proto
  /\ skipn (List.length proto) (proto ++ X) = X
  /\ Url.toLowerCase B proto = proto
  /\ truthy (Str proto) = true
  /\ Url.hostlessProtocol (Str proto) = false
  /\ Url.slashedProtocol (Str proto) = true
  /\ Url.unsafeProtocol (Str proto) = false
  /\ forallb plainChar proto = true.
Proof.
  assert (Hlow : forall p, forallb Url.isAscii p = true ->
                 List.map Url.asciiLower p = p -> Url.toLowerCase B p = p).
  { intros p H1 H2. now rewrite (Url.toLowerCase_ascii B p H1). }
  destruct proto_web as [<-|[<-|[<-|[<-|[<-|[]]]]]];
    repeat split; try reflexivity; apply Hlow; reflexivity.
Qed.

Lemma startsWith_app (p s : jsstring) : startsWith (p ++ s) p = true.
Proof. unfold startsWith. now rewrite stripPrefix_app. Qed.

Lemma host_plain : forallb plainChar host = true.
Proof.
  apply (forallb_impl hostOrColon); [|exact host_chars].
  intros c H. now destruct (hostChar_plain c H).
Qed.

Lemma resolved_plain :
  forallb plainChar (proto ++ js "//" ++ host ++ pathname ++ search) = true.
Proof.
  destruct (proto_facts []) as (_ & _ & _ & _ & _ & _ & _ & _ & Hp).
  rewrite !forallb_app, Hp, host_plain, pathname_plain, search_chars. reflexivity.
Qed.

Lemma indexOf_question :
  Url.indexOf 63%N (pathname ++ search) =
  match search with [] => None | _ => Some (List.length pathname) end.
Proof.
  unfold Url.indexOf. pose proof search_head as Hh. pose proof pathname_no_question as Hq.
  generalize Hh. generalize search. intros s Hs. destruct s as [|c q].
  - rewrite app_nil_r. now apply indexWhere_none.
  - subst c. now apply indexWhere_app.
Qed.

(** [url.parse] on the text that [url.format] made. *)
Lemma parse_resolved :
  Url.parse B (proto ++ js "//" ++ host ++ pathname ++ search) =
  Normal (Url.mkUrl (Str proto) true Null (Str host) (Url.nonEmpty port)
            (Str hostname) Null (Url.nonEmpty search)
            (match search with [] => Null | _ :: q => Str q end)
            (Str pathname) (Str (pathname ++ search))
            (Str (proto ++ js "//" ++ host ++ pathname ++ search))).
Proof.
  unfold Url.parse.
  rewrite (backslashesToSlashes_id _ (no_backslash _ resolved_plain)).
  rewrite (trim_id _ (no_space _ resolved_plain)).
  rewrite (hasChar_false _ _ (no_hash _ resolved_plain)).
  destruct (proto_facts (js "//" ++ host ++ pathname ++ search))
    as (H1 & H2 & H3 & H4 & H5 & H6 & H7 & H8 & _).
  rewrite H1, H2. cbn [Url.optStr]. rewrite H3, H4, H5, H6, H7, H8.
  rewrite (startsWith_app (js "//") (host ++ pathname ++ search)).
  cbn [orb andb negb].
  change (skipn 2 (js "//" ++ host ++ pathname ++ search))
    with (host ++ pathname ++ search).
  rewrite parseHostPart_resolved. cbn [bind Url.hp_rest Url.hp_auth Url.hp_host
    Url.hp_port Url.hp_hostname].
  rewrite (concat_map_id (fun c => Url.mem c Url.autoEscape) Url.percentEncode
             _ (not_escaped _ reference_plain)).
  assert (Hhash : Url.indexOf 35%N (pathname ++ search) = None).
  { apply indexWhere_none. exact (no_hash _ reference_plain). }
  rewrite Hhash, indexOf_question.
  pose proof (format_resolved
                (Url.mkUrl (Str proto) true Null (Str host) (Url.nonEmpty port)
                   (Str hostname) Null (Url.nonEmpty search)
                   (match search with [] => Null | _ :: q => Str q end)
                   (Str pathname) (Str (pathname ++ search)) Null)
                eq_refl eq_refl eq_refl eq_refl eq_refl eq_refl) as Hfmt.
  pose proof search_head as Hh.
  assert (Hhn : truthy (Str hostname) = true).
  { destruct hostname_facts as (Hne & _). now destruct hostname. }
  rewrite Hhn.
  destruct pathname_cons as [t (Hpn & _)]. rewrite Hpn in Hfmt |- *.
  revert Hfmt Hh. generalize search. intros s Hfmt Hh.
  destruct s as [|c q]; [|subst c].
  - rewrite app_nil_r in *. cbn [Url.nonEmpty truthy andb negb orb Url.strOr app] in *.
    rewrite app_nil_r. rewrite Hfmt. reflexivity.
  - rewrite skipn_length_app0, skipn_S_app, firstn_length_app.
    cbn [Url.nonEmpty truthy andb negb orb Url.strOr app] in *.
    rewrite Hfmt. reflexivity.
Qed.

End Resolution.

End Resolving.


(** C2 (amended).  When the script location has the protocol [http:],
    [https:], [ftp:], [gopher:] or [file:] and a host made of a lower-case
    host name with an optional port, and the reference value that the
    locator found is an absolute path (one leading slash) with an
    optional query, both of characters that [url.parse] does not escape,
    [getSourceMapURL] returns a location whose protocol and host are those
    of the script location and whose pathname and search are those of the
    reference value.  For the script location
    [http://localhost:8081/index.ios.bundle?platform=ios&dev=true] and the
    reference value [/index.ios.map?platform=ios] it is
    [http://localhost:8081/index.ios.map?platform=ios]. *)
Theorem getSourceMapURL_resolves
    (B : Url.Builtins) (scriptUrl : Url.Url) (body : jsstring)
    (proto hostname port pathname search : jsstring) :
  getSourceMapRelativeUrl body = Str (pathname ++ search) ->
  Url.protocol scriptUrl = Str proto -> In proto webProtocols ->
  Url.host scriptUrl = Str (hostText hostname port) ->
  plainHostname hostname = true -> forallb Url.isDigit port = true ->
  absolutePathname pathname = true -> plainSearch search = true ->
  exists u,
    getSourceMapURL (Url.node B) scriptUrl body = Normal (Some u)
    /\ Url.protocol u = Url.protocol scriptUrl
    /\ Url.host u = Url.host scriptUrl
    /\ Url.pathname u = Str pathname
    /\ Url.search u = Url.nonEmpty search
    /\ Url.href u
       = Str (proto ++ js "//" ++ hostText hostname port ++ pathname ++ search).
Proof.
  intros Href Hproto Hweb Hhost Hname Hport Hpath Hsearch.
  assert (Hne : hostText hostname port <> []).
  { unfold plainHostname in Hname. destruct hostname; [discriminate|]. discriminate. }
  assert (Hpne : truthy (Str (pathname ++ search)) = true
                 /\ Url.strOr (Str (pathname ++ search)) [] = pathname ++ search).
  { destruct pathname; [discriminate|]. now split. }
  destruct Hpne as [Ht Hs].
  eexists. split.
  - unfold getSourceMapURL. rewrite Href, Ht, Hs, Hproto, Hhost.
    cbn [Url.url_parse Url.url_format Url.node].
    rewrite (parse_reference B pathname search Hpath Hsearch). cbn [bind].
    match goal with
    | |- context [Url.format ?u] =>
        rewrite (format_resolved pathname search Hpath Hsearch proto
                   (hostText hostname port) Hweb Hne u
                   eq_refl eq_refl eq_refl eq_refl eq_refl eq_refl)
    end.
    cbn [bind].
    rewrite (parse_resolved B pathname search Hpath Hsearch proto
               (hostText hostname port) Hweb Hne hostname port Hname Hport eq_refl).
    reflexivity.
  - cbn [Url.protocol Url.host Url.pathname Url.search Url.href].
    rewrite Hproto, Hhost. repeat split.
Qed.

Lemma getSourceMapURL_resolves_witness :
  exists u,
    getSourceMapURL nodeUrl bundleUrl
      (js "a();" ++ nl ++ js "//# sourceMappingURL=/index.ios.map?platform=ios")
    = Normal (Some u)
    /\ Url.protocol u = Url.protocol bundleUrl
    /\ Url.host u = Url.host bundleUrl
    /\ Url.pathname u = Str (js "/index.ios.map")
    /\ Url.search u = Url.nonEmpty (js "?platform=ios")
    /\ Url.href u
       = Str (js "http:" ++ js "//" ++ hostText (js "localhost") (js "8081")
              ++ js "/index.ios.map" ++ js "?platform=ios").
Proof.
  refine (getSourceMapURL_resolves asciiBuiltins bundleUrl
           (js "a();" ++ nl ++ js "//# sourceMappingURL=/index.ios.map?platform=ios")
           (js "http:") (js "localhost") (js "8081")
           (js "/index.ios.map") (js "?platform=ios") _ _ _ _ _ _ _ _).
  - vm_compute; reflexivity.
  - vm_compute; reflexivity.
  - left; reflexivity.
  - vm_compute; reflexivity.
  - vm_compute; reflexivity.
  - vm_compute; reflexivity.
  - vm_compute; reflexivity.
  - vm_compute; reflexivity.
Defined.

(** The example of the specification, evaluated. *)
Lemma getSourceMapURL_example :
  exists u,
    Url.parse asciiBuiltins
      (js "http://localhost:8081/index.ios.bundle?platform=ios&dev=true")
    = Normal bundleUrl
    /\ getSourceMapURL nodeUrl bundleUrl
         (js "a();" ++ nl ++ js "//# sourceMappingURL=/index.ios.map?platform=ios")
       = Normal (Some u)
    /\ Url.href u = Str (js "http://localhost:8081/index.ios.map?platform=ios").
Proof.
  eexists. split; [vm_compute; reflexivity|].
  split; vm_compute; reflexivity.
Qed.

(** C2, as stated, fails.  For a reference value that is a relative path
    the path of the result has a leading slash that the path of the
    reference value has not; and for a script location without a host the
    host of the result is that of the reference value. *)
Lemma getSourceMapURL_not_preserved :
  (exists r u,
     getSourceMapRelativeUrl (js "//# sourceMappingURL=index.map") = Str (js "index.map")
     /\ Url.parse asciiBuiltins (js "index.map") = Normal r
     /\ Url.pathname r = Str (js "index.map")
     /\ getSourceMapURL nodeUrl bundleUrl (js "//# sourceMappingURL=index.map")
        = Normal (Some u)
     /\ Url.pathname u = Str (js "/index.map")
     /\ Url.pathname u <> Url.pathname r)
  /\ (exists u,
        Url.parse asciiBuiltins (js "file:///bundle.js") = Normal fileUrl
        /\ getSourceMapURL nodeUrl fileUrl
             (js "//# sourceMappingURL=http://cdn.example.com/x.map")
           = Normal (Some u)
        /\ Url.host u = Str (js "cdn.example.com")
        /\ Url.host u <> Url.host fileUrl).
Proof.
  split.
  - eexists. eexists. split; [vm_compute; reflexivity|].
    split; [vm_compute; reflexivity|]. split; [vm_compute; reflexivity|].
    split; [vm_compute; reflexivity|]. split; [vm_compute; reflexivity|].
    vm_compute. discriminate.
  - eexists. split; [vm_compute; reflexivity|].
    split; [vm_compute; reflexivity|]. split; [vm_compute; reflexivity|].
    vm_compute. discriminate.
Qed.

(* ================================================================== *)
(** * Further properties *)

(** ** The locator on every body *)

Section FirstComment.

Lemma isReferenceComment_nil : isReferenceComment [] = false.
Proof. reflexivity. Qed.

Lemma skipn_nil_any (j : nat) : skipn j (@nil N) = [].
Proof. now destruct j. Qed.

(** A body has no reference comment, or a first one. *)
Lemma first_position : forall body : jsstring,
  (forall j, isReferenceComment (skipn j body) = false)
  \/ exists pre s,
       body = pre ++ s /\ isReferenceComment s = true
       /\ forall j, j < List.length pre -> isReferenceComment (skipn j body) = false.
Proof.
  induction body as [|c t IH].
  - left. intros j. now rewrite skipn_nil_any.
  - destruct (isReferenceComment (c :: t)) eqn:E.
    + right. exists [], (c :: t). split; [reflexivity|]. split; [exact E|].
      intros j Hj. cbn [List.length] in Hj. lia.
    + destruct IH as [IH|[pre [s (Hb & Hs & Hfirst)]]].
      * left. intros [|j]; [exact E | apply IH].
      * right. exists (c :: pre), s. split; [now rewrite Hb|]. split; [exact Hs|].
        intros [|j] Hj; [exact E|]. apply Hfirst. cbn [List.length] in Hj. lia.
Qed.

(** A text is a line (without line terminators) and what follows it. *)
Lemma line_split : forall s : jsstring,
  exists line post,
    s = line ++ post /\ Forall notLineTerminator line /\ atLineEnd post = true.
Proof.
  induction s as [|c t (line & post & Hs & Hl & Hp)].
  - exists [], []. repeat split. constructor.
  - destruct (isLineTerminator c) eqn:E.
    + exists [], (c :: t). split; [reflexivity|]. split; [constructor|exact E].
    + exists (c :: line), post. split; [now rewrite Hs|]. split; [|exact Hp].
      constructor; [exact E | exact Hl].
Qed.

(** The shape of a text at which a reference comment starts. *)
Lemma isReferenceComment_shape (s : jsstring) :
  isReferenceComment s = true ->
  exists m line post,
    s = js "//" ++ [m] ++ js " sourceMappingURL=" ++ line ++ post
    /\ isMarker m = true /\ line <> []
    /\ Forall notLineTerminator line /\ atLineEnd post = true.
Proof.
  unfold isReferenceComment. intros H.
  destruct (commentOpener s) as [[m [|c t]]|] eqn:Ho; try discriminate.
  apply commentOpener_Some in Ho. destruct Ho as [Hm Hs].
  destruct (line_split t) as (line & post & Ht & Hl & Hp).
  exists m, (c :: line), post. split; [now rewrite Hs, Ht|].
  split; [exact Hm|]. split; [discriminate|]. split; [|exact Hp].
  constructor; [|exact Hl]. now apply negb_true_iff in H.
Qed.

(** The first reference comment of a body that has one. *)
Lemma first_comment (body : jsstring) :
  (exists j, isReferenceComment (skipn j body) = true) ->
  exists pre m line post,
    body = pre ++ js "//" ++ [m] ++ js " sourceMappingURL=" ++ line ++ post
    /\ isMarker m = true /\ line <> []
    /\ Forall notLineTerminator line /\ atLineEnd post = true
    /\ forall j, j < List.length pre -> isReferenceComment (skipn j body) = false.
Proof.
  intros [j Hj]. destruct (first_position body) as [Hno|[pre [s (Hb & Hs & Hfirst)]]].
  - rewrite Hno in Hj. discriminate.
  - destruct (isReferenceComment_shape s Hs) as (m & line & post & Hshape & H).
    exists pre, m, line, post. split; [now rewrite Hb, Hshape|].
    destruct H as (H1 & H2 & H3 & H4). repeat split; assumption.
Qed.

Lemma trimEnd_last : forall l : jsstring,
  trimEnd l <> [] -> exists w c, trimEnd l = w ++ [c] /\ isSpace c = false.
Proof.
  induction l as [|a l IH]; intros H; [now elim H|].
  cbn [trimEnd] in H |- *. destruct (trimEnd l) as [|b t] eqn:E.
  - destruct (isSpace a) eqn:Ea; [now elim H|]. now exists [], a.
  - destruct IH as (w & c & Hw & Hc); [discriminate|].
    exists (a :: w), c. split; [now rewrite Hw | exact Hc].
Qed.

Lemma trimEnd_prefix (l : jsstring) : exists b, l = trimEnd l ++ b.
Proof. destruct (trimEnd_split l) as [b [H _]]. now exists b. Qed.

Lemma Forall_app_l {A : Type} (P : A -> Prop) (a b : list A) :
  Forall P (a ++ b) -> Forall P a.
Proof. intros H. apply Forall_app in H. now destruct H. Qed.

(** The value that the pattern captures on a line. *)
Lemma referenceValue_shape (line : jsstring) :
  line <> [] -> Forall notLineTerminator line ->
  referenceValue line <> []
  /\ Forall notLineTerminator (referenceValue line)
  /\ (exists b, line = referenceValue line ++ b)
  /\ (List.length (referenceValue line) = 1
      \/ exists w c, referenceValue line = w ++ [c] /\ isSpace c = false).
Proof.
  intros Hne Hl. unfold referenceValue.
  destruct (trimEnd line) as [|a t] eqn:E.
  - destruct line as [|c l]; [now elim Hne|]. cbn [firstn].
    split; [discriminate|]. split; [constructor; [now inversion Hl|constructor]|].
    split; [now exists l|]. now left.
  - rewrite <- E. destruct (trimEnd_prefix line) as [b Hb].
    split; [rewrite E; discriminate|].
    split; [rewrite Hb in Hl; exact (Forall_app_l _ _ _ Hl)|].
    split; [now exists b|]. right. apply trimEnd_last. rewrite E. discriminate.
Qed.

End FirstComment.

(** X1.  The locator returns null exactly for the bodies without a
    reference comment, at whatever position; it never returns
    [undefined]. *)
Theorem getSourceMapRelativeUrl_null_iff (body : jsstring) :
  (getSourceMapRelativeUrl body = Null
   <-> forall j, isReferenceComment (skipn j body) = false)
  /\ getSourceMapRelativeUrl body <> Undefined.
Proof.
  destruct (first_position body) as [Hno|[pre [s (Hb & Hs & Hfirst)]]].
  - pose proof (getSourceMapRelativeUrl_no_comment body Hno) as Hn.
    split; [split; [intros _; exact Hno | intros _; exact Hn]|].
    rewrite Hn. discriminate.
  - destruct (isReferenceComment_shape s Hs) as (m & line & post & Hshape & Hm & Hne & Hl & Hp).
    subst s. subst body.
    destruct (exec_first_comment pre line post m Hm Hne Hl Hp Hfirst) as [w [Hexec _]].
    assert (Hv : getSourceMapRelativeUrl
                   (pre ++ js "//" ++ [m] ++ js " sourceMappingURL=" ++ line ++ post)
                 = Str (referenceValue line)).
    { unfold getSourceMapRelativeUrl. rewrite Hexec. reflexivity. }
    rewrite Hv. split; [|discriminate]. split; [discriminate|].
    intros Hno. specialize (Hno (List.length pre)).
    rewrite skipn_length_app0 in Hno. rewrite Hs in Hno. discriminate.
Qed.

(** X2.  A value that the locator returns is not empty, holds no line
    terminator, stands in the body right after [//# sourceMappingURL=] or
    [//@ sourceMappingURL=], and does not end with white space unless it
    is one character long. *)
Theorem getSourceMapRelativeUrl_value (body v : jsstring) :
  getSourceMapRelativeUrl body = Str v ->
  v <> []
  /\ Forall notLineTerminator v
  /\ (exists pre m post,
        isMarker m = true
        /\ body = pre ++ js "//" ++ [m] ++ js " sourceMappingURL=" ++ v ++ post)
  /\ (List.length v = 1 \/ exists w c, v = w ++ [c] /\ isSpace c = false).
Proof.
  intros H.
  destruct (first_position body) as [Hno|[pre [s (Hb & Hs & Hfirst)]]].
  - rewrite (getSourceMapRelativeUrl_no_comment body Hno) in H. discriminate.
  - destruct (isReferenceComment_shape s Hs) as (m & line & post & Hshape & Hm & Hne & Hl & Hp).
    subst s. subst body.
    destruct (exec_first_comment pre line post m Hm Hne Hl Hp Hfirst) as [w [Hexec _]].
    unfold getSourceMapRelativeUrl in H. rewrite Hexec in H.
    cbn [group groups capture Nat.eqb] in H. injection H as <-.
    destruct (referenceValue_shape line Hne Hl) as (H1 & H2 & [b H3] & H4).
    split; [exact H1|]. split; [exact H2|]. split; [|exact H4].
    exists pre, m, (b ++ post). split; [exact Hm|].
    rewrite H3 at 1. now rewrite <- !app_assoc.
Qed.

Lemma getSourceMapRelativeUrl_value_witness :
  js "x.map" <> []
  /\ Forall notLineTerminator (js "x.map")
  /\ (exists pre m post,
        isMarker m = true
        /\ js "a();//@ sourceMappingURL=x.map  " ++ nl ++ js "b();"
           = pre ++ js "//" ++ [m] ++ js " sourceMappingURL=" ++ js "x.map" ++ post)
  /\ (List.length (js "x.map") = 1
      \/ exists w c, js "x.map" = w ++ [c] /\ isSpace c = false).
Proof.
  apply (getSourceMapRelativeUrl_value
           (js "a();//@ sourceMappingURL=x.map  " ++ nl ++ js "b();") (js "x.map")).
  vm_compute. reflexivity.
Defined.

(** ** Rewriting the reference comment *)

Section Rewriting.

Lemma matchesAll_prefix (p : jsstring) (q : list (codeunit -> bool)) :
  forall s : jsstring,
  matchesAll (List.map N.eqb p ++ q) s =
  match stripPrefix p s with
  | Some t => matchesAll q t
  | None => false
  end.
Proof.
  induction p as [|a p IH]; intros s; [reflexivity|].
  cbn [List.map app matchesAll stripPrefix]. destruct s as [|b s]; [reflexivity|].
  destruct (N.eqb a b); [apply IH | reflexivity].
Qed.

Lemma isReferenceComment_matches (s : jsstring) :
  isReferenceComment s = matchesAll commentPattern s.
Proof.
  unfold commentPattern, isReferenceComment, commentOpener.
  rewrite matchesAll_prefix.
  destruct (stripPrefix (js "//") s) as [[|m s2]|]; try reflexivity.
  cbn [app matchesAll]. destruct (isMarker m); [|reflexivity]. cbn [andb].
  rewrite matchesAll_prefix.
  destruct (stripPrefix (js " sourceMappingURL=") s2) as [[|c s3]|]; try reflexivity.
  cbn [matchesAll]. now rewrite andb_true_r.
Qed.

(** What stands after two slashes plays no part in whether a comment
    starts before them. *)
Lemma matchesAll_before_slashes (W W' : jsstring) :
  forall (r : jsstring) (k : nat), 1 <= k ->
  matchesAll (skipn k commentPattern) (r ++ js "//" ++ W)
  = matchesAll (skipn k commentPattern) (r ++ js "//" ++ W').
Proof.
  induction r as [|a r IH]; intros k Hk.
  - do 22 (destruct k as [|k]; [try lia; reflexivity|]).
    rewrite skipn_all2 by (cbn; lia). reflexivity.
  - destruct (skipn k commentPattern) as [|p ps] eqn:E; [reflexivity|].
    cbn [app matchesAll]. f_equal.
    assert (Hps : ps = skipn (S k) commentPattern).
    { change (S k) with (1 + k). rewrite <- skipn_skipn, E. reflexivity. }
    rewrite Hps. apply IH. lia.
Qed.

Lemma isReferenceComment_before (pre W W' : jsstring) (j : nat) :
  j < List.length pre ->
  isReferenceComment (skipn j (pre ++ js "//" ++ W))
  = isReferenceComment (skipn j (pre ++ js "//" ++ W')).
Proof.
  intros Hj. rewrite !skipn_app.
  replace (j - List.length pre) with 0 by lia. cbn [skipn].
  destruct (skipn j pre) as [|a r] eqn:E.
  - apply (f_equal (@List.length _)) in E. rewrite length_skipn in E.
    cbn [List.length] in E. lia.
  - rewrite !isReferenceComment_matches. cbn [app].
    unfold commentPattern. cbn [List.map js list_ascii_of_string app matchesAll].
    f_equal.
    exact (matchesAll_before_slashes W W' r 1 (Nat.le_refl 1)).
Qed.

(** [replace] on a body with a first reference comment: the comment, its
    value and the white space [\s*$] takes are replaced with the expansion
    of the template. *)
Lemma replace_first_comment (pre line post : jsstring) (m : codeunit)
    (template : jsstring) :
  isMarker m = true -> line <> [] ->
  Forall notLineTerminator line -> atLineEnd post = true ->
  (forall j, j < List.length pre ->
     isReferenceComment
       (skipn j (pre ++ js "//" ++ [m] ++ js " sourceMappingURL=" ++ line ++ post))
     = false) ->
  exists w,
    spacesToLineEnd (skipn (List.length (referenceValue line)) (line ++ post)) = Some w
    /\ replace 2 SourceMapURLRegex
         (pre ++ js "//" ++ [m] ++ js " sourceMappingURL=" ++ line ++ post) template
       = pre
         ++ getSubstitution 2
              (mkMatch (List.length pre)
                 (js "//" ++ [m] ++ js " sourceMappingURL=" ++ referenceValue line
                  ++ firstn w (skipn (List.length (referenceValue line)) (line ++ post)))
                 [(2, referenceValue line); (1, [m])])
              pre
              (skipn w (skipn (List.length (referenceValue line)) (line ++ post)))
              template
         ++ skipn w (skipn (List.length (referenceValue line)) (line ++ post)).
Proof.
  intros Hm Hne Hline Hpost Hfirst.
  destruct (exec_first_comment pre line post m Hm Hne Hline Hpost Hfirst)
    as [w [Hexec Hw]].
  exists w. split; [exact Hw|].
  set (v := referenceValue line) in *.
  set (tail := skipn (List.length v) (line ++ post)) in *.
  destruct (spacesToLineEnd_sound _ _ Hw) as (Hle & _ & _).
  unfold replace. rewrite Hexec. cbn [index matched].
  assert (Hlen : List.length
                   (js "//" ++ [m] ++ js " sourceMappingURL=" ++ v ++ firstn w tail)
                 = 21 + (List.length v + w)).
  { rewrite !length_app, length_firstn, Nat.min_l by exact Hle. simpl. lia. }
  rewrite Hlen.
  assert (Hafter :
    skipn (List.length pre + (21 + (List.length v + w)))
      (pre ++ js "//" ++ [m] ++ js " sourceMappingURL=" ++ line ++ post)
    = skipn w tail).
  { rewrite skipn_length_app.
    change (js "//" ++ [m] ++ js " sourceMappingURL=" ++ line ++ post)
      with ((js "//" ++ [m] ++ js " sourceMappingURL=") ++ line ++ post).
    change 21 with (List.length (js "//" ++ [m] ++ js " sourceMappingURL=")).
    rewrite skipn_length_app. unfold tail. rewrite skipn_skipn.
    f_equal. lia. }
  rewrite Hafter.
  rewrite firstn_app, Nat.sub_diag, firstn_all. cbn [firstn]. now rewrite app_nil_r.
Qed.

End Rewriting.

Section Rewritten.

Lemma referenceValue_rest (line : jsstring) :
  exists b, line = referenceValue line ++ b /\ Forall space b.
Proof.
  unfold referenceValue. destruct (trimEnd line) as [|a t] eqn:E.
  - apply trimEnd_nil_iff in E. destruct line as [|c l].
    + exists []. split; [reflexivity|constructor].
    + exists l. split; [reflexivity|]. now inversion E.
  - rewrite <- E. destruct (trimEnd_split line) as [b [H1 H2]]. now exists b.
Qed.

(** Once [\s*$] has taken its white space, it takes no more of what is left. *)
Lemma spaces_settled (tail : jsstring) (w : nat) :
  spacesToLineEnd tail = Some w ->
  forall b, Forall space b ->
  spacesToLineEnd (b ++ skipn w tail) = Some (List.length b).
Proof.
  intros Hw b Hb.
  destruct (spacesToLineEnd_sound _ _ Hw) as (Hle & Hsp & Hend).
  destruct (spacesToLineEnd_spaces (skipn w tail) Hend b Hb) as [w' [Hw' Hge]].
  rewrite Hw'. f_equal.
  destruct (spacesToLineEnd_sound _ _ Hw') as (Hle' & Hsp' & Hend').
  set (d := w' - List.length b).
  assert (Hd : w' = List.length b + d) by (unfold d; lia).
  rewrite Hd in Hsp', Hend', Hle'.
  rewrite firstn_app, firstn_all2 in Hsp' by lia.
  replace (List.length b + d - List.length b) with d in Hsp' by lia.
  apply Forall_app in Hsp'. destruct Hsp' as [_ Hsp'].
  rewrite skipn_length_app in Hend'.
  rewrite length_app, length_skipn in Hle'.
  assert (Hmax : w + d <= w).
  { apply (spacesToLineEnd_max _ _ Hw).
    - lia.
    - assert (E : firstn (w + d) tail = firstn w tail ++ firstn d (skipn w tail)).
      { rewrite <- (firstn_skipn w tail) at 1.
        replace (w + d) with (List.length (firstn w tail) + d)
          by (rewrite length_firstn; lia).
        apply firstn_app_2. }
      rewrite E. apply Forall_app. split; [exact Hsp | exact Hsp'].
    - rewrite Nat.add_comm, <- skipn_skipn. exact Hend'. }
  lia.
Qed.

Lemma getSubstitution_app_plain (n : nat) (mr : match_result) (before after : jsstring) :
  forall a t, Forall notDollar a ->
  getSubstitution n mr before after (a ++ t)
  = a ++ getSubstitution n mr before after t.
Proof.
  induction a as [|c a IH]; intros t Ha; [reflexivity|].
  inversion Ha as [|? ? Hc Ha']; subst.
  cbn [app getSubstitution]. fold getSubstitution.
  destruct (N.eqb c 36) eqn:E; [apply N.eqb_eq in E; now elim Hc|].
  cbn [negb]. now rewrite IH.
Qed.

(** The expansion of [$$], [$1], [$2] and [$&] before a text without
    dollar signs, for the two groups of [SourceMapURLRegex]. *)
Lemma getSubstitution_dollar (mr : match_result) (before after b : jsstring) :
  Forall notDollar b ->
  getSubstitution 2 mr before after (js "$$" ++ b) = js "$" ++ b
  /\ getSubstitution 2 mr before after (js "$1" ++ b)
     = match capture 1 (groups mr) with Some s => s | None => [] end ++ b
  /\ getSubstitution 2 mr before after (js "$2" ++ b)
     = match capture 2 (groups mr) with Some s => s | None => [] end ++ b
  /\ getSubstitution 2 mr before after (js "$&" ++ b) = matched mr ++ b.
Proof.
  intros Hb. pose proof (getSubstitution_plain 2 mr before after b Hb) as Hp.
  assert (Hnn : forall d2 : codeunit, 2 <= digitValue d2 \/ digitValue d2 < 2) by (intros; lia).
  split; [|split; [|split]].
  - change (js "$$" ++ b) with (36%N :: 36%N :: b).
    cbn [getSubstitution]. fold getSubstitution.
    change (N.eqb 36 36) with true. cbn [negb]. now rewrite Hp.
  - change (js "$1" ++ b) with (36%N :: 49%N :: b).
    cbn [getSubstitution]. fold getSubstitution.
    change (N.eqb 36 36) with true. cbn [negb].
    change (N.eqb 49 36) with false. change (N.eqb 49 38) with false.
    change (N.eqb 49 96) with false. change (N.eqb 49 39) with false.
    change (isDigit 49) with true. change (digitValue 49) with 1. cbv iota.
    destruct b as [|d2 b'].
    + cbn. now rewrite app_nil_r.
    + replace (Nat.leb (10 * 1 + digitValue d2) 2) with false
        by (symmetry; apply Nat.leb_gt; lia).
      rewrite andb_false_r. cbv iota. rewrite Hp. reflexivity.
  - change (js "$2" ++ b) with (36%N :: 50%N :: b).
    cbn [getSubstitution]. fold getSubstitution.
    change (N.eqb 36 36) with true. cbn [negb].
    change (N.eqb 50 36) with false. change (N.eqb 50 38) with false.
    change (N.eqb 50 96) with false. change (N.eqb 50 39) with false.
    change (isDigit 50) with true. change (digitValue 50) with 2. cbv iota.
    destruct b as [|d2 b'].
    + cbn. now rewrite app_nil_r.
    + replace (Nat.leb (10 * 2 + digitValue d2) 2) with false
        by (symmetry; apply Nat.leb_gt; lia).
      rewrite andb_false_r. cbv iota. rewrite Hp. reflexivity.
  - change (js "$&" ++ b) with (36%N :: 38%N :: b).
    cbn [getSubstitution]. fold getSubstitution.
    change (N.eqb 36 36) with true. cbn [negb].
    change (N.eqb 38 36) with false. change (N.eqb 38 38) with true. cbv iota.
    now rewrite Hp.
Qed.

End Rewritten.

(** X3.  A body without a reference comment is returned as it is by
    [updateScriptPaths], whatever the new location, when its pathname is a
    string. *)
Theorem updateScriptPaths_no_comment
    (path : Path.PathModule) (body : jsstring) (u : Url.Url) (base : jsstring) :
  (forall j, isReferenceComment (skipn j body) = false) ->
  Url.pathname u = Str base ->
  updateScriptPaths path body u = Normal body.
Proof.
  intros Hno Hpath. unfold updateScriptPaths. rewrite Hpath. cbn [assertPath bind].
  unfold replace. now rewrite (exec_no_comment body Hno).
Qed.

Lemma updateScriptPaths_no_comment_witness :
  updateScriptPaths (Path.posix (js "/")) (js "a();// no map")
    (urlWithPathname (Str (js "/maps/new.map")))
  = Normal (js "a();// no map").
Proof.
  apply (updateScriptPaths_no_comment (Path.posix (js "/")) (js "a();// no map")
           (urlWithPathname (Str (js "/maps/new.map"))) (js "/maps/new.map")).
  - intros j. do 14 (destruct j as [|j]; [reflexivity|]). now destruct j.
  - reflexivity.
Defined.

Section RewrittenBody.

Variable path : Path.PathModule.
Variables pre line post : jsstring.
Variable m : codeunit.
Variable u : Url.Url.
Variable base : jsstring.

Hypothesis marker : isMarker m = true.
Hypothesis line_nonempty : line <> [].
Hypothesis line_chars : Forall notLineTerminator line.
Hypothesis post_end : atLineEnd post = true.
Hypothesis first :
  forall j, j < List.length pre ->
    isReferenceComment
      (skipn j (pre ++ js "//" ++ [m] ++ js " sourceMappingURL=" ++ line ++ post))
    = false.
Hypothesis pathname_string : Url.pathname u = Str base.

Let body : jsstring :=
  pre ++ js "//" ++ [m] ++ js " sourceMappingURL=" ++ line ++ post.
Let bn : jsstring := Path.path_basename path base.

(** The rewritten body, for a base name without dollar signs. *)
Lemma updateScriptPaths_rewritten :
  Forall notDollar bn ->
  exists w,
    spacesToLineEnd (skipn (List.length (referenceValue line)) (line ++ post)) = Some w
    /\ updateScriptPaths path body u
       = Normal (pre ++ js "//" ++ [35%N] ++ js " sourceMappingURL=" ++ bn
                 ++ skipn w (skipn (List.length (referenceValue line)) (line ++ post))).
Proof.
  intros Hd.
  destruct (replace_first_comment pre line post m (js "//# sourceMappingURL=" ++ bn)
              marker line_nonempty line_chars post_end first) as [w [Hw Hr]].
  exists w. split; [exact Hw|].
  unfold updateScriptPaths. rewrite pathname_string. cbn [assertPath bind].
  fold bn. unfold body. rewrite Hr.
  rewrite getSubstitution_plain.
  2:{ apply Forall_app. split; [|exact Hd]. repeat constructor; discriminate. }
  now rewrite <- !app_assoc.
Qed.

(** In the rewritten body the comment is still the first one. *)
Lemma rewritten_first (t : jsstring) :
  forall j, j < List.length pre ->
    isReferenceComment
      (skipn j (pre ++ js "//" ++ [35%N] ++ js " sourceMappingURL=" ++ bn ++ t))
    = false.
Proof.
  intros j Hj.
  rewrite (isReferenceComment_before pre _
             ([m] ++ js " sourceMappingURL=" ++ line ++ post) j Hj).
  now apply first.
Qed.

End RewrittenBody.

(** X4.  After [updateScriptPaths] has rewritten the first reference
    comment of a body, the locator finds the base name of the new
    location in the rewritten body (without its trailing white space, if
    it has any), provided that the base name is not empty and holds no
    dollar sign and no line terminator. *)
Theorem updateScriptPaths_then_locate
    (path : Path.PathModule) (pre line post : jsstring) (m : codeunit)
    (u : Url.Url) (base : jsstring) :
  isMarker m = true -> line <> [] ->
  Forall notLineTerminator line -> atLineEnd post = true ->
  (forall j, j < List.length pre ->
     isReferenceComment
       (skipn j (pre ++ js "//" ++ [m] ++ js " sourceMappingURL=" ++ line ++ post))
     = false) ->
  Url.pathname u = Str base ->
  Path.path_basename path base <> [] ->
  Forall notDollar (Path.path_basename path base) ->
  Forall notLineTerminator (Path.path_basename path base) ->
  exists body',
    updateScriptPaths path
      (pre ++ js "//" ++ [m] ++ js " sourceMappingURL=" ++ line ++ post) u
    = Normal body'
    /\ getSourceMapRelativeUrl body'
       = Str (referenceValue (Path.path_basename path base))
    /\ (trimEnd (Path.path_basename path base) = Path.path_basename path base ->
        getSourceMapRelativeUrl body' = Str (Path.path_basename path base)).
Proof.
  intros Hm Hne Hl Hp Hfirst Hpath Hbn Hd Hbl.
  destruct (updateScriptPaths_rewritten path pre line post m u base
              Hm Hne Hl Hp Hfirst Hpath Hd) as [w [Hw Hr]].
  destruct (spacesToLineEnd_sound _ _ Hw) as (_ & _ & Hend).
  eexists. split; [exact Hr|].
  destruct (exec_first_comment pre (Path.path_basename path base) _ 35%N
              eq_refl Hbn Hbl Hend
              (rewritten_first path pre line post m base Hfirst _))
    as [w' [Hexec _]].
  assert (Hv : getSourceMapRelativeUrl
                 (pre ++ js "//" ++ [35%N] ++ js " sourceMappingURL="
                  ++ Path.path_basename path base
                  ++ skipn w (skipn (List.length (referenceValue line)) (line ++ post)))
               = Str (referenceValue (Path.path_basename path base))).
  { unfold getSourceMapRelativeUrl. rewrite Hexec. reflexivity. }
  split; [exact Hv|]. intros Ht. rewrite Hv. f_equal.
  unfold referenceValue. rewrite Ht.
  destruct (Path.path_basename path base); [now elim Hbn | reflexivity].
Qed.

Lemma updateScriptPaths_then_locate_witness :
  exists body',
    updateScriptPaths (Path.posix (js "/"))
      ((js "a();" ++ nl) ++ js "//" ++ [64%N] ++ js " sourceMappingURL="
       ++ js "old/path.map" ++ (nl ++ js "b();"))
      (urlWithPathname (Str (js "/maps/new.map")))
    = Normal body'
    /\ getSourceMapRelativeUrl body' = Str (js "new.map").
Proof.
  destruct (updateScriptPaths_then_locate (Path.posix (js "/"))
              (js "a();" ++ nl) (js "old/path.map") (nl ++ js "b();") 64%N
              (urlWithPathname (Str (js "/maps/new.map"))) (js "/maps/new.map"))
    as [body' (H1 & _ & H3)].
  - reflexivity.
  - discriminate.
  - repeat constructor.
  - reflexivity.
  - intros j Hj. do 5 (destruct j as [|j]; [reflexivity|]). simpl in Hj. lia.
  - reflexivity.
  - vm_compute. discriminate.
  - vm_compute. repeat constructor; discriminate.
  - vm_compute. repeat constructor.
  - exists body'. split; [exact H1|]. apply H3. vm_compute. reflexivity.
Defined.

(** X5.  Rewriting is idempotent: [updateScriptPaths] applied with the
    same location to a body that it has rewritten returns that body,
    provided that the base name of the location is not empty and holds no
    dollar sign and no line terminator. *)
Theorem updateScriptPaths_idempotent
    (path : Path.PathModule) (pre line post : jsstring) (m : codeunit)
    (u : Url.Url) (base : jsstring) :
  isMarker m = true -> line <> [] ->
  Forall notLineTerminator line -> atLineEnd post = true ->
  (forall j, j < List.length pre ->
     isReferenceComment
       (skipn j (pre ++ js "//" ++ [m] ++ js " sourceMappingURL=" ++ line ++ post))
     = false) ->
  Url.pathname u = Str base ->
  Path.path_basename path base <> [] ->
  Forall notDollar (Path.path_basename path base) ->
  Forall notLineTerminator (Path.path_basename path base) ->
  exists body',
    updateScriptPaths path
      (pre ++ js "//" ++ [m] ++ js " sourceMappingURL=" ++ line ++ post) u
    = Normal body'
    /\ updateScriptPaths path body' u = Normal body'.
Proof.
  intros Hm Hne Hl Hp Hfirst Hpath Hbn Hd Hbl.
  destruct (updateScriptPaths_rewritten path pre line post m u base
              Hm Hne Hl Hp Hfirst Hpath Hd) as [w [Hw Hr]].
  destruct (spacesToLineEnd_sound _ _ Hw) as (_ & _ & Hend).
  eexists. split; [exact Hr|].
  set (t := skipn w (skipn (List.length (referenceValue line)) (line ++ post))) in *.
  destruct (updateScriptPaths_rewritten path pre (Path.path_basename path base) t
              35%N u base eq_refl Hbn Hbl Hend
              (rewritten_first path pre line post m base Hfirst t) Hpath Hd)
    as [w' [Hw' Hr']].
  destruct (referenceValue_rest (Path.path_basename path base)) as [b [Hb Hsp]].
  assert (Htail : skipn (List.length (referenceValue (Path.path_basename path base)))
                    (Path.path_basename path base ++ t) = b ++ t).
  { rewrite Hb at 2. rewrite <- app_assoc. apply skipn_length_app0. }
  rewrite Htail in Hw', Hr'.
  unfold t in Hw'. rewrite (spaces_settled _ _ Hw b Hsp) in Hw'.
  injection Hw' as <-. rewrite skipn_length_app0 in Hr'. exact Hr'.
Qed.

Lemma updateScriptPaths_idempotent_witness :
  exists body',
    updateScriptPaths (Path.posix (js "/"))
      ((js "a();" ++ nl) ++ js "//" ++ [64%N] ++ js " sourceMappingURL="
       ++ js "old/path.map" ++ (nl ++ nl ++ js "b();"))
      (urlWithPathname (Str (js "/maps/new.map")))
    = Normal body'
    /\ updateScriptPaths (Path.posix (js "/")) body'
         (urlWithPathname (Str (js "/maps/new.map"))) = Normal body'.
Proof.
  apply (updateScriptPaths_idempotent (Path.posix (js "/"))
           (js "a();" ++ nl) (js "old/path.map") (nl ++ nl ++ js "b();") 64%N
           (urlWithPathname (Str (js "/maps/new.map"))) (js "/maps/new.map")).
  - reflexivity.
  - discriminate.
  - repeat constructor.
  - reflexivity.
  - intros j Hj. do 5 (destruct j as [|j]; [reflexivity|]). simpl in Hj. lia.
  - reflexivity.
  - vm_compute. discriminate.
  - vm_compute. repeat constructor; discriminate.
  - vm_compute. repeat constructor.
Defined.

(** X6.  The base name of the new location is a replacement pattern of
    [String.prototype.replace]: in a base name [a$$b], [a$1b], [a$2b] or
    [a$&b] (with [a] and [b] free of dollar signs) the two characters are
    written as one dollar sign, as the marker character of the old
    comment, as its reference value, and as the whole text that is
    replaced. *)
Theorem updateScriptPaths_dollar
    (path : Path.PathModule) (pre line post : jsstring) (m : codeunit)
    (u : Url.Url) (base a b : jsstring) :
  isMarker m = true -> line <> [] ->
  Forall notLineTerminator line -> atLineEnd post = true ->
  (forall j, j < List.length pre ->
     isReferenceComment
       (skipn j (pre ++ js "//" ++ [m] ++ js " sourceMappingURL=" ++ line ++ post))
     = false) ->
  Url.pathname u = Str base ->
  Forall notDollar a -> Forall notDollar b ->
  exists ws t,
    line ++ post = referenceValue line ++ ws ++ t
    /\ Forall space ws /\ atLineEnd t = true
    /\ (Path.path_basename path base = a ++ js "$$" ++ b ->
        updateScriptPaths path
          (pre ++ js "//" ++ [m] ++ js " sourceMappingURL=" ++ line ++ post) u
        = Normal (pre ++ js "//# sourceMappingURL=" ++ a ++ js "$" ++ b ++ t))
    /\ (Path.path_basename path base = a ++ js "$1" ++ b ->
        updateScriptPaths path
          (pre ++ js "//" ++ [m] ++ js " sourceMappingURL=" ++ line ++ post) u
        = Normal (pre ++ js "//# sourceMappingURL=" ++ a ++ [m] ++ b ++ t))
    /\ (Path.path_basename path base = a ++ js "$2" ++ b ->
        updateScriptPaths path
          (pre ++ js "//" ++ [m] ++ js " sourceMappingURL=" ++ line ++ post) u
        = Normal (pre ++ js "//# sourceMappingURL=" ++ a ++ referenceValue line
                  ++ b ++ t))
    /\ (Path.path_basename path base = a ++ js "$&" ++ b ->
        updateScriptPaths path
          (pre ++ js "//" ++ [m] ++ js " sourceMappingURL=" ++ line ++ post) u
        = Normal (pre ++ js "//# sourceMappingURL=" ++ a
                  ++ (js "//" ++ [m] ++ js " sourceMappingURL="
                      ++ referenceValue line ++ ws)
                  ++ b ++ t)).
Proof.
  intros Hm Hne Hl Hp Hfirst Hpath Ha Hb.
  assert (Hopener : Forall notDollar (js "//# sourceMappingURL=" ++ a)).
  { apply Forall_app. split; [|exact Ha]. repeat constructor; discriminate. }
  assert (Hstep : forall tpl,
    exists w,
      spacesToLineEnd (skipn (List.length (referenceValue line)) (line ++ post)) = Some w
      /\ (Path.path_basename path base = a ++ tpl ->
          updateScriptPaths path
            (pre ++ js "//" ++ [m] ++ js " sourceMappingURL=" ++ line ++ post) u
          = Normal
              (pre ++ (js "//# sourceMappingURL=" ++ a)
               ++ getSubstitution 2
                    (mkMatch (List.length pre)
                       (js "//" ++ [m] ++ js " sourceMappingURL=" ++ referenceValue line
                        ++ firstn w (skipn (List.length (referenceValue line))
                                       (line ++ post)))
                       [(2, referenceValue line); (1, [m])])
                    pre
                    (skipn w (skipn (List.length (referenceValue line)) (line ++ post)))
                    tpl
               ++ skipn w (skipn (List.length (referenceValue line)) (line ++ post))))).
  { intros tpl.
    destruct (replace_first_comment pre line post m
                (js "//# sourceMappingURL=" ++ a ++ tpl) Hm Hne Hl Hp Hfirst)
      as [w [Hw Hr]].
    exists w. split; [exact Hw|]. intros Hbn.
    unfold updateScriptPaths. rewrite Hpath. cbn [assertPath bind]. rewrite Hbn.
    rewrite Hr. rewrite (app_assoc (js "//# sourceMappingURL=") a tpl).
    rewrite (getSubstitution_app_plain _ _ _ _ _ _ Hopener).
    now rewrite <- !app_assoc. }
  destruct (Hstep []) as [w [Hw _]].
  destruct (spacesToLineEnd_sound _ _ Hw) as (Hle & Hsp & Hend).
  exists (firstn w (skipn (List.length (referenceValue line)) (line ++ post))),
         (skipn w (skipn (List.length (referenceValue line)) (line ++ post))).
  split; [rewrite firstn_skipn; apply referenceValue_prefix|].
  split; [exact Hsp|]. split; [exact Hend|].
  split; [|split; [|split]]; intros Hbn.
  - destruct (Hstep (js "$$" ++ b)) as [w1 [Hw1 H1]].
    rewrite Hw in Hw1. injection Hw1 as <-. rewrite (H1 Hbn).
    destruct (getSubstitution_dollar
                (mkMatch (List.length pre)
                   (js "//" ++ [m] ++ js " sourceMappingURL=" ++ referenceValue line
                    ++ firstn w (skipn (List.length (referenceValue line)) (line ++ post)))
                   [(2, referenceValue line); (1, [m])])
                pre (skipn w (skipn (List.length (referenceValue line)) (line ++ post)))
                b Hb) as (E & _).
    rewrite E. now rewrite <- !app_assoc.
  - destruct (Hstep (js "$1" ++ b)) as [w1 [Hw1 H1]].
    rewrite Hw in Hw1. injection Hw1 as <-. rewrite (H1 Hbn).
    destruct (getSubstitution_dollar
                (mkMatch (List.length pre)
                   (js "//" ++ [m] ++ js " sourceMappingURL=" ++ referenceValue line
                    ++ firstn w (skipn (List.length (referenceValue line)) (line ++ post)))
                   [(2, referenceValue line); (1, [m])])
                pre (skipn w (skipn (List.length (referenceValue line)) (line ++ post)))
                b Hb) as (_ & E & _).
    rewrite E. cbn [groups capture Nat.eqb]. now rewrite <- !app_assoc.
  - destruct (Hstep (js "$2" ++ b)) as [w1 [Hw1 H1]].
    rewrite Hw in Hw1. injection Hw1 as <-. rewrite (H1 Hbn).
    destruct (getSubstitution_dollar
                (mkMatch (List.length pre)
                   (js "//" ++ [m] ++ js " sourceMappingURL=" ++ referenceValue line
                    ++ firstn w (skipn (List.length (referenceValue line)) (line ++ post)))
                   [(2, referenceValue line); (1, [m])])
                pre (skipn w (skipn (List.length (referenceValue line)) (line ++ post)))
                b Hb) as (_ & _ & E & _).
    rewrite E. cbn [groups capture Nat.eqb]. now rewrite <- !app_assoc.
  - destruct (Hstep (js "$&" ++ b)) as [w1 [Hw1 H1]].
    rewrite Hw in Hw1. injection Hw1 as <-. rewrite (H1 Hbn).
    destruct (getSubstitution_dollar
                (mkMatch (List.length pre)
                   (js "//" ++ [m] ++ js " sourceMappingURL=" ++ referenceValue line
                    ++ firstn w (skipn (List.length (referenceValue line)) (line ++ post)))
                   [(2, referenceValue line); (1, [m])])
                pre (skipn w (skipn (List.length (referenceValue line)) (line ++ post)))
                b Hb) as (_ & _ & _ & E).
    rewrite E. cbn [matched]. now rewrite <- !app_assoc.
Qed.

Lemma updateScriptPaths_dollar_witness :
  updateScriptPaths (Path.posix (js "/"))
    ((js "a();" ++ nl) ++ js "//" ++ [64%N] ++ js " sourceMappingURL="
     ++ js "old.map" ++ [])
    (urlWithPathname (Str (js "/maps/new$1.map")))
  = Normal ((js "a();" ++ nl) ++ js "//# sourceMappingURL=" ++ js "new" ++ [64%N]
            ++ js ".map" ++ []).
Proof.
  destruct (updateScriptPaths_dollar (Path.posix (js "/"))
              (js "a();" ++ nl) (js "old.map") [] 64%N
              (urlWithPathname (Str (js "/maps/new$1.map"))) (js "/maps/new$1.map")
              (js "new") (js ".map"))
    as [ws [t (H0 & _ & _ & _ & H1 & _)]].
  - reflexivity.
  - discriminate.
  - repeat constructor.
  - reflexivity.
  - intros j Hj. do 5 (destruct j as [|j]; [reflexivity|]). simpl in Hj. lia.
  - reflexivity.
  - repeat constructor; discriminate.
  - repeat constructor; discriminate.
  - assert (Ht : t = []).
    { apply (f_equal (@List.length _)) in H0. rewrite !length_app in H0.
      change (List.length (referenceValue (js "old.map"))) with 7 in H0.
      change (List.length (js "old.map")) with 7 in H0.
      destruct t; [reflexivity|]. cbn [List.length] in H0. lia. }
    subst t. apply H1. vm_compute. reflexivity.
Defined.

(** X15.  When the pathname of the new location has no base name (it is
    [/], say), [updateScriptPaths] leaves [//# sourceMappingURL=] without a
    value, and what it wrote is no reference comment any more: the locator
    does not find it in the rewritten body. *)
Theorem updateScriptPaths_empty_basename
    (path : Path.PathModule) (pre line post : jsstring) (m : codeunit)
    (u : Url.Url) (base : jsstring) :
  isMarker m = true -> line <> [] ->
  Forall notLineTerminator line -> atLineEnd post = true ->
  (forall j, j < List.length pre ->
     isReferenceComment
       (skipn j (pre ++ js "//" ++ [m] ++ js " sourceMappingURL=" ++ line ++ post))
     = false) ->
  Url.pathname u = Str base ->
  Path.path_basename path base = [] ->
  exists t,
    updateScriptPaths path
      (pre ++ js "//" ++ [m] ++ js " sourceMappingURL=" ++ line ++ post) u
    = Normal (pre ++ js "//# sourceMappingURL=" ++ t)
    /\ atLineEnd t = true
    /\ forall j, j <= List.length pre ->
         isReferenceComment (skipn j (pre ++ js "//# sourceMappingURL=" ++ t)) = false.
Proof.
  intros Hm Hne Hl Hp Hfirst Hpath Hbn.
  destruct (updateScriptPaths_rewritten path pre line post m u base
              Hm Hne Hl Hp Hfirst Hpath) as [w [Hw Hr]].
  { rewrite Hbn. constructor. }
  rewrite Hbn in Hr. cbn [app] in Hr.
  destruct (spacesToLineEnd_sound _ _ Hw) as (_ & _ & Hend).
  set (t := skipn w (skipn (List.length (referenceValue line)) (line ++ post))) in *.
  exists t. split; [exact Hr|]. split; [exact Hend|].
  intros j Hj. destruct (Nat.eq_dec j (List.length pre)) as [->|Hlt].
  - rewrite skipn_length_app0. unfold isReferenceComment.
    change (js "//# sourceMappingURL=" ++ t)
      with (js "//" ++ [35%N] ++ js " sourceMappingURL=" ++ t).
    rewrite (commentOpener_app 35%N t eq_refl).
    destruct t as [|c t']; [reflexivity|]. cbn [atLineEnd] in Hend. now rewrite Hend.
  - pose proof (rewritten_first path pre line post m base Hfirst t j) as H.
    rewrite Hbn in H. apply H. lia.
Qed.

Lemma updateScriptPaths_empty_basename_witness :
  exists t,
    updateScriptPaths (Path.posix (js "/"))
      ((js "a();" ++ nl) ++ js "//" ++ [35%N] ++ js " sourceMappingURL="
       ++ js "old.map" ++ (nl ++ js "b();"))
      (urlWithPathname (Str (js "/")))
    = Normal ((js "a();" ++ nl) ++ js "//# sourceMappingURL=" ++ t)
    /\ atLineEnd t = true
    /\ forall j, j <= List.length (js "a();" ++ nl) ->
         isReferenceComment
           (skipn j ((js "a();" ++ nl) ++ js "//# sourceMappingURL=" ++ t)) = false.
Proof.
  apply (updateScriptPaths_empty_basename (Path.posix (js "/"))
           (js "a();" ++ nl) (js "old.map") (nl ++ js "b();") 35%N
           (urlWithPathname (Str (js "/"))) (js "/")).
  - reflexivity.
  - discriminate.
  - repeat constructor.
  - reflexivity.
  - intros j Hj. do 5 (destruct j as [|j]; [reflexivity|]). simpl in Hj. lia.
  - reflexivity.
  - reflexivity.
Defined.

(** ** Relative source paths *)

Section RelativePaths.

Import Path.

Lemma dropCommon_prefix (C F T : list jsstring) :
  dropCommon (C ++ F) (C ++ T) = dropCommon F T.
Proof.
  induction C as [|c C IH]; [reflexivity|].
  cbn [app dropCommon]. now rewrite eqb_refl.
Qed.

Lemma dropCommon_diverge (F T : list jsstring) :
  diverge F T -> dropCommon F T = (F, T).
Proof.
  destruct F as [|f F], T as [|t T]; try reflexivity.
  cbn [diverge dropCommon]. intros H.
  destruct (JS.eqb f t) eqn:E; [apply eqb_eq in E; contradiction | reflexivity].
Qed.

(** The segments of a path that is absolute and normalized. *)
Lemma resolvedParts_absolute (cwd : jsstring) (segs : list jsstring) :
  Forall segment segs -> resolvedParts cwd (slash :: joinSlash segs) = segs.
Proof.
  intros H. unfold resolvedParts.
  change (isAbsolute (slash :: joinSlash segs)) with true. cbv iota.
  unfold normalizeArray.
  change ((slash :: joinSlash segs) ++ [slash])
    with ([] ++ slash :: (joinSlash segs ++ [slash])).
  rewrite split_app_sep. cbn [split app].
  cbn [normalizeArrayFrom JS.eqb orb].
  destruct segs as [|p segs]; [reflexivity|].
  replace (joinSlash (p :: segs) ++ [slash])
    with (joinSlash (p :: segs) ++ slash :: []) by reflexivity.
  rewrite split_app_sep, split_joinSlash.
  2: discriminate.
  2:{ eapply Forall_impl; [|exact H]. apply segment_slashFree. }
  cbn [split]. rewrite normalizeArrayFrom_app.
  rewrite (normalizeArrayFrom_segments false _ [] H).
  change (rev [] ++ p :: segs) with (p :: segs).
  rewrite normalizeArrayFrom_empty. apply rev_involutive.
Qed.

(** The new source path from the segments of the root and of the source. *)
Lemma normalizedSource_parts (cwd root p : jsstring) :
  normalizedSource (posix cwd) root p =
  let '(F, T) := dropCommon (resolvedParts cwd root) (resolvedParts cwd p) in
  relativeSegments F T.
Proof.
  unfold normalizedSource. cbn [path_relative posix].
  rewrite relative_parts.
  destruct (dropCommon (resolvedParts cwd root) (resolvedParts cwd p)) as [F T] eqn:HD.
  destruct (dropCommon_split _ _ _ _ HD) as [C [_ HP]].
  pose proof (resolvedParts_segments cwd p) as HPs. rewrite HP in HPs.
  apply Forall_app in HPs. destruct HPs as [_ HT].
  apply (makeUnixStylePath_parts cwd _ T HT).
Qed.

Lemma split_sepFree (sep : codeunit) (p : jsstring) :
  forallb (fun c => negb (N.eqb c sep)) p = true -> split sep p = [p].
Proof.
  induction p as [|c p IH]; simpl; [reflexivity|].
  intros H. apply andb_true_iff in H. destruct H as [Hc Hp].
  apply negb_true_iff in Hc. rewrite Hc. now rewrite (IH Hp).
Qed.

Lemma split_joinWith (sep : codeunit) (segs : list jsstring) :
  segs <> [] ->
  Forall (fun p => forallb (fun c => negb (N.eqb c sep)) p = true) segs ->
  split sep (joinWith sep segs) = segs.
Proof.
  induction segs as [|p segs IH]; [congruence|]. intros _ H.
  inversion H as [|? ? Hp Hsegs]; subst.
  destruct segs as [|q segs]; [now apply split_sepFree|].
  change (joinWith sep (p :: q :: segs)) with (p ++ sep :: joinWith sep (q :: segs)).
  rewrite split_app_sep, (split_sepFree sep p Hp), IH;
    [reflexivity | discriminate | assumption].
Qed.

(** [path.posix.join] of the segments of a relative path. *)
Lemma join_parts (n : nat) (T : list jsstring) :
  Forall segment T ->
  join (List.repeat dotdot n ++ T)
  = match List.repeat dotdot n ++ T with
    | [] => dot
    | E => joinSlash E
    end.
Proof.
  intros HT. rewrite <- (makeUnixStylePath_parts [] n T HT).
  unfold makeUnixStylePath. cbn [sep posix].
  destruct (List.repeat dotdot n ++ T) as [|e E] eqn:Eq; [reflexivity|].
  rewrite split_joinSlash; [reflexivity | discriminate |].
  rewrite <- Eq. pose proof (segment_dotdot_or [] n T HT) as HE.
  eapply Forall_impl; [|exact HE]. now intros p [_ H].
Qed.

End RelativePaths.

(** X7.  On a POSIX host, for a root [/c1/../ck/f1/../fm] and a source
    path [/c1/../ck/t1/../tn] that are normalized and part ways after the
    [k] common segments, the new source path is [..] written [m] times and
    then [t1/../tn], joined with slashes; it is [.] when the source path is
    the root.  The working directory plays no part. *)
Theorem normalizedSource_segments
    (cwd : jsstring) (C F T : list jsstring) :
  Forall segment C -> Forall segment F -> Forall segment T -> diverge F T ->
  normalizedSource (Path.posix cwd)
    (Path.slash :: Path.joinSlash (C ++ F)) (Path.slash :: Path.joinSlash (C ++ T))
  = relativeSegments F T.
Proof.
  intros HC HF HT Hd. rewrite normalizedSource_parts.
  rewrite !resolvedParts_absolute by (apply Forall_app; now split).
  rewrite dropCommon_prefix, (dropCommon_diverge F T Hd). reflexivity.
Qed.

Lemma normalizedSource_segments_witness :
  normalizedSource (Path.posix (js "/home/u"))
    (Path.slash :: Path.joinSlash ([js "proj"] ++ [js "src"]))
    (Path.slash :: Path.joinSlash ([js "proj"] ++ [js "lib"; js "a.js"]))
  = relativeSegments [js "src"] [js "lib"; js "a.js"]
  /\ relativeSegments [js "src"] [js "lib"; js "a.js"] = js "../lib/a.js"
  /\ Path.slash :: Path.joinSlash ([js "proj"] ++ [js "src"]) = js "/proj/src"
  /\ Path.slash :: Path.joinSlash ([js "proj"] ++ [js "lib"; js "a.js"])
     = js "/proj/lib/a.js".
Proof.
  split; [|repeat split].
  apply (normalizedSource_segments (js "/home/u") [js "proj"] [js "src"]
           [js "lib"; js "a.js"]).
  - repeat constructor.
  - repeat constructor.
  - repeat constructor.
  - cbn. discriminate.
Defined.

Section WorkingDirectory.

Import Path.

Lemma normalizeArrayFrom_empties (a : bool) (res parts : list jsstring) :
  normalizeArrayFrom a res ([] :: parts) = normalizeArrayFrom a res parts.
Proof. reflexivity. Qed.

(** A relative path is resolved against the working directory. *)
Lemma resolvedParts_relative (cwd p : jsstring) :
  isAbsolute cwd = true -> isAbsolute p = false ->
  resolvedParts cwd p = resolvedParts cwd (cwd ++ [slash] ++ p).
Proof.
  intros Hc Hp. unfold resolvedParts.
  assert (Habs : isAbsolute (cwd ++ [slash] ++ p) = true).
  { destruct cwd; [discriminate | exact Hc]. }
  rewrite Habs, Hp.
  destruct (cwd ++ [slash] ++ p) as [|c r] eqn:E; [destruct cwd; discriminate|].
  rewrite <- E. destruct p as [|a p].
  - unfold normalizeArray.
    change ((cwd ++ [slash] ++ []) ++ [slash]) with ((cwd ++ [slash]) ++ slash :: []).
    rewrite (split_app_sep slash (cwd ++ [slash]) []).
    rewrite (normalizeArrayFrom_app false (split slash (cwd ++ [slash])) [] (split slash [])).
    change (split slash []) with [@nil N].
    now rewrite normalizeArrayFrom_empty, rev_involutive.
  - now rewrite <- !app_assoc.
Qed.

End WorkingDirectory.

(** X8.  On a POSIX host a source path that is relative is taken
    relative to the working directory of the process, not to the root: the
    new source path is that of the absolute path made of the working
    directory, a slash and the source path. *)
Theorem normalizedSource_relative_source (cwd root p : jsstring) :
  Path.isAbsolute cwd = true -> Path.isAbsolute p = false ->
  normalizedSource (Path.posix cwd) root p
  = normalizedSource (Path.posix cwd) root (cwd ++ [Path.slash] ++ p).
Proof.
  intros Hc Hp. rewrite !normalizedSource_parts.
  now rewrite <- (resolvedParts_relative cwd p Hc Hp).
Qed.

Lemma normalizedSource_relative_source_witness :
  normalizedSource (Path.posix (js "/home/u")) (js "/proj/src") (js "app/index.js")
  = normalizedSource (Path.posix (js "/home/u")) (js "/proj/src")
      (js "/home/u" ++ [Path.slash] ++ js "app/index.js")
  /\ normalizedSource (Path.posix (js "/home/u")) (js "/proj/src") (js "app/index.js")
     = js "../../home/u/app/index.js".
Proof.
  split; [|vm_compute; reflexivity].
  apply (normalizedSource_relative_source (js "/home/u") (js "/proj/src")
           (js "app/index.js")); reflexivity.
Defined.

(** X9.  A relative path written with the separator of the platform,
    [..] segments first and then segments that are names, is rewritten by
    [makeUnixStylePath] with the same segments separated by slashes (the
    separator is not the dot and stands in no segment); the empty path
    becomes [.]. *)
Theorem makeUnixStylePath_separators
    (path : Path.PathModule) (n : nat) (T : list jsstring) :
  Forall segment T ->
  Forall (fun p => forallb (fun c => negb (N.eqb c (Path.sep path))) p = true) T ->
  Path.sep path <> 46%N ->
  makeUnixStylePath path (joinWith (Path.sep path) (List.repeat Path.dotdot n ++ T))
  = match List.repeat Path.dotdot n ++ T with
    | [] => Path.dot
    | E => Path.joinSlash E
    end.
Proof.
  intros HT Hfree Hdot. rewrite <- (join_parts n T HT).
  unfold makeUnixStylePath.
  destruct (List.repeat Path.dotdot n ++ T) as [|e E] eqn:Eq; [reflexivity|].
  rewrite split_joinWith; [reflexivity | discriminate |].
  rewrite <- Eq. apply Forall_app. split; [|exact Hfree].
  apply Forall_forall. intros x Hx. apply repeat_spec in Hx. subst x.
  assert (Hc : N.eqb 46 (Path.sep path) = false).
  { apply N.eqb_neq. intros E'. now apply Hdot. }
  cbn [forallb Path.dotdot js List.map list_ascii_of_string].
  change (N_of_ascii ".") with 46%N. now rewrite Hc.
Qed.

Lemma makeUnixStylePath_separators_witness :
  makeUnixStylePath {| Path.sep := 92%N;
                       Path.path_relative := fun _ a => a;
                       Path.path_basename := fun a => a |}
    (joinWith 92%N (List.repeat Path.dotdot 2 ++ [js "other"; js "lib.js"]))
  = js "../../other/lib.js".
Proof.
  apply (makeUnixStylePath_separators
           {| Path.sep := 92%N;
              Path.path_relative := fun _ a => a;
              Path.path_basename := fun a => a |} 2 [js "other"; js "lib.js"]).
  - repeat constructor.
  - repeat constructor.
  - discriminate.
Defined.

Section TrailingSlash.

Import Path.

Lemma normalizeArrayFrom_trailing (s : jsstring) :
  normalizeArrayFrom false [] (split slash (s ++ [slash]))
  = normalizeArrayFrom false [] (split slash s).
Proof.
  change (s ++ [slash]) with (s ++ slash :: []).
  rewrite (split_app_sep slash s []), normalizeArrayFrom_app.
  change (split slash []) with [@nil N].
  now rewrite normalizeArrayFrom_empty, rev_involutive.
Qed.

Lemma resolvedParts_trailing_slash (cwd p : jsstring) :
  p <> [] -> resolvedParts cwd (p ++ [slash]) = resolvedParts cwd p.
Proof.
  intros Hne. unfold resolvedParts.
  assert (Habs : isAbsolute (p ++ [slash]) = isAbsolute p).
  { destruct p; [now elim Hne | reflexivity]. }
  rewrite Habs.
  destruct (p ++ [slash]) as [|c r] eqn:E; [destruct p; discriminate|].
  rewrite <- E. destruct p as [|a p']; [now elim Hne|].
  unfold normalizeArray. destruct (isAbsolute (a :: p')).
  - apply normalizeArrayFrom_trailing.
  - assert (E2 : cwd ++ [slash] ++ ((a :: p') ++ [slash]) ++ [slash]
                 = (cwd ++ [slash] ++ (a :: p') ++ [slash]) ++ [slash])
      by (now rewrite <- !app_assoc).
    rewrite E2. apply normalizeArrayFrom_trailing.
Qed.

End TrailingSlash.

(** X16.  On a POSIX host a slash at the end of the root directory makes
    no difference to the new source paths. *)
Theorem normalizedSource_root_slash (cwd root p : jsstring) :
  root <> [] ->
  normalizedSource (Path.posix cwd) (root ++ [Path.slash]) p
  = normalizedSource (Path.posix cwd) root p.
Proof.
  intros Hne. rewrite !normalizedSource_parts.
  now rewrite (resolvedParts_trailing_slash cwd root Hne).
Qed.

Lemma normalizedSource_root_slash_witness :
  normalizedSource (Path.posix (js "/home/u")) (js "/proj/src" ++ [Path.slash])
    (js "/proj/src/app/index.js")
  = normalizedSource (Path.posix (js "/home/u")) (js "/proj/src")
      (js "/proj/src/app/index.js").
Proof.
  apply (normalizedSource_root_slash (js "/home/u") (js "/proj/src")
           (js "/proj/src/app/index.js")).
  discriminate.
Defined.

Section BackToTheSource.

Import Path.

(** The segments of the root and of the source: a common directory and
    what is below it. *)
Lemma resolvedParts_common (cwd root p : jsstring) :
  exists C F T,
    resolvedParts cwd root = C ++ F /\ resolvedParts cwd p = C ++ T
    /\ Forall segment C /\ Forall segment F /\ Forall segment T
    /\ normalizedSource (posix cwd) root p = relativeSegments F T.
Proof.
  pose proof (normalizedSource_parts cwd root p) as Hn.
  destruct (dropCommon (resolvedParts cwd root) (resolvedParts cwd p)) as [F T] eqn:HD.
  destruct (dropCommon_split _ _ _ _ HD) as [C [HR HP]].
  pose proof (resolvedParts_segments cwd p) as HPs. rewrite HP in HPs.
  apply Forall_app in HPs. destruct HPs as [HC HT].
  pose proof (resolvedParts_segments cwd root) as HRs. rewrite HR in HRs.
  apply Forall_app in HRs. destruct HRs as [_ HF].
  exists C, F, T. repeat split; assumption.
Qed.

Lemma relativeSegments_shape (F T : list jsstring) :
  Forall segment T ->
  isAbsolute (relativeSegments F T) = false
  /\ endsWithSlash (relativeSegments F T) = false
  /\ relativeSegments F T <> [].
Proof.
  intros HT. unfold relativeSegments.
  pose proof (segment_dotdot_or [] (List.length F) T HT) as HE.
  destruct (List.repeat dotdot (List.length F) ++ T) as [|e E] eqn:Eq.
  - repeat split. discriminate.
  - apply (joinSlash_head (e :: E)); [discriminate | exact HE].
Qed.

(** The segments of a path below a directory. *)
Lemma resolvedParts_below (cwd root rel : jsstring) (E : list jsstring) :
  root <> [] ->
  split slash (rel ++ [slash]) = E ++ [[]] ->
  resolvedParts cwd (root ++ [slash] ++ rel)
  = normalizeArrayFrom false (rev (resolvedParts cwd root)) (E ++ [[]]).
Proof.
  intros Hne HE. unfold resolvedParts at 1.
  assert (Habs : isAbsolute (root ++ [slash] ++ rel) = isAbsolute root).
  { destruct root; [now elim Hne | reflexivity]. }
  rewrite Habs.
  destruct (root ++ [slash] ++ rel) as [|c r] eqn:Eq; [destruct root; discriminate|].
  rewrite <- Eq. unfold normalizeArray.
  assert (Hgen : forall prefix : jsstring,
            normalizeArrayFrom false [] (split slash ((prefix ++ root) ++ slash :: rel ++ [slash]))
            = normalizeArrayFrom false
                (rev (normalizeArrayFrom false [] (split slash ((prefix ++ root) ++ [slash]))))
                (E ++ [[]])).
  { intros prefix. rewrite split_app_sep, normalizeArrayFrom_app, HE.
    now rewrite normalizeArrayFrom_trailing. }
  unfold resolvedParts. destruct root as [|a root']; [now elim Hne|].
  destruct (isAbsolute (a :: root')).
  - pose proof (Hgen []) as H. cbn [app] in H |- *. unfold normalizeArray.
    rewrite <- H. f_equal. f_equal. now rewrite <- !app_assoc.
  - pose proof (Hgen (cwd ++ [slash])) as H. unfold normalizeArray.
    assert (E1 : cwd ++ [slash] ++ ((a :: root') ++ [slash] ++ rel) ++ [slash]
                 = ((cwd ++ [slash]) ++ a :: root') ++ slash :: rel ++ [slash])
      by (now rewrite <- !app_assoc).
    assert (E2 : cwd ++ [slash] ++ (a :: root') ++ [slash]
                 = ((cwd ++ [slash]) ++ a :: root') ++ [slash])
      by (now rewrite <- !app_assoc).
    rewrite E1, E2. exact H.
Qed.

Lemma resolvedParts_rejoined (cwd root p : jsstring) :
  root <> [] ->
  resolvedParts cwd (root ++ [slash] ++ normalizedSource (posix cwd) root p)
  = resolvedParts cwd p.
Proof.
  intros Hne.
  destruct (resolvedParts_common cwd root p) as (C & F & T & HR & HP & HC & HF & HT & Hn).
  rewrite Hn, HP. unfold relativeSegments.
  pose proof (segment_dotdot_or [] (List.length F) T HT) as HE.
  destruct (List.repeat dotdot (List.length F) ++ T) as [|e E] eqn:Eq.
  - apply app_eq_nil in Eq. destruct Eq as [Hdots ->].
    destruct F; [|discriminate]. rewrite app_nil_r in *.
    rewrite (resolvedParts_below cwd root dot [dot] Hne eq_refl).
    rewrite HR. cbn [app]. rewrite normalizeArrayFrom_dot. apply rev_involutive.
  - rewrite (resolvedParts_below cwd root (joinSlash (e :: E)) (e :: E) Hne).
    + rewrite HR, <- Eq, <- app_assoc.
      rewrite normalizeArrayFrom_up by exact HF.
      rewrite (normalizeArrayFrom_app false T (rev C) [[]]).
      rewrite (normalizeArrayFrom_segments false T (rev C) HT).
      now rewrite normalizeArrayFrom_empty, !rev_involutive.
    + change (joinSlash (e :: E) ++ [slash]) with (joinSlash (e :: E) ++ slash :: []).
      rewrite split_app_sep, split_joinSlash; [reflexivity | discriminate |].
      eapply Forall_impl; [|exact HE]. now intros q [_ H].
Qed.

End BackToTheSource.

(** X17.  On a POSIX host every new source path is a relative path:
    whatever the root and the source path, [updateSourceMapPath] gives
    [.] or a number of [..] segments followed by name segments, joined with
    slashes; it is not empty, does not start with a slash and does not end
    with one. *)
Theorem normalizedSource_is_relative (cwd root p : jsstring) :
  (exists (n : nat) (T : list jsstring),
     Forall segment T
     /\ normalizedSource (Path.posix cwd) root p
        = match List.repeat Path.dotdot n ++ T with
          | [] => Path.dot
          | E => Path.joinSlash E
          end)
  /\ Path.isAbsolute (normalizedSource (Path.posix cwd) root p) = false
  /\ Path.endsWithSlash (normalizedSource (Path.posix cwd) root p) = false
  /\ normalizedSource (Path.posix cwd) root p <> [].
Proof.
  destruct (resolvedParts_common cwd root p) as (C & F & T & _ & _ & _ & _ & HT & Hn).
  rewrite Hn. split; [|now apply relativeSegments_shape].
  exists (List.length F), T. now split.
Qed.

(** X18.  On a POSIX host the new source path leads back to the source
    file: the root directory, a slash and the new source path resolve to
    the same absolute path as the source path did (the root is not the
    empty string). *)
Theorem normalizedSource_resolves_back (cwd root p : jsstring) :
  root <> [] ->
  Path.resolve cwd (root ++ [Path.slash] ++ normalizedSource (Path.posix cwd) root p)
  = Path.resolve cwd p.
Proof.
  intros Hne. rewrite !resolve_resolvedParts.
  now rewrite (resolvedParts_rejoined cwd root p Hne).
Qed.

Lemma normalizedSource_resolves_back_witness :
  Path.resolve (js "/home/u")
    (js "/proj/src" ++ [Path.slash]
     ++ normalizedSource (Path.posix (js "/home/u")) (js "/proj/src") (js "/other/lib.js"))
  = Path.resolve (js "/home/u") (js "/other/lib.js")
  /\ normalizedSource (Path.posix (js "/home/u")) (js "/proj/src") (js "/other/lib.js")
     = js "../../other/lib.js".
Proof.
  split; [|vm_compute; reflexivity].
  apply (normalizedSource_resolves_back (js "/home/u") (js "/proj/src") (js "/other/lib.js")).
  discriminate.
Defined.

(** ** Other reference values *)

Section RelativeReference.

Variable B : Url.Builtins.
Variables name search : jsstring.
Hypothesis name_relative : relativePathname name = true.
Hypothesis search_plain : plainSearch search = true.

Lemma name_facts :
  (exists a t, name = a :: t /\ N.eqb a 47 = false)
  /\ forallb pathChar name = true
  /\ forallb (fun c => negb (N.eqb c 58)) name = true.
Proof.
  generalize name_relative. generalize name. intros p H.
  destruct p as [|a t]; [discriminate|]. unfold relativePathname in H.
  apply andb_true_iff in H. destruct H as [H H3].
  apply andb_true_iff in H. destruct H as [H1 H2].
  apply negb_true_iff in H1. split; [now exists a, t|]. now split.
Qed.

Lemma name_plain : forallb plainChar name = true.
Proof.
  destruct name_facts as (_ & H & _).
  apply (forallb_impl pathChar plainChar); [apply pathChar_plain | exact H].
Qed.

Lemma relative_plain : forallb plainChar (name ++ search) = true.
Proof. now rewrite forallb_app, name_plain, (search_chars search search_plain). Qed.

Lemma name_no_question : forallb (fun c => negb (N.eqb 63 c)) name = true.
Proof.
  destruct name_facts as (_ & H & _).
  apply (forallb_impl pathChar); [|exact H].
  intros c Hc. unfold pathChar in Hc. apply andb_true_iff in Hc.
  destruct Hc as [_ Hc]. cbv beta. now rewrite N.eqb_sym.
Qed.

Lemma indexOf_question_relative :
  Url.indexOf 63%N (name ++ search) =
  match search with [] => None | _ => Some (List.length name) end.
Proof.
  unfold Url.indexOf. pose proof (search_head search search_plain) as Hh.
  pose proof name_no_question as Hq.
  generalize Hh. generalize search. intros s Hs. destruct s as [|c q].
  - rewrite app_nil_r. now apply indexWhere_none.
  - subst c. now apply indexWhere_app.
Qed.

(** No protocol stands before a relative path without a colon. *)
Lemma protocolPattern_relative : Url.protocolPattern (name ++ search) = None.
Proof.
  unfold Url.protocolPattern.
  set (run := Path.takeWhile Url.isProtocolChar (name ++ search)).
  destruct run as [|r0 run'] eqn:Erun; [reflexivity|].
  destruct (skipn (List.length (r0 :: run')) (name ++ search)) as [|c rest] eqn:Es;
    [reflexivity|].
  destruct (N.eqb c 58) eqn:Ec; [|reflexivity]. exfalso.
  apply N.eqb_eq in Ec. subst c.
  (* the colon stands in [name ++ search], after protocol characters only *)
  assert (Hin : forall (s : jsstring) (rest' : jsstring),
            skipn (List.length (Path.takeWhile Url.isProtocolChar s)) s = 58%N :: rest' ->
            exists a b, s = a ++ 58%N :: b /\ forallb Url.isProtocolChar a = true).
  { induction s as [|x s IH]; intros rest' H; [discriminate|].
    cbn [Path.takeWhile] in H. destruct (Url.isProtocolChar x) eqn:Ex.
    - cbn [List.length skipn] in H. destruct (IH _ H) as (a & b & -> & Ha).
      exists (x :: a), b. split; [reflexivity|]. cbn [forallb]. now rewrite Ex.
    - cbn [List.length skipn] in H. injection H as -> _.
      exists [], s. now split. }
  unfold run in Erun. rewrite <- Erun in Es.
  destruct (Hin _ _ Es) as (a & b & Hab & Ha).
  destruct name_facts as (_ & _ & Hnc).
  pose proof (search_head search search_plain) as Hh.
  (* the colon is not in [name]; so [name] is a prefix of [a], which holds [?] *)
  assert (Hcases : forall (n s a : jsstring),
            forallb (fun c => negb (N.eqb c 58)) n = true ->
            forallb Url.isProtocolChar a = true ->
            n ++ s = a ++ 58%N :: b ->
            exists a', a = n ++ a').
  { induction n as [|x n IH]; intros s a0 Hn Ha0 E; [now exists a0|].
    cbn [forallb] in Hn. apply andb_true_iff in Hn. destruct Hn as [Hx Hn].
    destruct a0 as [|y a0].
    - cbn [app] in E. injection E as -> _. discriminate.
    - cbn [app] in E. injection E as -> E.
      cbn [forallb] in Ha0. apply andb_true_iff in Ha0. destruct Ha0 as [_ Ha0].
      destruct (IH s a0 Hn Ha0 E) as [a' ->]. now exists a'. }
  destruct (Hcases name search a Hnc Ha Hab) as [a' ->].
  rewrite <- app_assoc in Hab. apply app_inv_head in Hab.
  rewrite forallb_app in Ha. apply andb_true_iff in Ha. destruct Ha as [_ Ha'].
  revert Hab Hh. generalize search. intros s Hab Hh.
  destruct s as [|q s]; [destruct a'; discriminate|]. subst q.
  destruct a' as [|y a']; [discriminate|].
  cbn [app] in Hab. injection Hab as <- _. discriminate.
Qed.

(** [url.parse] on a reference value that is a relative path. *)
Lemma parse_relative :
  Url.parse B (name ++ search) =
  Normal (Url.mkUrl Null false Null Null Null Null Null
            (Url.nonEmpty search)
            (match search with [] => Null | _ :: q => Str q end)
            (Str name) (Str (name ++ search)) (Str (name ++ search))).
Proof.
  unfold Url.parse.
  rewrite (backslashesToSlashes_id _ (no_backslash _ relative_plain)).
  rewrite (trim_id _ (no_space _ relative_plain)).
  rewrite (hasChar_false _ _ (no_hash _ relative_plain)).
  destruct name_facts as ((a & t & Hname & Ha) & Hpc & Hnc).
  assert (Hsimple : Url.simplePath (name ++ search) = None).
  { unfold Url.simplePath. rewrite Hname. cbn [app]. rewrite Ha.
    destruct (t ++ search) as [|b [|c r]]; reflexivity. }
  rewrite Hsimple, protocolPattern_relative.
  cbn [Url.optStr truthy orb].
  assert (Hstart : startsWith (name ++ search) (js "//") = false).
  { rewrite Hname. unfold startsWith. cbn [app js List.map list_ascii_of_string stripPrefix].
    change (N_of_ascii "/") with 47%N. rewrite N.eqb_sym, Ha. reflexivity. }
  rewrite Hstart, andb_false_r. cbn [andb orb negb].
  change (Url.hostlessProtocol Null) with false.
  change (Url.slashedProtocol Null) with false.
  change (Url.unsafeProtocol Null) with false.
  cbn [andb orb negb bind Url.noHost Url.hp_rest Url.hp_auth Url.hp_host
       Url.hp_port Url.hp_hostname].
  rewrite (concat_map_id (fun c => Url.mem c Url.autoEscape) Url.percentEncode
             _ (not_escaped _ relative_plain)).
  assert (Hhash : Url.indexOf 35%N (name ++ search) = None).
  { apply indexWhere_none. exact (no_hash _ relative_plain). }
  rewrite Hhash, indexOf_question_relative.
  pose proof (search_head search search_plain) as Hh.
  pose proof (search_chars search search_plain) as Hsc.
  assert (Hesc : Url.escapePathname name = name).
  { unfold Url.escapePathname.
    apply (concat_map_id (fun c => (N.eqb c 63 || N.eqb c 35)%bool)).
    apply (forallb_impl pathChar); [|exact Hpc].
    intros c H. cbv beta. unfold pathChar in H. apply andb_true_iff in H.
    destruct H as [H1 H2]. apply negb_true_iff in H2.
    pose proof (plainChar_not_hash c H1) as H3. rewrite N.eqb_sym in H3.
    now rewrite H2, H3. }
  revert Hh Hsc. generalize search. intros s Hh Hsc.
  destruct s as [|c q]; [|subst c].
  - rewrite app_nil_r. rewrite Hname. cbn [Url.nonEmpty truthy andb orb negb Url.strOr app].
    rewrite <- Hname. unfold Url.format.
    cbn [Url.auth Url.protocol Url.pathname Url.hash Url.host Url.hostname Url.port
         Url.search Url.slashes bind truthy Url.strOr rev orb andb app].
    rewrite Hname. cbn [Url.strOr]. rewrite <- Hname.
    rewrite Hesc. cbn [Url.escapeFirstHash app].
    rewrite !app_nil_r, Hname. reflexivity.
  - rewrite skipn_length_app0, skipn_S_app, firstn_length_app.
    rewrite Hname. cbn [Url.nonEmpty truthy andb orb negb Url.strOr app].
    rewrite <- Hname. unfold Url.format.
    cbn [Url.auth Url.protocol Url.pathname Url.hash Url.host Url.hostname Url.port
         Url.search Url.slashes bind truthy Url.strOr rev orb andb app].
    rewrite Hname. cbn [Url.strOr]. rewrite <- Hname.
    change (N.eqb 63 63) with true. cbv iota.
    rewrite Hesc, (escapeFirstHash_id _ (no_hash' _ Hsc)).
    cbn [app]. rewrite ?app_nil_r, Hname. reflexivity.
Qed.

End RelativeReference.

Section Resolved.

Variable B : Url.Builtins.

(** The three steps of [getSourceMapURL] on a reference value. *)
Lemma getSourceMapURL_steps (scriptUrl : Url.Url) (body ref : jsstring)
    (u0 : Url.Url) (href : jsstring) (u : Url.Url) :
  getSourceMapRelativeUrl body = Str ref -> ref <> [] ->
  Url.parse B ref = Normal u0 ->
  Url.format (withProtocolAndHost u0 (Url.protocol scriptUrl) (Url.host scriptUrl))
  = Normal href ->
  Url.parse B href = Normal u ->
  getSourceMapURL (Url.node B) scriptUrl body = Normal (Some u).
Proof.
  intros Href Hne H0 Hf Hu. unfold getSourceMapURL. rewrite Href.
  destruct ref as [|c ref]; [now elim Hne|].
  cbn [truthy Url.strOr Url.url_parse Url.url_format Url.node].
  rewrite H0. cbn [bind]. rewrite Hf. cbn [bind]. rewrite Hu. reflexivity.
Qed.

Lemma hostText_nonempty (hostname port : jsstring) :
  plainHostname hostname = true -> hostText hostname port <> [].
Proof.
  unfold plainHostname. intros H. destruct hostname; [discriminate|]. discriminate.
Qed.

(** [format] puts a slash before a relative path that follows a host. *)
Lemma format_relative (name search proto host : jsstring) (u : Url.Url) :
  relativePathname name = true -> plainSearch search = true ->
  In proto webProtocols -> host <> [] ->
  Url.auth u = Null -> Url.hash u = Null ->
  Url.protocol u = Str proto -> Url.host u = Str host ->
  Url.pathname u = Str name -> Url.search u = Url.nonEmpty search ->
  Url.format u = Normal (proto ++ js "//" ++ host ++ (47%N :: name) ++ search).
Proof.
  intros Hname Hsearch Hweb Hne Hauth Hhash Hproto Hhost Hpath Hs.
  destruct (name_facts name Hname) as ((a & t & Hn & Ha) & Hpc & _).
  unfold Url.format. rewrite Hauth, Hhash, Hproto, Hhost, Hpath, Hs.
  cbn [bind].
  assert (Hh : truthy (Str host) = true /\ Url.strOr (Str host) [] = host).
  { destruct host; [now elim Hne | now split]. }
  destruct Hh as [Hh1 Hh2]. rewrite Hh1, Hh2.
  change (Url.strOr Null []) with (@nil N).
  assert (Hp : Url.strOr (Str name) [] = name) by (now rewrite Hn).
  assert (Hs' : Url.strOr (Url.nonEmpty search) [] = search) by (now destruct search).
  rewrite Hp, Hs'.
  assert (Hproto' :
    Url.strOr (Str proto) [] = proto
    /\ match rev proto with
       | [] => proto
       | c :: _ => if N.eqb c 58 then proto else proto ++ js ":"
       end = proto
    /\ (Url.slashes u
        || match proto with [] => true | _ => Url.slashedProtocol (Str proto) end
           && true)%bool = true).
  { destruct Hweb as [<-|[<-|[<-|[<-|[<-|[]]]]]];
      (split; [reflexivity|split; [reflexivity|]]); now destruct (Url.slashes u). }
  destruct Hproto' as (Hp1 & Hp2 & Hp3). rewrite Hp1, Hp2, Hp3.
  assert (Hp4 : match name with
                | [] => name
                | c :: _ => if N.eqb c 47 then name else 47%N :: name
                end = 47%N :: name).
  { rewrite Hn, Ha. reflexivity. }
  assert (Hs4 : match search with
                | [] => search
                | c :: _ => if N.eqb c 63 then search else 63%N :: search
                end = search).
  { pose proof (search_head search Hsearch) as Hh. destruct search; [reflexivity | now subst]. }
  cbv iota. rewrite Hp4, Hs4.
  assert (Hesc : Url.escapePathname (47%N :: name) = 47%N :: name).
  { unfold Url.escapePathname.
    apply (concat_map_id (fun c => (N.eqb c 63 || N.eqb c 35)%bool)).
    cbn [forallb]. apply andb_true_iff. split; [reflexivity|].
    apply (forallb_impl pathChar); [|exact Hpc].
    intros c H. cbv beta. unfold pathChar in H. apply andb_true_iff in H.
    destruct H as [H1 H2]. apply negb_true_iff in H2.
    pose proof (plainChar_not_hash c H1) as H3. rewrite N.eqb_sym in H3.
    now rewrite H2, H3. }
  rewrite Hesc.
  rewrite (escapeFirstHash_id _ (no_hash' _ (search_chars search Hsearch))).
  cbn [app]. now rewrite app_nil_r.
Qed.

Lemma relative_absolute (name : jsstring) :
  relativePathname name = true -> absolutePathname (47%N :: name) = true.
Proof.
  intros H. destruct (name_facts name H) as ((a & t & Hn & Ha) & Hpc & _).
  unfold absolutePathname. rewrite Hpc, Hn, startsWith_slash, (N.eqb_sym 47 a), Ha.
  reflexivity.
Qed.

End Resolved.

(** X10.  A reference value that is a relative path is resolved against
    the root of the host of the script location, not against the directory
    of the script: the pathname of the result is the reference path after
    one slash, whatever the pathname of the script location. *)
Theorem getSourceMapURL_relative
    (B : Url.Builtins) (scriptUrl : Url.Url) (body : jsstring)
    (proto hostname port name search : jsstring) :
  getSourceMapRelativeUrl body = Str (name ++ search) ->
  Url.protocol scriptUrl = Str proto -> In proto webProtocols ->
  Url.host scriptUrl = Str (hostText hostname port) ->
  plainHostname hostname = true -> forallb Url.isDigit port = true ->
  relativePathname name = true -> plainSearch search = true ->
  exists u,
    getSourceMapURL (Url.node B) scriptUrl body = Normal (Some u)
    /\ Url.pathname u = Str (js "/" ++ name)
    /\ Url.search u = Url.nonEmpty search
    /\ Url.href u
       = Str (proto ++ js "//" ++ hostText hostname port ++ js "/" ++ name ++ search).
Proof.
  intros Href Hproto Hweb Hhost Hname Hport Hrel Hsearch.
  pose proof (hostText_nonempty hostname port Hname) as Hne.
  pose proof (relative_absolute name Hrel) as Habs.
  eexists. split.
  - eapply (getSourceMapURL_steps B scriptUrl body (name ++ search)); [exact Href|..].
    + destruct (name_facts name Hrel) as ((a & t & -> & _) & _). discriminate.
    + apply (parse_relative B name search Hrel Hsearch).
    + rewrite Hproto, Hhost.
      apply (format_relative name search proto (hostText hostname port));
        try assumption; reflexivity.
    + apply (parse_resolved B (47%N :: name) search Habs Hsearch proto
               (hostText hostname port) Hweb Hne hostname port Hname Hport eq_refl).
  - cbn [Url.pathname Url.search Url.href]. now split.
Qed.

Lemma getSourceMapURL_relative_witness :
  exists u,
    getSourceMapURL nodeUrl bundleUrl (js "a();" ++ nl ++ js "//# sourceMappingURL=index.map")
    = Normal (Some u)
    /\ Url.pathname u = Str (js "/" ++ js "index.map")
    /\ Url.search u = Url.nonEmpty []
    /\ Url.href u
       = Str (js "http:" ++ js "//" ++ hostText (js "localhost") (js "8081")
              ++ js "/" ++ js "index.map" ++ []).
Proof.
  refine (getSourceMapURL_relative asciiBuiltins bundleUrl
            (js "a();" ++ nl ++ js "//# sourceMappingURL=index.map")
            (js "http:") (js "localhost") (js "8081") (js "index.map") []
            _ _ _ _ _ _ _ _).
  - vm_compute; reflexivity.
  - vm_compute; reflexivity.
  - left; reflexivity.
  - vm_compute; reflexivity.
  - vm_compute; reflexivity.
  - vm_compute; reflexivity.
  - vm_compute; reflexivity.
  - vm_compute; reflexivity.
Defined.

(** X11.  A reference value that is an absolute URL keeps its path and
    query only: the protocol and the host (with its port) of the result
    are those of the script location, so the source map is looked for on
    the server of the script. *)
Theorem getSourceMapURL_absolute_url
    (B : Url.Builtins) (scriptUrl : Url.Url) (body : jsstring)
    (proto hostname port : jsstring)
    (refProto refHostname refPort pathname search : jsstring) :
  getSourceMapRelativeUrl body
  = Str (refProto ++ js "//" ++ hostText refHostname refPort ++ pathname ++ search) ->
  In refProto webProtocols ->
  plainHostname refHostname = true -> forallb Url.isDigit refPort = true ->
  Url.protocol scriptUrl = Str proto -> In proto webProtocols ->
  Url.host scriptUrl = Str (hostText hostname port) ->
  plainHostname hostname = true -> forallb Url.isDigit port = true ->
  absolutePathname pathname = true -> plainSearch search = true ->
  exists u,
    getSourceMapURL (Url.node B) scriptUrl body = Normal (Some u)
    /\ Url.protocol u = Str proto
    /\ Url.host u = Str (hostText hostname port)
    /\ Url.hostname u = Str hostname
    /\ Url.port u = Url.nonEmpty port
    /\ Url.pathname u = Str pathname
    /\ Url.search u = Url.nonEmpty search
    /\ Url.href u
       = Str (proto ++ js "//" ++ hostText hostname port ++ pathname ++ search).
Proof.
  intros Href Hrweb Hrname Hrport Hproto Hweb Hhost Hname Hport Hpath Hsearch.
  pose proof (hostText_nonempty hostname port Hname) as Hne.
  pose proof (hostText_nonempty refHostname refPort Hrname) as Hrne.
  eexists. split.
  - eapply (getSourceMapURL_steps B scriptUrl body); [exact Href|..].
    + destruct Hrweb as [<-|[<-|[<-|[<-|[<-|[]]]]]]; discriminate.
    + apply (parse_resolved B pathname search Hpath Hsearch refProto
               (hostText refHostname refPort) Hrweb Hrne refHostname refPort
               Hrname Hrport eq_refl).
    + rewrite Hproto, Hhost.
      apply (format_resolved pathname search Hpath Hsearch proto
               (hostText hostname port) Hweb Hne); reflexivity.
    + apply (parse_resolved B pathname search Hpath Hsearch proto
               (hostText hostname port) Hweb Hne hostname port Hname Hport eq_refl).
  - cbn [Url.protocol Url.host Url.hostname Url.port Url.pathname Url.search Url.href].
    repeat split.
Qed.

Lemma getSourceMapURL_absolute_url_witness :
  exists u,
    getSourceMapURL nodeUrl bundleUrl
      (js "a();" ++ nl ++ js "//# sourceMappingURL=https://cdn.example.com/maps/x.map?v=1")
    = Normal (Some u)
    /\ Url.protocol u = Str (js "http:")
    /\ Url.host u = Str (hostText (js "localhost") (js "8081"))
    /\ Url.hostname u = Str (js "localhost")
    /\ Url.port u = Url.nonEmpty (js "8081")
    /\ Url.pathname u = Str (js "/maps/x.map")
    /\ Url.search u = Url.nonEmpty (js "?v=1")
    /\ Url.href u
       = Str (js "http:" ++ js "//" ++ hostText (js "localhost") (js "8081")
              ++ js "/maps/x.map" ++ js "?v=1").
Proof.
  refine (getSourceMapURL_absolute_url asciiBuiltins bundleUrl
            (js "a();" ++ nl ++ js "//# sourceMappingURL=https://cdn.example.com/maps/x.map?v=1")
            (js "http:") (js "localhost") (js "8081")
            (js "https:") (js "cdn.example.com") [] (js "/maps/x.map") (js "?v=1")
            _ _ _ _ _ _ _ _ _ _ _).
  - vm_compute; reflexivity.
  - right; left; reflexivity.
  - vm_compute; reflexivity.
  - vm_compute; reflexivity.
  - vm_compute; reflexivity.
  - left; reflexivity.
  - vm_compute; reflexivity.
  - vm_compute; reflexivity.
  - vm_compute; reflexivity.
  - vm_compute; reflexivity.
  - vm_compute; reflexivity.
Defined.

(** X12.  The two public operations as a caller chains them: when
    the first reference comment of a body holds an absolute path
    [dir/name] with an optional query, [getSourceMapURL] gives a location
    with which [updateScriptPaths] (on a POSIX host) rewrites that comment
    to [//# sourceMappingURL=name]: the directories and the query are
    dropped ([name] holds no slash and no dollar sign). *)
Theorem updateScriptPaths_with_resolved_location
    (B : Url.Builtins) (cwd : jsstring) (scriptUrl : Url.Url)
    (pre line post : jsstring) (m : codeunit)
    (proto hostname port dir name search : jsstring) :
  isMarker m = true ->
  Forall notLineTerminator line -> atLineEnd post = true ->
  (forall j, j < List.length pre ->
     isReferenceComment
       (skipn j (pre ++ js "//" ++ [m] ++ js " sourceMappingURL=" ++ line ++ post))
     = false) ->
  referenceValue line = (dir ++ js "/" ++ name) ++ search ->
  Url.protocol scriptUrl = Str proto -> In proto webProtocols ->
  Url.host scriptUrl = Str (hostText hostname port) ->
  plainHostname hostname = true -> forallb Url.isDigit port = true ->
  absolutePathname (dir ++ js "/" ++ name) = true -> plainSearch search = true ->
  name <> [] -> forallb (fun c => negb (Path.isSlash c)) name = true ->
  Forall notDollar name ->
  exists u t,
    getSourceMapURL (Url.node B) scriptUrl
      (pre ++ js "//" ++ [m] ++ js " sourceMappingURL=" ++ line ++ post)
    = Normal (Some u)
    /\ updateScriptPaths (Path.posix cwd)
         (pre ++ js "//" ++ [m] ++ js " sourceMappingURL=" ++ line ++ post) u
       = Normal (pre ++ js "//# sourceMappingURL=" ++ name ++ t)
    /\ atLineEnd t = true.
Proof.
  intros Hm Hl Hp Hfirst Hval Hproto Hweb Hhost Hname Hport Hpath Hsearch
         Hne Hslash Hd.
  assert (Hline : line <> []).
  { intros ->. destruct dir; discriminate. }
  pose proof (hostText_nonempty hostname port Hname) as Hhne.
  (* the locator *)
  destruct (exec_first_comment pre line post m Hm Hline Hl Hp Hfirst) as [w0 [Hexec _]].
  assert (Href : getSourceMapRelativeUrl
                   (pre ++ js "//" ++ [m] ++ js " sourceMappingURL=" ++ line ++ post)
                 = Str ((dir ++ js "/" ++ name) ++ search)).
  { unfold getSourceMapRelativeUrl. rewrite Hexec. cbn [group groups capture Nat.eqb].
    now rewrite Hval. }
  (* the rewriting, with the base name of the resolved pathname *)
  pose proof (basename_final_segment dir name Hne Hslash) as [Hbase _].
  destruct (updateScriptPaths_rewritten (Path.posix cwd) pre line post m
              (Url.mkUrl (Str proto) true Null (Str (hostText hostname port))
                 (Url.nonEmpty port) (Str hostname) Null (Url.nonEmpty search)
                 (match search with [] => Null | _ :: q => Str q end)
                 (Str (dir ++ js "/" ++ name))
                 (Str ((dir ++ js "/" ++ name) ++ search))
                 (Str (proto ++ js "//" ++ hostText hostname port
                       ++ (dir ++ js "/" ++ name) ++ search)))
              (dir ++ js "/" ++ name) Hm Hline Hl Hp Hfirst eq_refl)
    as [w [Hw Hr]].
  { cbn [Path.path_basename Path.posix].
    change (dir ++ js "/" ++ name) with (dir ++ [Path.slash] ++ name).
    rewrite Hbase. exact Hd. }
  destruct (spacesToLineEnd_sound _ _ Hw) as (_ & _ & Hend).
  eexists. eexists. split; [|split; [|exact Hend]].
  - eapply (getSourceMapURL_steps B scriptUrl); [exact Href|..].
    + destruct dir; discriminate.
    + apply (parse_reference B _ search Hpath Hsearch).
    + rewrite Hproto, Hhost.
      apply (format_resolved _ search Hpath Hsearch proto
               (hostText hostname port) Hweb Hhne); reflexivity.
    + apply (parse_resolved B _ search Hpath Hsearch proto
               (hostText hostname port) Hweb Hhne hostname port Hname Hport eq_refl).
  - rewrite Hr. cbn [Path.path_basename Path.posix].
    change (dir ++ js "/" ++ name) with (dir ++ [Path.slash] ++ name).
    rewrite Hbase. reflexivity.
Qed.

Lemma updateScriptPaths_with_resolved_location_witness :
  exists u t,
    getSourceMapURL nodeUrl bundleUrl
      ((js "a();" ++ nl) ++ js "//" ++ [35%N] ++ js " sourceMappingURL="
       ++ js "/maps/index.ios.map?platform=ios" ++ [])
    = Normal (Some u)
    /\ updateScriptPaths (Path.posix (js "/"))
         ((js "a();" ++ nl) ++ js "//" ++ [35%N] ++ js " sourceMappingURL="
          ++ js "/maps/index.ios.map?platform=ios" ++ []) u
       = Normal ((js "a();" ++ nl) ++ js "//# sourceMappingURL=" ++ js "index.ios.map" ++ t)
    /\ atLineEnd t = true.
Proof.
  refine (updateScriptPaths_with_resolved_location asciiBuiltins (js "/") bundleUrl
            (js "a();" ++ nl) (js "/maps/index.ios.map?platform=ios") [] 35%N
            (js "http:") (js "localhost") (js "8081")
            (js "/maps") (js "index.ios.map") (js "?platform=ios")
            _ _ _ _ _ _ _ _ _ _ _ _ _ _ _).
  - reflexivity.
  - repeat constructor.
  - reflexivity.
  - intros j Hj. do 5 (destruct j as [|j]; [reflexivity|]). simpl in Hj. lia.
  - vm_compute; reflexivity.
  - vm_compute; reflexivity.
  - left; reflexivity.
  - vm_compute; reflexivity.
  - vm_compute; reflexivity.
  - vm_compute; reflexivity.
  - vm_compute; reflexivity.
  - vm_compute; reflexivity.
  - discriminate.
  - vm_compute; reflexivity.
  - repeat constructor; discriminate.
Defined.

(** X13.  The location that [getSourceMapURL] returns for a reference
    value that is an absolute path is consistent, which is what the second
    [url.parse] is for: [url.format] of the location is its [href], and
    [url.parse] of its [href] is the location again. *)
Theorem getSourceMapURL_consistent
    (B : Url.Builtins) (scriptUrl : Url.Url) (body : jsstring)
    (proto hostname port pathname search : jsstring) :
  getSourceMapRelativeUrl body = Str (pathname ++ search) ->
  Url.protocol scriptUrl = Str proto -> In proto webProtocols ->
  Url.host scriptUrl = Str (hostText hostname port) ->
  plainHostname hostname = true -> forallb Url.isDigit port = true ->
  absolutePathname pathname = true -> plainSearch search = true ->
  exists u href,
    getSourceMapURL (Url.node B) scriptUrl body = Normal (Some u)
    /\ Url.href u = Str href
    /\ Url.format u = Normal href
    /\ Url.parse B href = Normal u.
Proof.
  intros Href Hproto Hweb Hhost Hname Hport Hpath Hsearch.
  pose proof (hostText_nonempty hostname port Hname) as Hne.
  pose proof (parse_resolved B pathname search Hpath Hsearch proto
                (hostText hostname port) Hweb Hne hostname port Hname Hport eq_refl)
    as Hparse.
  eexists. eexists. split; [|split; [|split]].
  - eapply (getSourceMapURL_steps B scriptUrl); [exact Href|..].
    + destruct pathname; discriminate.
    + apply (parse_reference B pathname search Hpath Hsearch).
    + rewrite Hproto, Hhost.
      apply (format_resolved pathname search Hpath Hsearch proto
               (hostText hostname port) Hweb Hne); reflexivity.
    + exact Hparse.
  - reflexivity.
  - apply (format_resolved pathname search Hpath Hsearch proto
             (hostText hostname port) Hweb Hne); reflexivity.
  - exact Hparse.
Qed.

Lemma getSourceMapURL_consistent_witness :
  exists u href,
    getSourceMapURL nodeUrl bundleUrl
      (js "a();" ++ nl ++ js "//# sourceMappingURL=/index.ios.map?platform=ios")
    = Normal (Some u)
    /\ Url.href u = Str href
    /\ Url.format u = Normal href
    /\ Url.parse asciiBuiltins href = Normal u.
Proof.
  refine (getSourceMapURL_consistent asciiBuiltins bundleUrl
           (js "a();" ++ nl ++ js "//# sourceMappingURL=/index.ios.map?platform=ios")
           (js "http:") (js "localhost") (js "8081")
           (js "/index.ios.map") (js "?platform=ios") _ _ _ _ _ _ _ _).
  - vm_compute; reflexivity.
  - vm_compute; reflexivity.
  - left; reflexivity.
  - vm_compute; reflexivity.
  - vm_compute; reflexivity.
  - vm_compute; reflexivity.
  - vm_compute; reflexivity.
  - vm_compute; reflexivity.
Defined.

(** ** The order of the members *)

Section MemberOrder.

Lemma keys_set (key : jsstring) (v : Json.value) (ps : Json.properties) :
  keys (Json.set key v ps)
  = keys ps ++ match Json.get key ps with Some _ => [] | None => [key] end.
Proof.
  unfold keys. induction ps as [|[k w] ps IH]; [reflexivity|].
  cbn [Json.set Json.get]. destruct (JS.eqb k key) eqn:E.
  - cbn [List.map fst]. now rewrite app_nil_r.
  - cbn [List.map fst app]. now rewrite IH.
Qed.

Lemma keys_delete (key : jsstring) (ps : Json.properties) :
  keys (Json.delete key ps) = filter (fun k => negb (JS.eqb k key)) (keys ps).
Proof.
  unfold keys. induction ps as [|[k w] ps IH]; [reflexivity|].
  cbn [Json.delete List.map fst filter]. destruct (JS.eqb k key); cbn [negb].
  - exact IH.
  - cbn [List.map fst]. now rewrite IH.
Qed.

(** Without array indices among the keys, the members are enumerated in
    the order of their creation. *)
Lemma enumerate_plain {A : Type} (ps : list (jsstring * A)) :
  (forall p, In p ps -> Json.arrayIndex (fst p) = None) ->
  Json.enumerate ps = ps.
Proof.
  intros H. unfold Json.enumerate.
  assert (Hfold : forall acc,
            fold_left (fun acc p =>
              match Json.arrayIndex (fst p) with
              | Some i => Json.insertIndexed i p acc
              | None => acc
              end) ps acc = acc).
  { induction ps as [|p ps IH]; intros acc; [reflexivity|].
    cbn [fold_left]. rewrite (H p (or_introl eq_refl)).
    apply IH. intros q Hq. apply H. now right. }
  rewrite Hfold. cbn [List.map app].
  induction ps as [|p ps IH]; [reflexivity|].
  cbn [filter]. rewrite (H p (or_introl eq_refl)). f_equal.
  apply IH.
  - intros q Hq. apply H. now right.
  - intros acc. specialize (Hfold acc). cbn [fold_left] in Hfold.
    now rewrite (H p (or_introl eq_refl)) in Hfold.
Qed.

Lemma members_plain (ps : Json.properties) :
  (forall k, In k (keys ps) -> Json.arrayIndex k = None) ->
  members ps = List.map memberText ps.
Proof.
  intros H. unfold members.
  set (ser := (fix serialized (ps : Json.properties) : list (jsstring * jsstring) :=
                 match ps with
                 | [] => []
                 | (k, w) :: ps' => (k, Json.stringify w) :: serialized ps'
                 end)).
  assert (Hser : forall qs, ser qs = List.map (fun p => (fst p, Json.stringify (snd p))) qs).
  { induction qs as [|[k w] qs IH]; [reflexivity|]. cbn [ser List.map fst snd].
    fold ser. now rewrite IH. }
  rewrite Hser, enumerate_plain.
  - rewrite map_map. reflexivity.
  - intros p Hp. apply in_map_iff in Hp. destruct Hp as [q [<- Hq]]. cbn [fst].
    apply H. unfold keys. now apply in_map.
Qed.

End MemberOrder.

(** X14.  The normalizer keeps the members of the document in their
    order: [sourcesContent] is taken out, [sources], [sourceRoot] and
    [file] keep their places when the document has them, and [sourceRoot]
    and then [file] come last when it has not.  Unless a key is an array
    index, this is the order of the members in the output. *)
Theorem updateSourceMapFile_member_order
    (path : Path.PathModule) (body scriptPath root : jsstring)
    (ps : Json.properties) (srcs : list jsstring) :
  sourceMapDocument body = Some (ps, srcs) ->
  exists ps',
    updateSourceMapFile path body scriptPath root
    = Normal (Json.stringify (Json.JObject ps'))
    /\ keys ps'
       = filter (fun k => negb (JS.eqb k (js "sourcesContent"))) (keys ps)
         ++ match Json.get (js "sourceRoot") ps with
            | Some _ => []
            | None => [js "sourceRoot"]
            end
         ++ match Json.get (js "file") ps with
            | Some _ => []
            | None => [js "file"]
            end
    /\ ((forall k, In k (keys ps) -> Json.arrayIndex k = None) ->
        Json.stringify (Json.JObject ps')
        = js "{" ++ Json.joinComma (List.map memberText ps') ++ js "}").
Proof.
  intros Hdoc. exists (normalized path ps srcs scriptPath root).
  split; [now apply updateSourceMapFile_document|].
  destruct (sourceMapDocument_Some body ps srcs Hdoc) as [_ Hsources].
  assert (Hkeys :
    keys (normalized path ps srcs scriptPath root)
    = filter (fun k => negb (JS.eqb k (js "sourcesContent"))) (keys ps)
      ++ match Json.get (js "sourceRoot") ps with
         | Some _ => []
         | None => [js "sourceRoot"]
         end
      ++ match Json.get (js "file") ps with
         | Some _ => []
         | None => [js "file"]
         end).
  { unfold normalized. rewrite keys_set.
    rewrite get_set_other, get_delete_other, get_set_other by reflexivity.
    rewrite keys_set, get_delete_other, get_set_other by reflexivity.
    rewrite keys_delete, keys_set, Hsources, app_nil_r.
    now rewrite <- app_assoc. }
  split; [exact Hkeys|].
  intros Hplain. rewrite stringify_object. do 3 f_equal.
  apply members_plain. intros k Hk. rewrite Hkeys in Hk.
  apply in_app_or in Hk. destruct Hk as [Hk|Hk].
  - apply filter_In in Hk. apply Hplain, Hk.
  - apply in_app_or in Hk. destruct Hk as [Hk|Hk].
    + destruct (Json.get (js "sourceRoot") ps); [destruct Hk|].
      destruct Hk as [<-|[]]. reflexivity.
    + destruct (Json.get (js "file") ps); [destruct Hk|].
      destruct Hk as [<-|[]]. reflexivity.
Qed.

Lemma updateSourceMapFile_member_order_witness :
  exists ps srcs ps',
    sourceMapDocument exampleMap = Some (ps, srcs)
    /\ updateSourceMapFile (Path.posix (js "/home/u")) exampleMap
         (js "/out/index.js") (js "/proj/src")
       = Normal (Json.stringify (Json.JObject ps'))
    /\ keys ps' = [js "version"; js "sources"; js "names"; js "mappings";
                    js "sourceRoot"; js "x_extra"; js "file"].
Proof.
  eassert (Hdoc : sourceMapDocument exampleMap = Some (_, _)).
  { vm_compute. reflexivity. }
  destruct (updateSourceMapFile_member_order (Path.posix (js "/home/u")) exampleMap
              (js "/out/index.js") (js "/proj/src") _ _ Hdoc)
    as [ps' (H1 & H2 & _)].
  do 2 eexists. exists ps'. split; [exact Hdoc|]. split; [exact H1|].
  rewrite H2. vm_compute. reflexivity.
Defined.

(* ================================================================== *)
(** * The output of the normalizer, read back *)

(** ** The digits of a number *)

Section Digits.

Import Json.

Local Open Scope Z_scope.

Lemma digitsValue_dv (ds : jsstring) : digitsValue ds = dv 0 ds.
Proof. reflexivity. Qed.

Lemma dv_app (a : Z) (ds es : jsstring) : dv a (ds ++ es) = dv (dv a ds) es.
Proof. unfold dv. apply fold_left_app. Qed.

Lemma digit_value (d : Z) : 0 <= d < 10 -> Z.of_N (48 + Z.to_N d - 48) = d.
Proof. intros H. lia. Qed.

Lemma digit_isDigit (d : Z) : 0 <= d < 10 -> isDigit (48 + Z.to_N d) = true.
Proof.
  intros H. unfold isDigit. apply andb_true_iff. split; apply N.leb_le; lia.
Qed.

Lemma digitsOfPos_value : forall (fuel : nat) (n : Z) (acc : jsstring),
  0 <= n < 2 ^ Z.of_nat fuel ->
  dv 0 (digitsOfPos fuel n acc) = dv n acc.
Proof.
  induction fuel as [|fuel IH]; intros n acc Hn.
  - change (2 ^ Z.of_nat 0) with 1 in Hn.
    assert (n = 0) by lia. subst n. reflexivity.
  - cbn [digitsOfPos]. destruct (n <? 10) eqn:E.
    + apply Z.ltb_lt in E. unfold dv. cbn [fold_left].
      rewrite digit_value by lia. now replace (10 * 0 + n) with n by lia.
    + apply Z.ltb_ge in E. rewrite IH.
      * unfold dv. cbn [fold_left]. rewrite digit_value by (apply Z.mod_pos_bound; lia).
        f_equal. pose proof (Z.div_mod n 10). lia.
      * rewrite Nat2Z.inj_succ, Z.pow_succ_r in Hn by lia.
        split; [apply Z.div_pos; lia|].
        apply Z.div_lt_upper_bound; lia.
Qed.

Lemma digitsOfPos_digits : forall (fuel : nat) (n : Z) (acc : jsstring),
  0 <= n -> forallb isDigit acc = true ->
  forallb isDigit (digitsOfPos fuel n acc) = true.
Proof.
  induction fuel as [|fuel IH]; intros n acc Hn Hacc; [exact Hacc|].
  cbn [digitsOfPos]. destruct (n <? 10) eqn:E.
  - apply Z.ltb_lt in E. cbn [forallb]. rewrite digit_isDigit by lia. exact Hacc.
  - apply IH; [apply Z.div_pos; lia|].
    cbn [forallb]. rewrite digit_isDigit by (apply Z.mod_pos_bound; lia). exact Hacc.
Qed.

Lemma digitsOfPos_head : forall (fuel : nat) (n : Z) (acc : jsstring),
  1 <= n < 2 ^ Z.of_nat fuel ->
  exists d t, digitsOfPos fuel n acc = d :: t /\ d <> 48%N.
Proof.
  induction fuel as [|fuel IH]; intros n acc Hn.
  - change (2 ^ Z.of_nat 0) with 1 in Hn. lia.
  - cbn [digitsOfPos]. destruct (n <? 10) eqn:E.
    + apply Z.ltb_lt in E. eexists. eexists. split; [reflexivity|]. lia.
    + apply Z.ltb_ge in E. apply IH.
      rewrite Nat2Z.inj_succ, Z.pow_succ_r in Hn by lia.
      split; [apply Z.div_le_lower_bound; lia|].
      apply Z.div_lt_upper_bound; lia.
Qed.

Lemma decimal_fuel (n : Z) : 0 <= n -> 0 <= n < 2 ^ Z.of_nat (S (Z.to_nat (Z.log2 n))).
Proof.
  intros Hn. split; [exact Hn|].
  rewrite Nat2Z.inj_succ, Z2Nat.id by apply Z.log2_nonneg.
  destruct (Z.eq_dec n 0) as [->|Hne]; [reflexivity|].
  apply Z.log2_spec. lia.
Qed.

Lemma decimal_value (n : Z) : 0 <= n -> digitsValue (decimal n) = n.
Proof.
  intros Hn. rewrite digitsValue_dv. unfold decimal.
  rewrite digitsOfPos_value by now apply decimal_fuel. reflexivity.
Qed.

Lemma decimal_digits (n : Z) : 0 <= n -> forallb isDigit (decimal n) = true.
Proof. intros Hn. now apply digitsOfPos_digits. Qed.

Lemma decimal_head (n : Z) : 1 <= n -> exists d t, decimal n = d :: t /\ d <> 48%N.
Proof.
  intros Hn. apply digitsOfPos_head.
  pose proof (decimal_fuel n). lia.
Qed.

(** *** The digits of Number::toString are not zero *)

Lemma decadeFrom_lower : forall (fuel : nat) (a b n : Z),
  below a b (n - 1) = false -> below a b (decadeFrom fuel a b n - 1) = false.
Proof.
  induction fuel as [|fuel IH]; intros a b n H; [exact H|].
  cbn [decadeFrom]. destruct (below a b n) eqn:E; [exact H|].
  apply IH. now replace (n + 1 - 1) with n by lia.
Qed.

Lemma fraction_pos (m : positive) (e : Z) :
  0 < fst (fraction m e) /\ 0 < snd (fraction m e).
Proof.
  unfold fraction. destruct (0 <=? e) eqn:E; cbn [fst snd].
  - apply Z.leb_le in E. split; [|lia].
    apply Z.mul_pos_pos; [lia|]. apply Z.pow_pos_nonneg; lia.
  - apply Z.leb_gt in E. split; [lia|]. apply Z.pow_pos_nonneg; lia.
Qed.

Lemma fraction_lower (m : positive) (e : Z) :
  below (fst (fraction m e)) (snd (fraction m e))
    ((if 0 <=? e then 1 else e + 1) - 1) = false.
Proof.
  unfold fraction, below. destruct (0 <=? e) eqn:E; cbn [fst snd].
  - apply Z.leb_le in E. change (1 - 1) with 0. cbn [Z.leb].
    apply Z.ltb_ge. change (1 * 10 ^ 0) with 1.
    assert (0 < 2 ^ e) by (apply Z.pow_pos_nonneg; lia). nia.
  - apply Z.leb_gt in E. replace (e + 1 - 1) with e by lia.
    rewrite (proj2 (Z.leb_gt 0 e) E). apply Z.ltb_ge.
    assert (2 ^ (- e) <= 10 ^ (- e)) by (apply Z.pow_le_mono_l; lia).
    assert (0 < 10 ^ (- e)) by (apply Z.pow_pos_nonneg; lia). nia.
Qed.

Lemma scale_lower (a b n k : Z) :
  0 < a -> 0 < b -> 1 <= k -> below a b (n - 1) = false ->
  0 < snd (scale a b (n - k)) /\ snd (scale a b (n - k)) <= fst (scale a b (n - k)).
Proof.
  intros Ha Hb Hk H. unfold below in H. unfold scale.
  destruct (0 <=? n - k) eqn:E; cbn [fst snd].
  - apply Z.leb_le in E. rewrite (proj2 (Z.leb_le 0 (n - 1))) in H by lia.
    apply Z.ltb_ge in H.
    assert (0 < 10 ^ (n - k)) by (apply Z.pow_pos_nonneg; lia).
    assert (10 ^ (n - k) <= 10 ^ (n - 1)) by (apply Z.pow_le_mono_r; lia).
    split; nia.
  - apply Z.leb_gt in E. split; [exact Hb|].
    assert (0 < 10 ^ (- (n - k))) by (apply Z.pow_pos_nonneg; lia).
    destruct (0 <=? n - 1) eqn:E1.
    + apply Z.leb_le in E1. apply Z.ltb_ge in H.
      assert (0 < 10 ^ (n - 1)) by (apply Z.pow_pos_nonneg; lia). nia.
    + apply Z.leb_gt in E1. apply Z.ltb_ge in H.
      assert (10 ^ (- (n - 1)) <= 10 ^ (- (n - k))) by (apply Z.pow_le_mono_r; lia).
      nia.
Qed.

Lemma scaled_lower (a b n k : Z) :
  0 < a -> 0 < b -> 1 <= k -> below a b (n - 1) = false ->
  1 <= scaled a b (n - k).
Proof.
  intros Ha Hb Hk H. unfold scaled.
  destruct (scale_lower a b n k Ha Hb Hk H) as [Hden Hle].
  destruct (scale a b (n - k)) as [num den]. cbn [fst snd] in *.
  assert (1 <= num / den) by (apply Z.div_le_lower_bound; lia).
  destruct (2 * (num mod den) <? den); lia.
Qed.

Lemma candidate_pos (k : Z) (m : positive) (e a b n s : Z) :
  candidate k m e a b n = Some s -> 1 <= s.
Proof.
  unfold candidate. destruct (scale a b (n - k)) as [num den].
  set (lo := num / den). set (hi := if num mod den =? 0 then lo else lo + 1).
  destruct (denotes lo (n - k) m e) eqn:Hlo; destruct (denotes hi (n - k) m e) eqn:Hhi;
    intros H; try discriminate.
  all: assert (Hpos : forall z, denotes z (n - k) m e = true -> 1 <= z)
    by (intros [|z|z] Hz; try discriminate; lia).
  - destruct (2 * (num mod den) <? den); [injection H as <-; auto|].
    destruct (den <? 2 * (num mod den)); [injection H as <-; auto|].
    destruct (Z.even lo); injection H as <-; auto.
  - injection H as <-; auto.
  - injection H as <-; auto.
Qed.

Lemma shortest_pos (m : positive) (e a b n : Z) :
  0 < a -> 0 < b -> below a b (n - 1) = false ->
  forall (fuel : nat) (k : Z), 1 <= k -> 1 <= fst (shortest fuel k m e a b n).
Proof.
  intros Ha Hb H. induction fuel as [|fuel IH]; intros k Hk.
  - cbn [shortest fst]. now apply scaled_lower.
  - cbn [shortest]. destruct (candidate k m e a b n) as [s|] eqn:E.
    + destruct (s =? 10 ^ k); cbn [fst].
      * assert (0 < 10 ^ (k - 1)) by (apply Z.pow_pos_nonneg; lia). lia.
      * exact (candidate_pos _ _ _ _ _ _ _ E).
    + apply IH. lia.
Qed.

Lemma digits_pos (m : positive) (e : Z) : 1 <= fst (digits m e).
Proof.
  unfold digits. pose proof (fraction_pos m e) as [Ha Hb].
  pose proof (fraction_lower m e) as Hl.
  destruct (fraction m e) as [a b]. cbn [fst snd] in *.
  apply shortest_pos; [exact Ha|exact Hb| |lia].
  now apply decadeFrom_lower.
Qed.

End Digits.

Section NumberLiterals.

Import Json.

Lemma takeWhile_stop (p : codeunit -> bool) (s t : jsstring) :
  forallb p s = true ->
  match t with [] => True | c :: _ => p c = false end ->
  Path.takeWhile p (s ++ t) = s.
Proof.
  intros Hs Ht. destruct t as [|c t].
  - rewrite app_nil_r. now apply takeWhile_whole.
  - now apply takeWhile_all.
Qed.

Lemma skipn_app_length {A : Type} (a b : list A) : skipn (List.length a) (a ++ b) = b.
Proof. induction a as [|x a IH]; [reflexivity|exact IH]. Qed.

Lemma validInt_head (int : jsstring) :
  validInt int -> exists d t, int = d :: t /\ isDigit d = true.
Proof.
  intros [->|[d [t [-> [_ H]]]]].
  - now exists 48%N, [].
  - exists d, t. split; [reflexivity|]. cbn [forallb] in H.
    now apply andb_true_iff in H.
Qed.

Lemma isDigit_not (d c : codeunit) : isDigit d = true -> isDigit c = false -> d <> c.
Proof. intros H1 H2 ->. congruence. Qed.

(** The integer part that [parseNumber] reads. *)
Lemma parseNumber_int (int tail : jsstring) :
  validInt int ->
  match tail with [] => True | c :: _ => isDigit c = false end ->
  match int ++ tail with
  | c :: _ => if N.eqb c 48 then [c] else digitsPrefix (int ++ tail)
  | [] => []
  end = int.
Proof.
  intros [->|[d [t [-> [Hd H]]]]] Ht.
  - reflexivity.
  - cbn [app]. rewrite (proj2 (N.eqb_neq d 48) Hd).
    change (d :: t ++ tail) with ((d :: t) ++ tail).
    unfold digitsPrefix. now apply takeWhile_stop.
Qed.

Lemma parseNumber_literal (neg : bool) (int : jsstring) (frac : option jsstring)
    (exp : option (bool * jsstring)) (rest : jsstring) :
  validInt int ->
  (forall f, frac = Some f -> f <> [] /\ forallb isDigit f = true) ->
  (forall minus ds, exp = Some (minus, ds) -> ds <> [] /\ forallb isDigit ds = true) ->
  delimited rest ->
  parseNumber ((if neg then [45%N] else []) ++ int ++ fracText frac ++ expText exp ++ rest)
  = Some (JNumber (numberValue neg int (match frac with Some f => f | None => [] end)
                     (expValue exp)), rest).
Proof.
  intros Hint Hfrac Hexp Hrest.
  destruct (validInt_head int Hint) as [d0 [t0 [Hi0 Hd0]]].
  assert (Hint_ne : int <> []) by (rewrite Hi0; discriminate).
  assert (Hd45 : N.eqb d0 45 = false).
  { apply N.eqb_neq. intros ->. discriminate. }
  set (tail := fracText frac ++ expText exp ++ rest).
  assert (Htail : match tail with [] => True | c :: _ => isDigit c = false end).
  { unfold tail. destruct frac as [f|]; [reflexivity|]. cbn [fracText app].
    destruct exp as [[minus ds]|]; [reflexivity|]. cbn [expText app].
    destruct rest as [|c r]; [exact I|]. now destruct Hrest. }
  unfold parseNumber.
  assert (Hneg : match (if neg then [45%N] else []) ++ int ++ tail with
                 | c :: _ => N.eqb c 45
                 | [] => false
                 end = neg).
  { destruct neg; [reflexivity|]. rewrite Hi0. cbn [app]. exact Hd45. }
  rewrite Hneg.
  assert (Hs1 : (if neg then tl ((if neg then [45%N] else []) ++ int ++ tail)
                 else (if neg then [45%N] else []) ++ int ++ tail) = int ++ tail)
    by (destruct neg; reflexivity).
  rewrite Hs1. rewrite (parseNumber_int int tail Hint Htail).
  destruct int as [|i0 int']; [now elim Hint_ne|].
  rewrite (skipn_app_length (i0 :: int') tail).
  unfold tail.
  assert (Hexp_part : forall fd : jsstring,
    match expText exp ++ rest with
    | c :: t =>
        if (N.eqb c 101 || N.eqb c 69)%bool then
          let minus := match t with d :: _ => N.eqb d 45 | [] => false end in
          let signed :=
            match t with
            | d :: _ => (N.eqb d 45 || N.eqb d 43)%bool
            | [] => false
            end in
          let t := if signed then tl t else t in
          match digitsPrefix t with
          | [] => None
          | ds =>
              let e := digitsValue ds in
              Some (JNumber (numberValue neg (i0 :: int') fd
                               (if minus then (- e)%Z else e)),
                    skipn (List.length ds) t)
          end
        else Some (JNumber (numberValue neg (i0 :: int') fd 0), expText exp ++ rest)
    | [] => Some (JNumber (numberValue neg (i0 :: int') fd 0), expText exp ++ rest)
    end = Some (JNumber (numberValue neg (i0 :: int') fd (expValue exp)), rest)).
  { intros fd. destruct exp as [[minus ds]|].
    - destruct (Hexp minus ds eq_refl) as [Hne Hds].
      cbn [expText app]. cbn [N.eqb Pos.eqb orb].
      assert (Hpre : digitsPrefix (ds ++ rest) = ds).
      { unfold digitsPrefix. apply takeWhile_stop; [exact Hds|].
        destruct rest as [|c r]; [exact I|]. now destruct Hrest. }
      destruct minus; cbn [N.eqb Pos.eqb orb tl]; rewrite Hpre;
        (destruct ds as [|d1 ds']; [now elim Hne|]);
        now rewrite (skipn_app_length (d1 :: ds') rest).
    - cbn [expText app expValue]. destruct rest as [|c r]; [reflexivity|].
      destruct Hrest as [_ [_ [H1 H2]]].
      rewrite (proj2 (N.eqb_neq c 101) H1), (proj2 (N.eqb_neq c 69) H2).
      reflexivity. }
  destruct frac as [f|].
  - destruct (Hfrac f eq_refl) as [Hne Hf].
    cbn [fracText app]. cbn [N.eqb Pos.eqb].
    assert (Hpre : digitsPrefix (f ++ expText exp ++ rest) = f).
    { unfold digitsPrefix. apply takeWhile_stop; [exact Hf|].
      destruct exp as [[minus ds]|]; [reflexivity|]. cbn [expText app].
      destruct rest as [|c r]; [exact I|]. now destruct Hrest. }
    rewrite Hpre. destruct f as [|f0 f']; [now elim Hne|].
    change (skipn (S (List.length (f0 :: f'))) (46%N :: (f0 :: f') ++ expText exp ++ rest))
      with (skipn (List.length (f0 :: f')) ((f0 :: f') ++ expText exp ++ rest)).
    rewrite (skipn_app_length (f0 :: f') (expText exp ++ rest)).
    apply Hexp_part.
  - cbn [fracText app].
    assert (Hnf : match expText exp ++ rest with
                  | c :: t => if N.eqb c 46 then Some (digitsPrefix t) else None
                  | [] => None
                  end = None).
    { destruct exp as [[minus ds]|]; [reflexivity|]. cbn [expText app].
      destruct rest as [|c r]; [reflexivity|]. destruct Hrest as [_ [H _]].
      now rewrite (proj2 (N.eqb_neq c 46) H). }
    rewrite Hnf. apply Hexp_part.
Qed.

End NumberLiterals.

Section Layout.

Import Json.

Local Open Scope Z_scope.

Lemma dv_zeros (z : nat) (a : Z) : dv a (List.repeat 48%N z) = a * 10 ^ Z.of_nat z.
Proof.
  revert a. induction z as [|z IH]; intros a.
  - cbn [List.repeat]. unfold dv. cbn [fold_left]. change (10 ^ Z.of_nat 0) with 1. lia.
  - cbn [List.repeat]. unfold dv in *. cbn [fold_left]. rewrite IH.
    rewrite Nat2Z.inj_succ, Z.pow_succ_r by lia. change (Z.of_N (48 - 48)) with 0. lia.
Qed.

Lemma zeros_digits (z : Z) : forallb isDigit (zeros z) = true.
Proof.
  unfold zeros. induction (Z.to_nat z) as [|n IH]; [reflexivity|exact IH].
Qed.

Lemma numberValue_digits (neg : bool) (int frac : jsstring) (exp s : Z) :
  digitsValue (int ++ frac) = s -> 1 <= s ->
  numberValue neg int frac exp
  = doubleOfDecimal neg (Z.to_pos s) (exp - Z.of_nat (List.length frac)).
Proof.
  intros H Hs. unfold numberValue. rewrite H.
  destruct s as [|p|p]; try lia. reflexivity.
Qed.

Lemma doubleOfDecimal_zeros (neg : bool) (s z : Z) :
  1 <= s -> 0 <= z ->
  doubleOfDecimal neg (Z.to_pos (s * 10 ^ z)) 0 = doubleOfDecimal neg (Z.to_pos s) z.
Proof.
  intros Hs Hz. unfold doubleOfDecimal. change (0 <=? 0) with true. cbv iota.
  rewrite (proj2 (Z.leb_le 0 z) Hz).
  assert (0 < 10 ^ z) by (apply Z.pow_pos_nonneg; lia).
  change (10 ^ 0) with 1. change (Z.to_pos 1) with 1%positive.
  rewrite Pos.mul_1_r. f_equal. apply Z2Pos.inj_mul; lia.
Qed.

Section WithDigits.

Variables (ds : jsstring) (s : Z).
Hypothesis Hhead : exists d t, ds = d :: t /\ d <> 48%N.
Hypothesis Hdigits : forallb isDigit ds = true.
Hypothesis Hvalue : digitsValue ds = s.
Hypothesis Hs : 1 <= s.

Lemma forallb_firstn (n : nat) : forallb isDigit (firstn n ds) = true.
Proof.
  revert n. generalize ds Hdigits. induction ds0 as [|c l IH]; intros H [|n];
    try reflexivity.
  cbn [forallb firstn] in *. apply andb_true_iff in H. destruct H as [H1 H2].
  rewrite H1. now apply IH.
Qed.

Lemma forallb_skipn (n : nat) : forallb isDigit (skipn n ds) = true.
Proof.
  revert n. generalize ds Hdigits. induction ds0 as [|c l IH]; intros H [|n];
    try reflexivity; [exact H|].
  cbn [forallb skipn] in *. apply andb_true_iff in H. destruct H as [H1 H2].
  now apply IH.
Qed.

Lemma layout_literal (neg : bool) (n : Z) (rest : jsstring) :
  delimited rest ->
  parseNumber ((if neg then [45%N] else []) ++ layout ds n ++ rest)
  = Some (JNumber (doubleOfDecimal neg (Z.to_pos s) (n - Z.of_nat (List.length ds))),
          rest).
Proof.
  intros Hrest. destruct Hhead as [d [t [Hds Hd]]].
  assert (Hd_digit : isDigit d = true).
  { pose proof Hdigits as H. rewrite Hds in H. cbn [forallb] in H.
    now apply andb_true_iff in H. }
  unfold layout. set (k := Z.of_nat (List.length ds)).
  destruct ((k <=? n) && (n <=? 21))%bool eqn:E1.
  { (* digits and zeros *)
    apply andb_true_iff in E1. destruct E1 as [E1 _]. apply Z.leb_le in E1.
    transitivity (Some (JNumber (numberValue neg (ds ++ zeros (n - k)) [] 0), rest)).
    - apply (parseNumber_literal neg (ds ++ zeros (n - k)) None None rest);
        [|discriminate|discriminate|exact Hrest].
      right. rewrite Hds. exists d, (t ++ zeros (n - k)). split; [reflexivity|].
      split; [exact Hd|]. rewrite <- Hds, forallb_app, Hdigits. apply zeros_digits.
    - f_equal. f_equal. f_equal.
      rewrite (numberValue_digits neg (ds ++ zeros (n - k)) [] 0 (s * 10 ^ (n - k))).
      + apply doubleOfDecimal_zeros; lia.
      + rewrite app_nil_r, digitsValue_dv, dv_app, <- digitsValue_dv, Hvalue.
        unfold zeros. rewrite dv_zeros, Z2Nat.id by lia. reflexivity.
      + assert (0 < 10 ^ (n - k)) by (apply Z.pow_pos_nonneg; lia). nia. }
  destruct ((0 <? n) && (n <=? 21))%bool eqn:E2.
  { (* digits with a point *)
    apply andb_true_iff in E2. destruct E2 as [E2 E2']. apply Z.ltb_lt in E2.
    apply andb_false_iff in E1. destruct E1 as [E1|E1]; [|congruence].
    apply Z.leb_gt in E1.
    rewrite <- (app_assoc (firstn (Z.to_nat n) ds) _ rest).
    transitivity (Some (JNumber (numberValue neg (firstn (Z.to_nat n) ds)
                                   (skipn (Z.to_nat n) ds) 0), rest)).
    - apply (parseNumber_literal neg (firstn (Z.to_nat n) ds)
               (Some (skipn (Z.to_nat n) ds)) None rest);
        [| |discriminate|exact Hrest].
      + right. rewrite Hds. destruct (Z.to_nat n) as [|n'] eqn:En; [lia|].
        cbn [firstn]. exists d, (firstn n' t). split; [reflexivity|].
        split; [exact Hd|].
        change (d :: firstn n' t) with (firstn (S n') (d :: t)). rewrite <- Hds.
        apply forallb_firstn.
      + intros f Hf. injection Hf as <-. split; [|apply forallb_skipn].
        intros E. apply (f_equal (@List.length _)) in E.
        rewrite length_skipn in E. cbn [List.length] in E. unfold k in E1. lia.
    - f_equal. f_equal. f_equal.
      rewrite (numberValue_digits neg _ _ 0 s); [|now rewrite firstn_skipn|exact Hs].
      f_equal. rewrite length_skipn. unfold k. lia. }
  destruct ((-6 <? n) && (n <=? 0))%bool eqn:E3.
  { (* zero, a point, zeros and digits *)
    apply andb_true_iff in E3. destruct E3 as [E3 E3']. apply Z.leb_le in E3'.
    transitivity (Some (JNumber (numberValue neg [48%N] (zeros (- n) ++ ds) 0), rest)).
    - apply (parseNumber_literal neg [48%N] (Some (zeros (- n) ++ ds)) None rest);
        [now left| |discriminate|exact Hrest].
      intros f Hf. injection Hf as <-. split.
      + rewrite Hds. destruct (zeros (- n)); discriminate.
      + now rewrite forallb_app, zeros_digits, Hdigits.
    - f_equal. f_equal. f_equal.
      rewrite (numberValue_digits neg _ _ 0 s); [| |exact Hs].
      + f_equal. rewrite length_app. unfold zeros. rewrite repeat_length. unfold k. lia.
      + rewrite digitsValue_dv.
        change ([48%N] ++ zeros (- n) ++ ds) with ([48%N] ++ (zeros (- n) ++ ds)).
        rewrite !dv_app. change (dv 0 [48%N]) with 0.
        unfold zeros. rewrite dv_zeros. cbn [Z.mul].
        rewrite <- digitsValue_dv. exact Hvalue. }
  (* one digit, the others after a point, and an exponent *)
  set (minus := negb (0 <=? n - 1)).
  set (exponent := Some (minus, decimal (Z.abs (n - 1)))).
  assert (Hexp : js "e" ++ (if 0 <=? n - 1 then js "+" else js "-")
                 ++ decimal (Z.abs (n - 1))
                 = expText exponent).
  { unfold exponent, minus. destruct (0 <=? n - 1); reflexivity. }
  assert (Hev : expValue exponent = n - 1).
  { unfold exponent, minus. cbn [expValue]. rewrite decimal_value by lia.
    destruct (0 <=? n - 1) eqn:E; cbn [negb];
      [apply Z.leb_le in E|apply Z.leb_gt in E]; lia. }
  assert (Hed : forall m' ds', exponent = Some (m', ds') ->
                  ds' <> [] /\ forallb isDigit ds' = true).
  { intros m' ds' E. injection E as _ <-. split; [|apply decimal_digits; lia].
    intros E. destruct (Z.eq_dec (Z.abs (n - 1)) 0) as [E0|E0].
    - rewrite E0 in E. discriminate.
    - destruct (decimal_head (Z.abs (n - 1))) as [d' [t' [Hd' _]]]; [lia|congruence]. }
  assert (Hone : validInt [d]).
  { right. exists d, []. split; [reflexivity|]. split; [exact Hd|].
    cbn [forallb]. now rewrite Hd_digit. }
  rewrite Hexp. clearbody exponent. rewrite Hds. destruct t as [|d1 t1].
  - transitivity (Some (JNumber (numberValue neg [d] [] (expValue exponent)), rest)).
    + apply (parseNumber_literal neg [d] None exponent rest Hone);
        [discriminate|exact Hed|exact Hrest].
    + f_equal. f_equal. f_equal. rewrite Hev.
      rewrite (numberValue_digits neg _ _ _ s);
        [|cbn [app]; rewrite <- Hds; exact Hvalue|exact Hs].
      f_equal. unfold k. rewrite Hds. cbn [List.length]. lia.
  - assert (Etext : (d :: js "." ++ (d1 :: t1) ++ expText exponent) ++ rest
                    = [d] ++ fracText (Some (d1 :: t1)) ++ expText exponent ++ rest).
    { change (js ".") with [46%N]. cbn [app fracText]. now rewrite <- app_assoc. }
    rewrite Etext.
    transitivity (Some (JNumber (numberValue neg [d] (d1 :: t1) (expValue exponent)), rest)).
    + apply (parseNumber_literal neg [d] (Some (d1 :: t1)) exponent rest Hone);
        [|exact Hed|exact Hrest].
      intros f Hf. injection Hf as <-. split; [discriminate|].
      pose proof Hdigits as Hall. rewrite Hds in Hall. cbn [forallb] in Hall.
      apply andb_true_iff in Hall. now destruct Hall.
    + f_equal. f_equal. f_equal. rewrite Hev.
      rewrite (numberValue_digits neg _ _ _ s);
        [|cbn [app]; rewrite <- Hds; exact Hvalue|exact Hs].
      f_equal. unfold k. rewrite Hds. cbn [List.length]. lia.
Qed.

End WithDigits.

End Layout.

(** ** The texts of numbers and strings *)

Section NumberTexts.

Import Json.

Lemma numberToString_literal (neg : bool) (m : positive) (e : Z) (rest : jsstring) :
  delimited rest ->
  parseNumber (numberToString (S754_finite neg m e) ++ rest)
  = Some (rereadNumber (S754_finite neg m e), rest).
Proof.
  intros Hrest. unfold numberToString, positiveToString, rereadNumber.
  pose proof (digits_pos m e) as Hpos.
  destruct (digits m e) as [s n]. cbn [fst] in Hpos.
  rewrite <- app_assoc.
  change (if neg then js "-" else []) with (if neg then [45%N] else []).
  apply (layout_literal (decimal s) s).
  - destruct (decimal_head s Hpos) as [d [t [H1 H2]]]. now exists d, t.
  - apply decimal_digits. lia.
  - apply decimal_value. lia.
  - exact Hpos.
  - exact Hrest.
Qed.

Lemma zero_literal (neg : bool) (rest : jsstring) :
  delimited rest ->
  parseNumber (numberToString (S754_zero neg) ++ rest)
  = Some (rereadNumber (S754_zero neg), rest).
Proof.
  intros Hrest.
  exact (parseNumber_literal false [48%N] None None rest (or_introl eq_refl)
           ltac:(discriminate) ltac:(discriminate) Hrest).
Qed.

(** *** Strings *)

Lemma hexValue_digit (d : N) :
  (d < 16)%N -> Url.hexValue (if N.ltb d 10 then 48 + d else 87 + d)%N = Some d.
Proof.
  intros H. unfold Url.hexValue, Url.isDigit.
  destruct (N.ltb d 10) eqn:E.
  - apply N.ltb_lt in E.
    rewrite (proj2 (N.leb_le 48 (48 + d))), (proj2 (N.leb_le (48 + d) 57)) by lia.
    cbn [andb]. f_equal. lia.
  - apply N.ltb_ge in E.
    replace (N.leb (87 + d) 57) with false by (symmetry; apply N.leb_gt; lia).
    rewrite andb_false_r.
    replace (N.leb (87 + d) 70) with false by (symmetry; apply N.leb_gt; lia).
    rewrite andb_false_r.
    rewrite (proj2 (N.leb_le 97 (87 + d))), (proj2 (N.leb_le (87 + d) 102)) by lia.
    cbn [andb]. f_equal. lia.
Qed.

Lemma parseString_hex (c : codeunit) (t : jsstring) :
  (c < 65536)%N ->
  parseString (js "\u" ++ hex4 c ++ t)
  = match parseString t with
    | Some (str, rest) => Some (c :: str, rest)
    | None => None
    end.
Proof.
  intros Hc. unfold hex4. cbn [List.map app]. change (js "\u") with [92%N; 117%N].
  cbn [app parseString]. cbn [N.eqb Pos.eqb N.ltb N.compare Pos.compare Pos.compare_cont negb orb].
  assert (H1 : (c / 4096 < 16)%N) by (apply N.Div0.div_lt_upper_bound; lia).
  assert (H2 : ((c / 256) mod 16 < 16)%N) by (apply N.mod_lt; lia).
  assert (H3 : ((c / 16) mod 16 < 16)%N) by (apply N.mod_lt; lia).
  assert (H4 : (c mod 16 < 16)%N) by (apply N.mod_lt; lia).
  rewrite !hexValue_digit by assumption.
  assert (E : (4096 * (c / 4096) + 256 * ((c / 256) mod 16)
               + 16 * ((c / 16) mod 16) + c mod 16 = c)%N).
  { pose proof (N.div_mod c 16 ltac:(lia)) as E1.
    pose proof (N.div_mod (c / 16) 16 ltac:(lia)) as E2.
    pose proof (N.div_mod (c / 256) 16 ltac:(lia)) as E3.
    assert (D1 : (c / 256 = c / 16 / 16)%N) by (rewrite N.Div0.div_div; reflexivity).
    assert (D2 : (c / 4096 = c / 256 / 16)%N) by (rewrite N.Div0.div_div; reflexivity).
    lia. }
  rewrite E. reflexivity.
Qed.

Lemma parseString_quoteBody : forall (n : nat) (s rest : jsstring),
  List.length s <= n ->
  parseString (quoteBody s ++ 34%N :: rest) = Some (s, rest).
Proof.
  induction n as [|n IH]; intros s rest Hn.
  - destruct s; [|cbn [List.length] in Hn; lia]. cbn [quoteBody app parseString].
    reflexivity.
  - destruct s as [|c t]; [reflexivity|]. cbn [List.length] in Hn.
    assert (IHt : parseString (quoteBody t ++ 34%N :: rest) = Some (t, rest))
      by (apply IH; lia).
    cbn [quoteBody].
    destruct (N.eqb c 8) eqn:E8.
    { apply N.eqb_eq in E8. subst c. rewrite <- app_assoc.
      change (js "\b") with [92%N; 98%N]. cbn [app parseString].
      cbn [N.eqb Pos.eqb N.ltb N.compare Pos.compare Pos.compare_cont negb orb].
      now rewrite IHt. }
    destruct (N.eqb c 9) eqn:E9.
    { apply N.eqb_eq in E9. subst c. rewrite <- app_assoc.
      change (js "\t") with [92%N; 116%N]. cbn [app parseString].
      cbn [N.eqb Pos.eqb N.ltb N.compare Pos.compare Pos.compare_cont negb orb].
      now rewrite IHt. }
    destruct (N.eqb c 10) eqn:E10.
    { apply N.eqb_eq in E10. subst c. rewrite <- app_assoc.
      change (js "\n") with [92%N; 110%N]. cbn [app parseString].
      cbn [N.eqb Pos.eqb N.ltb N.compare Pos.compare Pos.compare_cont negb orb].
      now rewrite IHt. }
    destruct (N.eqb c 12) eqn:E12.
    { apply N.eqb_eq in E12. subst c. rewrite <- app_assoc.
      change (js "\f") with [92%N; 102%N]. cbn [app parseString].
      cbn [N.eqb Pos.eqb N.ltb N.compare Pos.compare Pos.compare_cont negb orb].
      now rewrite IHt. }
    destruct (N.eqb c 13) eqn:E13.
    { apply N.eqb_eq in E13. subst c. rewrite <- app_assoc.
      change (js "\r") with [92%N; 114%N]. cbn [app parseString].
      cbn [N.eqb Pos.eqb N.ltb N.compare Pos.compare Pos.compare_cont negb orb].
      now rewrite IHt. }
    destruct (N.eqb c 34) eqn:E34.
    { apply N.eqb_eq in E34. subst c. rewrite <- app_assoc.
      cbn [app parseString].
      cbn [N.eqb Pos.eqb N.ltb N.compare Pos.compare Pos.compare_cont negb orb].
      now rewrite IHt. }
    destruct (N.eqb c 92) eqn:E92.
    { apply N.eqb_eq in E92. subst c. rewrite <- app_assoc.
      cbn [app parseString].
      cbn [N.eqb Pos.eqb N.ltb N.compare Pos.compare Pos.compare_cont negb orb].
      now rewrite IHt. }
    assert (Hplain : N.ltb c 32 = false ->
              parseString ((c :: quoteBody t) ++ 34%N :: rest) = Some (c :: t, rest)).
    { intros E32. cbn [app parseString]. rewrite E34, E32, E92. cbn [negb].
      now rewrite IHt. }
    assert (Hhex : (c < 65536)%N ->
              parseString ((js "\u" ++ hex4 c ++ quoteBody t) ++ 34%N :: rest)
              = Some (c :: t, rest)).
    { intros Hc. rewrite <- !app_assoc. rewrite (parseString_hex c _ Hc).
      now rewrite IHt. }
    destruct (N.ltb c 32) eqn:E32.
    { apply Hhex. apply N.ltb_lt in E32. lia. }
    destruct (isHighSurrogate c) eqn:Ehi.
    { assert (Hc : (c < 65536)%N).
      { unfold isHighSurrogate in Ehi. apply andb_true_iff in Ehi.
        destruct Ehi as [_ H]. apply N.leb_le in H. lia. }
      destruct t as [|d t'].
      - rewrite <- !app_assoc. rewrite (parseString_hex c _ Hc). reflexivity.
      - destruct (isLowSurrogate d) eqn:Elo; [|now apply Hhex].
        assert (IHt' : parseString (quoteBody t' ++ 34%N :: rest) = Some (t', rest))
          by (apply IH; cbn [List.length] in Hn; lia).
        assert (Hd : N.eqb d 34 = false /\ N.ltb d 32 = false /\ N.eqb d 92 = false).
        { unfold isLowSurrogate in Elo. apply andb_true_iff in Elo.
          destruct Elo as [H _]. apply N.leb_le in H.
          repeat split; [apply N.eqb_neq|apply N.ltb_ge|apply N.eqb_neq]; lia. }
        destruct Hd as [D1 [D2 D3]].
        cbn [app parseString]. rewrite E34, E32, E92, D1, D2, D3. cbn [negb].
        now rewrite IHt'. }
    destruct (isLowSurrogate c) eqn:Elo.
    { apply Hhex. unfold isLowSurrogate in Elo. apply andb_true_iff in Elo.
      destruct Elo as [_ H]. apply N.leb_le in H. lia. }
    now apply Hplain.
Qed.

Lemma parseString_quote (s rest : jsstring) :
  parseString (tl (quote s) ++ rest) = Some (s, rest).
Proof.
  unfold quote. cbn [tl]. rewrite <- app_assoc.
  apply (parseString_quoteBody (List.length s)). lia.
Qed.

End NumberTexts.

(** ** The texts of arrays and objects *)

Section ValueInduction.

Variable P : Json.value -> Prop.
Hypothesis Hnull : P Json.JNull.
Hypothesis Hbool : forall b, P (Json.JBool b).
Hypothesis Hnumber : forall x, P (Json.JNumber x).
Hypothesis Hstring : forall s, P (Json.JString s).
Hypothesis Harray : forall vs, Forall P vs -> P (Json.JArray vs).
Hypothesis Hobject : forall ps, Forall (fun p => P (snd p)) ps -> P (Json.JObject ps).

Lemma value_induction : forall v, P v.
Proof.
  fix IH 1. intros [| b | x | s | vs | ps].
  - exact Hnull.
  - apply Hbool.
  - apply Hnumber.
  - apply Hstring.
  - apply Harray. induction vs as [|v vs IHvs]; constructor; [apply IH | exact IHvs].
  - apply Hobject. induction ps as [|[k w] ps IHps]; constructor;
      [apply IH | exact IHps].
Qed.

End ValueInduction.

Section ReadingBack.

Import Json.

Lemma parseNumber_head (s : jsstring) (r : value * jsstring) :
  parseNumber s = Some r ->
  exists c t, s = c :: t /\ (c = 45%N \/ isDigit c = true).
Proof.
  destruct s as [|c t]; [discriminate|]. intros H. exists c, t.
  split; [reflexivity|].
  destruct (N.eqb c 45) eqn:E45; [left; now apply N.eqb_eq|]. right.
  destruct (isDigit c) eqn:Ed; [reflexivity|exfalso].
  unfold parseNumber in H. cbv beta iota in H. rewrite E45 in H. cbv iota in H.
  destruct (N.eqb c 48) eqn:E48.
  { apply N.eqb_eq in E48. subst c. discriminate. }
  unfold digitsPrefix in H. cbn [Path.takeWhile] in H. rewrite Ed in H.
  discriminate.
Qed.

Lemma digit_starter (c : codeunit) : c = 45%N \/ isDigit c = true -> starter c.
Proof.
  intros [->|H]; [split; [reflexivity|discriminate]|].
  unfold isDigit in H. apply andb_true_iff in H. destruct H as [H1 H2].
  apply N.leb_le in H1. apply N.leb_le in H2. split; [|lia].
  unfold isJsonSpace.
  repeat (apply orb_false_iff; split); apply N.eqb_neq; lia.
Qed.

Lemma stringify_head (v : value) :
  exists c t, stringify v = c :: t /\ starter c.
Proof.
  assert (Hconst : forall (c : codeunit) (t : jsstring) (text : jsstring),
            text = c :: t -> isJsonSpace c = false -> c <> 93%N ->
            exists c t, text = c :: t /\ starter c).
  { intros c t text -> H1 H2. exists c, t. now repeat split. }
  destruct v as [| [|] | x | s | vs | ps].
  - apply (Hconst 110%N (js "ull")); [reflexivity|reflexivity|discriminate].
  - apply (Hconst 116%N (js "rue")); [reflexivity|reflexivity|discriminate].
  - apply (Hconst 102%N (js "alse")); [reflexivity|reflexivity|discriminate].
  - assert (Hnum : forall y, parseNumber (numberToString y ++ [])
                             = Some (rereadNumber y, []) ->
                   exists c t, numberToString y = c :: t /\ starter c).
    { intros y Hy. apply parseNumber_head in Hy. destruct Hy as [c [t [E Hc]]].
      rewrite app_nil_r in E. exists c, t. split; [exact E|].
      now apply digit_starter. }
    destruct x as [neg | neg | | neg m e]; cbn [stringify].
    + apply Hnum. now apply zero_literal.
    + apply (Hconst 110%N (js "ull")); [reflexivity|reflexivity|discriminate].
    + apply (Hconst 110%N (js "ull")); [reflexivity|reflexivity|discriminate].
    + apply Hnum. now apply numberToString_literal.
  - apply (Hconst 34%N (quoteBody s ++ [34%N])); [reflexivity|reflexivity|discriminate].
  - apply (Hconst 91%N (joinComma (List.map stringify vs) ++ js "]"));
      [reflexivity|reflexivity|discriminate].
  - rewrite stringify_object.
    apply (Hconst 123%N (joinComma (members ps) ++ js "}"));
      [reflexivity|reflexivity|discriminate].
Qed.

Lemma skipSpace_starter (s : jsstring) :
  match s with c :: _ => isJsonSpace c = false | [] => True end ->
  skipSpace s = s.
Proof.
  destruct s as [|c t]; [reflexivity|]. intros H. cbn [skipSpace]. now rewrite H.
Qed.

Lemma skipSpace_stringify (v : value) (rest : jsstring) :
  skipSpace (stringify v ++ rest) = stringify v ++ rest.
Proof.
  destruct (stringify_head v) as [c [t [E [H _]]]]. rewrite E.
  now apply skipSpace_starter.
Qed.

Lemma joinComma_cons (t : jsstring) (ts : list jsstring) :
  joinComma (t :: ts) = t ++ following ts.
Proof.
  revert t. induction ts as [|u ts IH]; intros t.
  - cbn [joinComma following List.map List.concat]. now rewrite app_nil_r.
  - change (joinComma (t :: u :: ts)) with (t ++ 44%N :: joinComma (u :: ts)).
    rewrite IH. reflexivity.
Qed.

(** What follows the text of an element or of a member. *)
Lemma following_closer (texts : list jsstring) (closer : codeunit) (rest : jsstring) :
  closer = 93%N \/ closer = 125%N ->
  delimited (following texts ++ closer :: rest)
  /\ skipSpace (following texts ++ closer :: rest) = following texts ++ closer :: rest.
Proof.
  intros Hc. destruct texts as [|t ts].
  - cbn [following List.map List.concat app].
    destruct Hc as [-> | ->]; split; try reflexivity; cbn [delimited];
      repeat split; discriminate.
  - cbn [following List.map List.concat app]. split; [|reflexivity].
    cbn [delimited]. repeat split; discriminate.
Qed.

Lemma parseElements_texts (pv : jsstring -> parsed value) (rest : jsstring) :
  forall (vs : list value) (fuel : nat) (acc : list value),
    Forall (reads pv) vs -> List.length vs < fuel ->
    parseElements pv fuel acc
      (following (List.map stringify vs) ++ 93%N :: rest)
    = Parsed (JArray (rev acc ++ List.map reread vs)) rest.
Proof.
  induction vs as [|v vs IH]; intros fuel acc Hvs Hfuel.
  - destruct fuel as [|fuel]; [cbn [List.length] in Hfuel; lia|].
    cbn [following List.map List.concat app parseElements].
    cbn [N.eqb Pos.eqb]. now rewrite app_nil_r.
  - destruct fuel as [|fuel]; [lia|]. cbn [List.length] in Hfuel.
    inversion Hvs as [|v' vs' Hv Hvs' E]. subst v' vs'.
    change (following (List.map stringify (v :: vs)) ++ 93%N :: rest)
      with (44%N :: (stringify v ++ following (List.map stringify vs)) ++ 93%N :: rest).
    rewrite <- app_assoc.
    destruct (following_closer (List.map stringify vs) 93 rest (or_introl eq_refl))
      as [Hd Hsp].
    cbn [parseElements]. cbn [N.eqb Pos.eqb].
    rewrite skipSpace_stringify, (Hv _ Hd), Hsp.
    rewrite (IH fuel (reread v :: acc) Hvs') by lia.
    cbn [rev List.map]. now rewrite <- app_assoc.
Qed.

Lemma parseMember_text (pv : jsstring -> parsed value) (p : jsstring * value)
    (tail : jsstring) :
  reads pv (snd p) -> delimited tail -> skipSpace tail = tail ->
  parseMember pv (memberText p ++ tail) = Parsed (fst p, reread (snd p)) tail.
Proof.
  intros Hv Hd Hsp. destruct p as [k w]. cbn [fst snd] in *.
  unfold memberText. cbn [fst snd]. unfold quote.
  change (((34%N :: quoteBody k ++ [34%N]) ++ js ":" ++ stringify w) ++ tail)
    with (34%N :: ((quoteBody k ++ [34%N]) ++ js ":" ++ stringify w) ++ tail).
  rewrite <- !app_assoc.
  change ([34%N] ++ js ":" ++ stringify w ++ tail)
    with (34%N :: js ":" ++ stringify w ++ tail).
  unfold parseMember. cbn [N.eqb Pos.eqb].
  rewrite (parseString_quoteBody (List.length k) k _ (Nat.le_refl _)).
  change (js ":" ++ stringify w ++ tail) with (58%N :: stringify w ++ tail).
  cbn [skipSpace isJsonSpace N.eqb Pos.eqb orb].
  rewrite skipSpace_stringify, (Hv _ Hd), Hsp. reflexivity.
Qed.

Lemma parseMembers_texts (pv : jsstring -> parsed value) (rest : jsstring) :
  forall (ms : properties) (fuel : nat) (acc : properties),
    Forall (fun p => reads pv (snd p)) ms -> List.length ms < fuel ->
    parseMembers pv fuel acc
      (following (List.map memberText ms) ++ 125%N :: rest)
    = Parsed (JObject (fold_left (fun acc p => set (fst p) (snd p) acc)
                         (List.map rereadMember ms) acc)) rest.
Proof.
  induction ms as [|p ms IH]; intros fuel acc Hms Hfuel.
  - destruct fuel as [|fuel]; [cbn [List.length] in Hfuel; lia|]. reflexivity.
  - destruct fuel as [|fuel]; [lia|]. cbn [List.length] in Hfuel.
    inversion Hms as [|p' ms' Hp Hms' E]. subst p' ms'.
    change (following (List.map memberText (p :: ms)) ++ 125%N :: rest)
      with (44%N :: (memberText p ++ following (List.map memberText ms)) ++ 125%N :: rest).
    rewrite <- app_assoc.
    destruct (following_closer (List.map memberText ms) 125 rest (or_intror eq_refl))
      as [Hd Hsp].
    cbn [parseMembers]. cbn [N.eqb Pos.eqb].
    assert (Hhead : skipSpace (memberText p ++ following (List.map memberText ms)
                               ++ 125%N :: rest)
                    = memberText p ++ following (List.map memberText ms) ++ 125%N :: rest)
      by reflexivity.
    rewrite Hhead, (parseMember_text pv p _ Hp Hd Hsp).
    rewrite (IH fuel _ Hms') by lia.
    destruct p as [k w]. reflexivity.
Qed.

End ReadingBack.

Section EnumerationOrder.

Import Json.

Context {A : Type}.

Lemma enumerate_unfold (ps : list (jsstring * A)) :
  enumerate ps
  = List.map snd (fold_left indexStep ps [])
    ++ filter (fun p => plainKey (fst p)) ps.
Proof. reflexivity. Qed.

Lemma insertIndexed_perm (i : Z) (p : jsstring * A) (acc : list (Z * (jsstring * A))) :
  Permutation (List.map snd (insertIndexed i p acc)) (p :: List.map snd acc).
Proof.
  induction acc as [|[j q] acc IH]; [reflexivity|].
  cbn [insertIndexed]. destruct (i <? j)%Z; [reflexivity|].
  cbn [List.map snd]. rewrite IH. apply perm_swap.
Qed.

Lemma indexed_perm : forall (ps : list (jsstring * A)) (acc : list (Z * (jsstring * A))),
  Permutation (List.map snd (fold_left indexStep ps acc)
               ++ filter (fun p => plainKey (fst p)) ps)
              (List.map snd acc ++ ps).
Proof.
  induction ps as [|p ps IH]; intros acc; [reflexivity|].
  cbn [fold_left filter]. rewrite <- Permutation_middle.
  unfold indexStep at 2, plainKey at 1.
  destruct (arrayIndex (fst p)) as [i|].
  - rewrite IH. rewrite insertIndexed_perm. reflexivity.
  - rewrite <- Permutation_middle. now rewrite IH.
Qed.

Lemma enumerate_perm (ps : list (jsstring * A)) : Permutation (enumerate ps) ps.
Proof. rewrite enumerate_unfold. apply (indexed_perm ps []). Qed.

End EnumerationOrder.

Section EnumerationMap.

Import Json.

Context {A B : Type}.
Variable g : jsstring * A -> jsstring * B.
Hypothesis g_key : forall p, fst (g p) = fst p.

Lemma insertIndexed_map (i : Z) (p : jsstring * A) (acc : list (Z * (jsstring * A))) :
  insertIndexed i (g p) (List.map (onIndexed g) acc)
  = List.map (onIndexed g) (insertIndexed i p acc).
Proof.
  induction acc as [|[j q] acc IH]; [reflexivity|].
  cbn [List.map insertIndexed]. unfold onIndexed at 1. cbn [fst snd].
  destruct (i <? j)%Z; [reflexivity|]. cbn [List.map]. now rewrite <- IH.
Qed.

Lemma indexStep_map : forall (ps : list (jsstring * A)) (acc : list (Z * (jsstring * A))),
  fold_left indexStep (List.map g ps) (List.map (onIndexed g) acc)
  = List.map (onIndexed g) (fold_left indexStep ps acc).
Proof.
  induction ps as [|p ps IH]; intros acc; [reflexivity|].
  cbn [List.map fold_left]. rewrite <- IH. f_equal.
  unfold indexStep. rewrite g_key.
  destruct (arrayIndex (fst p)); [apply insertIndexed_map|reflexivity].
Qed.

Lemma enumerate_map (ps : list (jsstring * A)) :
  enumerate (List.map g ps) = List.map g (enumerate ps).
Proof.
  rewrite !enumerate_unfold, map_app. f_equal.
  - change (fold_left indexStep (List.map g ps) [])
      with (fold_left indexStep (List.map g ps) (List.map (onIndexed g) [])).
    rewrite (indexStep_map ps []), !map_map. reflexivity.
  - induction ps as [|p ps IH]; [reflexivity|].
    cbn [List.map filter]. rewrite g_key.
    destruct (plainKey (fst p)); cbn [List.map]; now rewrite IH.
Qed.

End EnumerationMap.

Section Texts.

Import Json.

Lemma members_enumerate (ps : properties) :
  members ps = List.map memberText (enumerate ps).
Proof.
  unfold members.
  assert (Hser : forall l : properties,
            (fix serialized (ps : properties) : list (jsstring * jsstring) :=
               match ps with
               | [] => []
               | (k, w) :: ps' => (k, stringify w) :: serialized ps'
               end) l
            = List.map (fun p => (fst p, stringify (snd p))) l).
  { induction l as [|[k w] l IH]; [reflexivity|]. now rewrite IH. }
  rewrite Hser.
  rewrite (enumerate_map (fun p : jsstring * value => (fst p, stringify (snd p))))
    by reflexivity.
  rewrite map_map. reflexivity.
Qed.

Lemma reread_object (ps : properties) :
  reread (JObject ps) = JObject (build (List.map rereadMember (enumerate ps))).
Proof.
  cbn [reread]. f_equal. f_equal.
  apply (enumerate_map rereadMember). now intros [k w].
Qed.

Lemma common_fuel {T : Type} (Q : nat -> T -> Prop) : forall l : list T,
  Forall (fun v => exists f0, forall f, f0 <= f -> Q f v) l ->
  exists F, forall f, F <= f -> Forall (Q f) l.
Proof.
  induction l as [|v l IH]; intros H.
  - exists 0. constructor.
  - inversion H as [|v' l' [f0 Hv] Hl E]. subst v' l'.
    destruct (IH Hl) as [F HF]. exists (Nat.max f0 F). intros f Hf.
    constructor; [apply Hv|apply HF]; lia.
Qed.

(** [JSON.parse] reads the text that [JSON.stringify] writes, given fuel
    enough. *)
Lemma reads_all : forall v : value,
  exists f0, forall f, f0 <= f -> reads (parseValue f) v.
Proof.
  apply value_induction.
  - exists 1. intros [|f] Hf rest _; [lia|]. reflexivity.
  - intros b. exists 1. intros [|f] Hf rest _; [lia|]. now destruct b.
  - intros x. exists 1. intros [|f] Hf rest Hrest; [lia|].
    assert (Hnum : parseNumber (numberToString x ++ rest) = Some (rereadNumber x, rest) ->
                   parseValue (S f) (numberToString x ++ rest)
                   = Parsed (rereadNumber x) rest).
    { intros H. destruct (parseNumber_head _ _ H) as [c [t [E Hc]]].
      rewrite E in *. cbn [parseValue].
      assert (Hne : forall k : N, (k = 123 \/ k = 91 \/ k = 34 \/ k = 116 \/ k = 102
                                   \/ k = 110)%N -> N.eqb c k = false /\ N.eqb k c = false).
      { intros k Hk. split; apply N.eqb_neq; intros ->;
          destruct Hc as [Hc|Hc]; try (now repeat destruct Hk as [Hk|Hk]);
          repeat (destruct Hk as [Hk|Hk]; [subst; discriminate|]); subst; discriminate. }
      rewrite (proj1 (Hne 123%N ltac:(auto))), (proj1 (Hne 91%N ltac:(auto 10))),
        (proj1 (Hne 34%N ltac:(auto 10))).
      change (stripPrefix (js "true") (c :: t))
        with (if N.eqb 116 c then stripPrefix (js "rue") t else None).
      change (stripPrefix (js "false") (c :: t))
        with (if N.eqb 102 c then stripPrefix (js "alse") t else None).
      change (stripPrefix (js "null") (c :: t))
        with (if N.eqb 110 c then stripPrefix (js "ull") t else None).
      rewrite (proj2 (Hne 116%N ltac:(auto 10))), (proj2 (Hne 102%N ltac:(auto 10))),
        (proj2 (Hne 110%N ltac:(auto 10))).
      now rewrite H. }
    destruct x as [neg | neg | | neg m e]; cbn [stringify reread].
    + apply Hnum. now apply zero_literal.
    + reflexivity.
    + reflexivity.
    + apply Hnum. now apply numberToString_literal.
  - intros s. exists 1. intros [|f] Hf rest _; [lia|].
    cbn [stringify reread]. unfold quote.
    change ((34%N :: quoteBody s ++ [34%N]) ++ rest)
      with (34%N :: (quoteBody s ++ [34%N]) ++ rest).
    rewrite <- app_assoc. cbn [parseValue]. cbn [N.eqb Pos.eqb].
    change ([34%N] ++ rest) with (34%N :: rest).
    now rewrite (parseString_quoteBody (List.length s) s rest (Nat.le_refl _)).
  - intros vs Hvs. apply (common_fuel (fun f v => reads (parseValue f) v)) in Hvs.
    destruct Hvs as [F HF]. exists (S (F + List.length vs)).
    intros [|f] Hf rest _; [lia|]. cbn [stringify reread].
    destruct vs as [|v vs]; [reflexivity|].
    specialize (HF f ltac:(lia)). inversion HF as [|v' vs' Hv Hvs' E]. subst v' vs'.
    cbn [List.map]. rewrite joinComma_cons.
    change ((js "[" ++ (stringify v ++ following (List.map stringify vs)) ++ js "]")
            ++ rest)
      with (91%N :: ((stringify v ++ following (List.map stringify vs)) ++ [93%N])
            ++ rest).
    rewrite <- !app_assoc. change ([93%N] ++ rest) with (93%N :: rest).
    destruct (following_closer (List.map stringify vs) 93 rest (or_introl eq_refl))
      as [Hd Hsp].
    destruct (stringify_head v) as [c [t [Ev [Hc1 Hc2]]]].
    cbn [parseValue]. cbn [N.eqb Pos.eqb].
    rewrite skipSpace_stringify. rewrite Ev. cbn [app].
    rewrite (proj2 (N.eqb_neq c 93) Hc2).
    change (c :: t ++ following (List.map stringify vs) ++ 93%N :: rest)
      with ((c :: t) ++ following (List.map stringify vs) ++ 93%N :: rest).
    rewrite <- Ev, (Hv _ Hd), Hsp.
    cbn [List.length] in Hf.
    rewrite (parseElements_texts (parseValue f) rest vs f [reread v] Hvs') by lia.
    reflexivity.
  - intros ps Hps.
    assert (Hen : Forall (fun p => exists f0, forall f, f0 <= f ->
                            reads (parseValue f) (snd p)) (enumerate ps)).
    { apply Forall_forall. intros p Hp. rewrite Forall_forall in Hps. apply Hps.
      apply (Permutation_in p (enumerate_perm ps) Hp). }
    apply (common_fuel (fun f p => reads (parseValue f) (snd p))) in Hen.
    destruct Hen as [F HF]. exists (S (F + List.length (enumerate ps))).
    intros [|f] Hf rest _; [lia|].
    rewrite reread_object, stringify_object, members_enumerate.
    specialize (HF f ltac:(lia)).
    destruct (enumerate ps) as [|p ms]; [reflexivity|].
    inversion HF as [|p' ms' Hp Hms E]. subst p' ms'.
    cbn [List.map]. rewrite joinComma_cons.
    change ((js "{" ++ (memberText p ++ following (List.map memberText ms)) ++ js "}")
            ++ rest)
      with (123%N :: ((memberText p ++ following (List.map memberText ms)) ++ [125%N])
            ++ rest).
    rewrite <- !app_assoc. change ([125%N] ++ rest) with (125%N :: rest).
    destruct (following_closer (List.map memberText ms) 125 rest (or_intror eq_refl))
      as [Hd Hsp].
    cbn [parseValue]. cbn [N.eqb Pos.eqb].
    assert (Hhead : skipSpace (memberText p ++ following (List.map memberText ms)
                               ++ 125%N :: rest)
                    = 34%N :: tl (memberText p ++ following (List.map memberText ms)
                                 ++ 125%N :: rest)) by reflexivity.
    rewrite Hhead. cbn [N.eqb Pos.eqb].
    change (34%N :: tl (memberText p ++ following (List.map memberText ms)
                        ++ 125%N :: rest))
      with (memberText p ++ following (List.map memberText ms) ++ 125%N :: rest).
    rewrite (parseMember_text (parseValue f) p _ Hp Hd Hsp).
    cbn [List.length] in Hf.
    rewrite (parseMembers_texts (parseValue f) rest ms f _ Hms) by lia.
    unfold build. cbn [fold_left List.map]. destruct p as [k w]. reflexivity.
Qed.

(** [JSON.parse(JSON.stringify(v))] *)
Lemma parse_stringify (v : value) : parse (stringify v) = Normal (reread v).
Proof.
  destruct (reads_all v) as [f0 H].
  set (text := stringify v).
  pose proof (H (Nat.max f0 (S (List.length text))) ltac:(lia) [] I) as Hr.
  rewrite app_nil_r in Hr. fold text in Hr.
  pose proof (parse_any_fuel text (Nat.max f0 (S (List.length text))) ltac:(lia))
    as [E _].
  assert (Hsp : skipSpace text = text).
  { pose proof (skipSpace_stringify v []) as Hs. now rewrite app_nil_r in Hs. }
  unfold parse. rewrite <- E, Hsp, Hr. reflexivity.
Qed.

End Texts.

(** ** The keys of an object *)

Section Keys.

Import Json.

Lemma get_None_keys (key : jsstring) (ps : properties) :
  get key ps = None <-> ~ In key (keys ps).
Proof.
  unfold keys. induction ps as [|[k w] ps IH]; cbn [get List.map fst In].
  - tauto.
  - destruct (JS.eqb k key) eqn:E.
    + apply eqb_eq in E. split; [discriminate|]. intros H. elim H. now left.
    + apply eqb_neq in E. rewrite IH. tauto.
Qed.

Lemma get_NoDup (key : jsstring) (v : value) (ps : properties) :
  NoDup (keys ps) -> In (key, v) ps -> get key ps = Some v.
Proof.
  unfold keys. induction ps as [|[k w] ps IH]; cbn [get List.map fst In]; [tauto|].
  intros Hnd [H|H].
  - injection H as -> ->. now rewrite eqb_refl.
  - inversion Hnd as [|k' ks Hk Hks E]. subst k' ks.
    destruct (JS.eqb k key) eqn:E; [|now apply IH].
    apply eqb_eq in E. subst k. elim Hk.
    apply (in_map fst) in H. exact H.
Qed.

Lemma get_perm (key : jsstring) (l l' : properties) :
  Permutation l l' -> NoDup (keys l) -> get key l' = get key l.
Proof.
  intros Hp Hnd.
  assert (Hnd' : NoDup (keys l')).
  { unfold keys in *. apply (Permutation_NoDup (Permutation_map fst Hp) Hnd). }
  destruct (get key l) as [v|] eqn:E.
  - apply get_NoDup; [exact Hnd'|]. apply (Permutation_in _ Hp). now apply get_In.
  - apply get_None_keys. apply get_None_keys in E. intros H. apply E.
    unfold keys in *.
    apply (Permutation_in _ (Permutation_sym (Permutation_map fst Hp)) H).
Qed.

Lemma set_fresh (key : jsstring) (v : value) (ps : properties) :
  ~ In key (keys ps) -> set key v ps = ps ++ [(key, v)].
Proof.
  unfold keys. induction ps as [|[k w] ps IH]; cbn [set List.map fst In app];
    [reflexivity|].
  intros H. destruct (JS.eqb k key) eqn:E.
  - apply eqb_eq in E. elim H. now left.
  - rewrite IH; [reflexivity|]. tauto.
Qed.

Lemma build_from (l acc : properties) :
  NoDup (keys (acc ++ l)) ->
  fold_left (fun acc p => set (fst p) (snd p) acc) l acc = acc ++ l.
Proof.
  revert acc. induction l as [|[k w] l IH]; intros acc H.
  - now rewrite app_nil_r.
  - cbn [fold_left fst snd]. rewrite set_fresh.
    + rewrite IH; rewrite <- app_assoc; [reflexivity|exact H].
    + unfold keys in H. rewrite map_app in H. cbn [List.map fst] in H.
      apply NoDup_remove_2 in H. intros Hin. apply H. apply in_or_app. now left.
Qed.

Lemma build_distinct (l : properties) : NoDup (keys l) -> build l = l.
Proof. intros H. apply (build_from l [] H). Qed.

Lemma keys_set_NoDup (key : jsstring) (v : value) (ps : properties) :
  NoDup (keys ps) -> NoDup (keys (set key v ps)).
Proof.
  intros H. rewrite keys_set. destruct (get key ps) eqn:E.
  - now rewrite app_nil_r.
  - apply get_None_keys in E. apply NoDup_app; [exact H|repeat constructor; tauto|].
    intros k Hk [<-|[]]. exact (E Hk).
Qed.

Lemma keys_delete_NoDup (key : jsstring) (ps : properties) :
  NoDup (keys ps) -> NoDup (keys (delete key ps)).
Proof. intros H. rewrite keys_delete. now apply NoDup_filter. Qed.

Lemma keys_rereadMember (l : properties) : keys (List.map rereadMember l) = keys l.
Proof.
  unfold keys. rewrite map_map. apply map_ext. now intros [k w].
Qed.

Lemma get_rereadMember (key : jsstring) (l : properties) :
  get key (List.map rereadMember l) = option_map reread (get key l).
Proof.
  induction l as [|[k w] l IH]; [reflexivity|].
  cbn [List.map rereadMember get]. destruct (JS.eqb k key); [reflexivity|exact IH].
Qed.

(** The object that is read back, for an object of distinct keys. *)
Lemma reread_object_get (ps : properties) :
  NoDup (keys ps) ->
  exists ps', reread (JObject ps) = JObject ps'
    /\ forall key, get key ps' = option_map reread (get key ps).
Proof.
  intros Hnd. exists (List.map rereadMember (enumerate ps)).
  assert (Hen : NoDup (keys (enumerate ps))).
  { unfold keys in *.
    apply (Permutation_NoDup
             (Permutation_sym (Permutation_map fst (enumerate_perm ps))) Hnd). }
  split.
  - rewrite reread_object, build_distinct; [reflexivity|].
    now rewrite keys_rereadMember.
  - intros key. rewrite get_rereadMember. f_equal.
    apply get_perm; [apply Permutation_sym, enumerate_perm|exact Hnd].
Qed.

Lemma parseMembers_keys (pv : jsstring -> parsed value) :
  forall (fuel : nat) (acc : properties) (s : jsstring) (ps : properties)
         (rest : jsstring),
    NoDup (keys acc) ->
    parseMembers pv fuel acc s = Parsed (JObject ps) rest -> NoDup (keys ps).
Proof.
  induction fuel as [|fuel IH]; intros acc s ps rest Hacc H; [discriminate|].
  cbn [parseMembers] in H. destruct s as [|c t]; [discriminate|].
  destruct (N.eqb c 125). { injection H as <- _. exact Hacc. }
  destruct (N.eqb c 44); [|discriminate].
  destruct (parseMember pv (skipSpace t)) as [[k w] r| |]; try discriminate.
  apply (IH _ _ _ _ (keys_set_NoDup k w acc Hacc) H).
Qed.

Lemma parseElements_array (pv : jsstring -> parsed value) :
  forall (fuel : nat) (acc : list value) (s : jsstring) (v : value) (rest : jsstring),
    parseElements pv fuel acc s = Parsed v rest -> exists l, v = JArray l.
Proof.
  induction fuel as [|fuel IH]; intros acc s v rest H; [discriminate|].
  cbn [parseElements] in H. destruct s as [|c t]; [discriminate|].
  destruct (N.eqb c 93). { injection H as <- _. eexists. reflexivity. }
  destruct (N.eqb c 44); [|discriminate].
  destruct (pv (skipSpace t)) as [w r| |]; try discriminate.
  apply (IH _ _ _ _ H).
Qed.

Lemma parseNumber_number (s : jsstring) (v : value) (rest : jsstring) :
  parseNumber s = Some (v, rest) -> exists x, v = JNumber x.
Proof.
  unfold parseNumber.
  repeat match goal with
         | |- context [match ?x with _ => _ end] => destruct x
         end;
    intros H; try discriminate; injection H as <- _; eexists; reflexivity.
Qed.

Lemma parseValue_object_keys (fuel : nat) (s : jsstring) (ps : properties)
    (rest : jsstring) :
  parseValue fuel s = Parsed (JObject ps) rest -> NoDup (keys ps).
Proof.
  destruct fuel as [|fuel]; [discriminate|].
  cbn [parseValue]. destruct s as [|c t]; [discriminate|].
  destruct (N.eqb c 123).
  { destruct (skipSpace t) as [|d t']; [discriminate|].
    destruct (N.eqb d 125). { intros H. injection H as <- _. constructor. }
    destruct (parseMember (parseValue fuel) (d :: t')) as [[k w] r| |];
      try discriminate.
    apply parseMembers_keys. repeat constructor. tauto. }
  destruct (N.eqb c 91).
  { destruct (skipSpace t) as [|d t']; [discriminate|].
    destruct (N.eqb d 93); [discriminate|].
    destruct (parseValue fuel (d :: t')) as [w r| |]; try discriminate.
    intros H. apply parseElements_array in H. destruct H as [l H]. discriminate. }
  destruct (N.eqb c 34).
  { destruct (parseString t) as [[str r]|]; discriminate. }
  destruct (stripPrefix (js "true") (c :: t)); [discriminate|].
  destruct (stripPrefix (js "false") (c :: t)); [discriminate|].
  destruct (stripPrefix (js "null") (c :: t)); [discriminate|].
  destruct (parseNumber (c :: t)) as [[w r]|] eqn:E; [|discriminate].
  cbn [ofOption]. intros H. injection H as -> _.
  apply parseNumber_number in E. destruct E as [x E]. discriminate.
Qed.

(** The keys of a parsed object are distinct. *)
Lemma parse_object_keys (text : jsstring) (ps : properties) :
  parse text = Normal (JObject ps) -> NoDup (keys ps).
Proof.
  unfold parse.
  destruct (parseValue (S (List.length text)) (skipSpace text)) as [v r| |] eqn:E;
    try discriminate.
  destruct (skipSpace r); [|discriminate]. intros H. injection H as ->.
  exact (parseValue_object_keys _ _ _ _ E).
Qed.

Lemma distinct_NoDup (ks : list jsstring) : distinct ks = true -> NoDup ks.
Proof.
  induction ks as [|k ks IH]; [constructor|].
  cbn [distinct]. intros H. apply andb_true_iff in H. destruct H as [H1 H2].
  constructor; [|now apply IH]. intros Hin.
  apply negb_true_iff in H1.
  assert (existsb (JS.eqb k) ks = true); [|congruence].
  apply existsb_exists. exists k. split; [exact Hin|apply eqb_refl].
Qed.

Lemma sameDouble_eq (x y : spec_float) : sameDouble x y = true -> x = y.
Proof.
  destruct x as [| | |s m e], y as [| | |s' m' e']; try discriminate.
  cbn [sameDouble]. intros H.
  apply andb_true_iff in H. destruct H as [H H3].
  apply andb_true_iff in H. destruct H as [H1 H2].
  apply Bool.eqb_prop in H1. apply Pos.eqb_eq in H2. apply Z.eqb_eq in H3.
  now subst.
Qed.

(** A value that is exact is read back as it is. *)
Lemma reread_exact : forall v : value, exact v = true -> reread v = v.
Proof.
  apply (value_induction (fun v => exact v = true -> reread v = v));
    try reflexivity.
  - intros x H. cbn [exact reread] in *. unfold exactNumber in H.
    destruct x as [neg| | |neg m e]; try discriminate.
    + destruct neg; [discriminate|reflexivity].
    + unfold rereadNumber. destruct (digits m e) as [s n].
      apply sameDouble_eq in H. now rewrite H.
  - intros vs IH H. cbn [exact reread] in *. f_equal.
    induction vs as [|v vs IHvs]; [reflexivity|].
    cbn [forallb List.map] in *. apply andb_true_iff in H. destruct H as [H1 H2].
    inversion IH as [|v' vs' Hv Hvs E]. subst v' vs'.
    rewrite (Hv H1). f_equal. now apply IHvs.
  - intros ps IH H. cbn [exact] in H. apply andb_true_iff in H.
    destruct H as [Hall Hd]. apply distinct_NoDup in Hd.
    assert (Hmap : List.map rereadMember ps = ps).
    { clear Hd. induction ps as [|[k w] ps IHps]; [reflexivity|].
      cbn [forallb List.map rereadMember] in *.
      apply andb_true_iff in Hall. destruct Hall as [H1 H2].
      apply andb_true_iff in H1. destruct H1 as [_ H1].
      inversion IH as [|p' ps' Hp Hps E]. subst p' ps'. cbn [snd] in Hp.
      rewrite (Hp H1). f_equal. now apply IHps. }
    assert (Hplain : forall p, In p ps -> arrayIndex (fst p) = None).
    { intros [k w] Hp. rewrite forallb_forall in Hall. specialize (Hall _ Hp).
      cbn [fst]. apply andb_true_iff in Hall. destruct Hall as [H1 _].
      unfold plainKey in H1. now destruct (arrayIndex k). }
    rewrite reread_object, (enumerate_plain ps Hplain), Hmap.
    now rewrite (build_distinct ps Hd).
Qed.

End Keys.

(** ** The normalized document *)

Section RelativeToRoot.

Import Path.

Lemma dropCommon_diverges : forall R P F T : list jsstring,
  dropCommon R P = (F, T) -> diverge F T.
Proof.
  induction R as [|r R IH]; intros P F T H.
  - cbn [dropCommon] in H. injection H as <- <-. exact I.
  - destruct P as [|p P]; cbn [dropCommon] in H.
    + injection H as <- <-. exact I.
    + destruct (JS.eqb r p) eqn:E; [exact (IH _ _ _ H)|].
      injection H as <- <-. cbn [diverge]. now apply eqb_neq.
Qed.

Lemma normalizedSource_relativeTo (cwd root s : jsstring) :
  relativeTo cwd root s (normalizedSource (posix cwd) root s).
Proof.
  pose proof (normalizedSource_parts cwd root s) as Hn.
  destruct (dropCommon (resolvedParts cwd root) (resolvedParts cwd s)) as [F T] eqn:HD.
  destruct (dropCommon_split _ _ _ _ HD) as [C [HR HP]].
  exists C, F, T. repeat split; try assumption.
  exact (dropCommon_diverges _ _ _ _ HD).
Qed.

Lemma resolvedParts_resolve (cwd p : jsstring) :
  resolvedParts cwd (resolve cwd p) = resolvedParts cwd p.
Proof.
  rewrite resolve_resolvedParts. apply resolvedParts_absolute.
  apply resolvedParts_segments.
Qed.

(** The root directory and the new source path lead to the source. *)
Lemma normalizedSource_back (cwd root s : jsstring) :
  resolve cwd (resolve cwd root ++ [slash] ++ normalizedSource (posix cwd) root s)
  = resolve cwd s.
Proof.
  assert (Hroot : normalizedSource (posix cwd) (resolve cwd root) s
                  = normalizedSource (posix cwd) root s).
  { now rewrite !normalizedSource_parts, resolvedParts_resolve. }
  rewrite <- Hroot, !resolve_resolvedParts. f_equal. f_equal.
  apply resolvedParts_rejoined. discriminate.
Qed.

End RelativeToRoot.

Section ReadBack.

Variable path : Path.PathModule.

(** The output of the normalizer is the text of an object with the members
    of the normalized document, read back. *)
Lemma updateSourceMapFile_read
    (body scriptPath root : jsstring) (ps : Json.properties) (srcs : list jsstring) :
  sourceMapDocument body = Some (ps, srcs) ->
  exists out ps',
    updateSourceMapFile path body scriptPath root = Normal out
    /\ Json.parse out = Normal (Json.JObject ps')
    /\ forall key,
         Json.get key ps'
         = option_map reread (Json.get key (normalized path ps srcs scriptPath root)).
Proof.
  intros H.
  assert (Hkeys : NoDup (keys ps)).
  { unfold sourceMapDocument in H.
    destruct (Json.parse body) as [[| | | | |ps0]|] eqn:E; try discriminate.
    apply parse_object_keys in E.
    destruct (Json.get (js "sources") ps0) as [[| | | |es|]|]; try discriminate.
    destruct (strings es); [|discriminate]. now injection H as <- _. }
  assert (Hnorm : NoDup (keys (normalized path ps srcs scriptPath root))).
  { unfold normalized.
    now apply keys_set_NoDup, keys_set_NoDup, keys_delete_NoDup, keys_set_NoDup. }
  destruct (reread_object_get _ Hnorm) as [ps' [Hre Hget]].
  exists (Json.stringify (Json.JObject (normalized path ps srcs scriptPath root))), ps'.
  split; [now apply updateSourceMapFile_document|].
  split; [|exact Hget]. now rewrite parse_stringify, Hre.
Qed.

End ReadBack.

(** C1.  For a text that parses as a source-map document,
    [updateSourceMapFile] returns a JSON text; the object that
    [JSON.parse] reads from it has the array [sources] of the new source
    paths, no [sourcesContent], the empty string as [sourceRoot] and the
    script path as [file], and no new source path holds the separator of
    the platform when that is not the slash (nor the dot).  On a POSIX
    host the new source path is the path from the root directory to the
    source: [..] for every segment of the root below the directory that
    they have in common, then the segments of the source below it, joined
    with slashes; the root directory, a slash and the new source path
    resolve to the source.  With root [/proj/src] the entry
    [/proj/src/app/index.js] becomes [app/index.js]. *)
Theorem updateSourceMapFile_normalizes
    (path : Path.PathModule) (body scriptPath root : jsstring)
    (ps : Json.properties) (srcs : list jsstring) :
  sourceMapDocument body = Some (ps, srcs) ->
  (exists out ps',
     updateSourceMapFile path body scriptPath root = Normal out
     /\ Json.parse out = Normal (Json.JObject ps')
     /\ Json.get (js "sources") ps'
        = Some (Json.JArray
                  (List.map (fun s => Json.JString (normalizedSource path root s)) srcs))
     /\ Json.get (js "sourcesContent") ps' = None
     /\ Json.get (js "sourceRoot") ps' = Some (Json.JString [])
     /\ Json.get (js "file") ps' = Some (Json.JString scriptPath))
  /\ (forall s,
        Path.sep path <> Path.slash -> Path.sep path <> 46%N ->
        ~ In (Path.sep path) (normalizedSource path root s))
  /\ (forall cwd s,
        relativeTo cwd root s (normalizedSource (Path.posix cwd) root s)
        /\ Path.resolve cwd
             (Path.resolve cwd root ++ [Path.slash]
              ++ normalizedSource (Path.posix cwd) root s)
           = Path.resolve cwd s)
  /\ (forall cwd,
        normalizedSource (Path.posix cwd) (js "/proj/src") (js "/proj/src/app/index.js")
        = js "app/index.js").
Proof.
  intros H. split; [|split; [|split]].
  - destruct (updateSourceMapFile_read path body scriptPath root ps srcs H)
      as [out [ps' [Hout [Hparse Hget]]]].
    exists out, ps'. split; [exact Hout|]. split; [exact Hparse|].
    destruct (normalized_fields path ps srcs scriptPath root) as [H1 [H2 [H3 H4]]].
    rewrite !Hget. unfold normalizedSource in *. rewrite H1, H2, H3, H4.
    cbn [option_map reread]. repeat split. do 2 f_equal.
    rewrite map_map. reflexivity.
  - intros s Hs Hd.
    exact (makeUnixStylePath_no_separator path (Path.path_relative path root s) Hs Hd).
  - intros cwd s. split; [apply normalizedSource_relativeTo|apply normalizedSource_back].
  - intros cwd. reflexivity.
Qed.

Lemma updateSourceMapFile_normalizes_witness :
  exists ps srcs,
    sourceMapDocument exampleMap = Some (ps, srcs)
    /\ srcs = [js "/proj/src/app/index.js"; js "/other/lib.js"]
    /\ exists out ps',
         updateSourceMapFile (Path.posix (js "/home/u")) exampleMap
           (js "/out/index.js") (js "/proj/src") = Normal out
         /\ Json.parse out = Normal (Json.JObject ps')
         /\ Json.get (js "sources") ps'
            = Some (Json.JArray
                      (List.map (fun s =>
                         Json.JString
                           (normalizedSource (Path.posix (js "/home/u")) (js "/proj/src") s))
                         srcs))
         /\ Json.get (js "sourcesContent") ps' = None
         /\ Json.get (js "sourceRoot") ps' = Some (Json.JString [])
         /\ Json.get (js "file") ps' = Some (Json.JString (js "/out/index.js")).
Proof.
  eexists. eexists. split; [vm_compute; reflexivity|]. split; [reflexivity|].
  refine (proj1 (updateSourceMapFile_normalizes (Path.posix (js "/home/u"))
                   exampleMap (js "/out/index.js") (js "/proj/src") _ _ _)).
  vm_compute. reflexivity.
Defined.

(** C8 (amended).  For a text that parses as a source-map document, the
    output of [updateSourceMapFile] is a JSON text, and the object that
    [JSON.parse] reads from it has, under every key that the normalizer
    does not govern ([mappings], [names], [version] and any other), what
    is read back from the serialized value of the input, and nothing under
    such a key that the input does not have.  That is the value of the
    input when it is exact: built from strings, booleans, [null], numbers
    that the digits of Number::toString denote, arrays, and objects of
    distinct keys that are not array indices. *)
Theorem updateSourceMapFile_frame
    (path : Path.PathModule) (body scriptPath root : jsstring)
    (ps : Json.properties) (srcs : list jsstring) :
  sourceMapDocument body = Some (ps, srcs) ->
  exists out ps',
    updateSourceMapFile path body scriptPath root = Normal out
    /\ Json.parse out = Normal (Json.JObject ps')
    /\ forall key, governed key = false ->
         Json.get key ps' = option_map reread (Json.get key ps)
         /\ forall v, Json.get key ps = Some v -> exact v = true ->
              Json.get key ps' = Some v.
Proof.
  intros H.
  destruct (updateSourceMapFile_read path body scriptPath root ps srcs H)
    as [out [ps' [Hout [Hparse Hget]]]].
  exists out, ps'. split; [exact Hout|]. split; [exact Hparse|].
  intros key Hkey. unfold governed in Hkey.
  apply orb_false_iff in Hkey. destruct Hkey as [Hkey Hfile].
  apply orb_false_iff in Hkey. destruct Hkey as [Hkey Hroot].
  apply orb_false_iff in Hkey. destruct Hkey as [Hsources Hcontent].
  assert (Hsame : Json.get key (normalized path ps srcs scriptPath root)
                  = Json.get key ps).
  { unfold normalized.
    rewrite 2 get_set_other, get_delete_other, get_set_other; auto.
    all: apply eqb_neq; intros E; symmetry in E; apply eqb_eq in E; congruence. }
  rewrite Hget, Hsame. split; [reflexivity|].
  intros v Hv Hexact. rewrite Hv. cbn [option_map]. f_equal.
  now apply reread_exact.
Qed.

Lemma updateSourceMapFile_frame_witness :
  exists ps srcs,
    sourceMapDocument exampleMap = Some (ps, srcs)
    /\ Json.get (js "version") ps = Some (Json.JNumber (Json.numberValue false (js "3") [] 0))
    /\ exact (Json.JNumber (Json.numberValue false (js "3") [] 0)) = true
    /\ exists out ps',
         updateSourceMapFile (Path.posix (js "/home/u")) exampleMap
           (js "/out/index.js") (js "/proj/src") = Normal out
         /\ Json.parse out = Normal (Json.JObject ps')
         /\ forall key, governed key = false ->
              Json.get key ps' = option_map reread (Json.get key ps)
              /\ forall v, Json.get key ps = Some v -> exact v = true ->
                   Json.get key ps' = Some v.
Proof.
  eexists. eexists. split; [vm_compute; reflexivity|].
  split; [vm_compute; reflexivity|]. split; [vm_compute; reflexivity|].
  eapply (updateSourceMapFile_frame (Path.posix (js "/home/u")) exampleMap
            (js "/out/index.js") (js "/proj/src")).
  vm_compute. reflexivity.
Defined.

(** C8, as stated, fails: a number of the input that is too large for a
    double is [null] in the output, and a negative zero is [0]. *)
Lemma updateSourceMapFile_number_lost :
  (exists ps,
     sourceMapDocument (json "{'version':1E400,'sources':[],'x':-0}") = Some (ps, [])
     /\ Json.get (js "version") ps = Some (Json.JNumber (S754_infinity false))
     /\ Json.get (js "x") ps = Some (Json.JNumber (S754_zero true)))
  /\ governed (js "version") = false
  /\ governed (js "x") = false
  /\ updateSourceMapFile (Path.posix (js "/home/u"))
       (json "{'version':1E400,'sources':[],'x':-0}") (js "/out/index.js") (js "/proj/src")
     = Normal (json "{'version':null,'sources':[],'x':0,'sourceRoot':'','file':'/out/index.js'}")
  /\ (exists ps',
        Json.parse (json "{'version':null,'sources':[],'x':0,'sourceRoot':'','file':'/out/index.js'}")
        = Normal (Json.JObject ps')
        /\ Json.get (js "version") ps' = Some Json.JNull
        /\ Json.get (js "x") ps' = Some (Json.JNumber (S754_zero false))).
Proof.
  split; [|split; [|split; [|split]]].
  - eexists. split; [vm_compute; reflexivity|]. split; reflexivity.
  - reflexivity.
  - reflexivity.
  - vm_compute. reflexivity.
  - eexists. split; [vm_compute; reflexivity|]. split; reflexivity.
Qed.

(** Strings, arrays of strings and the integers of a version number are
    exact. *)
Lemma exact_texts (s : jsstring) (names : list jsstring) :
  exact (Json.JString s) = true
  /\ exact (Json.JArray (List.map Json.JString names)) = true.
Proof.
  split; [reflexivity|]. cbn [exact].
  induction names as [|n names IH]; [reflexivity|exact IH].
Qed.

Lemma exact_small_integers (n : positive) :
  (n < 1024)%positive ->
  exact (Json.JNumber (Json.doubleOfDecimal false n 0)) = true.
Proof.
  intros H.
  assert (Hall : forallb (fun i => exact (Json.JNumber
                     (Json.doubleOfDecimal false (Pos.of_nat i) 0)))
                   (List.seq 1 1023) = true) by (vm_compute; reflexivity).
  rewrite forallb_forall in Hall.
  rewrite <- (Pos2Nat.id n). apply Hall. apply in_seq. lia.
Qed.

(** Number::toString on some doubles; the first is a power of two, where
    the decimal of fewest digits is not the nearest decimal of as many
    digits. *)
Lemma stringify_numbers :
  List.map (fun t =>
              match Json.parseNumber (js t) with
              | Some (v, _) => Json.stringify v
              | None => []
              end)
    ["5.684341886080801486968994140625e-14"; "0.1"; "1e21"; "1e-7";
     "123456789012345680000"; "72057594037927936"; "4.35"]%string
  = [js "5.684341886080802e-14"; js "0.1"; js "1e+21"; js "1e-7";
     js "123456789012345680000"; js "72057594037927940"; js "4.35"].
Proof. vm_compute. reflexivity. Qed.
